(* ===== verification/_CoqProject ===== *)
-Q . S2P
Prelude.v
GoText.v
SHA256.v
GoTime.v
Domain.v
DomainWorkload.v
DomainNode.v
GoJSON.v
Capacity.v
Jobs.v
JobsInv.v
JobsMicro.v
JobsLive.v
JobsProps.v
Store.v
Checkpoint.v
Displacement.v
DisplacementInv.v
Leases.v
Residency.v
Commands.v
Budget.v
Records.v
Cas.v
StoreMachine.v
LostUpdates.v
Samples.v
CheckpointProps.v
DisplacementProps.v
LeaseProps.v
LedgerProps.v
WorkloadManager.v
Admission.v
AdmissionLoad.v
AdmissionProps.v
Placement.v
PlacementInv.v
PlacementLease.v
PlacementProps.v
PlacementCall.v
PlacementSharing.v
GoFloat.v
GoDyn.v
Workflow.v
WorkflowLemmas.v
WorkflowProps.v
Wire.v
NodeAgent.v
NodeInv.v
NodePhases.v
NodeSlots.v
NodeReplay.v
NodeProps.v
