(* ===== verification/Prelude.v ===== *)
(** * VRAM Governor: a verification development of the controller and node core

    VRAM Governor schedules language- and image-model work on a fleet of GPU
    nodes.  A controller keeps the state: jobs and their items, workloads,
    leases on accelerators, the residency of models, the journals of
    checkpoints and displacements, signed commands to nodes, and budgets.  Node
    agents carry out commands and report what they observed.  This library
    models the parts of the controller that decide who owns what: the work-queue
    engine, the capacity contracts, the in-memory store and, of the workload
    service, the check that a model fits the memory of a target and the
    reservations and releases of targets and accelerators.  It also models the
    workflow templates from which requests for images are built, and of the node
    agent the path of a signed checkpoint command: how it is authenticated,
    journaled before and after it reaches the runtime, and answered again.

    ** Correspondence

    A Go struct is a [Record] with the field names behind a prefix; a map is a
    [gmap]; a pointer that may be nil is an [option]; a status constant is a
    constructor.  A function is a Rocq function of the same name.  A handler of
    the store takes the store and returns the new one, as
    [result (MemoryStore * X)] where it can fail before it changed anything and
    as [MemoryStore * result X] where it fails after.  Each handler runs under
    the store's mutex, so it is one step.  Readings of the clock are arguments.
    Integers keep their width through [wrap64] and [wrapU64]; instants are
    nanoseconds since Go's zero time.  The order of [range] over a map is an
    arbitrary permutation, the class [GoRange].  The parts of the standard
    library the code relies on are defined, not assumed.

    ** Files

    - [Prelude], this file: scalars, errors, record update, [GoRange], sorting,
      joined keys and the shared tactics.
    - [GoText], [SHA256], [GoTime], [GoJSON]: [strings] and UTF-8, SHA-256, RFC
      3339 times and [encoding/json] output, with the lemma that two printed
      values with one text are the same value ([print_inj]).
    - [Domain], [DomainWorkload], [DomainNode]: [internal/domain].
    - [Capacity]: validation and merging of capacity budgets and residency
      capabilities ([domain.go]).
    - [Jobs]: the engine of [jobs/manager.go]; [JobsInv], [JobsMicro],
      [JobsLive] its invariants along interleavings, [JobsProps] its theorems.
    - [Store]: the state of [store/memory.go] and the rows of [store/store.go]
      and [store/llm_displacement.go].
    - [Checkpoint], [Displacement] and [DisplacementInv], [Leases],
      [Residency], [Commands], [Budget], [Records]: the handlers of the store,
      one file per component.  Each ends with a step relation over its
      handlers, a frame lemma that says which tables a step leaves alone, the
      invariant of its tables and how a row may change.
    - [Cas]: the compare-and-swap handlers behind one interface, [CasTable],
      and its law.
    - [StoreMachine]: the union of the steps, [store_step]; every reachable
      store satisfies all invariants ([reachable_inv]), and between two stores
      of a run every row only moved along its component's relation
      ([reachable_evolves]).
    - [LostUpdates]: compare-and-swap inside whole runs, [CasHistory], and the
      absence of lost updates proved against it.
    - [Samples]: zero values and a small world for concrete instances.
    - [CheckpointProps], [DisplacementProps], [LeaseProps], [LedgerProps]: the
      theorems about the store.
    - [WorkloadManager]: the state of the workload service ([workloads/
      manager.go], [workloads/adapter.go]): targets, placements, reservations.
    - [Admission]: the byte accounting of [workloads/residency.go];
      [AdmissionLoad] the algebra of peaks and sums it computes,
      [AdmissionProps] its theorems.
    - [Placement]: [reserveTarget], sharing, [companion.go], rollback and
      [releaseTargetWithIntent], one definition per critical section and store
      call, and the calls composed of them; the reservations a caller keeps a
      pointer to are a heap.  [PlacementInv] interleaves the sections with each
      other and with the rest of the controller and proves that the tables
      agree; [PlacementLease] follows the durable leases through careful runs;
      [PlacementProps], [PlacementCall] (whole calls) and [PlacementSharing]
      have the theorems.
    - [GoFloat]: reading and printing [float64] numbers ([strconv], [fmt]);
      [GoDyn]: values of type [any], their JSON and [reflect.DeepEqual].
    - [Workflow]: validation, compilation and the registry of
      [workflowtpl/workflowtpl.go]; [WorkflowLemmas] what each part does,
      [WorkflowProps] the theorems.
    - [Wire]: signed commands and their fingerprints ([wsproto/messages.go]).
    - [NodeAgent]: the command processor of [nodeagent/commands.go] for
      checkpoint commands: [Handle] in its parts before, at and after the call
      of the driver, the phases of operations, slot owners, the state file and
      a restart.  [NodeInv] has the steps of a node, with crashes, and the
      invariant of its records; [NodePhases] the graph of phases and what a
      command journals; [NodeSlots] the owners of slots and how a restart
      rebuilds them; [NodeReplay] the record of a success; [NodeProps] the
      theorems.

    ** What the theorems show

    Work queue (C1 to C8): the progress counters are the true counts, dispatch
    is work-conserving, attempts and slots are bounded, settled items stay
    settled, an open job has a goroutine whose result will be recorded or a slot
    it waits for, and a submission can be read back.  Beside
    them, a lease expiry that frees its slot twice and two more behaviours that
    differ from what the code means to do.

    Contracts (C9): a merge never raises an inherited ceiling.  Beside it,
    when a merged budget is valid, and that merging never creates a verified
    claim without evidence.

    Checkpoints (C10 to C12): one owner per slot, an append-only journal whose
    phases follow the graph, and durable and idempotent creation.  Beside them,
    that no phase is skipped, and a root that is accepted but can never move.

    Displacements (C13 to C17): evidence before effect, one open displacement
    per accelerator, append-only history of bounded length and no lease while
    one is open.  Beside them, what the JSON comparison of identities means.

    Leases (C18 to C20): the exact condition of a grant, harmless stale tokens,
    and the refinement to an abstract lock service, [LockSpec].

    Ledgers (C21 to C25): generations of residency, no lost updates, budgets
    that are never exceeded, idempotent submission and well-formed tables.
    Beside them, fenced transitions of residency, settlements that are final,
    the retry schedule of commands, permanent revocation of enrolments, a plain
    update after which a stale request is accepted and an entry of the workload
    index that points to a row with another key.

    Memory (C26 and C27): the check decides a declarative condition whatever
    the order of the maps it visits; what it admits fits the memory, or is a
    model never measured that is alone on its accelerator.  Beside
    them, that releasing never turns an admitted request away.

    Placement (C28 to C32): in every interleaving the counts, lease pointers
    and placements agree and stay within slots and context pools; in careful
    runs each placement is backed by a durable lease; a reservation ends and
    its release undoes it; and sharing is let in only where everybody consents
    and everything fits.  Beside them, the race that makes care necessary,
    learned profiles of shared runs that are not found again, the slot that the
    compensation of a checkpoint gives back twice and a verdict on sharing that
    depends on the order of a map.

    Workflows (C33 to C35): a request against a valid template is compiled or
    refused with exactly its bad parameters; a compiled graph differs from the
    template only in the inputs that parameters are bound to and around the
    nodes an enum value bypasses; and links through bypassed nodes are followed
    to their end, whatever the order of removal.  The first assumes that nodes
    spell [inputs] in lower case and that the filled formats only name known
    parameters; beside it, the panics of requests and templates that do not.
    Beside them, the resolution of names by the registry.

    Node commands (C36 to C40): over runs with repeated commands, failed saves,
    crashes and restarts a mutation reaches the runtime at most once and with
    its intent on disk; phases follow a graph and keep their identity; slots
    belong to operations that have them, also after a restart, which is
    characterised; and a success is durable and answers a repeated command.
    Beside them, a cancellation and a rollback that take a released slot back,
    and intents that no reconciliation can settle.

    ** Bounds

    No function of the store needs fuel.  The scans of a text ([replace_go],
    [pieces_go], [runes]) take the length of the text, and a step consumes at
    least one character; the shortest decimal of a [float64] is found within
    17 digits.  The steps of the machine assume of
    the environment only what the theorems need: a clock after Go's zero time
    and far enough below the year 10000 that a lease's expiry can be printed, a
    lease duration that is an [int64], a lease counter that has not reached its
    maximum, and displacement requests whose strings are valid UTF-8, as the
    decoder of the HTTP interface produces.  The loop of [reserveTarget] takes
    fuel; one pass is enough when the call is not interfered with
    ([reservation_returned]), and under interference each pass is a sequence of
    steps of [PlacementInv] without fuel.  A careful run ([careful]) publishes
    no placement beside a release of its accelerator, keeps the accelerator of
    a target with work and renews its leases before they expire.  A run of a
    node takes other commands, heartbeats and reconciliation as an environment
    that forgets no record, leaves checkpoint intents and phases alone and
    reports no slots ([elsewhere]), and assumes that no query is sent with the
    ID of a mutation ([identities]).  Lost updates are excluded in runs of fewer
    than 2^64 steps, the number of revisions ([short_run]).  Its state file is configured, and every
    configured server has a driver.  A float becomes an integer as on amd64.

    ** Not modelled

    The PostgreSQL stores are SQL run by a database; their contract tests
    compare them with the in-memory store modelled here.  The store's runtime
    profiles are copied through a JSON encoding that changes numbers.
    The digests that identify an advertisement and a request, SHA-256 of JSON
    encodings of many more fields than the model has, are arguments of the
    placement model; its theorems hold for any functions in their place.  The
    compensation of a checkpoint is modelled for its effect on the tables, not
    for its journal, and is not a step of [PlacementInv].  The capacity check
    reads the store at one instant, and the in-memory store under the placement
    code returns no errors of its own.  The
    scheduling loop of the workload service, the HTTP interface, the rest of the
    node agent, the observers and the drivers of model servers work on
    processes, files, sockets and external services; of these only their effect
    on the store is covered, because every handler they can call is a step.  On
    the node, the answers of the driver and of the file system are arguments,
    and so is how a write of the state file ends; the commands of residency,
    displacement stops and relaunches, the quarantine of damaged files and the
    administrator's recovery are left out.  Of the workflow
    templates the reading of their files and the texts of errors are left out. *)

From stdpp Require Export prelude gmap strings list sorting pretty.
From Stdlib Require Export ZArith Lia.
From Stdlib Require Ascii.
Export Ascii.AsciiSyntax.
Delimit Scope char_scope with char.

#[global] Open Scope Z_scope.
#[global] Set Default Goal Selector "!".

(** ** Go scalars *)

(** Instants are nanoseconds since Go's zero time (1 January of year 1, UTC);
    [time.Time{}] is 0, [IsZero] is [= 0] and [Truncate] rounds towards it. *)
Abbreviation Time := Z (only parsing).
Abbreviation Duration := Z (only parsing).

Definition microsecond : Duration := 1000.
Definition millisecond : Duration := 1000 * microsecond.
Definition second : Duration := 1000 * millisecond.

Definition truncate (d : Duration) (t : Time) : Time := t - t `mod` d.

(** Machine-width integers: [int64] and [int] are kept in [-2^63, 2^63),
    [uint64] in [0, 2^64); the conversions below are Go's. *)
Definition MaxInt64 : Z := 9223372036854775807.
Definition two64 : Z := 18446744073709551616.
Definition wrap64 (z : Z) : Z := (z + 9223372036854775808) `mod` two64 - 9223372036854775808.
Definition wrapU64 (z : Z) : Z := z `mod` two64.

Definition is_int64 (z : Z) : Prop := - MaxInt64 - 1 <= z <= MaxInt64.
Definition is_uint64 (z : Z) : Prop := 0 <= z < two64.

Lemma wrap64_small z : - MaxInt64 - 1 <= z <= MaxInt64 -> wrap64 z = z.
Proof. unfold wrap64, MaxInt64, two64. intros H. rewrite Z.mod_small; lia. Qed.
Lemma wrapU64_small z : 0 <= z < two64 -> wrapU64 z = z.
Proof. apply Z.mod_small. Qed.

(** Unix time in nanoseconds ([Time.UnixNano], which wraps). *)
Definition UnixNano (t : Time) : Z := wrap64 (t - 62135596800000000000).

(** ** Boolean tests *)

Declare Scope go_scope.
Delimit Scope go_scope with go.
#[global] Open Scope go_scope.
Notation "a ==? b" := (bool_decide (a = b)) (at level 70, no associativity) : go_scope.
Notation "a !=? b" := (negb (bool_decide (a = b))) (at level 70, no associativity) : go_scope.

(** ** Results

    A Go function returning [(v, error)] returns a [result] here.  Errors are
    kept up to [errors.Is]: one constructor per sentinel of
    [internal/store/store.go] and [internal/store/node_enrollment.go], and
    [ErrorsNew] for the anonymous errors made with [errors.New] or
    [fmt.Errorf] without a wrapped sentinel.  The text that [%w] appends to a
    sentinel is dropped. *)
Inductive error :=
  | ErrNotFound
  | ErrAlreadyExists
  | ErrLLMCheckpointConflict
  | ErrLLMDisplacementConflict
  | ErrNodeCommandConflict
  | ErrResidencyTransitionConflict
  | ErrModelResidencyConflict
  | ErrModelResidencyGenerationConflict
  | ErrInterferenceProfileConflict
  | ErrWorkloadConflict
  | ErrAcceleratorLeaseCleanupConflict
  | ErrorsNew (msg : string).

Inductive result (A : Type) :=
  | Ok (a : A)
  | Err (e : error).
Arguments Ok {A} a.
Arguments Err {A} e.

#[export] Instance error_eq_dec : EqDecision error.
Proof. solve_decision. Defined.

Definition is_ok {A} (r : result A) : bool :=
  match r with Ok _ => true | Err _ => false end.

(** [if c { return e }; k], the early return of a guard. *)
Notation "'reject' c 'with' e ; k" := (if c then Err e else k)
  (at level 10, c at level 100, e at level 100, k at level 200) : go_scope.
(** [x, err := c; if err != nil { return err }; k]. *)
Notation "'let?' x := c 'in' k" := (match c with Ok x => k | Err e => Err e end)
  (at level 10, x name, c at level 100, k at level 200) : go_scope.

(** ** Functional record update

    [r <| f := v |>] is the Go assignment [r.f = v] on a copied struct.  A
    record is made updatable by an [Eta] instance that rebuilds it from its
    projections; the setter of a field is then obtained by abstracting that
    projection out of the rebuilt term. *)
Class Eta (R : Type) := eta : R -> R.
Class Setter {R T : Type} (f : R -> T) := set_field : T -> R -> R.
Arguments set_field {R T} f {_} / v r.

Ltac solve_setter f :=
  lazymatch type of f with
  | ?R -> ?T =>
      let inst := constr:(_ : Eta R) in
      let e := eval hnf in inst in
      lazymatch eval pattern f in e with
      | ?h _ =>
          let s := eval cbv beta in (fun (v : T) (r : R) => h (fun _ : R => v) r) in
          exact s
      end
  end.
#[export] Hint Extern 1 (Setter ?f) => solve_setter f : typeclass_instances.

Notation "r <| f := v |>" := (set_field f v r)
  (at level 1, left associativity, f at level 9, v at level 200,
   format "r  <|  f  :=  v  |>") : go_scope.

(** ** Maps

    Go leaves the order in which [range] visits a map unspecified, so every
    definition that ranges over a map takes the order as an argument of this
    class, and its theorems hold for all orders. *)
Class GoRange := {
  go_range : forall {A : Type}, gmap string A -> list (string * A);
  go_range_perm : forall {A : Type} (m : gmap string A), go_range m ≡ₚ map_to_list m;
}.

Definition by_key : GoRange := {|
  go_range A m := map_to_list m;
  go_range_perm A m := reflexivity (map_to_list m);
|}.

Lemma go_range_elem {R : GoRange} {A} (m : gmap string A) k x :
  (k, x) ∈ go_range m <-> m !! k = Some x.
Proof. rewrite go_range_perm. apply elem_of_map_to_list. Qed.

(** [for k, x := range m { if p(k, x) { return ... } }]: the entry a linear
    scan stops at. *)
Definition range_find {R : GoRange} {A} (p : string -> A -> bool) (m : gmap string A)
  : option (string * A) :=
  head (filter (fun kx => p kx.1 kx.2 = true) (go_range m)).

Lemma range_find_Some {R : GoRange} {A} p (m : gmap string A) k x :
  range_find p m = Some (k, x) -> m !! k = Some x /\ p k x = true.
Proof.
  unfold range_find. intros H%head_Some_elem_of.
  apply list_elem_of_filter in H as [Hp Hin]. by rewrite go_range_elem in Hin.
Qed.

Lemma range_find_None {R : GoRange} {A} p (m : gmap string A) :
  range_find p m = None <-> forall k x, m !! k = Some x -> p k x = false.
Proof.
  unfold range_find. rewrite head_None. split.
  - intros Hf k x Hk. apply not_true_iff_false. intros Hp.
    assert ((k, x) ∈ filter (fun kx => p kx.1 kx.2 = true) (go_range m)) as Hin.
    { apply list_elem_of_filter. split; [done|]. by apply go_range_elem. }
    rewrite Hf in Hin. by apply elem_of_nil in Hin.
  - intros Hall. destruct (filter _ _) as [|[k x] l] eqn:Hf; [done|].
    assert ((k, x) ∈ filter (fun kx => p kx.1 kx.2 = true) (go_range m)) as Hin
      by (rewrite Hf; left).
    apply list_elem_of_filter in Hin as [Hp Hin]. apply go_range_elem in Hin.
    simpl in Hp. by rewrite (Hall _ _ Hin) in Hp.
Qed.

(** [sort.Slice(l, less)].  Go's sort is not stable; since what is sorted
    always comes from a [range] in an unspecified order, a stable sort of an
    arbitrary order gives every result Go can. *)
Definition sort_slice {A} (less : A -> A -> bool) (l : list A) : list A :=
  merge_sort (fun a b => Is_true (negb (less b a))) l.

Lemma sort_slice_perm {A} (less : A -> A -> bool) l : sort_slice less l ≡ₚ l.
Proof. apply merge_sort_Permutation. Qed.

(** ** Automation *)

(** Split hypotheses and goals made of the boolean connectives the models use. *)
Lemma negb_bool_decide_true (P : Prop) `{Decision P} : negb (bool_decide P) = true <-> ~ P.
Proof. rewrite negb_true_iff. apply bool_decide_eq_false. Qed.
Lemma negb_bool_decide_false (P : Prop) `{Decision P} : negb (bool_decide P) = false <-> P.
Proof. rewrite negb_false_iff. apply bool_decide_eq_true. Qed.

Ltac bool_simp :=
  repeat match goal with
  | H : _ && _ = true |- _ => apply andb_true_iff in H; destruct H
  | H : _ || _ = false |- _ => apply orb_false_iff in H; destruct H
  | H : negb (bool_decide _) = true |- _ => apply negb_bool_decide_true in H
  | H : negb (bool_decide _) = false |- _ => apply negb_bool_decide_false in H
  | H : bool_decide _ = true |- _ => apply bool_decide_eq_true in H
  | H : bool_decide _ = false |- _ => apply bool_decide_eq_false in H
  | H : negb _ = true |- _ => apply negb_true_iff in H
  | H : negb _ = false |- _ => apply negb_false_iff in H
  | H : (_ <=? _) = true |- _ => apply Z.leb_le in H
  | H : (_ <=? _) = false |- _ => apply Z.leb_gt in H
  | H : (_ <? _) = true |- _ => apply Z.ltb_lt in H
  | H : (_ <? _) = false |- _ => apply Z.ltb_ge in H
  | H : (_ =? _) = true |- _ => apply Z.eqb_eq in H
  | H : (_ =? _) = false |- _ => apply Z.eqb_neq in H
  end.

Lemma existsb_false {A} (p : A -> bool) l : existsb p l = false <-> forall x, x ∈ l -> p x = false.
Proof.
  induction l as [|y l IH]; simpl; [split; [by intros _ x ?%elem_of_nil|done]|].
  rewrite orb_false_iff, IH. setoid_rewrite elem_of_cons. naive_solver.
Qed.
Lemma existsb_true {A} (p : A -> bool) l : existsb p l = true <-> exists x, x ∈ l /\ p x = true.
Proof. rewrite existsb_exists. by setoid_rewrite list_elem_of_In. Qed.

(** Case analysis on the next test of a [reject] chain or a [match] in a
    hypothesis, discarding the branches that contradict the result. *)
Ltac branch H :=
  match type of H with
  | context [if ?b then _ else _] => destruct b eqn:?
  | context [match ?x with _ => _ end] => destruct x eqn:?
  end; try discriminate H.

(** ** Joined strings

    The code builds identifiers and map keys by joining strings around a
    separator character.  Joining is injective when one side is free of it. *)
Fixpoint nochar (c : Ascii.ascii) (s : string) : bool :=
  match s with
  | EmptyString => true
  | String a s => negb (Ascii.eqb a c) && nochar c s
  end.

Definition join (c : Ascii.ascii) (a x : string) : string := (a +:+ String c x)%string.

(** ["\x00"], the separator of the composite keys. *)
Definition NUL : Ascii.ascii := Ascii.zero.

Lemma string_app_assoc (a b c : string) : (a +:+ (b +:+ c) = (a +:+ b) +:+ c)%string.
Proof. induction a as [|d a IH]; [done|]. by apply (f_equal (String d)). Qed.

Lemma nochar_app c a x : nochar c (a +:+ x) = nochar c a && nochar c x.
Proof. induction a as [|b a IH]; simpl; [done|]. by rewrite IH, andb_assoc. Qed.

Lemma join_inj_r c a b x y :
  nochar c x = true -> nochar c y = true -> join c a x = join c b y -> a = b /\ x = y.
Proof.
  unfold join. intros Hx Hy. revert b. induction a as [|d a IH]; intros [|e b]; simpl; intros H.
  - by simplify_eq.
  - injection H as -> H. exfalso. rewrite H, nochar_app in Hx. simpl in Hx.
    rewrite Ascii.eqb_refl, andb_false_r in Hx. done.
  - injection H as -> H. exfalso. rewrite <- H, nochar_app in Hy. simpl in Hy.
    rewrite Ascii.eqb_refl, andb_false_r in Hy. done.
  - injection H as -> H. destruct (IH b H) as [-> ->]. done.
Qed.

Lemma join_inj_l c a b x y :
  nochar c a = true -> nochar c b = true -> join c a x = join c b y -> a = b /\ x = y.
Proof.
  unfold join. revert b. induction a as [|d a IH]; intros [|e b] Ha Hb; simpl in *; intros H.
  - by simplify_eq.
  - injection H as -> H. by rewrite Ascii.eqb_refl in Hb.
  - injection H as -> H. by rewrite Ascii.eqb_refl in Ha.
  - injection H as -> H. apply andb_true_iff in Ha as [_ Ha], Hb as [_ Hb].
    destruct (IH b Ha Hb H) as [-> ->]. done.
Qed.

Lemma pretty_N_go_nochar c x s :
  (forall d, pretty_N_char d <> c) -> nochar c s = true -> nochar c (pretty_N_go x s) = true.
Proof.
  intros Hc. revert s. induction (N.lt_wf_0 x) as [x _ IH]; intros s Hs.
  destruct (decide (x = 0%N)) as [->|]; [by rewrite pretty_N_go_0|].
  rewrite pretty_N_go_step by lia. apply IH; [apply N.div_lt; lia|]. simpl. rewrite Hs.
  destruct (Ascii.eqb_spec (pretty_N_char (x `mod` 10)) c) as [E|]; [by destruct (Hc _ E)|done].
Qed.

Lemma pretty_N_nochar c (x : N) : (forall d, pretty_N_char d <> c) -> nochar c (pretty x) = true.
Proof.
  intros Hc. unfold pretty, pretty_N. case_decide; [|by apply pretty_N_go_nochar].
  cbn [nochar]. destruct (Ascii.eqb_spec "0"%char c) as [E|]; [by destruct (Hc 0%N E)|done].
Qed.

Lemma pretty_N_char_dash d : pretty_N_char d <> "-"%char.
Proof. unfold pretty_N_char. by repeat case_match. Qed.
Lemma pretty_N_char_NUL d : pretty_N_char d <> NUL.
Proof. unfold pretty_N_char. by repeat case_match. Qed.
