(* ===== verification/GoText.v ===== *)
(** * Go strings and bytes

    The functions of Go's [strings], [fmt], [encoding/hex] and [unicode/utf8]
    packages that the modelled sources call.  A Go string is a byte string. *)

From S2P Require Import Prelude.

(** ** Bytes *)

Definition code (c : Ascii.ascii) : N := Ascii.N_of_ascii c.
Definition in_range (lo hi : N) (c : Ascii.ascii) : bool := ((lo <=? code c) && (code c <=? hi))%N.

(** ** [strings.TrimSpace]

    Go trims the runes of [unicode.IsSpace]: the ASCII blanks and, in UTF-8,
    U+0085, U+00A0, U+1680, U+2000 to U+200A, U+2028, U+2029, U+202F, U+205F
    and U+3000. *)

Definition space1 (a : Ascii.ascii) : bool := in_range 9 13 a || in_range 32 32 a.

Definition space2 (a b : Ascii.ascii) : bool :=
  ((code a =? 194) && ((code b =? 133) || (code b =? 160)))%N.

Definition space3 (a b c : Ascii.ascii) : bool :=
  (((code a =? 225) && (code b =? 154) && (code c =? 128))
   || ((code a =? 226) && (code b =? 128)
       && (in_range 128 138 c || in_range 168 169 c || in_range 175 175 c))
   || ((code a =? 226) && (code b =? 129) && (code c =? 159))
   || ((code a =? 227) && (code b =? 128) && (code c =? 128)))%N.

Fixpoint trim_left (s : string) : string :=
  match s with
  | String a s1 =>
      if space1 a then trim_left s1
      else match s1 with
           | String b s2 =>
               if space2 a b then trim_left s2
               else match s2 with
                    | String c s3 => if space3 a b c then trim_left s3 else s
                    | EmptyString => s
                    end
           | EmptyString => s
           end
  | EmptyString => EmptyString
  end.

Fixpoint rev_append (s acc : string) : string :=
  match s with
  | EmptyString => acc
  | String a s => rev_append s (String a acc)
  end.
Definition rev (s : string) : string := rev_append s EmptyString.

(** The same on a reversed string: the last byte of a rune comes first. *)
Fixpoint trim_reversed (s : string) : string :=
  match s with
  | String c s1 =>
      if space1 c then trim_reversed s1
      else match s1 with
           | String b s2 =>
               if space2 b c then trim_reversed s2
               else match s2 with
                    | String a s3 => if space3 a b c then trim_reversed s3 else s
                    | EmptyString => s
                    end
           | EmptyString => s
           end
  | EmptyString => EmptyString
  end.

Definition TrimSpace (s : string) : string := rev (trim_reversed (rev (trim_left s))).

(** [strings.TrimSpace(s) == ""], the emptiness test of the validators. *)
Definition blank (s : string) : bool := TrimSpace s ==? ""%string.

(** ** [strings.ToLower]

    ASCII letters, and the two non-ASCII letters whose lower case is ASCII
    (U+0130 and U+212A).  Other non-ASCII bytes are kept: Go maps them to
    non-ASCII text, and every use compares the result with an ASCII word. *)

Definition lower (a : Ascii.ascii) : Ascii.ascii :=
  if in_range 65 90 a then Ascii.ascii_of_N (code a + 32) else a.

Fixpoint ToLower (s : string) : string :=
  match s with
  | EmptyString => EmptyString
  | String a s1 =>
      match s1 with
      | String b s2 =>
          if ((code a =? 196) && (code b =? 176))%N then String "i" (ToLower s2)
          else match s2 with
               | String c s3 =>
                   if ((code a =? 226) && (code b =? 132) && (code c =? 170))%N
                   then String "k" (ToLower s3)
                   else String (lower a) (ToLower s1)
               | EmptyString => String (lower a) (ToLower s1)
               end
      | EmptyString => String (lower a) (ToLower s1)
      end
  end.

(** ** [fmt.Sprint] of an integer, [hex.EncodeToString], [len] *)

Definition Sprint (z : Z) : string := pretty z.

Definition hex_digit (n : N) : Ascii.ascii :=
  if (n <? 10)%N then Ascii.ascii_of_N (48 + n) else Ascii.ascii_of_N (87 + n).

Fixpoint hex_encode (l : list Z) : string :=
  match l with
  | [] => EmptyString
  | b :: l => String (hex_digit (Z.to_N (b `div` 16))) (String (hex_digit (Z.to_N (b `mod` 16))) (hex_encode l))
  end.

Fixpoint bytes_of (s : string) : list Z :=
  match s with
  | EmptyString => []
  | String a s => Z.of_N (code a) :: bytes_of s
  end.

Definition len (s : string) : Z := Z.of_nat (String.length s).

(** [strings.HasPrefix]. *)
Definition HasPrefix (s prefix : string) : bool := String.prefix prefix s.

(** ** Facts *)

Lemma rev_append_app s acc acc' : rev_append s (acc +:+ acc') = (rev_append s acc +:+ acc')%string.
Proof.
  revert acc. induction s as [|a s IH]; intros acc; simpl; [done|].
  by rewrite <- (IH (String a acc)).
Qed.

Lemma rev_append_rev s acc : rev (rev_append s acc) = rev_append acc s.
Proof.
  revert acc. induction s as [|a s IH]; intros acc; simpl; [done|]. by rewrite IH.
Qed.

Lemma rev_involutive s : rev (rev s) = s.
Proof. unfold rev at 2. by rewrite rev_append_rev. Qed.

Lemma blank_empty : blank "" = true.
Proof. done. Qed.

(** A name that does not start and end with a blank is not blank. *)
Lemma not_blank_ne s : blank s = false -> s <> ""%string.
Proof. by intros H ->. Qed.

Example TrimSpace_ascii : TrimSpace "  planned " = "planned"%string.
Proof. vm_compute. reflexivity. Qed.

Example TrimSpace_nbsp :
  TrimSpace (String (Ascii.ascii_of_N 194) (String (Ascii.ascii_of_N 160) "a b")) = "a b"%string.
Proof. vm_compute. reflexivity. Qed.

Example ToLower_mixed : ToLower "Restore_PLANNED" = "restore_planned"%string.
Proof. vm_compute. reflexivity. Qed.
