(* ===== verification/SHA256.v ===== *)
(** * SHA-256 ([crypto/sha256])

    The hash the store derives conversation and capacity identifiers from:
    padding, message schedule and compression on 32-bit words kept as integers
    modulo [2^32].  [Sum256] maps a byte string to its 32-byte digest. *)

From S2P Require Import Prelude GoText.

Definition two32 : Z := 4294967296.
Definition add32 (a b : Z) : Z := (a + b) `mod` two32.
Definition rotr (n x : Z) : Z := Z.lor (Z.shiftr x n) (Z.shiftl x (32 - n) `mod` two32).
Definition not32 (x : Z) : Z := two32 - 1 - x.

Definition Ch (x y z : Z) : Z := Z.lxor (Z.land x y) (Z.land (not32 x) z).
Definition Maj (x y z : Z) : Z := Z.lxor (Z.land x y) (Z.lxor (Z.land x z) (Z.land y z)).
Definition Sigma0 (x : Z) : Z := Z.lxor (rotr 2 x) (Z.lxor (rotr 13 x) (rotr 22 x)).
Definition Sigma1 (x : Z) : Z := Z.lxor (rotr 6 x) (Z.lxor (rotr 11 x) (rotr 25 x)).
Definition sigma0 (x : Z) : Z := Z.lxor (rotr 7 x) (Z.lxor (rotr 18 x) (Z.shiftr x 3)).
Definition sigma1 (x : Z) : Z := Z.lxor (rotr 17 x) (Z.lxor (rotr 19 x) (Z.shiftr x 10)).

Definition H0 : list Z :=
  [1779033703; 3144134277; 1013904242; 2773480762; 1359893119; 2600822924;
   528734635; 1541459225].

Definition K : list Z :=
  [1116352408; 1899447441; 3049323471; 3921009573; 961987163; 1508970993;
   2453635748; 2870763221; 3624381080; 310598401; 607225278; 1426881987;
   1925078388; 2162078206; 2614888103; 3248222580; 3835390401; 4022224774;
   264347078; 604807628; 770255983; 1249150122; 1555081692; 1996064986;
   2554220882; 2821834349; 2952996808; 3210313671; 3336571891; 3584528711;
   113926993; 338241895; 666307205; 773529912; 1294757372; 1396182291;
   1695183700; 1986661051; 2177026350; 2456956037; 2730485921; 2820302411;
   3259730800; 3345764771; 3516065817; 3600352804; 4094571909; 275423344;
   430227734; 506948616; 659060556; 883997877; 958139571; 1322822218;
   1537002063; 1747873779; 1955562222; 2024104815; 2227730452; 2361852424;
   2428436474; 2756734187; 3204031479; 3329325298].

(** ** Padding *)

(** [n] bytes of [z], most significant first. *)
Fixpoint be_bytes (n : nat) (z : Z) : list Z :=
  match n with
  | O => []
  | S n => (z `div` 256 ^ Z.of_nat n) `mod` 256 :: be_bytes n z
  end.

Definition pad (msg : list Z) : list Z :=
  let l := Z.of_nat (length msg) in
  let zeros := Z.to_nat ((55 - l) `mod` 64) in
  msg ++ [128] ++ replicate zeros 0 ++ be_bytes 8 (8 * l).

Fixpoint words (l : list Z) : list Z :=
  match l with
  | a :: b :: c :: d :: l => (((a * 256 + b) * 256 + c) * 256 + d) :: words l
  | _ => []
  end.

(** ** Compression *)

(** The message schedule, last word first: each step appends
    [sigma1 w(t-2) + w(t-7) + sigma0 w(t-15) + w(t-16)]. *)
Fixpoint extend (n : nat) (w : list Z) : list Z :=
  match n with
  | O => w
  | S n =>
      let get i := nth i w 0 in
      extend n (add32 (add32 (sigma1 (get 1%nat)) (get 6%nat))
                      (add32 (sigma0 (get 14%nat)) (get 15%nat)) :: w)
  end.

Definition schedule (block : list Z) : list Z := List.rev (extend 48 (List.rev block)).

Record regs := mkregs {
  ra : Z; rb : Z; rc : Z; rd : Z; re : Z; rf : Z; rg : Z; rh : Z;
}.

Definition round (s : regs) (kw : Z * Z) : regs :=
  let t1 := add32 (add32 (add32 (rh s) (Sigma1 (re s))) (Ch (re s) (rf s) (rg s)))
                  (add32 kw.1 kw.2) in
  let t2 := add32 (Sigma0 (ra s)) (Maj (ra s) (rb s) (rc s)) in
  mkregs (add32 t1 t2) (ra s) (rb s) (rc s) (add32 (rd s) t1) (re s) (rf s) (rg s).

Definition regs_of (h : list Z) : regs :=
  let get i := nth i h 0 in
  mkregs (get 0%nat) (get 1%nat) (get 2%nat) (get 3%nat)
         (get 4%nat) (get 5%nat) (get 6%nat) (get 7%nat).

Definition regs_list (s : regs) : list Z :=
  [ra s; rb s; rc s; rd s; re s; rf s; rg s; rh s].

Definition compress (h block : list Z) : list Z :=
  zip_with add32 h (regs_list (foldl round (regs_of h) (zip K (schedule block)))).

Fixpoint blocks (n : nat) (w : list Z) : list (list Z) :=
  match n with
  | O => []
  | S n => take 16 w :: blocks n (drop 16 w)
  end.

Definition Sum256 (s : string) : list Z :=
  let w := words (pad (bytes_of s)) in
  let h := foldl compress H0 (blocks (length w / 16) w) in
  mjoin (map (be_bytes 4) h).

(** ** Facts *)

Lemma be_bytes_length n z : length (be_bytes n z) = n.
Proof. induction n as [|n IH]; simpl; [done|]. by rewrite IH. Qed.

Lemma compress_length h block : length h = 8%nat -> length (compress h block) = 8%nat.
Proof. intros H. unfold compress. by rewrite length_zip_with, H. Qed.

(** A digest has 32 bytes. *)
Lemma Sum256_length s : length (Sum256 s) = 32%nat.
Proof.
  unfold Sum256. generalize (blocks (length (words (pad (bytes_of s))) / 16) (words (pad (bytes_of s)))).
  intros bs. assert (forall h, length h = 8%nat -> length (foldl compress h bs) = 8%nat) as H.
  { induction bs as [|b bs IH]; intros h Hh; simpl; [done|]. by apply IH, compress_length. }
  specialize (H H0 eq_refl). revert H. generalize (foldl compress H0 bs). clear.
  intros h Hh.
  assert (length (mjoin (map (be_bytes 4) h)) = (4 * length h)%nat) as E; [|lia].
  clear Hh. induction h as [|x h IH]; [done|].
  change (mjoin (map (be_bytes 4) (x :: h))) with (be_bytes 4 x ++ mjoin (map (be_bytes 4) h)).
  rewrite length_app, IH, be_bytes_length. simpl. lia.
Qed.

(** The first test vectors of FIPS 180-4. *)
Example Sum256_empty :
  hex_encode (Sum256 "") = "e3b0c44298fc1c149afbf4c8996fb92427ae41e4649b934ca495991b7852b855"%string.
Proof. vm_compute. reflexivity. Qed.

Example Sum256_abc :
  hex_encode (Sum256 "abc") = "ba7816bf8f01cfea414140de5dae2223b00361a396177a9cb410ff61f20015ad"%string.
Proof. vm_compute. reflexivity. Qed.

(** Two blocks. *)
Example Sum256_two_blocks :
  hex_encode (Sum256 "abcdbcdecdefdefgefghfghighijhijkijkljklmklmnlmnomnopnopq")
  = "248d6a61d20638b8e5c026930c3e6039a33ce45964ff2167f6ecedd419db06c1"%string.
Proof. vm_compute. reflexivity. Qed.
