(* ===== verification/GoTime.v ===== *)
(** * Text of instants ([time.Time.MarshalJSON])

    An instant prints as RFC 3339 in UTC with up to nine fractional digits;
    years outside 0..9999 are an error.  The text determines the instant. *)

From S2P Require Import Prelude GoText.

(** ** Decimal digits *)

Definition digit (d : Z) : Ascii.ascii := Ascii.ascii_of_N (48 + Z.to_N d).

(** [n] in [k] digits, padded with zeros. *)
Fixpoint fixed (k : nat) (n : Z) : string :=
  match k with
  | O => EmptyString
  | S k => fixed k (n `div` 10) +:+ String (digit (n `mod` 10)) ""
  end.

Lemma string_length_app a b : String.length (a +:+ b) = (String.length a + String.length b)%nat.
Proof. induction a as [|c a IH]; simpl; [done|]. by f_equal. Qed.

Lemma string_app_inj_l a a' b b' :
  String.length a = String.length a' -> (a +:+ b = a' +:+ b')%string -> a = a' /\ b = b'.
Proof.
  revert a'. induction a as [|c a IH]; intros [|c' a'] Hl E; try discriminate Hl; [done|].
  injection E as -> E. injection Hl as Hl. by destruct (IH a' Hl E) as [-> ->].
Qed.

Lemma string_app_inj_r a a' b b' :
  String.length b = String.length b' -> (a +:+ b = a' +:+ b')%string -> a = a' /\ b = b'.
Proof.
  intros Hl E. apply string_app_inj_l; [|done].
  apply (f_equal String.length) in E. rewrite !string_length_app in E. lia.
Qed.

Lemma fixed_length k n : String.length (fixed k n) = k.
Proof. revert n. induction k as [|k IH]; intros n; simpl; [done|]. rewrite string_length_app, IH. simpl. lia. Qed.

Lemma digit_inj d d' : 0 <= d < 10 -> 0 <= d' < 10 -> digit d = digit d' -> d = d'.
Proof.
  unfold digit. intros Hd Hd' E. apply (f_equal Ascii.N_of_ascii) in E.
  rewrite !Ascii.N_ascii_embedding in E by lia. lia.
Qed.

Lemma fixed_inj_text k n n' : 0 <= n < 10 ^ Z.of_nat k -> 0 <= n' < 10 ^ Z.of_nat k -> fixed k n = fixed k n' -> n = n'.
Proof.
  revert n n'. induction k as [|k IH]; intros n n' Hn Hn' E; [simpl in *; lia|].
  rewrite Nat2Z.inj_succ, Z.pow_succ_r in Hn, Hn' by lia. simpl in E.
  apply string_app_inj_r in E as [E1 E2]; [|done]. injection E2 as E2.
  apply IH in E1; [|split; [apply Z.div_pos; lia|apply Z.div_lt_upper_bound; lia]..].
  apply digit_inj in E2; [|apply Z.mod_pos_bound; lia..].
  rewrite (Z.div_mod n 10), (Z.div_mod n' 10) by lia. congruence.
Qed.

Lemma fixed_inj k n n' t t' : 0 <= n < 10 ^ Z.of_nat k -> 0 <= n' < 10 ^ Z.of_nat k ->
  (fixed k n +:+ t = fixed k n' +:+ t')%string -> n = n' /\ t = t'.
Proof.
  intros Hn Hn' E. apply string_app_inj_l in E as [E ->]; [|by rewrite !fixed_length].
  split; [|done]. by apply (fixed_inj_text k).
Qed.

(** ** Trailing zeros *)

Fixpoint trim0 (s : string) : string :=
  match s with
  | EmptyString => EmptyString
  | String c s => match trim0 s with
                  | EmptyString => if Ascii.eqb c "0" then EmptyString else String c EmptyString
                  | t => String c t
                  end
  end.

Lemma trim0_inj s s' : String.length s = String.length s' -> trim0 s = trim0 s' -> s = s'.
Proof.
  revert s'. induction s as [|c s IH]; intros [|c' s'] Hl E; try discriminate Hl; [done|].
  injection Hl as Hl. simpl in E. f_equal.
  - destruct (trim0 s), (trim0 s'), (Ascii.eqb_spec c "0"), (Ascii.eqb_spec c' "0"); congruence.
  - apply IH; [done|].
    destruct (trim0 s), (trim0 s'), (Ascii.eqb_spec c "0"), (Ascii.eqb_spec c' "0"); congruence.
Qed.

(** ** Civil dates *)

(** Days since 1 March of year 0 to year, month and day: the position in the
    400-year cycle determines them. *)
Definition civil_of_cycle (doe : Z) : Z * Z * Z :=
  let yoe := (doe - doe `div` 1460 + doe `div` 36524 - doe `div` 146096) `div` 365 in
  let doy := doe - (365 * yoe + yoe `div` 4 - yoe `div` 100) in
  let mp := (5 * doy + 2) `div` 153 in
  let d := doy - (153 * mp + 2) `div` 5 + 1 in
  let mo := if mp <? 10 then mp + 3 else mp - 9 in
  (if mo <=? 2 then yoe + 1 else yoe, mo, d).

Definition civil (days : Z) : Z * Z * Z :=
  let z := days + 306 in
  let '(y, mo, d) := civil_of_cycle (z `mod` 146097) in
  (y + 400 * (z `div` 146097), mo, d).

(** The inverse on one cycle; the year carries the cycle number. *)
Definition cycle_of_civil (y mo d : Z) : Z :=
  let yoe := if mo <=? 2 then y - 1 else y in
  let mp := if 2 <? mo then mo - 3 else mo + 9 in
  yoe * 365 + yoe `div` 4 - yoe `div` 100 + (153 * mp + 2) `div` 5 + d - 1.

Definition cycle_ok (doe : Z) : bool :=
  let '(y, mo, d) := civil_of_cycle doe in
  (cycle_of_civil y mo d =? doe) && (1 <=? mo) && (mo <=? 12) && (1 <=? d) && (d <=? 31)
  && (0 <=? (if mo <=? 2 then y - 1 else y)) && ((if mo <=? 2 then y - 1 else y) <? 400).

Fixpoint all_below (n : nat) (z : Z) (p : Z -> bool) : bool :=
  match n with
  | O => true
  | S n => p z && all_below n (z + 1) p
  end.

Lemma all_below_spec n z p : all_below n z p = true -> forall x, z <= x < z + Z.of_nat n -> p x = true.
Proof.
  revert z. induction n as [|n IH]; intros z H x Hx; [lia|]. simpl in H. bool_simp.
  destruct (decide (x = z)) as [->|]; [done|]. apply (IH (z + 1)); [done|lia].
Qed.

(** The years of a cycle, each from its 1 March; the last one has the leap day
    of the cycle. *)
Definition year_of_cycle (doe : Z) : Z := (doe - doe `div` 1460 + doe `div` 36524 - doe `div` 146096) `div` 365.
Definition year_start (y : Z) : Z := 365 * y + y `div` 4 - y `div` 100.
Definition year_end (y : Z) : Z := if y =? 399 then 146097 else year_start (y + 1).

Lemma year_of_cycle_mono a b : 0 <= a <= b -> b < 146097 -> year_of_cycle a <= year_of_cycle b.
Proof.
  intros Ha Hb. apply Z.div_le_mono; [lia|].
  assert (a / 146096 = b / 146096 \/ (b = 146096 /\ a < 146096)) as [E|[-> Hl]].
  { destruct (Z.eq_dec b 146096) as [->|]; [|left; rewrite !Z.div_small; lia]. destruct (Z.eq_dec a 146096); [subst; by left|right; lia]. }
  - rewrite E. assert (a / 36524 <= b / 36524) by (apply Z.div_le_mono; lia). Z.to_euclidean_division_equations. lia.
  - Z.to_euclidean_division_equations. lia.
Qed.

Lemma years_ok y : 0 <= y < 400 -> year_of_cycle (year_start y) = y /\ year_of_cycle (year_end y - 1) = y /\
  0 <= year_start y /\ year_end y <= 146097 /\ year_end y - year_start y <= 366.
Proof.
  intros Hy.
  pose (ok y := (year_of_cycle (year_start y) =? y) && (year_of_cycle (year_end y - 1) =? y) && (0 <=? year_start y)
                && (year_end y <=? 146097) && (year_end y - year_start y <=? 366)).
  assert (ok y = true) as H by (apply (all_below_spec 400 0 ok); [vm_compute; reflexivity|lia]).
  unfold ok in H. rewrite !andb_true_iff, !Z.eqb_eq, !Z.leb_le in H. tauto.
Qed.

Lemma year_found doe (n : nat) : 0 <= doe -> (n <= 400)%nat -> doe < (if Z.of_nat n =? 400 then 146097 else year_start (Z.of_nat n)) ->
  exists y, 0 <= y < 400 /\ year_start y <= doe < year_end y.
Proof.
  induction n as [|n IH]; intros H0 Hn Hd; [change (doe < 0) in Hd; lia|].
  destruct (Z_lt_le_dec doe (year_start (Z.of_nat n))) as [Hl|Hl].
  - apply IH; [done|lia|]. destruct (Z.of_nat n =? 400) eqn:E; [lia|done].
  - exists (Z.of_nat n). split; [lia|]. split; [done|]. unfold year_end. rewrite Nat2Z.inj_succ in Hd.
    destruct (Z.eqb_spec (Z.of_nat n) 399), (Z.eqb_spec (Z.succ (Z.of_nat n)) 400); (lia || by rewrite Z.add_1_r).
Qed.

Lemma cycle_ok_all doe : 0 <= doe < 146097 -> cycle_ok doe = true.
Proof.
  intros H. destruct (year_found doe 400) as (y & Hy & Hs); [lia|lia|exact (proj2 H)|].
  destruct (years_ok y Hy) as (H1 & H2 & H3 & H4 & H5).
  assert (year_of_cycle doe = y) as E.
  { pose proof (year_of_cycle_mono (year_start y) doe ltac:(lia) ltac:(lia)).
    pose proof (year_of_cycle_mono doe (year_end y - 1) ltac:(lia) ltac:(lia)). lia. }
  unfold cycle_ok, civil_of_cycle. fold (year_of_cycle doe). rewrite E. cbv zeta. fold (year_start y).
  assert (Hd : 0 <= doe - year_start y <= 365) by lia. pose proof (Z.sub_add (year_start y) doe) as Hdoe.
  revert Hd Hdoe. generalize (doe - year_start y) as doy. clear -Hy. intros doy Hd Hdoe.
  assert (Hm : 0 <= (5 * doy + 2) / 153 <= 11 /\ 1 <= doy - (153 * ((5 * doy + 2) / 153) + 2) / 5 + 1 <= 31)
    by (Z.to_euclidean_division_equations; lia).
  revert Hm. generalize ((5 * doy + 2) / 153) as mp. intros mp Hm. unfold cycle_of_civil, year_start in *.
  destruct (mp <? 10) eqn:Em;
    [replace (mp + 3 <=? 2) with false by lia; replace (2 <? mp + 3) with true by lia;
     replace (mp + 3 - 3) with mp by lia
    |replace (mp - 9 <=? 2) with true by lia; replace (2 <? mp - 9) with false by lia;
     replace (mp - 9 + 9) with mp by lia; replace (y + 1 - 1) with y by lia];
    rewrite !andb_true_iff, Z.eqb_eq, !Z.leb_le, Z.ltb_lt; lia.
Qed.

Definition civil_days (y mo d : Z) : Z :=
  let y' := if mo <=? 2 then y - 1 else y in
  146097 * (y' `div` 400) + cycle_of_civil (y - 400 * (y' `div` 400)) mo d - 306.

Lemma civil_spec days y mo d : civil days = (y, mo, d) ->
  civil_days y mo d = days /\ 1 <= mo <= 12 /\ 1 <= d <= 31.
Proof.
  unfold civil. set (z := days + 306). pose proof (Z.mod_pos_bound z 146097 ltac:(lia)) as Hr.
  pose proof (cycle_ok_all _ Hr) as Hok. unfold cycle_ok in Hok.
  destruct (civil_of_cycle (z `mod` 146097)) as [[y0 mo0] d0]. intros [= <- <- <-]. bool_simp.
  split; [|lia]. unfold civil_days.
  assert ((if mo0 <=? 2 then y0 + 400 * (z `div` 146097) - 1 else y0 + 400 * (z `div` 146097)) `div` 400
    = z `div` 146097) as ->.
  { symmetry. eapply (Z.div_unique _ _ _ (if mo0 <=? 2 then y0 - 1 else y0)); [left; lia|].
    destruct (mo0 <=? 2); lia. }
  replace (y0 + 400 * (z `div` 146097) - 400 * (z `div` 146097)) with y0 by lia.
  match goal with H : cycle_of_civil _ _ _ = _ |- _ => rewrite H end.
  pose proof (Z.div_mod z 146097 ltac:(lia)). subst z. lia.
Qed.

(** ** RFC 3339 *)

Definition day_ns : Z := 86400 * second.

Definition fraction (ns : Z) : string :=
  if ns =? 0 then ""%string else String "." (trim0 (fixed 9 ns)).

Definition rfc3339 (t : Time) : option string :=
  let '(y, mo, d) := civil (t `div` day_ns) in
  let ns := t `mod` day_ns in
  let s := ns `div` second in
  if (y <? 0) || (9999 <? y) then None
  else Some (fixed 4 y +:+ "-" +:+ fixed 2 mo +:+ "-" +:+ fixed 2 d +:+ "T"
             +:+ fixed 2 (s `div` 3600) +:+ ":" +:+ fixed 2 ((s `div` 60) `mod` 60)
             +:+ ":" +:+ fixed 2 (s `mod` 60) +:+ fraction (ns `mod` second) +:+ "Z")%string.

Example rfc3339_zero : rfc3339 0 = Some "0001-01-01T00:00:00Z"%string.
Proof. vm_compute. reflexivity. Qed.

Example rfc3339_unix : rfc3339 (62135596800 * second + 1709210096 * second + 120000000)
  = Some "2024-02-29T12:34:56.12Z"%string.
Proof. vm_compute. reflexivity. Qed.

Example rfc3339_far : rfc3339 (366000 * 10000 * day_ns) = None.
Proof. vm_compute. reflexivity. Qed.

Lemma fraction_inj n n' : 0 <= n < second -> 0 <= n' < second ->
  (fraction n +:+ "Z" = fraction n' +:+ "Z")%string -> n = n'.
Proof.
  intros Hn Hn' E. apply string_app_inj_r in E as [E _]; [|done]. unfold fraction in E.
  destruct (Z.eqb_spec n 0), (Z.eqb_spec n' 0); try done; [congruence|].
  apply (string_app_inj_l "." ".") in E as [_ E]; [|done]. apply trim0_inj in E; [|by rewrite !fixed_length].
  apply (fixed_inj_text 9); [exact Hn|exact Hn'|done].
Qed.

(** The text determines the instant. *)
Lemma rfc3339_inj t t' s : rfc3339 t = Some s -> rfc3339 t' = Some s -> t = t'.
Proof.
  unfold rfc3339.
  destruct (civil (t `div` day_ns)) as [[y mo] d] eqn:Hc, (civil (t' `div` day_ns)) as [[y' mo'] d'] eqn:Hc'.
  apply civil_spec in Hc as (Hd & Hmo & Hda), Hc' as (Hd' & Hmo' & Hda').
  destruct (_ || _) eqn:Hy; [done|]. intros E. destruct (_ || _) eqn:Hy' in |- *; [done|].
  intros E'. rewrite <- E' in E. clear E' s. apply (inj Some) in E. bool_simp.
  assert (forall t, 0 <= t `mod` day_ns < 86400 * second) as Hns by (intros; apply Z.mod_pos_bound; done).
  assert (forall t, 0 <= (t `mod` day_ns) `div` second < 86400) as Hs.
  { intros u. specialize (Hns u). split; [apply Z.div_pos; [apply Hns|done]|].
    apply Z.div_lt_upper_bound; [done|lia]. }
  assert (forall n, 0 <= n `mod` 60 < 60) as H60 by (intros; apply Z.mod_pos_bound; lia).
  assert (forall t, 0 <= ((t `mod` day_ns) `div` second) `div` 3600 < 24) as Hh.
  { intros u. specialize (Hs u). split; [apply Z.div_pos; lia|]. apply Z.div_lt_upper_bound; lia. }
  pose proof (Hh t). pose proof (Hh t').
  apply fixed_inj in E as [-> E]; [|lia..]. apply string_app_inj_l in E as [_ E]; [|done].
  apply fixed_inj in E as [-> E]; [|simpl; lia..]. apply string_app_inj_l in E as [_ E]; [|done].
  apply fixed_inj in E as [-> E]; [|simpl; lia..]. apply string_app_inj_l in E as [_ E]; [|done].
  apply fixed_inj in E as [Eh E]; [|simpl; lia..]. apply string_app_inj_l in E as [_ E]; [|done].
  pose proof (H60 (((t `mod` day_ns) `div` second) `div` 60)). pose proof (H60 (((t' `mod` day_ns) `div` second) `div` 60)).
  apply fixed_inj in E as [Em E]; [|simpl; lia..]. apply string_app_inj_l in E as [_ E]; [|done].
  pose proof (H60 ((t `mod` day_ns) `div` second)). pose proof (H60 ((t' `mod` day_ns) `div` second)).
  apply fixed_inj in E as [Es E]; [|simpl; lia..].
  apply fraction_inj in E; [|apply Z.mod_pos_bound; done..].
  rewrite (Z.div_mod t day_ns), (Z.div_mod t' day_ns), <- Hd, <- Hd' by done. f_equal.
  rewrite (Z.div_mod (t `mod` day_ns) second), (Z.div_mod (t' `mod` day_ns) second), E by done. do 2 f_equal.
  rewrite (Z.div_mod (_ `div` second) 60), (Z.div_mod ((t' `mod` day_ns) `div` second) 60), Es by lia. do 2 f_equal.
  rewrite (Z.div_mod (_ `div` 60) 60), (Z.div_mod (((t' `mod` day_ns) `div` second) `div` 60) 60), Em by lia. do 2 f_equal.
  rewrite 2!(Z.div_div _ 60 60) by lia. exact Eh.
Qed.
