(* ===== verification/Domain.v ===== *)
(** * Data model of [internal/domain]

    The records and enumerations of [domain/domain.go], [domain/workload.go],
    [domain/auth.go] and [domain/node_enrollment.go] that the modelled
    components store or decide on, field for field.  A pointer field is an
    [option], a slice a [list], [json.RawMessage] and [[]byte] a byte string.
    String types whose zero value the code uses (tiers, policies, phases) stay
    strings; the closed status enumerations are inductive types. *)

From Stdlib Require Import SpecFloat.
From S2P Require Import Prelude.

(** IEEE binary64 values; no modelled operation computes with them. *)
Abbreviation float64 := spec_float (only parsing).

(** Dynamic values ([any]).  A number is the literal [encoding/json] prints for
    it; [AnyUnsupported] stands for the values it refuses (channels, functions,
    infinities). *)
Inductive any :=
  | AnyNil
  | AnyBool (b : bool)
  | AnyNumber (literal : string)
  | AnyString (s : string)
  | AnySlice (l : list any)
  | AnyMap (l : list (string * any))
  | AnyUnsupported.

(** ** Status enumerations *)

Inductive WorkloadStatus :=
  | WorkloadQueued | WorkloadWaiting | WorkloadRejected | WorkloadPendingApproval
  | WorkloadRunning | WorkloadSucceeded | WorkloadFailed | WorkloadCancelled.
#[export] Instance WorkloadStatus_eq_dec : EqDecision WorkloadStatus.
Proof. solve_decision. Defined.

Inductive ResidencyTransitionStatus :=
  | ResidencyTransitionPlanned | ResidencyTransitionRunning | ResidencyTransitionSucceeded
  | ResidencyTransitionFailed | ResidencyTransitionManualReconciliation.
#[export] Instance ResidencyTransitionStatus_eq_dec : EqDecision ResidencyTransitionStatus.
Proof. solve_decision. Defined.

Inductive NodeCommandStatus :=
  | NodeCommandQueued | NodeCommandSent | NodeCommandSucceeded | NodeCommandFailed
  | NodeCommandExpired.
#[export] Instance NodeCommandStatus_eq_dec : EqDecision NodeCommandStatus.
Proof. solve_decision. Defined.

Inductive BudgetReservationStatus :=
  | BudgetReserved | BudgetSettled | BudgetReleased.
#[export] Instance BudgetReservationStatus_eq_dec : EqDecision BudgetReservationStatus.
Proof. solve_decision. Defined.

Inductive JobStatus :=
  | JobPending | JobRunning | JobPaused | JobCancelled | JobCompleted
  | JobCompletedWithErrors.
#[export] Instance JobStatus_eq_dec : EqDecision JobStatus.
Proof. solve_decision. Defined.

Inductive WorkItemState :=
  | WorkItemQueued | WorkItemLeased | WorkItemRunning | WorkItemSuccess | WorkItemFailed
  | WorkItemLeaseExpired | WorkItemCancelled.
#[export] Instance WorkItemState_eq_dec : EqDecision WorkItemState.
Proof. solve_decision. Defined.

(** ** Jobs and work items *)

Record JobProgress := mkJobProgress {
  jp_Total : Z;
  jp_Queued : Z;
  jp_Running : Z;
  jp_Success : Z;
  jp_Failed : Z;
  jp_Retried : Z;
}.
#[export] Instance eta_JobProgress : Eta JobProgress := fun r => mkJobProgress (jp_Total r)
  (jp_Queued r) (jp_Running r) (jp_Success r) (jp_Failed r) (jp_Retried r).

Record Job := mkJob {
  job_ID : string;
  job_Operation : string;
  job_Pool : string;
  job_Status : JobStatus;
  job_InputRef : string;
  job_OutputRef : string;
  job_CreatedAt : Time;
  job_UpdatedAt : Time;
  job_Priority : string;
  job_MaxAttempts : Z;
  job_Progress : JobProgress;
}.
#[export] Instance eta_Job : Eta Job := fun r => mkJob (job_ID r) (job_Operation r) (job_Pool r)
  (job_Status r) (job_InputRef r) (job_OutputRef r) (job_CreatedAt r) (job_UpdatedAt r)
  (job_Priority r) (job_MaxAttempts r) (job_Progress r).

Record WorkItem := mkWorkItem {
  wi_JobID : string;
  wi_ItemID : string;
  wi_OperationVersion : string;
  wi_State : WorkItemState;
  wi_LeaseOwner : string;
  wi_LeaseExpiry : Time;
  wi_Attempt : Z;
  wi_ResultRef : string;
  wi_Payload : list (string * any);
  wi_TriedWorkers : list string;
  wi_LastError : string;
  wi_CreatedAt : Time;
  wi_UpdatedAt : Time;
  wi_Seq : Z;
}.
#[export] Instance eta_WorkItem : Eta WorkItem := fun r => mkWorkItem (wi_JobID r) (wi_ItemID r)
  (wi_OperationVersion r) (wi_State r) (wi_LeaseOwner r) (wi_LeaseExpiry r) (wi_Attempt r)
  (wi_ResultRef r) (wi_Payload r) (wi_TriedWorkers r) (wi_LastError r) (wi_CreatedAt r)
  (wi_UpdatedAt r) (wi_Seq r).

