(* ===== verification/DomainWorkload.v ===== *)
(** * Data model: workloads, leases, residency, commands, budgets

    The records of [domain/workload.go], [domain/creator_studio.go],
    [domain/auth.go] and [domain/node_enrollment.go], field for field.  Each
    record is followed by its [Eta] instance, which makes [r <| f := v |>]
    available for it. *)

From Stdlib Require Import SpecFloat.
From S2P Require Import Prelude Domain.

(** [map[string]any], with [nil] as [None]. *)
Abbreviation JSONSchema := (option (list (string * any))) (only parsing).

(** ** Workloads *)

Record WorkloadBounds := mkWorkloadBounds {
  wb_ContextTokens : Z;
  wb_MaxOutput : Z;
  wb_Frames : Z;
  wb_Width : Z;
  wb_Height : Z;
  wb_Steps : Z;
}.
#[export] Instance eta_WorkloadBounds : Eta WorkloadBounds := fun r => mkWorkloadBounds
  (wb_ContextTokens r) (wb_MaxOutput r) (wb_Frames r) (wb_Width r) (wb_Height r) (wb_Steps r).

Record NotificationPreferences := mkNotificationPreferences {
  np_InApp : bool;
  np_Webhooks : list string;
  np_OnStart : bool;
  np_OnFinish : bool;
}.
#[export] Instance eta_NotificationPreferences : Eta NotificationPreferences := fun r => mkNotificationPreferences
  (np_InApp r) (np_Webhooks r) (np_OnStart r) (np_OnFinish r).

Record CapabilityRequirements := mkCapabilityRequirements {
  cr_Features : list string;
}.
#[export] Instance eta_CapabilityRequirements : Eta CapabilityRequirements := fun r => mkCapabilityRequirements
  (cr_Features r).

Record ProfilePreferences := mkProfilePreferences {
  pp_Preferred : list string;
  pp_Acceptable : list string;
  pp_FallbackPolicy : string;
}.
#[export] Instance eta_ProfilePreferences : Eta ProfilePreferences := fun r => mkProfilePreferences
  (pp_Preferred r) (pp_Acceptable r) (pp_FallbackPolicy r).

Record ParallelismPolicy := mkParallelismPolicy {
  par_Parallelizable : bool;
}.
#[export] Instance eta_ParallelismPolicy : Eta ParallelismPolicy := fun r => mkParallelismPolicy
  (par_Parallelizable r).

Record WorkloadRequest := mkWorkloadRequest {
  req_ID : string;
  req_PrincipalID : string;
  req_OwnerID : string;
  req_Plane : string;
  req_Adapter : string;
  req_WorkloadType : string;
  req_Operation : string;
  req_QualityClass : string;
  req_CapabilityRequirements : CapabilityRequirements;
  req_ProfilePreferences : ProfilePreferences;
  req_SessionID : string;
  req_BatchID : string;
  req_AffinityKey : string;
  req_Ordered : bool;
  req_Parallelism : ParallelismPolicy;
  req_Dependencies : list string;
  req_LatencyClass : string;
  req_PriorityClass : string;
  req_ContinuationRef : string;
  req_CompatibilityToken : string;
  req_Payload : string;
  req_ArtifactRefs : list string;
  req_ItemID : string;
  req_PinnedTargetID : string;
  req_OperationVersion : string;
  req_IdempotencyKey : string;
  req_QoS : string;
  req_Priority : Z;
  req_Deadline : option Time;
  req_QueuePolicy : string;
  req_Notifications : NotificationPreferences;
  req_Disruption : string;
  req_InterruptionConsent : bool;
  req_Egress : string;
  req_Bounds : WorkloadBounds;
  req_PlacementKey : string;
  req_PlacementPolicy : string;
  req_InteractiveStream : bool;
  req_Recoverable : bool;
  req_ConcurrencyLimit : Z;
  req_BudgetLimitCents : Z;
  req_TransformationPolicy : string;
  req_Transformations : list string;
  req_TransformationParameters : string;
  req_PreemptionBudget : Z;
  req_CreatedAt : Time;
}.
#[export] Instance eta_WorkloadRequest : Eta WorkloadRequest := fun r => mkWorkloadRequest
  (req_ID r) (req_PrincipalID r) (req_OwnerID r) (req_Plane r) (req_Adapter r)
  (req_WorkloadType r) (req_Operation r) (req_QualityClass r) (req_CapabilityRequirements r)
  (req_ProfilePreferences r) (req_SessionID r) (req_BatchID r) (req_AffinityKey r)
  (req_Ordered r) (req_Parallelism r) (req_Dependencies r) (req_LatencyClass r)
  (req_PriorityClass r) (req_ContinuationRef r) (req_CompatibilityToken r) (req_Payload r)
  (req_ArtifactRefs r) (req_ItemID r) (req_PinnedTargetID r) (req_OperationVersion r)
  (req_IdempotencyKey r) (req_QoS r) (req_Priority r) (req_Deadline r) (req_QueuePolicy r)
  (req_Notifications r) (req_Disruption r) (req_InterruptionConsent r) (req_Egress r)
  (req_Bounds r) (req_PlacementKey r) (req_PlacementPolicy r) (req_InteractiveStream r)
  (req_Recoverable r) (req_ConcurrencyLimit r) (req_BudgetLimitCents r)
  (req_TransformationPolicy r) (req_Transformations r) (req_TransformationParameters r)
  (req_PreemptionBudget r) (req_CreatedAt r).

Record AdmissionDecision := mkAdmissionDecision {
  dec_Admitted : bool;
  dec_Blocker : string;
  dec_BlockerCode : string;
  dec_EstimatedStart : option Time;
  dec_EstimatedEnd : option Time;
  dec_RetryAfter : option Time;
  dec_ETA : option Time;
  dec_NotificationID : string;
  dec_Confidence : float64;
  dec_Alternatives : list string;
  dec_TargetID : string;
  dec_AcceleratorID : string;
  dec_ContextLimit : Z;
  dec_TargetSlots : Z;
  dec_CapacitySource : string;
  dec_CapacityVerified : bool;
  dec_ProfileID : string;
  dec_ProfileVersion : string;
  dec_ProfileDigest : string;
  dec_CapabilityVersion : string;
  dec_WarmModelBytesVerified : bool;
  dec_SessionCheckpointable : bool;
  dec_MaxAcceleratorsPerWorkload : Z;
}.
#[export] Instance eta_AdmissionDecision : Eta AdmissionDecision := fun r => mkAdmissionDecision
  (dec_Admitted r) (dec_Blocker r) (dec_BlockerCode r) (dec_EstimatedStart r)
  (dec_EstimatedEnd r) (dec_RetryAfter r) (dec_ETA r) (dec_NotificationID r) (dec_Confidence r)
  (dec_Alternatives r) (dec_TargetID r) (dec_AcceleratorID r) (dec_ContextLimit r)
  (dec_TargetSlots r) (dec_CapacitySource r) (dec_CapacityVerified r) (dec_ProfileID r)
  (dec_ProfileVersion r) (dec_ProfileDigest r) (dec_CapabilityVersion r)
  (dec_WarmModelBytesVerified r) (dec_SessionCheckpointable r)
  (dec_MaxAcceleratorsPerWorkload r).

Record ExecutionPlan := mkExecutionPlan {
  plan_ID : string;
  plan_WorkloadID : string;
  plan_PlanHash : string;
  plan_Adapter : string;
  plan_AdapterVersion : string;
  plan_TargetID : string;
  plan_RuntimeProtocol : string;
  plan_AcceleratorID : string;
  plan_CapabilityVersion : string;
  plan_CapabilityRevision : string;
  plan_TargetContextLimit : Z;
  plan_TargetSlots : Z;
  plan_ModelFingerprint : string;
  plan_CapacitySource : string;
  plan_CapacityVerified : bool;
  plan_EstimatedCostCents : Z;
  plan_InputCentsPerMTok : Z;
  plan_OutputCentsPerMTok : Z;
  plan_Provider : string;
  plan_Model : string;
  plan_ProfileID : string;
  plan_ProfileVersion : string;
  plan_ProfileDigest : string;
  plan_CapabilityDefinitionHash : string;
  plan_WarmModelBytesVerified : bool;
  plan_SessionCheckpointable : bool;
  plan_ExecutionLocality : string;
  plan_ResidencyTransitionIDs : list string;
  plan_Transformations : list string;
  plan_CreatedAt : Time;
  plan_Material : string;
}.
#[export] Instance eta_ExecutionPlan : Eta ExecutionPlan := fun r => mkExecutionPlan (plan_ID r)
  (plan_WorkloadID r) (plan_PlanHash r) (plan_Adapter r) (plan_AdapterVersion r)
  (plan_TargetID r) (plan_RuntimeProtocol r) (plan_AcceleratorID r) (plan_CapabilityVersion r)
  (plan_CapabilityRevision r) (plan_TargetContextLimit r) (plan_TargetSlots r)
  (plan_ModelFingerprint r) (plan_CapacitySource r) (plan_CapacityVerified r)
  (plan_EstimatedCostCents r) (plan_InputCentsPerMTok r) (plan_OutputCentsPerMTok r)
  (plan_Provider r) (plan_Model r) (plan_ProfileID r) (plan_ProfileVersion r)
  (plan_ProfileDigest r) (plan_CapabilityDefinitionHash r) (plan_WarmModelBytesVerified r)
  (plan_SessionCheckpointable r) (plan_ExecutionLocality r) (plan_ResidencyTransitionIDs r)
  (plan_Transformations r) (plan_CreatedAt r) (plan_Material r).

Record ExecutionPerformance := mkExecutionPerformance {
  perf_DurationMS : float64;
  perf_TTFTMS : float64;
  perf_PromptTokens : Z;
  perf_CompletionTokens : Z;
  perf_TotalTokens : Z;
  perf_PromptTPS : float64;
  perf_DecodeTPS : float64;
  perf_TotalTPS : float64;
  perf_Source : string;
}.
#[export] Instance eta_ExecutionPerformance : Eta ExecutionPerformance := fun r => mkExecutionPerformance
  (perf_DurationMS r) (perf_TTFTMS r) (perf_PromptTokens r) (perf_CompletionTokens r)
  (perf_TotalTokens r) (perf_PromptTPS r) (perf_DecodeTPS r) (perf_TotalTPS r) (perf_Source r).

Record ExecutionHandle := mkExecutionHandle {
  eh_ExternalID : string;
  eh_Opaque : string;
  eh_StartedAt : Time;
  eh_Performance : option ExecutionPerformance;
}.
#[export] Instance eta_ExecutionHandle : Eta ExecutionHandle := fun r => mkExecutionHandle
  (eh_ExternalID r) (eh_Opaque r) (eh_StartedAt r) (eh_Performance r).

Record Workload := mkWorkload {
  w_Request : WorkloadRequest;
  w_Revision : Z;
  w_Status : WorkloadStatus;
  w_Decision : AdmissionDecision;
  w_Plan : option ExecutionPlan;
  w_Execution : option ExecutionHandle;
  w_Progress : float64;
  w_ProgressStage : string;
  w_ProgressNode : string;
  w_ProgressCurrent : Z;
  w_ProgressTotal : Z;
  w_OutputRefs : list string;
  w_InlineOutput : string;
  w_Error : string;
  w_CreatedAt : Time;
  w_StartedAt : option Time;
  w_UpdatedAt : Time;
  w_FinishedAt : option Time;
  w_ExecutionAttempts : Z;
  w_TargetRetryAfter : gmap string Time;
  w_CheckpointRef : string;
  w_PreemptionCount : Z;
  w_RuntimePriority : option Z;
  w_ActualCostCents : Z;
  w_PreemptionsInitiated : Z;
  w_TransitionPlanIDs : list string;
  w_CancellationOwner : string;
  w_BudgetReservationToken : string;
  w_BudgetReservationAttempt : Z;
  w_BudgetReservationCents : Z;
  w_BudgetReservationLimitCents : Z;
  w_BudgetReservationCurrency : string;
  w_BudgetCleanupToken : string;
  w_BudgetCleanupAttempt : Z;
  w_BudgetSettlementPending : bool;
  w_BudgetSettlementAttempt : Z;
  w_BudgetSettlementActualCents : Z;
}.
#[export] Instance eta_Workload : Eta Workload := fun r => mkWorkload (w_Request r)
  (w_Revision r) (w_Status r) (w_Decision r) (w_Plan r) (w_Execution r) (w_Progress r)
  (w_ProgressStage r) (w_ProgressNode r) (w_ProgressCurrent r) (w_ProgressTotal r)
  (w_OutputRefs r) (w_InlineOutput r) (w_Error r) (w_CreatedAt r) (w_StartedAt r)
  (w_UpdatedAt r) (w_FinishedAt r) (w_ExecutionAttempts r) (w_TargetRetryAfter r)
  (w_CheckpointRef r) (w_PreemptionCount r) (w_RuntimePriority r) (w_ActualCostCents r)
  (w_PreemptionsInitiated r) (w_TransitionPlanIDs r) (w_CancellationOwner r)
  (w_BudgetReservationToken r) (w_BudgetReservationAttempt r) (w_BudgetReservationCents r)
  (w_BudgetReservationLimitCents r) (w_BudgetReservationCurrency r) (w_BudgetCleanupToken r)
  (w_BudgetCleanupAttempt r) (w_BudgetSettlementPending r) (w_BudgetSettlementAttempt r)
  (w_BudgetSettlementActualCents r).

(** ** Leases and their cleanup *)

Record AcceleratorLease := mkAcceleratorLease {
  lease_AcceleratorID : string;
  lease_WorkloadID : string;
  lease_FencingToken : Z;
  lease_ExpiresAt : Time;
}.
#[export] Instance eta_AcceleratorLease : Eta AcceleratorLease := fun r => mkAcceleratorLease
  (lease_AcceleratorID r) (lease_WorkloadID r) (lease_FencingToken r) (lease_ExpiresAt r).

Record AcceleratorLeaseCleanupIntent := mkAcceleratorLeaseCleanupIntent {
  lci_AcceleratorID : string;
  lci_Owner : string;
  lci_FencingToken : Z;
  lci_WorkloadID : string;
  lci_ExpectedWorkloadRevision : Z;
  lci_TerminalDisposition : string;
  lci_TerminalErrorCode : string;
  lci_ReleaseConfirmed : bool;
  lci_TerminalPublished : bool;
  lci_AuditPublished : bool;
  lci_NotificationPublished : bool;
  lci_BudgetSettled : bool;
  lci_Attempts : Z;
  lci_LastError : string;
  lci_CreatedAt : Time;
  lci_UpdatedAt : Time;
  lci_NextRetryAt : option Time;
}.
#[export] Instance eta_AcceleratorLeaseCleanupIntent : Eta AcceleratorLeaseCleanupIntent := fun r => mkAcceleratorLeaseCleanupIntent
  (lci_AcceleratorID r) (lci_Owner r) (lci_FencingToken r) (lci_WorkloadID r)
  (lci_ExpectedWorkloadRevision r) (lci_TerminalDisposition r) (lci_TerminalErrorCode r)
  (lci_ReleaseConfirmed r) (lci_TerminalPublished r) (lci_AuditPublished r)
  (lci_NotificationPublished r) (lci_BudgetSettled r) (lci_Attempts r) (lci_LastError r)
  (lci_CreatedAt r) (lci_UpdatedAt r) (lci_NextRetryAt r).

(** ** Residency *)

Record ModelResidency := mkModelResidency {
  mr_ID : string;
  mr_Revision : Z;
  mr_TargetGeneration : Z;
  mr_ExecutionFingerprint : string;
  mr_TargetID : string;
  mr_AcceleratorID : string;
  mr_Adapter : string;
  mr_Model : string;
  mr_DesiredTier : string;
  mr_ObservedTier : string;
  mr_Policy : string;
  mr_CapacityVerified : bool;
  mr_WarmRAMSupported : bool;
  mr_WarmModelBytes : Z;
  mr_WarmModelBytesVerified : bool;
  mr_SessionCheckpointable : bool;
  mr_ReuseScore : float64;
  mr_UseCount : Z;
  mr_LastUsedAt : option Time;
  mr_LastLoadedAt : option Time;
  mr_MinResidentUntil : option Time;
  mr_IdleUnloadAfterSec : Z;
  mr_LastError : string;
  mr_UpdatedAt : Time;
}.
#[export] Instance eta_ModelResidency : Eta ModelResidency := fun r => mkModelResidency
  (mr_ID r) (mr_Revision r) (mr_TargetGeneration r) (mr_ExecutionFingerprint r) (mr_TargetID r)
  (mr_AcceleratorID r) (mr_Adapter r) (mr_Model r) (mr_DesiredTier r) (mr_ObservedTier r)
  (mr_Policy r) (mr_CapacityVerified r) (mr_WarmRAMSupported r) (mr_WarmModelBytes r)
  (mr_WarmModelBytesVerified r) (mr_SessionCheckpointable r) (mr_ReuseScore r) (mr_UseCount r)
  (mr_LastUsedAt r) (mr_LastLoadedAt r) (mr_MinResidentUntil r) (mr_IdleUnloadAfterSec r)
  (mr_LastError r) (mr_UpdatedAt r).

Record ResidencyTransition := mkResidencyTransition {
  rt_ID : string;
  rt_IdempotencyKey : string;
  rt_TargetID : string;
  rt_AcceleratorID : string;
  rt_Model : string;
  rt_FromTier : string;
  rt_ToTier : string;
  rt_Reason : string;
  rt_RequestedBy : string;
  rt_WorkloadID : string;
  rt_Status : ResidencyTransitionStatus;
  rt_Revision : Z;
  rt_TargetGeneration : Z;
  rt_ExecutionFingerprint : string;
  rt_FencingToken : Z;
  rt_LeaseOriginAcceleratorID : string;
  rt_LeaseOriginWorkloadID : string;
  rt_LeaseOriginFencingToken : Z;
  rt_LeaseOriginAllocated : bool;
  rt_Error : string;
  rt_ObservedTier : string;
  rt_WarmModelBytes : Z;
  rt_WarmModelBytesVerified : bool;
  rt_RuntimeIdentity : string;
  rt_CapabilityVersion : string;
  rt_CapabilityRevision : string;
  rt_ObservedFence : Z;
  rt_ProjectionRepairPending : bool;
  rt_CreatedAt : Time;
  rt_StartedAt : option Time;
  rt_FinishedAt : option Time;
}.
#[export] Instance eta_ResidencyTransition : Eta ResidencyTransition := fun r => mkResidencyTransition
  (rt_ID r) (rt_IdempotencyKey r) (rt_TargetID r) (rt_AcceleratorID r) (rt_Model r)
  (rt_FromTier r) (rt_ToTier r) (rt_Reason r) (rt_RequestedBy r) (rt_WorkloadID r) (rt_Status r)
  (rt_Revision r) (rt_TargetGeneration r) (rt_ExecutionFingerprint r) (rt_FencingToken r)
  (rt_LeaseOriginAcceleratorID r) (rt_LeaseOriginWorkloadID r) (rt_LeaseOriginFencingToken r)
  (rt_LeaseOriginAllocated r) (rt_Error r) (rt_ObservedTier r) (rt_WarmModelBytes r)
  (rt_WarmModelBytesVerified r) (rt_RuntimeIdentity r) (rt_CapabilityVersion r)
  (rt_CapabilityRevision r) (rt_ObservedFence r) (rt_ProjectionRepairPending r) (rt_CreatedAt r)
  (rt_StartedAt r) (rt_FinishedAt r).

(** ** Deliveries, commands, budgets *)

Record NotificationDelivery := mkNotificationDelivery {
  nd_ID : string;
  nd_IdempotencyKey : string;
  nd_WorkloadID : string;
  nd_OwnerID : string;
  nd_EventType : string;
  nd_Destination : string;
  nd_Payload : string;
  nd_Signature : string;
  nd_Attempts : Z;
  nd_NextAttemptAt : Time;
  nd_DeliveredAt : option Time;
  nd_FailedAt : option Time;
  nd_LastError : string;
  nd_CreatedAt : Time;
  nd_UpdatedAt : Time;
}.
#[export] Instance eta_NotificationDelivery : Eta NotificationDelivery := fun r => mkNotificationDelivery
  (nd_ID r) (nd_IdempotencyKey r) (nd_WorkloadID r) (nd_OwnerID r) (nd_EventType r)
  (nd_Destination r) (nd_Payload r) (nd_Signature r) (nd_Attempts r) (nd_NextAttemptAt r)
  (nd_DeliveredAt r) (nd_FailedAt r) (nd_LastError r) (nd_CreatedAt r) (nd_UpdatedAt r).

Record NodeCommand := mkNodeCommand {
  nc_ID : string;
  nc_Revision : Z;
  nc_IdempotencyKey : string;
  nc_NodeID : string;
  nc_Command : string;
  nc_Args : option (list (string * any));
  nc_IssuedBy : string;
  nc_Signature : string;
  nc_Status : NodeCommandStatus;
  nc_CreatedAt : Time;
  nc_ExpiresAt : Time;
  nc_SentAt : option Time;
  nc_CompletedAt : option Time;
  nc_Attempts : Z;
  nc_LastSentAt : option Time;
  nc_Result : string;
  nc_Error : string;
  nc_Uncertain : bool;
  nc_EvidenceKind : string;
  nc_ReconcilesCommandID : string;
  nc_RecoveryAttempts : Z;
  nc_RecoveryNextAt : option Time;
  nc_UpdatedAt : Time;
}.
#[export] Instance eta_NodeCommand : Eta NodeCommand := fun r => mkNodeCommand (nc_ID r)
  (nc_Revision r) (nc_IdempotencyKey r) (nc_NodeID r) (nc_Command r) (nc_Args r) (nc_IssuedBy r)
  (nc_Signature r) (nc_Status r) (nc_CreatedAt r) (nc_ExpiresAt r) (nc_SentAt r)
  (nc_CompletedAt r) (nc_Attempts r) (nc_LastSentAt r) (nc_Result r) (nc_Error r)
  (nc_Uncertain r) (nc_EvidenceKind r) (nc_ReconcilesCommandID r) (nc_RecoveryAttempts r)
  (nc_RecoveryNextAt r) (nc_UpdatedAt r).

Record BudgetReservation := mkBudgetReservation {
  br_WorkloadID : string;
  br_PrincipalID : string;
  br_Revision : Z;
  br_Attempt : Z;
  br_OwnershipToken : string;
  br_ReservedCents : Z;
  br_LimitCents : Z;
  br_Currency : string;
  br_ActualCents : Z;
  br_Status : BudgetReservationStatus;
  br_CreatedAt : Time;
  br_UpdatedAt : Time;
}.
#[export] Instance eta_BudgetReservation : Eta BudgetReservation := fun r => mkBudgetReservation
  (br_WorkloadID r) (br_PrincipalID r) (br_Revision r) (br_Attempt r) (br_OwnershipToken r)
  (br_ReservedCents r) (br_LimitCents r) (br_Currency r) (br_ActualCents r) (br_Status r)
  (br_CreatedAt r) (br_UpdatedAt r).

(** ** Other stored records *)

Record TransformationApproval := mkTransformationApproval {
  ta_WorkloadID : string;
  ta_PlanHash : string;
  ta_ApproverID : string;
  ta_ApprovalMode : string;
  ta_CreatedAt : Time;
}.
#[export] Instance eta_TransformationApproval : Eta TransformationApproval := fun r => mkTransformationApproval
  (ta_WorkloadID r) (ta_PlanHash r) (ta_ApproverID r) (ta_ApprovalMode r) (ta_CreatedAt r).

Record SchedulerLearningSample := mkSchedulerLearningSample {
  ls_ID : Z;
  ls_AcceleratorID : string;
  ls_RuntimeVersion : string;
  ls_WorkloadClass : string;
  ls_Fingerprint : string;
  ls_Predicted : string;
  ls_Observed : string;
  ls_Outcome : string;
  ls_CreatedAt : Time;
}.
#[export] Instance eta_SchedulerLearningSample : Eta SchedulerLearningSample := fun r => mkSchedulerLearningSample
  (ls_ID r) (ls_AcceleratorID r) (ls_RuntimeVersion r) (ls_WorkloadClass r) (ls_Fingerprint r)
  (ls_Predicted r) (ls_Observed r) (ls_Outcome r) (ls_CreatedAt r).

Record InterferenceProfile := mkInterferenceProfile {
  ip_Key : string;
  ip_AcceleratorID : string;
  ip_RuntimeVersion : string;
  ip_WorkloadClasses : list string;
  ip_P95VRAMMB : Z;
  ip_P95DurationMS : Z;
  ip_PredictedSlowdown : float64;
  ip_Samples : Z;
  ip_Successes : Z;
  ip_Rollbacks : Z;
  ip_Confidence : float64;
  ip_Version : Z;
  ip_UpdatedAt : Time;
}.
#[export] Instance eta_InterferenceProfile : Eta InterferenceProfile := fun r => mkInterferenceProfile
  (ip_Key r) (ip_AcceleratorID r) (ip_RuntimeVersion r) (ip_WorkloadClasses r) (ip_P95VRAMMB r)
  (ip_P95DurationMS r) (ip_PredictedSlowdown r) (ip_Samples r) (ip_Successes r) (ip_Rollbacks r)
  (ip_Confidence r) (ip_Version r) (ip_UpdatedAt r).

Record TargetPolicyOverride := mkTargetPolicyOverride {
  tpo_TargetID : string;
  tpo_Enabled : bool;
  tpo_Quarantined : bool;
  tpo_SharingEnabled : bool;
  tpo_GuardedExploration : bool;
  tpo_VRAMReserveMB : Z;
  tpo_MaxSlowdown : float64;
  tpo_UpdatedBy : string;
  tpo_UpdatedAt : Time;
}.
#[export] Instance eta_TargetPolicyOverride : Eta TargetPolicyOverride := fun r => mkTargetPolicyOverride
  (tpo_TargetID r) (tpo_Enabled r) (tpo_Quarantined r) (tpo_SharingEnabled r)
  (tpo_GuardedExploration r) (tpo_VRAMReserveMB r) (tpo_MaxSlowdown r) (tpo_UpdatedBy r)
  (tpo_UpdatedAt r).

Record PromptMapping := mkPromptMapping {
  pm_PublicPromptID : string;
  pm_WorkloadID : string;
  pm_TargetID : string;
  pm_BackendPromptID : string;
  pm_ClientID : string;
}.
#[export] Instance eta_PromptMapping : Eta PromptMapping := fun r => mkPromptMapping
  (pm_PublicPromptID r) (pm_WorkloadID r) (pm_TargetID r) (pm_BackendPromptID r) (pm_ClientID r).

Record AuditEvent := mkAuditEvent {
  ae_ID : string;
  ae_Timestamp : Time;
  ae_ActorID : string;
  ae_OwnerID : string;
  ae_WorkloadID : string;
  ae_Type : string;
  ae_Severity : string;
  ae_Payload : string;
}.
#[export] Instance eta_AuditEvent : Eta AuditEvent := fun r => mkAuditEvent (ae_ID r)
  (ae_Timestamp r) (ae_ActorID r) (ae_OwnerID r) (ae_WorkloadID r) (ae_Type r) (ae_Severity r)
  (ae_Payload r).

Record Incident := mkIncident {
  inc_ID : string;
  inc_OwnerID : string;
  inc_Severity : string;
  inc_Confidence : float64;
  inc_Summary : string;
  inc_EvidenceRefs : list string;
  inc_Status : string;
  inc_Proposal : string;
  inc_RequestedModelTier : string;
  inc_EvidenceClassification : string;
  inc_EvidenceSanitized : bool;
  inc_Egress : string;
  inc_AnalysisWorkloadID : string;
  inc_ActualProvider : string;
  inc_ActualModel : string;
  inc_CreatedAt : Time;
  inc_UpdatedAt : Time;
}.
#[export] Instance eta_Incident : Eta Incident := fun r => mkIncident (inc_ID r) (inc_OwnerID r)
  (inc_Severity r) (inc_Confidence r) (inc_Summary r) (inc_EvidenceRefs r) (inc_Status r)
  (inc_Proposal r) (inc_RequestedModelTier r) (inc_EvidenceClassification r)
  (inc_EvidenceSanitized r) (inc_Egress r) (inc_AnalysisWorkloadID r) (inc_ActualProvider r)
  (inc_ActualModel r) (inc_CreatedAt r) (inc_UpdatedAt r).

Record TransitionStep := mkTransitionStep {
  ts_Action : string;
  ts_WorkloadID : string;
  ts_FromState : string;
  ts_ToState : string;
  ts_Policy : string;
}.
#[export] Instance eta_TransitionStep : Eta TransitionStep := fun r => mkTransitionStep
  (ts_Action r) (ts_WorkloadID r) (ts_FromState r) (ts_ToState r) (ts_Policy r).

Record TransitionPlan := mkTransitionPlan {
  tp_ID : string;
  tp_WorkloadID : string;
  tp_VictimWorkloadID : string;
  tp_TargetID : string;
  tp_AcceleratorID : string;
  tp_Reason : string;
  tp_Steps : list TransitionStep;
  tp_Rollback : list TransitionStep;
  tp_EstimatedDuration : string;
  tp_EstimatedMemoryChangeMB : Z;
  tp_Status : string;
  tp_Error : string;
  tp_CreatedAt : Time;
  tp_UpdatedAt : Time;
  tp_FinishedAt : option Time;
}.
#[export] Instance eta_TransitionPlan : Eta TransitionPlan := fun r => mkTransitionPlan
  (tp_ID r) (tp_WorkloadID r) (tp_VictimWorkloadID r) (tp_TargetID r) (tp_AcceleratorID r)
  (tp_Reason r) (tp_Steps r) (tp_Rollback r) (tp_EstimatedDuration r)
  (tp_EstimatedMemoryChangeMB r) (tp_Status r) (tp_Error r) (tp_CreatedAt r) (tp_UpdatedAt r)
  (tp_FinishedAt r).

Record RuntimeAvailability := mkRuntimeAvailability {
  ra_Status : string;
  ra_ObservedAt : Time;
}.
#[export] Instance eta_RuntimeAvailability : Eta RuntimeAvailability := fun r => mkRuntimeAvailability
  (ra_Status r) (ra_ObservedAt r).

Record RuntimeProfile := mkRuntimeProfile {
  rp_ProfileID : string;
  rp_Version : string;
  rp_Digest : string;
  rp_CapabilityRevision : string;
  rp_CapabilityDefinitionHash : string;
  rp_Modality : string;
  rp_ExecutionLocality : string;
  rp_Operations : list string;
  rp_Features : list string;
  rp_InputSchema : JSONSchema;
  rp_OutputSchema : JSONSchema;
  rp_AcceptedArtifactTypes : list string;
  rp_ProducedArtifactTypes : list string;
  rp_CompatibilityOperations : list string;
  rp_Availability : option RuntimeAvailability;
  rp_Status : string;
  rp_CalibrationStatus : string;
  rp_Adapter : string;
  rp_Model : string;
  rp_Workflow : string;
  rp_CreatedAt : Time;
}.
#[export] Instance eta_RuntimeProfile : Eta RuntimeProfile := fun r => mkRuntimeProfile
  (rp_ProfileID r) (rp_Version r) (rp_Digest r) (rp_CapabilityRevision r)
  (rp_CapabilityDefinitionHash r) (rp_Modality r) (rp_ExecutionLocality r) (rp_Operations r)
  (rp_Features r) (rp_InputSchema r) (rp_OutputSchema r) (rp_AcceptedArtifactTypes r)
  (rp_ProducedArtifactTypes r) (rp_CompatibilityOperations r) (rp_Availability r) (rp_Status r)
  (rp_CalibrationStatus r) (rp_Adapter r) (rp_Model r) (rp_Workflow r) (rp_CreatedAt r).

Record WorkingSet := mkWorkingSet {
  wset_OwnerID : string;
  wset_SessionID : string;
  wset_PhaseID : string;
  wset_PhaseType : string;
  wset_AffinityKey : string;
  wset_DesiredProfiles : list string;
  wset_LikelyNextProfiles : list string;
  wset_UnlikelyProfiles : list string;
  wset_CreatedAt : Time;
  wset_UpdatedAt : Time;
  wset_ReleasedAt : option Time;
}.
#[export] Instance eta_WorkingSet : Eta WorkingSet := fun r => mkWorkingSet (wset_OwnerID r)
  (wset_SessionID r) (wset_PhaseID r) (wset_PhaseType r) (wset_AffinityKey r)
  (wset_DesiredProfiles r) (wset_LikelyNextProfiles r) (wset_UnlikelyProfiles r)
  (wset_CreatedAt r) (wset_UpdatedAt r) (wset_ReleasedAt r).

Record BrowserSession := mkBrowserSession {
  bs_IDHash : string;
  bs_PrincipalID : string;
  bs_Plane : string;
  bs_OwnerID : string;
  bs_Scopes : list string;
  bs_Adapters : list string;
  bs_NodeID : string;
  bs_MaxPriority : Z;
  bs_MaxIncidentSeverity : string;
  bs_EgressPolicy : string;
  bs_ConcurrencyLimit : Z;
  bs_BudgetCents : Z;
  bs_PreemptionBudget : Z;
  bs_Kind : string;
  bs_CSRFHash : string;
  bs_ExpiresAt : Time;
  bs_CreatedAt : Time;
}.
#[export] Instance eta_BrowserSession : Eta BrowserSession := fun r => mkBrowserSession
  (bs_IDHash r) (bs_PrincipalID r) (bs_Plane r) (bs_OwnerID r) (bs_Scopes r) (bs_Adapters r)
  (bs_NodeID r) (bs_MaxPriority r) (bs_MaxIncidentSeverity r) (bs_EgressPolicy r)
  (bs_ConcurrencyLimit r) (bs_BudgetCents r) (bs_PreemptionBudget r) (bs_Kind r) (bs_CSRFHash r)
  (bs_ExpiresAt r) (bs_CreatedAt r).

Record NodeEnrollment := mkNodeEnrollment {
  ne_NodeID : string;
  ne_NodeName : string;
  ne_TokenHash : string;
  ne_Status : string;
  ne_CreatedAt : Time;
  ne_UpdatedAt : Time;
}.
#[export] Instance eta_NodeEnrollment : Eta NodeEnrollment := fun r => mkNodeEnrollment
  (ne_NodeID r) (ne_NodeName r) (ne_TokenHash r) (ne_Status r) (ne_CreatedAt r) (ne_UpdatedAt r).

