(* ===== verification/DomainNode.v ===== *)
(** * Data model: nodes, accelerators and measured profiles

    The records of [domain/domain.go] that the node, engine and profile stores
    hold, field for field. *)

From Stdlib Require Import SpecFloat.
From S2P Require Import Prelude Domain.

(** ** Nodes *)

Record CapacityBudget := mkCapacityBudget {
  cb_VRAMTotalBytes : Z;
  cb_VRAMReserveBytes : Z;
  cb_VRAMHardCapBytes : Z;
  cb_RAMTotalBytes : Z;
  cb_RAMReserveBytes : Z;
  cb_RAMHardCapBytes : Z;
  cb_DiskAvailableBytes : Z;
}.
#[export] Instance eta_CapacityBudget : Eta CapacityBudget := fun r => mkCapacityBudget
  (cb_VRAMTotalBytes r) (cb_VRAMReserveBytes r) (cb_VRAMHardCapBytes r) (cb_RAMTotalBytes r)
  (cb_RAMReserveBytes r) (cb_RAMHardCapBytes r) (cb_DiskAvailableBytes r).

Record ResidencyCapabilities := mkResidencyCapabilities {
  rc_Version : string;
  rc_SupportsWarmRAM : bool;
  rc_WarmRAMVerified : bool;
  rc_WarmRAMVerification : string;
  rc_SupportsSessionCheckpoint : bool;
  rc_SessionCheckpointVerified : bool;
  rc_SessionCheckpointProof : string;
  rc_SupportsYield : bool;
  rc_YieldVerified : bool;
  rc_YieldProof : string;
  rc_SupportsModelLifecycle : bool;
  rc_SupportsAcceleratorReclaim : bool;
  rc_MaxResidentModels : Z;
  rc_MaxAcceleratorsPerWorkload : Z;
}.
#[export] Instance eta_ResidencyCapabilities : Eta ResidencyCapabilities := fun r => mkResidencyCapabilities
  (rc_Version r) (rc_SupportsWarmRAM r) (rc_WarmRAMVerified r) (rc_WarmRAMVerification r)
  (rc_SupportsSessionCheckpoint r) (rc_SessionCheckpointVerified r)
  (rc_SessionCheckpointProof r) (rc_SupportsYield r) (rc_YieldVerified r) (rc_YieldProof r)
  (rc_SupportsModelLifecycle r) (rc_SupportsAcceleratorReclaim r) (rc_MaxResidentModels r)
  (rc_MaxAcceleratorsPerWorkload r).

Record CapabilityAliases := mkCapabilityAliases {
  ca_SupportsModelLifecycle : bool;
  ca_SupportsAcceleratorReclaim : bool;
  ca_MaxResidentModels : Z;
  ca_WarmRAMSupported : bool;
}.
#[export] Instance eta_CapabilityAliases : Eta CapabilityAliases := fun r => mkCapabilityAliases
  (ca_SupportsModelLifecycle r) (ca_SupportsAcceleratorReclaim r) (ca_MaxResidentModels r)
  (ca_WarmRAMSupported r).

Record Desired := mkDesired {
  des_SchedulingEnabled : bool;
  des_Power : string;
  des_DesiredPool : string;
  des_AutoReconcile : bool;
  des_PowerControlMode : string;
}.
#[export] Instance eta_Desired : Eta Desired := fun r => mkDesired (des_SchedulingEnabled r)
  (des_Power r) (des_DesiredPool r) (des_AutoReconcile r) (des_PowerControlMode r).

Record SystemTelemetry := mkSystemTelemetry {
  st_Hostname : string;
  st_OS : string;
  st_Kernel : string;
  st_Architecture : string;
  st_CPUModel : string;
  st_CPULogical : Z;
  st_CPUUtilizationPct : float64;
  st_Load1 : float64;
  st_Load5 : float64;
  st_Load15 : float64;
  st_RAMTotalMB : Z;
  st_RAMUsedMB : Z;
  st_RAMAvailableMB : Z;
  st_SwapTotalMB : Z;
  st_SwapUsedMB : Z;
  st_RootDiskTotalMB : Z;
  st_RootDiskUsedMB : Z;
  st_RootDiskFreeMB : Z;
  st_NetworkAddresses : list string;
  st_NetworkRXBPS : float64;
  st_NetworkTXBPS : float64;
  st_UptimeSeconds : float64;
  st_SampledAt : Time;
}.
#[export] Instance eta_SystemTelemetry : Eta SystemTelemetry := fun r => mkSystemTelemetry
  (st_Hostname r) (st_OS r) (st_Kernel r) (st_Architecture r) (st_CPUModel r) (st_CPULogical r)
  (st_CPUUtilizationPct r) (st_Load1 r) (st_Load5 r) (st_Load15 r) (st_RAMTotalMB r)
  (st_RAMUsedMB r) (st_RAMAvailableMB r) (st_SwapTotalMB r) (st_SwapUsedMB r)
  (st_RootDiskTotalMB r) (st_RootDiskUsedMB r) (st_RootDiskFreeMB r) (st_NetworkAddresses r)
  (st_NetworkRXBPS r) (st_NetworkTXBPS r) (st_UptimeSeconds r) (st_SampledAt r).

Record LogEntry := mkLogEntry {
  le_Timestamp : Time;
  le_Level : string;
  le_Message : string;
  le_Attributes : option (list (string * any));
}.
#[export] Instance eta_LogEntry : Eta LogEntry := fun r => mkLogEntry (le_Timestamp r)
  (le_Level r) (le_Message r) (le_Attributes r).

Record Observed := mkObserved {
  obs_Connectivity : string;
  obs_Lifecycle : string;
  obs_Power : string;
  obs_Ready : bool;
  obs_LastHeartbeat : Time;
  obs_LastSeenAt : Time;
  obs_AgentVersion : string;
  obs_System : SystemTelemetry;
  obs_AgentLogs : list LogEntry;
}.
#[export] Instance eta_Observed : Eta Observed := fun r => mkObserved (obs_Connectivity r)
  (obs_Lifecycle r) (obs_Power r) (obs_Ready r) (obs_LastHeartbeat r) (obs_LastSeenAt r)
  (obs_AgentVersion r) (obs_System r) (obs_AgentLogs r).

Record RuntimeCapabilities := mkRuntimeCapabilities {
  rcap_SupportsContinuousBatching : bool;
  rcap_SupportsWeightSleepToRAM : bool;
  rcap_SupportsKVOffloadCPU : bool;
  rcap_SupportsKVRestore : bool;
  rcap_SupportsStagedWake : bool;
  rcap_SupportsHotKVResize : bool;
  rcap_SupportsRuntimeRestartProfile : bool;
  rcap_SupportsDrain : bool;
  rcap_SupportsPrefillDecodeSplit : bool;
}.
#[export] Instance eta_RuntimeCapabilities : Eta RuntimeCapabilities := fun r => mkRuntimeCapabilities
  (rcap_SupportsContinuousBatching r) (rcap_SupportsWeightSleepToRAM r)
  (rcap_SupportsKVOffloadCPU r) (rcap_SupportsKVRestore r) (rcap_SupportsStagedWake r)
  (rcap_SupportsHotKVResize r) (rcap_SupportsRuntimeRestartProfile r) (rcap_SupportsDrain r)
  (rcap_SupportsPrefillDecodeSplit r).

Record Accelerator := mkAccelerator {
  acc_ID : string;
  acc_NodeID : string;
  acc_Vendor : string;
  acc_Model : string;
  acc_MemoryKind : string;
  acc_VRAMTotalMB : Z;
  acc_Driver : string;
  acc_RuntimeCapabilities : option RuntimeCapabilities;
  acc_VRAMUsedMB : Z;
  acc_VRAMFreeMB : Z;
  acc_UtilizationPct : float64;
  acc_TemperatureC : float64;
  acc_PowerDrawW : float64;
  acc_PowerLimitW : float64;
  acc_FanSpeedPct : float64;
  acc_GraphicsClockMHz : float64;
  acc_MemoryClockMHz : float64;
  acc_PCIeGeneration : Z;
  acc_PCIeWidth : Z;
  acc_PerformanceState : string;
}.
#[export] Instance eta_Accelerator : Eta Accelerator := fun r => mkAccelerator (acc_ID r)
  (acc_NodeID r) (acc_Vendor r) (acc_Model r) (acc_MemoryKind r) (acc_VRAMTotalMB r)
  (acc_Driver r) (acc_RuntimeCapabilities r) (acc_VRAMUsedMB r) (acc_VRAMFreeMB r)
  (acc_UtilizationPct r) (acc_TemperatureC r) (acc_PowerDrawW r) (acc_PowerLimitW r)
  (acc_FanSpeedPct r) (acc_GraphicsClockMHz r) (acc_MemoryClockMHz r) (acc_PCIeGeneration r)
  (acc_PCIeWidth r) (acc_PerformanceState r).

Record Node := mkNode {
  node_ID : string;
  node_Name : string;
  node_CapabilityVersion : string;
  node_Capabilities : ResidencyCapabilities;
  node_Capacity : CapacityBudget;
  node_MaxAcceleratorsPerWorkload : Z;
  node_LocationClass : string;
  node_PriorityTier : string;
  node_SchedulingState : string;
  node_Desired : Desired;
  node_Observed : Observed;
  node_Accelerators : list Accelerator;
  node_RegisteredAt : Time;
  node_UpdatedAt : Time;
}.
#[export] Instance eta_Node : Eta Node := fun r => mkNode (node_ID r) (node_Name r)
  (node_CapabilityVersion r) (node_Capabilities r) (node_Capacity r)
  (node_MaxAcceleratorsPerWorkload r) (node_LocationClass r) (node_PriorityTier r)
  (node_SchedulingState r) (node_Desired r) (node_Observed r) (node_Accelerators r)
  (node_RegisteredAt r) (node_UpdatedAt r).

Record EngineInstance := mkEngineInstance {
  ei_ID : string;
  ei_NodeID : string;
  ei_AcceleratorID : string;
  ei_ProfileID : string;
  ei_ManagedByController : bool;
  ei_PID : Z;
  ei_State : string;
  ei_StartedAt : Time;
}.
#[export] Instance eta_EngineInstance : Eta EngineInstance := fun r => mkEngineInstance
  (ei_ID r) (ei_NodeID r) (ei_AcceleratorID r) (ei_ProfileID r) (ei_ManagedByController r)
  (ei_PID r) (ei_State r) (ei_StartedAt r).

(** ** Measured performance *)

Record Stat := mkStat {
  stat_Mean : float64;
  stat_Stdev : float64;
  stat_P95 : float64;
  stat_Min : float64;
  stat_Max : float64;
  stat_N : Z;
}.
#[export] Instance eta_Stat : Eta Stat := fun r => mkStat (stat_Mean r) (stat_Stdev r)
  (stat_P95 r) (stat_Min r) (stat_Max r) (stat_N r).

Record HardwareIdentity := mkHardwareIdentity {
  hi_GPUModel : string;
  hi_VRAMTotalMB : Z;
  hi_HostCPU : string;
  hi_HostRAMMB : Z;
  hi_PCIeInfo : string;
}.
#[export] Instance eta_HardwareIdentity : Eta HardwareIdentity := fun r => mkHardwareIdentity
  (hi_GPUModel r) (hi_VRAMTotalMB r) (hi_HostCPU r) (hi_HostRAMMB r) (hi_PCIeInfo r).

Record EvictReloadStats := mkEvictReloadStats {
  er_TSleepSeconds : Stat;
  er_TWakeWeightsSeconds : Stat;
  er_TFirstTokenAfterWakeSecs : Stat;
  er_VRAMFreedMB : Stat;
  er_ColdLoadSeconds : float64;
}.
#[export] Instance eta_EvictReloadStats : Eta EvictReloadStats := fun r => mkEvictReloadStats
  (er_TSleepSeconds r) (er_TWakeWeightsSeconds r) (er_TFirstTokenAfterWakeSecs r)
  (er_VRAMFreedMB r) (er_ColdLoadSeconds r).

Record KVProbePoint := mkKVProbePoint {
  kv_ContextTokens : Z;
  kv_TReprefillRecomputeSeconds : float64;
  kv_TSlotSaveSeconds : float64;
  kv_TSlotRestoreSeconds : float64;
  kv_TResumePrefillSeconds : float64;
  kv_ResumePrefillTokens : Z;
  kv_KVFileMB : float64;
  kv_KVReused : bool;
}.
#[export] Instance eta_KVProbePoint : Eta KVProbePoint := fun r => mkKVProbePoint
  (kv_ContextTokens r) (kv_TReprefillRecomputeSeconds r) (kv_TSlotSaveSeconds r)
  (kv_TSlotRestoreSeconds r) (kv_TResumePrefillSeconds r) (kv_ResumePrefillTokens r)
  (kv_KVFileMB r) (kv_KVReused r).

Record ThroughputPoint := mkThroughputPoint {
  tpt_ContextTokens : Z;
  tpt_Concurrency : Z;
  tpt_TokPerSec : float64;
}.
#[export] Instance eta_ThroughputPoint : Eta ThroughputPoint := fun r => mkThroughputPoint
  (tpt_ContextTokens r) (tpt_Concurrency r) (tpt_TokPerSec r).

Record PerformanceProfile := mkPerformanceProfile {
  pf_ID : string;
  pf_Hardware : HardwareIdentity;
  pf_RuntimeName : string;
  pf_RuntimeVersion : string;
  pf_ModelArtifactID : string;
  pf_Quantization : string;
  pf_ContextProfile : Z;
  pf_ShardCount : Z;
  pf_Concurrency : Z;
  pf_VRAMFootprintMB : Z;
  pf_VRAMMeasurementMethod : string;
  pf_HostRAMFootprintMB : Z;
  pf_EvictReload : EvictReloadStats;
  pf_KV : list KVProbePoint;
  pf_Prefill : list ThroughputPoint;
  pf_Decode : list ThroughputPoint;
  pf_Capabilities : RuntimeCapabilities;
  pf_MeasuredAt : Time;
  pf_SampleCount : Z;
  pf_Notes : list string;
}.
#[export] Instance eta_PerformanceProfile : Eta PerformanceProfile := fun r => mkPerformanceProfile
  (pf_ID r) (pf_Hardware r) (pf_RuntimeName r) (pf_RuntimeVersion r) (pf_ModelArtifactID r)
  (pf_Quantization r) (pf_ContextProfile r) (pf_ShardCount r) (pf_Concurrency r)
  (pf_VRAMFootprintMB r) (pf_VRAMMeasurementMethod r) (pf_HostRAMFootprintMB r)
  (pf_EvictReload r) (pf_KV r) (pf_Prefill r) (pf_Decode r) (pf_Capabilities r)
  (pf_MeasuredAt r) (pf_SampleCount r) (pf_Notes r).

