(* ===== verification/GoJSON.v ===== *)
(** * [encoding/json] as the store uses it

    The store compares records and argument maps by their JSON text
    ([sameJSONSchemaMeaning], [verifyNodeCommandReplay],
    [displacementIdentityEqual]) and hashes it
    ([observedResultEnvelopeDigest]).  This file prints JSON the way Go 1.23
    does - string escapes, sorted map keys, RFC 3339 times - and shows that the
    text determines the value for valid UTF-8. *)

From S2P Require Import Prelude GoText Domain.

(** ** UTF-8 *)

Definition cont (c : Ascii.ascii) : bool := in_range 128 191 c.

Definition utf8_2 (a b : Ascii.ascii) : bool := in_range 194 223 a && cont b.

Definition utf8_3 (a b c : Ascii.ascii) : bool :=
  cont c && ((in_range 224 224 a && in_range 160 191 b)
             || (in_range 225 236 a && cont b)
             || (in_range 237 237 a && in_range 128 159 b)
             || (in_range 238 239 a && cont b)).

Definition utf8_4 (a b c d : Ascii.ascii) : bool :=
  cont c && cont d && ((in_range 240 240 a && in_range 144 191 b)
                       || (in_range 241 243 a && cont b)
                       || (in_range 244 244 a && in_range 128 143 b)).

(** The leading rune of a byte string and the rest: its bytes, or [None] for a
    byte that starts no valid encoding ([utf8.RuneError] with width 1). *)
Definition decode (a : Ascii.ascii) (s : string) : option string * string :=
  if (code a <? 128)%N then (Some (String a ""), s)
  else match s with
       | String b s2 =>
           if utf8_2 a b then (Some (String a (String b "")), s2)
           else match s2 with
                | String c s3 =>
                    if utf8_3 a b c then (Some (String a (String b (String c ""))), s3)
                    else match s3 with
                         | String d s4 =>
                             if utf8_4 a b c d
                             then (Some (String a (String b (String c (String d "")))), s4)
                             else (None, s)
                         | EmptyString => (None, s)
                         end
                | EmptyString => (None, s)
                end
       | EmptyString => (None, s)
       end.

Lemma decode_shorter a s : (String.length (decode a s).2 <= String.length s)%nat.
Proof.
  unfold decode. destruct (code a <? 128)%N; [done|].
  destruct s as [|b s2]; [done|]. destruct (utf8_2 a b); simpl; [lia|].
  destruct s2 as [|c s3]; [done|]. destruct (utf8_3 a b c); simpl; [lia|].
  destruct s3 as [|d s4]; [done|]. destruct (utf8_4 a b c d); simpl; lia.
Qed.

(** Runes of a byte string; the length is enough fuel. *)
Fixpoint runes_go (fuel : nat) (s : string) : list (option string) :=
  match fuel, s with
  | S fuel, String a s1 => let '(r, rest) := decode a s1 in r :: runes_go fuel rest
  | _, _ => []
  end.
Definition runes (s : string) : list (option string) := runes_go (String.length s) s.

(** [utf8.ValidString]. *)
Definition utf8_valid (s : string) : bool := forallb (fun r => bool_decide (is_Some r)) (runes s).

(** ** Strings *)

Definition quote : Ascii.ascii := "034"%char.
Definition backslash : Ascii.ascii := "092"%char.

Definition esc (c : Ascii.ascii) : string := String backslash (String c "").
Definition esc_u (a b c d : Ascii.ascii) : string :=
  String backslash (String "u" (String a (String b (String c (String d ""))))).

Arguments esc c%_char.
Arguments esc_u (a b c d)%_char.

(** The text of one rune inside a JSON string, with HTML escaping on. *)
Definition json_rune (r : option string) : string :=
  match r with
  | None => esc_u "f" "f" "f" "d"
  | Some (String a "") =>
      let n := code a in
      if (n =? 34)%N then esc quote
      else if (n =? 92)%N then esc backslash
      else if (n =? 8)%N then esc "b"
      else if (n =? 12)%N then esc "f"
      else if (n =? 10)%N then esc "n"
      else if (n =? 13)%N then esc "r"
      else if (n =? 9)%N then esc "t"
      else if (n <? 32)%N || (n =? 60)%N || (n =? 62)%N || (n =? 38)%N
      then esc_u "0" "0" (hex_digit (n / 16)) (hex_digit (n mod 16))
      else String a ""
  | Some (String a (String b (String c ""))) =>
      if ((code a =? 226) && (code b =? 128) && in_range 168 169 c)%N
      then esc_u "2" "0" "2" (hex_digit (code c mod 16))
      else String a (String b (String c ""))
  | Some s => s
  end.

Definition json_body (rs : list (option string)) : string :=
  foldr (fun r acc => (json_rune r +:+ acc)%string) "" rs.

Definition json_string (s : string) : string :=
  String quote (json_body (runes s) +:+ String quote "").

(** ** Values *)

Inductive json :=
  | JNull
  | JBool (b : bool)
  | JNumber (literal : string)
  | JString (s : string)
  | JArray (l : list json)
  | JObject (l : list (string * json)).

(** The elements with a comma between them. *)
Definition commas (l : list string) : string :=
  foldr (fun x acc => (String "," (x +:+ acc))%string) ""%string l.
Definition sep_by (l : list string) : string :=
  match l with
  | [] => ""
  | x :: l => x +:+ commas l
  end.

Fixpoint print (j : json) : string :=
  match j with
  | JNull => "null"
  | JBool true => "true"
  | JBool false => "false"
  | JNumber s => s
  | JString s => json_string s
  | JArray l => ("[" +:+ sep_by (map print l) +:+ "]")%string
  | JObject l =>
      ("{" +:+ sep_by (map (fun kv => (json_string kv.1 +:+ ":" +:+ print kv.2)%string) l) +:+ "}")%string
  end.

(** [json.Marshal] of a dynamic value: map keys are sorted, an unsupported
    value anywhere is an error. *)
Fixpoint any_json (a : any) : option json :=
  match a with
  | AnyNil => Some JNull
  | AnyBool b => Some (JBool b)
  | AnyNumber s => Some (JNumber s)
  | AnyString s => Some (JString s)
  | AnySlice l => JArray <$> mapM any_json l
  | AnyMap l =>
      l' ← mapM (fun kv => v ← any_json kv.2; Some (kv.1, v)) l;
      Some (JObject (sort_slice (fun p q => String.ltb p.1 q.1) l'))
  | AnyUnsupported => None
  end.

(** [json.Marshal] of a [map[string]any] that may be [nil]. *)
Definition marshal_map (m : option (list (string * any))) : option string :=
  match m with
  | None => Some (print JNull)
  | Some l => print <$> any_json (AnyMap l)
  end.

(** ** The text determines the value

    [unrune] reads back one rune of a JSON string. *)

Definition unhex (c : Ascii.ascii) : N :=
  if (code c <? 58)%N then code c - 48 else code c - 87.

Definition unescape (e : Ascii.ascii) : Ascii.ascii :=
  if (code e =? 98)%N then "008"%char
  else if (code e =? 102)%N then "012"%char
  else if (code e =? 110)%N then "010"%char
  else if (code e =? 114)%N then "013"%char
  else if (code e =? 116)%N then "009"%char
  else e.

Definition unescape_u (a b c d : Ascii.ascii) : option string :=
  if (code a =? 102)%N then None
  else if (code a =? 50)%N
       then Some (String "226" (String "128" (String (Ascii.ascii_of_N (160 + unhex d)) "")))
       else Some (String (Ascii.ascii_of_N (16 * unhex c + unhex d)) "").

Definition unrune (s : string) : option (option string * string) :=
  match s with
  | EmptyString => None
  | String a s1 =>
      if (code a =? 92)%N
      then match s1 with
           | String e s2 =>
               if (code e =? 117)%N
               then match s2 with
                    | String h1 (String h2 (String h3 (String h4 s6))) => Some (unescape_u h1 h2 h3 h4, s6)
                    | _ => None
                    end
               else Some (Some (String (unescape e) ""), s2)
           | EmptyString => None
           end
      else if (code a <? 128)%N then Some (Some (String a ""), s1)
      else match s1 with
           | String b s2 =>
               if (code a <? 224)%N then Some (Some (String a (String b "")), s2)
               else match s2 with
                    | String c s3 =>
                        if (code a <? 240)%N then Some (Some (String a (String b (String c ""))), s3)
                        else match s3 with
                             | String d s4 => Some (Some (String a (String b (String c (String d "")))), s4)
                             | EmptyString => None
                             end
                    | EmptyString => None
                    end
           | EmptyString => None
           end
  end.

(** The runes [decode] produces. *)
Definition rune_wf (r : option string) : Prop :=
  match r with
  | None => True
  | Some (String a "") => (code a < 128)%N
  | Some (String a (String b "")) => utf8_2 a b = true
  | Some (String a (String b (String c ""))) => utf8_3 a b c = true
  | Some (String a (String b (String c (String d "")))) => utf8_4 a b c d = true
  | _ => False
  end.

Lemma decode_wf a s : rune_wf (decode a s).1.
Proof.
  unfold decode. destruct (N.ltb_spec (code a) 128); [done|].
  destruct s as [|b s2]; [done|]. destruct (utf8_2 a b) eqn:?; [done|].
  destruct s2 as [|c s3]; [done|]. destruct (utf8_3 a b c) eqn:?; [done|].
  destruct s3 as [|d s4]; [done|]. destruct (utf8_4 a b c d) eqn:?; done.
Qed.

Lemma runes_wf s : Forall rune_wf (runes s).
Proof.
  unfold runes. generalize (String.length s) as n. intros n. revert s.
  induction n as [|n IH]; intros s; simpl; [constructor|].
  destruct s as [|a s1]; [constructor|].
  pose proof (decode_wf a s1). destruct (decode a s1) as [r rest]. by constructor.
Qed.

Lemma in_range_spec lo hi c : in_range lo hi c = true <-> (lo <= code c <= hi)%N.
Proof. unfold in_range. rewrite andb_true_iff, !N.leb_le. lia. Qed.

Lemma unrune_ascii a t : (code a < 128)%N -> unrune (json_rune (Some (String a "")) +:+ t) = Some (Some (String a ""), t).
Proof.
  intros Ha. destruct a as [[] [] [] [] [] [] [] []]; try reflexivity; vm_compute in Ha; discriminate.
Qed.

Lemma utf8_2_lead a b : utf8_2 a b = true -> (194 <= code a <= 223)%N.
Proof. unfold utf8_2. rewrite andb_true_iff, in_range_spec. lia. Qed.

Lemma utf8_3_lead a b c : utf8_3 a b c = true -> (224 <= code a <= 239)%N.
Proof.
  unfold utf8_3. rewrite andb_true_iff, !orb_true_iff, !andb_true_iff, !in_range_spec. lia.
Qed.

Lemma utf8_4_lead a b c d : utf8_4 a b c d = true -> (240 <= code a <= 244)%N.
Proof.
  unfold utf8_4. rewrite !andb_true_iff, !orb_true_iff, !andb_true_iff, !in_range_spec. lia.
Qed.

(** Evaluate the tests of [unrune] on a lead byte in a known range. *)
Ltac lead_tests :=
  repeat match goal with
  | |- context [(?x =? ?y)%N] => destruct (N.eqb_spec x y); [lia|]
  | |- context [(?x <? ?y)%N] => first [destruct (N.ltb_spec x y); [lia|] | destruct (N.ltb_spec x y); [|lia]]
  end.

Lemma unrune_json r t : rune_wf r -> unrune (json_rune r +:+ t) = Some (r, t).
Proof.
  destruct r as [s|]; [|done].
  destruct s as [|a [|b [|c [|d [|e s]]]]]; simpl; try done; intros Hwf.
  - by apply unrune_ascii.
  - pose proof (utf8_2_lead a b Hwf). unfold json_rune, unrune. simpl. lead_tests. done.
  - pose proof (utf8_3_lead a b c Hwf). destruct (((code a =? 226) && (code b =? 128) && in_range 168 169 c)%N) eqn:E.
    + bool_simp. apply N.eqb_eq in H0, H2. apply in_range_spec in H1.
      assert (a = "226"%char) as -> by (rewrite <- (Ascii.ascii_N_embedding a); unfold code in *; by rewrite H0).
      assert (b = "128"%char) as -> by (rewrite <- (Ascii.ascii_N_embedding b); unfold code in *; by rewrite H2).
      assert (code c = 168 \/ code c = 169)%N as [E|E] by lia; rewrite <- (Ascii.ascii_N_embedding c);
        unfold code in E; rewrite E; reflexivity.
    + unfold unrune. simpl. lead_tests. done.
  - pose proof (utf8_4_lead a b c d Hwf). unfold json_rune, unrune. simpl. lead_tests. done.
Qed.

(** A rune's text is never empty and never starts with a quotation mark. *)
Lemma json_rune_head r : rune_wf r -> exists c s, json_rune r = String c s /\ c <> quote.
Proof.
  intros Hwf. destruct r as [s|]; [|eexists _, _; split; [reflexivity|discriminate]].
  destruct s as [|a [|b [|c [|d [|e s]]]]]; try done.
  - destruct a as [[] [] [] [] [] [] [] []]; try (eexists _, _; split; [reflexivity|discriminate]); vm_compute in Hwf; discriminate.
  - eexists _, _. split; [reflexivity|]. intros ->. pose proof (utf8_2_lead _ _ Hwf) as [H _]. by vm_compute in H.
  - simpl. destruct (_ && _); [eexists _, _; split; [reflexivity|discriminate]|]. eexists _, _. split; [reflexivity|]. intros ->.
    pose proof (utf8_3_lead _ _ _ Hwf) as [H _]. by vm_compute in H.
  - eexists _, _. split; [reflexivity|]. intros ->. pose proof (utf8_4_lead _ _ _ _ Hwf) as [H _]. by vm_compute in H.
Qed.

Lemma json_body_inj rs rs' t t' :
  Forall rune_wf rs -> Forall rune_wf rs' ->
  (json_body rs +:+ String quote t = json_body rs' +:+ String quote t')%string -> rs = rs' /\ t = t'.
Proof.
  intros Hrs. revert rs'. induction Hrs as [|r rs Hr Hrs IH]; intros rs' Hrs'; destruct Hrs' as [|r' rs' Hr' Hrs'];
    cbn [json_body foldr]; intros E.
  - by simplify_eq/=.
  - destruct (json_rune_head r' Hr') as (c & s & Hc & Hne). rewrite Hc in E. by injection E as <- _.
  - destruct (json_rune_head r Hr) as (c & s & Hc & Hne). rewrite Hc in E. by injection E as -> _.
  - rewrite <- !string_app_assoc in E.
    pose proof (unrune_json r (json_body rs +:+ String quote t) Hr) as H1.
    change (json_body rs) with (foldr (fun r acc => (json_rune r +:+ acc)%string) "" rs) in H1.
    rewrite E in H1. rewrite unrune_json in H1 by done. injection H1 as -> H1.
    destruct (IH rs' Hrs' (eq_sym H1)) as [-> ->]. done.
Qed.

Lemma json_string_inj s s' t t' :
  (json_string s +:+ t = json_string s' +:+ t')%string -> runes s = runes s' /\ t = t'.
Proof.
  unfold json_string. simpl. intros E. injection E as E. rewrite <- !string_app_assoc in E.
  apply json_body_inj in E; [done|apply runes_wf..].
Qed.

(** For valid UTF-8 the runes are the string. *)
Definition unrunes (rs : list (option string)) : string :=
  foldr (fun r acc => (default "" r +:+ acc)%string) "" rs.

Lemma decode_concat a s r rest : decode a s = (Some r, rest) -> (r +:+ rest)%string = String a s.
Proof.
  unfold decode. destruct (code a <? 128)%N; [by intros [= <- <-]|].
  destruct s as [|b s2]; [done|]. destruct (utf8_2 a b); [by intros [= <- <-]|].
  destruct s2 as [|c s3]; [done|]. destruct (utf8_3 a b c); [by intros [= <- <-]|].
  destruct s3 as [|d s4]; [done|]. destruct (utf8_4 a b c d); [by intros [= <- <-]|done].
Qed.

Lemma unrunes_runes s : utf8_valid s = true -> unrunes (runes s) = s.
Proof.
  unfold utf8_valid, runes.
  assert (forall n s, (String.length s <= n)%nat -> forallb (fun r => bool_decide (is_Some r)) (runes_go n s) = true ->
            unrunes (runes_go n s) = s) as H; [|by apply H].
  clear s. induction n as [|n IH]; intros s Hn Hv; destruct s as [|a s1]; simpl in *; try done; try lia.
  pose proof (decode_shorter a s1). destruct (decode a s1) as [r rest] eqn:Hd. simpl in *.
  apply andb_true_iff in Hv as [[r' ->]%bool_decide_eq_true Hv]. simpl.
  rewrite IH by (done || lia). by apply decode_concat.
Qed.

Lemma runes_inj s s' : utf8_valid s = true -> utf8_valid s' = true -> runes s = runes s' -> s = s'.
Proof. intros Hs Hs' E. by rewrite <- (unrunes_runes s), <- (unrunes_runes s'), E. Qed.

(** *** Values *)

(** A JSON value with its strings as runes: what the text determines. *)
Inductive jtree :=
  | TNull
  | TBool (b : bool)
  | TNumber (literal : string)
  | TString (s : list (option string))
  | TArray (l : list jtree)
  | TObject (l : list (list (option string) * jtree)).

Fixpoint tree (j : json) : jtree :=
  match j with
  | JNull => TNull
  | JBool b => TBool b
  | JNumber s => TNumber s
  | JString s => TString (runes s)
  | JArray l => TArray (map tree l)
  | JObject l => TObject (map (fun kv => (runes kv.1, tree kv.2)) l)
  end.

Definition number_char (c : Ascii.ascii) : bool :=
  in_range 48 57 c || bool_decide (c ∈ ["+"; "-"; "."; "e"; "E"]%char).

Fixpoint all_chars (p : Ascii.ascii -> bool) (s : string) : bool :=
  match s with
  | EmptyString => true
  | String c s => p c && all_chars p s
  end.

(** Number literals start with a digit or a minus sign and continue with the
    characters of a number. *)
Definition number_ok (s : string) : bool :=
  match s with
  | EmptyString => false
  | String c _ => (in_range 48 57 c || (c ==? "-"%char)) && all_chars number_char s
  end.

Fixpoint json_ok (j : json) : bool :=
  match j with
  | JNumber s => number_ok s
  | JArray l => forallb json_ok l
  | JObject l => forallb (fun kv => json_ok kv.2) l
  | _ => true
  end.

Section json_ind.
Context (P : json -> Prop).
Hypotheses (Hnull : P JNull) (Hbool : forall b, P (JBool b)) (Hnum : forall s, P (JNumber s))
  (Hstr : forall s, P (JString s)) (Harr : forall l, Forall P l -> P (JArray l))
  (Hobj : forall l, Forall (fun kv => P kv.2) l -> P (JObject l)).

Fixpoint json_ind' (j : json) : P j :=
  match j with
  | JNull => Hnull
  | JBool b => Hbool b
  | JNumber s => Hnum s
  | JString s => Hstr s
  | JArray l => Harr l ((fix go l := match l return Forall P l with
      | [] => List.Forall_nil _
      | x :: l => List.Forall_cons _ x l (json_ind' x) (go l) end) l)
  | JObject l => Hobj l ((fix go l := match l return Forall (fun kv => P kv.2) l with
      | [] => List.Forall_nil _
      | kv :: l => List.Forall_cons _ kv l (json_ind' kv.2) (go l) end) l)
  end.
End json_ind.

(** What follows a value: nothing, or a closing or separating character. *)
Definition delimiter (c : Ascii.ascii) : bool := bool_decide (c ∈ [","; "]"; "}"]%char).
Definition delimited (t : string) : Prop :=
  match t with EmptyString => True | String c _ => delimiter c = true end.

Lemma number_char_delimiter c : number_char c = true -> delimiter c = true -> False.
Proof.
  unfold delimiter. intros Hn Hd%bool_decide_eq_true. revert Hn.
  rewrite !elem_of_cons, elem_of_nil in Hd. destruct Hd as [->|[->|[->|[]]]]; by vm_compute.
Qed.

Lemma number_inj s s' t t' :
  all_chars number_char s = true -> all_chars number_char s' = true -> delimited t -> delimited t' ->
  (s +:+ t = s' +:+ t')%string -> s = s' /\ t = t'.
Proof.
  revert s'. induction s as [|c s IH]; intros [|c' s'] Hs Hs' Ht Ht' E; cbn [all_chars] in *.
  - done.
  - change (t = String c' (s' +:+ t')) in E. subst t. bool_simp. exfalso. eauto using number_char_delimiter.
  - change (String c (s +:+ t) = t') in E. subst t'. bool_simp. exfalso. eauto using number_char_delimiter.
  - injection E as -> E. bool_simp. destruct (IH s') as [-> ->]; auto.
Qed.

(** The first character of a value's text. *)
Inductive kind := KNull | KTrue | KFalse | KNumber | KString | KArray | KObject.
#[local] Instance kind_eq_dec : EqDecision kind.
Proof. solve_decision. Defined.

Definition kind_of (j : json) : kind :=
  match j with
  | JNull => KNull | JBool true => KTrue | JBool false => KFalse | JNumber _ => KNumber
  | JString _ => KString | JArray _ => KArray | JObject _ => KObject
  end.

Definition kind_char (c : Ascii.ascii) : option kind :=
  if c ==? "n"%char then Some KNull
  else if c ==? "t"%char then Some KTrue
  else if c ==? "f"%char then Some KFalse
  else if c ==? quote then Some KString
  else if c ==? "["%char then Some KArray
  else if c ==? "{"%char then Some KObject
  else if in_range 48 57 c || (c ==? "-"%char) then Some KNumber
  else None.

Lemma number_first c : in_range 48 57 c || (c ==? "-"%char) = true -> kind_char c = Some KNumber.
Proof. destruct c as [[] [] [] [] [] [] [] []]; vm_compute; done. Qed.

Lemma print_first j : json_ok j = true -> exists c s, print j = String c s /\ kind_char c = Some (kind_of j).
Proof.
  destruct j as [|[]|s|s|l|l]; simpl; intros Hok; try (eexists _, _; split; [reflexivity|done]).
  destruct s as [|c s]; [done|]. simpl in Hok. bool_simp. exists c, s. split; [done|]. by apply number_first.
Qed.

Lemma kind_char_delimiter c k : kind_char c = Some k -> delimiter c = false.
Proof. destruct c as [[] [] [] [] [] [] [] []]; vm_compute; done. Qed.

(** Separated lists: the elements' texts are determined when each element's is
    determined in front of a delimiter. *)
Section sep.
Context {A B : Type} (f : A -> string) (g : A -> B) (ok : A -> Prop).
Hypothesis f_first : forall x, ok x -> exists c s, f x = String c s /\ delimiter c = false.

Definition readable (x : A) : Prop := forall y t t', ok y -> delimited t -> delimited t' ->
  (f x +:+ t = f y +:+ t')%string -> g x = g y /\ t = t'.

Lemma commas_inj close l l' t t' :
  delimiter close = true -> close <> ","%char ->
  Forall ok l -> Forall readable l -> Forall ok l' ->
  (commas (map f l) +:+ String close t = commas (map f l') +:+ String close t')%string ->
  map g l = map g l' /\ t = t'.
Proof.
  intros Hd Hc Hok Hrd. revert l' Hok.
  induction Hrd as [|x l Hx Hrd IH]; intros l' Hok Hok' E; destruct Hok' as [|y l' Hy Hok']; simpl in E.
  - by simplify_eq.
  - injection E as E _. by destruct Hc.
  - injection E as E _. by destruct Hc.
  - injection E as E. rewrite <- !string_app_assoc in E.
    assert (forall l t, delimited (commas (map f l) +:+ String close t)) as Hdel by (by intros []).
    apply Hx in E as [Eg E]; [|done|apply Hdel..]. apply Forall_cons in Hok as [_ Hok].
    destruct (IH l' Hok Hok' E) as [El ->]. simpl. by rewrite Eg, El.
Qed.

Lemma sep_by_inj close l l' t t' :
  delimiter close = true -> close <> ","%char ->
  Forall ok l -> Forall readable l -> Forall ok l' ->
  (sep_by (map f l) +:+ String close t = sep_by (map f l') +:+ String close t')%string ->
  map g l = map g l' /\ t = t'.
Proof.
  intros Hd Hc Hok Hrd Hok' E.
  destruct Hok as [|x l Hx Hok], Hok' as [|y l' Hy Hok']; simpl in E.
  - by simplify_eq.
  - destruct (f_first y Hy) as (c & s & Hf & Hnd). rewrite Hf in E. injection E as -> _. congruence.
  - destruct (f_first x Hx) as (c & s & Hf & Hnd). rewrite Hf in E. injection E as <- _. congruence.
  - rewrite <- !string_app_assoc in E. apply Forall_cons in Hrd as [Hx' Hrd].
    assert (forall l t, delimited (commas (map f l) +:+ String close t)) as Hdel by (by intros []).
    apply Hx' in E as [Eg E]; [|done|apply Hdel..].
    destruct (commas_inj close l l' t t' Hd Hc Hok Hrd Hok' E) as [El ->]. simpl. by rewrite Eg, El.
Qed.
End sep.

Lemma value_readable l : Forall (fun j => json_ok j = true) l ->
  Forall (readable print tree (fun j => json_ok j = true)) l -> forall l' t t',
  Forall (fun j => json_ok j = true) l' ->
  (sep_by (map print l) +:+ String "]" t = sep_by (map print l') +:+ String "]" t')%string ->
  map tree l = map tree l' /\ t = t'.
Proof.
  intros Hok Hrd l' t t' Hok' E.
  eapply (sep_by_inj print tree (fun j => json_ok j = true) _ "]"%char); try done.
  Unshelve. intros x (c & s & Hp & Hc)%print_first. eauto using kind_char_delimiter.
Qed.

Definition member (kv : string * json) : string := (json_string kv.1 +:+ ":" +:+ print kv.2)%string.
Definition member_tree (kv : string * json) : list (option string) * jtree := (runes kv.1, tree kv.2).

Lemma member_readable l : Forall (fun kv => json_ok kv.2 = true) l ->
  Forall (fun kv : string * json => readable print tree (fun j => json_ok j = true) kv.2) l -> forall l' t t',
  Forall (fun kv => json_ok kv.2 = true) l' ->
  (sep_by (map member l) +:+ String "}" t = sep_by (map member l') +:+ String "}" t')%string ->
  map member_tree l = map member_tree l' /\ t = t'.
Proof.
  intros Hok Hrd l' t t' Hok' E.
  eapply (sep_by_inj member member_tree (fun kv => json_ok kv.2 = true) _ "}"%char); try done.
  - eapply Forall_impl; [exact Hrd|]. intros [k v] Hv [k' v'] u u' Hok2 Hu Hu' Em. unfold member in Em.
    cbn [fst snd] in *. rewrite <- !string_app_assoc in Em. apply json_string_inj in Em as [Ek Em].
    injection Em as Em. apply Hv in Em as [Ev ->]; try done. unfold member_tree. cbn [fst snd].
    by rewrite Ek, Ev.
  Unshelve. intros [k v] _. exists quote, (json_body (runes k) +:+ String quote "" +:+ ":" +:+ print v)%string.
  split; [|done]. unfold member, json_string. cbn [fst snd].
  apply (f_equal (String quote)). symmetry. apply string_app_assoc.
Qed.

Lemma forallb_Forall {A} (p : A -> bool) l : forallb p l = true -> Forall (fun x => p x = true) l.
Proof. rewrite forallb_forall, List.Forall_forall. done. Qed.

Lemma Forall_mp {A} (P Q : A -> Prop) l : Forall (fun x => P x -> Q x) l -> Forall P l -> Forall Q l.
Proof. induction 1; inversion_clear 1; constructor; auto. Qed.

Lemma print_readable j : json_ok j = true -> readable print tree (fun j => json_ok j = true) j.
Proof.
  induction j as [|b|s|s|l IH|l IH] using json_ind'; intros Hok j' t t' Hok' Ht Ht' E;
    destruct (print_first _ Hok) as (c & u & Hp & Hc), (print_first _ Hok') as (c' & u' & Hp' & Hc');
    assert (c' = c) as -> by (rewrite Hp, Hp' in E; by injection E as -> _);
    rewrite Hc in Hc'; clear Hp Hp' Hc; try destruct b; destruct j' as [|[]|s'|s'|l'|l']; try discriminate Hc'.
  1-3: injection E as E; change (t = t') in E; by subst.
  - cbn in Hok, Hok'. destruct s as [|a s], s' as [|a' s']; try done. apply andb_true_iff in Hok as [_ ?], Hok' as [_ ?].
    destruct (number_inj (String a s) (String a' s') t t') as [H1 ->]; try done. cbn [tree]. by rewrite H1.
  - apply json_string_inj in E as [E ->]. cbn [tree]. by rewrite E.
  - injection E as E. rewrite <- !string_app_assoc in E. apply forallb_Forall in Hok, Hok'.
    apply value_readable in E as [E ->]; [cbn [tree]; by rewrite E|done| |done].
    exact (Forall_mp (fun j => json_ok j = true) _ l IH Hok).
  - injection E as E. rewrite <- !string_app_assoc in E. apply forallb_Forall in Hok, Hok'.
    apply member_readable in E as [E ->]; [split; [exact (f_equal TObject E)|done]|done| |done].
    exact (Forall_mp (fun kv => json_ok kv.2 = true) _ l IH Hok).
Qed.

(** Two values with the same text are the same up to the reading of their strings as runes. *)
Lemma print_inj j j' : json_ok j = true -> json_ok j' = true -> print j = print j' -> tree j = tree j'.
Proof.
  intros Hok Hok' E. destruct (print_readable j Hok j' "" "" Hok' I I) as [H _]; [by rewrite E|done].
Qed.
