(* ===== verification/Capacity.v ===== *)
(** * Capacity budgets and residency capabilities ([domain/domain.go])

    Validation and inheritance of byte budgets, of the versioned capability
    block with its evidence rules, and of the accelerator ceiling. *)

From S2P Require Import Prelude GoText Domain DomainNode.

(** ** Versions *)

Definition CapabilityContractVersion : string := "fleet-residency.v1".

Definition ValidateCapabilityVersion (version : string) : result unit :=
  reject negb ((version ==? ""%string) || (version ==? CapabilityContractVersion))
    with ErrorsNew "unsupported capability contract version";
  Ok tt.

(** ** Byte budgets *)

Definition CapacityBudget_Validate (b : CapacityBudget) : result unit :=
  reject existsb (fun v => v <? 0)
      [cb_VRAMTotalBytes b; cb_VRAMReserveBytes b; cb_VRAMHardCapBytes b; cb_RAMTotalBytes b;
       cb_RAMReserveBytes b; cb_RAMHardCapBytes b; cb_DiskAvailableBytes b]
    with ErrorsNew "may not be negative";
  reject (0 <? cb_VRAMTotalBytes b) && (cb_VRAMTotalBytes b <? cb_VRAMReserveBytes b)
    with ErrorsNew "vram_reserve_bytes may not exceed vram_total_bytes";
  reject (0 <? cb_VRAMTotalBytes b) && (cb_VRAMTotalBytes b <? cb_VRAMHardCapBytes b)
    with ErrorsNew "vram_hard_cap_bytes may not exceed vram_total_bytes";
  reject (0 <? cb_VRAMHardCapBytes b) && (cb_VRAMHardCapBytes b <? cb_VRAMReserveBytes b)
    with ErrorsNew "vram_reserve_bytes may not exceed vram_hard_cap_bytes";
  reject (0 <? cb_RAMTotalBytes b) && (cb_RAMTotalBytes b <? cb_RAMReserveBytes b)
    with ErrorsNew "ram_reserve_bytes may not exceed ram_total_bytes";
  reject (0 <? cb_RAMTotalBytes b) && (cb_RAMTotalBytes b <? cb_RAMHardCapBytes b)
    with ErrorsNew "ram_hard_cap_bytes may not exceed ram_total_bytes";
  reject (0 <? cb_RAMHardCapBytes b) && (cb_RAMHardCapBytes b <? cb_RAMReserveBytes b)
    with ErrorsNew "ram_reserve_bytes may not exceed ram_hard_cap_bytes";
  Ok tt.

Definition ValidateCapacityOverride (parent override : CapacityBudget) : result unit :=
  let? _u := CapacityBudget_Validate override in
  reject (0 <? cb_VRAMHardCapBytes parent) && (cb_VRAMHardCapBytes parent <? cb_VRAMHardCapBytes override)
    with ErrorsNew "vram_hard_cap_bytes exceeds inherited ceiling";
  reject (0 <? cb_RAMHardCapBytes parent) && (cb_RAMHardCapBytes parent <? cb_RAMHardCapBytes override)
    with ErrorsNew "ram_hard_cap_bytes exceeds inherited ceiling";
  Ok tt.

(** [if override.F > 0 { merged.F = override.F }]. *)
Definition inherit (default override : Z) : Z := if 0 <? override then override else default.

(** [if total > 0 && (cap == 0 || cap > total) { cap = total }]. *)
Definition clamp_cap (total cap : Z) : Z :=
  if (0 <? total) && ((cap =? 0) || (total <? cap)) then total else cap.

Definition MergeCapacityBudget (defaults override : CapacityBudget) : CapacityBudget :=
  let vram_total := inherit (cb_VRAMTotalBytes defaults) (cb_VRAMTotalBytes override) in
  let ram_total := inherit (cb_RAMTotalBytes defaults) (cb_RAMTotalBytes override) in
  mkCapacityBudget
    vram_total
    (inherit (cb_VRAMReserveBytes defaults) (cb_VRAMReserveBytes override))
    (clamp_cap vram_total (inherit (cb_VRAMHardCapBytes defaults) (cb_VRAMHardCapBytes override)))
    ram_total
    (inherit (cb_RAMReserveBytes defaults) (cb_RAMReserveBytes override))
    (clamp_cap ram_total (inherit (cb_RAMHardCapBytes defaults) (cb_RAMHardCapBytes override)))
    (inherit (cb_DiskAvailableBytes defaults) (cb_DiskAvailableBytes override)).

(** ** Residency capabilities *)

Definition isResidencyOracle (value : string) : bool :=
  bool_decide (ToLower (TrimSpace value) ∈ ["mincore"; "os_residency_oracle"; "mincore+lock"]%string).

Definition validateResidencyEvidence (c : ResidencyCapabilities) : result unit :=
  reject negb (blank (rc_WarmRAMVerification c)) && (negb (rc_SupportsWarmRAM c) || negb (rc_WarmRAMVerified c))
    with ErrorsNew "warm_ram_verification requires supported, verified warm RAM";
  reject rc_SupportsWarmRAM c && rc_WarmRAMVerified c && negb (isResidencyOracle (rc_WarmRAMVerification c))
    with ErrorsNew "warm_ram_verified requires an OS residency oracle";
  reject rc_WarmRAMVerified c && negb (rc_SupportsWarmRAM c)
    with ErrorsNew "warm_ram_verified requires supports_warm_ram";
  reject negb (blank (rc_SessionCheckpointProof c))
         && (negb (rc_SupportsSessionCheckpoint c) || negb (rc_SessionCheckpointVerified c))
    with ErrorsNew "session_checkpoint_proof requires supported, verified checkpointing";
  reject rc_SessionCheckpointVerified c
         && (negb (rc_SupportsSessionCheckpoint c) || blank (rc_SessionCheckpointProof c))
    with ErrorsNew "session_checkpoint_verified requires support and proof";
  reject rc_SupportsSessionCheckpoint c && negb (rc_SessionCheckpointVerified c)
    with ErrorsNew "supports_session_checkpoint requires verified runtime proof";
  reject rc_SupportsYield c && negb (rc_YieldVerified c)
    with ErrorsNew "supports_yield requires verified runtime proof";
  reject rc_YieldVerified c && (negb (rc_SupportsYield c) || blank (rc_YieldProof c))
    with ErrorsNew "yield_verified requires supports_yield and proof";
  reject negb (blank (rc_YieldProof c)) && (negb (rc_SupportsYield c) || negb (rc_YieldVerified c))
    with ErrorsNew "yield_proof requires supported, verified yield";
  Ok tt.

Definition ResidencyCapabilities_Validate (c : ResidencyCapabilities) : result unit :=
  let? _u := ValidateCapabilityVersion (rc_Version c) in
  reject (rc_MaxResidentModels c <? 0) || (rc_MaxAcceleratorsPerWorkload c <? 0)
    with ErrorsNew "capability ceilings may not be negative";
  validateResidencyEvidence c.

Definition ValidateOperatorCapabilities (c : ResidencyCapabilities) : result unit :=
  reject rc_WarmRAMVerified c || rc_SessionCheckpointVerified c || rc_SupportsSessionCheckpoint c
         || rc_SupportsYield c || rc_YieldVerified c || negb (blank (rc_WarmRAMVerification c))
         || negb (blank (rc_SessionCheckpointProof c)) || negb (blank (rc_YieldProof c))
    with ErrorsNew "verified residency and checkpoint claims require authoritative runtime proof";
  Ok tt.

(** The reconciliation of [max_resident_models]: the positive values among the
    three inputs must agree. *)
Definition mergeResident (inherited : Z) (values : list Z) : result Z :=
  reject existsb (fun v => v <? 0) values with ErrorsNew "max_resident_models may not be negative";
  match List.filter (fun v => 0 <? v) values with
  | [] => Ok inherited
  | v :: rest =>
      reject negb (forallb (fun x => x =? v) rest) with ErrorsNew "max_resident_models values conflict";
      Ok v
  end.

(** A verified claim and its proof are inherited until the overlay supplies a
    new fact. *)
Definition inheritClaim (base overlay : bool * string) : bool * string :=
  if overlay.1 || negb (blank overlay.2) then overlay else base.

Definition MergeResidencyCapabilities (base overlay : ResidencyCapabilities) (aliases : CapabilityAliases)
  : result ResidencyCapabilities :=
  let? _u := validateResidencyEvidence base in
  let? _v := validateResidencyEvidence overlay in
  reject (rc_Version base !=? ""%string) && (rc_Version overlay !=? ""%string)
         && (rc_Version base !=? rc_Version overlay)
    with ErrorsNew "capability versions conflict";
  let merged := base
    <| rc_Version := if rc_Version overlay ==? ""%string then rc_Version base else rc_Version overlay |>
    <| rc_SupportsWarmRAM := rc_SupportsWarmRAM base || rc_SupportsWarmRAM overlay
                             || ca_WarmRAMSupported aliases |>
    <| rc_SupportsModelLifecycle := rc_SupportsModelLifecycle base || rc_SupportsModelLifecycle overlay
                                    || ca_SupportsModelLifecycle aliases |>
    <| rc_SupportsAcceleratorReclaim := rc_SupportsAcceleratorReclaim base
         || rc_SupportsAcceleratorReclaim overlay || ca_SupportsAcceleratorReclaim aliases |>
    <| rc_SupportsYield := rc_SupportsYield base || rc_SupportsYield overlay |>
    <| rc_SupportsSessionCheckpoint := rc_SupportsSessionCheckpoint base
         || rc_SupportsSessionCheckpoint overlay |> in
  let? resident := mergeResident (rc_MaxResidentModels base)
    [rc_MaxResidentModels base; rc_MaxResidentModels overlay; ca_MaxResidentModels aliases] in
  let merged := merged <| rc_MaxResidentModels := resident |> in
  let warm := inheritClaim (rc_WarmRAMVerified base, rc_WarmRAMVerification base)
                (rc_WarmRAMVerified overlay, rc_WarmRAMVerification overlay) in
  let session := inheritClaim (rc_SessionCheckpointVerified base, rc_SessionCheckpointProof base)
                   (rc_SessionCheckpointVerified overlay, rc_SessionCheckpointProof overlay) in
  let yield := inheritClaim (rc_YieldVerified base, rc_YieldProof base)
                 (rc_YieldVerified overlay, rc_YieldProof overlay) in
  Ok (merged <| rc_WarmRAMVerified := warm.1 |> <| rc_WarmRAMVerification := warm.2 |>
             <| rc_SessionCheckpointVerified := session.1 |> <| rc_SessionCheckpointProof := session.2 |>
             <| rc_YieldVerified := yield.1 |> <| rc_YieldProof := yield.2 |>).

Definition NormalizeAcceleratorCeiling (outer nested : Z) : result Z :=
  reject (outer <? 0) || (nested <? 0)
    with ErrorsNew "max_accelerators_per_workload may not be negative";
  let effective := if (outer =? 0) && (0 <? nested) then nested else outer in
  let effective := if effective =? 0 then 1 else effective in
  reject (0 <? outer) && (nested !=? 0) && (nested !=? effective)
    with ErrorsNew "max_accelerators_per_workload conflicts with nested capability ceiling";
  Ok effective.

(** ** Lemmas *)

Lemma CapacityBudget_Validate_spec b :
  CapacityBudget_Validate b = Ok tt <->
  (0 <= cb_VRAMTotalBytes b /\ 0 <= cb_VRAMReserveBytes b /\ 0 <= cb_VRAMHardCapBytes b /\
   0 <= cb_RAMTotalBytes b /\ 0 <= cb_RAMReserveBytes b /\ 0 <= cb_RAMHardCapBytes b /\
   0 <= cb_DiskAvailableBytes b) /\
  (0 < cb_VRAMTotalBytes b -> cb_VRAMReserveBytes b <= cb_VRAMTotalBytes b /\
                              cb_VRAMHardCapBytes b <= cb_VRAMTotalBytes b) /\
  (0 < cb_VRAMHardCapBytes b -> cb_VRAMReserveBytes b <= cb_VRAMHardCapBytes b) /\
  (0 < cb_RAMTotalBytes b -> cb_RAMReserveBytes b <= cb_RAMTotalBytes b /\
                             cb_RAMHardCapBytes b <= cb_RAMTotalBytes b) /\
  (0 < cb_RAMHardCapBytes b -> cb_RAMReserveBytes b <= cb_RAMHardCapBytes b).
Proof.
  unfold CapacityBudget_Validate. simpl. split.
  - intros H. repeat branch H; bool_simp;
      repeat match goal with H : _ && _ = false |- _ => apply andb_false_iff in H end; bool_simp.
    repeat match goal with H : _ \/ _ |- _ => destruct H end; bool_simp; split_and!; lia.
  - intros (Hnn & H1 & H2 & H3 & H4).
    repeat match goal with |- context [?x <? ?y] => destruct (Z.ltb_spec x y); simpl; try lia end; done.
Qed.

(** What accepted evidence says about one claim: a claim is verified exactly
    when it is backed by a proof, and only for a supported feature. *)
Definition evidence_ok (c : ResidencyCapabilities) : Prop :=
  (if rc_WarmRAMVerified c
   then rc_SupportsWarmRAM c = true /\ isResidencyOracle (rc_WarmRAMVerification c) = true
   else blank (rc_WarmRAMVerification c) = true) /\
  (rc_SupportsSessionCheckpoint c = rc_SessionCheckpointVerified c /\
   blank (rc_SessionCheckpointProof c) = negb (rc_SessionCheckpointVerified c)) /\
  (rc_SupportsYield c = rc_YieldVerified c /\
   blank (rc_YieldProof c) = negb (rc_YieldVerified c)).

Lemma validateResidencyEvidence_spec c : validateResidencyEvidence c = Ok tt <-> evidence_ok c.
Proof.
  unfold validateResidencyEvidence, evidence_ok. split.
  - intros H.
    destruct (blank (rc_WarmRAMVerification c)), (rc_SupportsWarmRAM c), (rc_WarmRAMVerified c),
      (isResidencyOracle (rc_WarmRAMVerification c)); cbn [negb andb orb] in H; try discriminate H;
    destruct (blank (rc_SessionCheckpointProof c)), (rc_SupportsSessionCheckpoint c),
      (rc_SessionCheckpointVerified c); cbn [negb andb orb] in H; try discriminate H;
    destruct (blank (rc_YieldProof c)), (rc_SupportsYield c), (rc_YieldVerified c);
      cbn [negb andb orb] in H; try discriminate H; auto 10.
  - intros (Hw & [Hs1 Hs2] & [Hy1 Hy2]). rewrite Hs1, Hs2, Hy1, Hy2.
    destruct (rc_WarmRAMVerified c); [destruct Hw as [-> ->]|rewrite Hw];
      destruct (rc_SessionCheckpointVerified c), (rc_YieldVerified c); simpl;
      rewrite ?andb_false_r; done.
Qed.

Lemma result_unit_ok (r : result unit) u : r = Ok u -> r = Ok tt.
Proof. by destruct u. Qed.

Lemma clamp_cap_spec total cap :
  0 <= total -> 0 <= cap ->
  clamp_cap total cap = (if 0 <? total then if cap =? 0 then total else Z.min total cap else cap).
Proof.
  intros Ht Hc. unfold clamp_cap. destruct (Z.ltb_spec 0 total); simpl; [|done].
  destruct (Z.eqb_spec cap 0); simpl; [done|]. destruct (Z.ltb_spec total cap); lia.
Qed.

Lemma clamp_inherit_le total parent override :
  0 < parent -> override <= parent -> clamp_cap total (inherit parent override) <= parent.
Proof.
  intros Hp Ho. unfold clamp_cap, inherit.
  destruct (Z.ltb_spec 0 override), (Z.ltb_spec 0 total); simpl; try lia.
  - destruct (Z.eqb_spec override 0); simpl; [lia|]. destruct (Z.ltb_spec total override); lia.
  - destruct (Z.eqb_spec parent 0); simpl; [lia|]. destruct (Z.ltb_spec total parent); lia.
Qed.

Lemma inherit_nonneg d o : 0 <= d -> 0 <= inherit d o.
Proof. intros Hd. unfold inherit. destruct (Z.ltb_spec 0 o); lia. Qed.

(** A budget whose hard caps were clamped to its totals. *)
Lemma clamp_bounds total cap :
  0 <= total -> 0 <= cap -> 0 <= clamp_cap total cap /\
  (0 < total -> 0 < clamp_cap total cap <= total).
Proof.
  intros Ht Hc. rewrite clamp_cap_spec by done.
  destruct (Z.ltb_spec 0 total); [|lia]. destruct (Z.eqb_spec cap 0); lia.
Qed.

(** ** Properties *)

(** C9: inheritance cannot raise a ceiling.  An override accepted against its
    parent's budget leaves the merged hard caps at or below the parent's. *)
Theorem merge_respects_ceiling parent override :
  ValidateCapacityOverride parent override = Ok tt ->
  (0 < cb_VRAMHardCapBytes parent ->
     cb_VRAMHardCapBytes (MergeCapacityBudget parent override) <= cb_VRAMHardCapBytes parent) /\
  (0 < cb_RAMHardCapBytes parent ->
     cb_RAMHardCapBytes (MergeCapacityBudget parent override) <= cb_RAMHardCapBytes parent).
Proof.
  unfold ValidateCapacityOverride. intros H. destruct (CapacityBudget_Validate override); [|discriminate H].
  repeat branch H. unfold MergeCapacityBudget. simpl.
  split; intros Hp; apply clamp_inherit_le; try done.
  - destruct (Z.ltb_spec 0 (cb_VRAMHardCapBytes parent)); [|lia]. simpl in *. bool_simp. lia.
  - destruct (Z.ltb_spec 0 (cb_RAMHardCapBytes parent)); [|lia]. simpl in *. bool_simp. lia.
Qed.

Definition ex_fleet : CapacityBudget := mkCapacityBudget 100 10 80 200 20 150 1000.
Definition ex_narrow : CapacityBudget := mkCapacityBudget 60 0 0 0 0 120 0.

Lemma merge_respects_ceiling_witness :
  cb_VRAMHardCapBytes (MergeCapacityBudget ex_fleet ex_narrow) <= cb_VRAMHardCapBytes ex_fleet.
Proof. apply (merge_respects_ceiling ex_fleet ex_narrow); reflexivity. Defined.

(** A merge of an override into a valid budget is valid exactly when the effective reserves fit under the effective hard caps; a narrower total
    always pulls the hard cap down with it. *)
Theorem merge_valid_iff defaults override :
  CapacityBudget_Validate defaults = Ok tt ->
  let merged := MergeCapacityBudget defaults override in
  CapacityBudget_Validate merged = Ok tt <->
  (0 < cb_VRAMHardCapBytes merged -> cb_VRAMReserveBytes merged <= cb_VRAMHardCapBytes merged) /\
  (0 < cb_RAMHardCapBytes merged -> cb_RAMReserveBytes merged <= cb_RAMHardCapBytes merged).
Proof.
  intros Hd%CapacityBudget_Validate_spec merged. rewrite CapacityBudget_Validate_spec.
  unfold merged, MergeCapacityBudget. simpl.
  destruct Hd as ((? & ? & ? & ? & ? & ? & ?) & _).
  pose proof (clamp_bounds (inherit (cb_VRAMTotalBytes defaults) (cb_VRAMTotalBytes override))
    (inherit (cb_VRAMHardCapBytes defaults) (cb_VRAMHardCapBytes override))
    ltac:(by apply inherit_nonneg) ltac:(by apply inherit_nonneg)) as [? ?].
  pose proof (clamp_bounds (inherit (cb_RAMTotalBytes defaults) (cb_RAMTotalBytes override))
    (inherit (cb_RAMHardCapBytes defaults) (cb_RAMHardCapBytes override))
    ltac:(by apply inherit_nonneg) ltac:(by apply inherit_nonneg)) as [? ?].
  split; [intros (_ & _ & ? & _ & ?); by split|].
  intros [Hv Hr]. split_and!; try (by apply inherit_nonneg); try done; intros; split; lia.
Qed.

Lemma merge_valid_iff_witness :
  CapacityBudget_Validate (MergeCapacityBudget ex_fleet ex_narrow) = Ok tt.
Proof. apply (merge_valid_iff ex_fleet ex_narrow); [reflexivity|]. simpl. split; intros _; discriminate. Defined.

(** Merging capability blocks cannot mint evidence.  The merge of two blocks
    is accepted only if both carry valid evidence; its evidence is again valid,
    and every verified claim of it was verified in one of the two. *)
Theorem merge_keeps_evidence base overlay aliases merged :
  MergeResidencyCapabilities base overlay aliases = Ok merged ->
  validateResidencyEvidence base = Ok tt /\ validateResidencyEvidence overlay = Ok tt /\
  validateResidencyEvidence merged = Ok tt /\
  (rc_WarmRAMVerified merged = true ->
     rc_WarmRAMVerified base = true \/ rc_WarmRAMVerified overlay = true) /\
  (rc_SessionCheckpointVerified merged = true ->
     rc_SessionCheckpointVerified base = true \/ rc_SessionCheckpointVerified overlay = true) /\
  (rc_YieldVerified merged = true -> rc_YieldVerified base = true \/ rc_YieldVerified overlay = true).
Proof.
  unfold MergeResidencyCapabilities. intros H.
  destruct (validateResidencyEvidence base) as [u|] eqn:Hb; [|discriminate H]. apply result_unit_ok in Hb as Hb'.
  destruct (validateResidencyEvidence overlay) as [v|] eqn:Ho; [|discriminate H]. apply result_unit_ok in Ho as Ho'.
  destruct (_ && _ && _); [discriminate H|].
  destruct (mergeResident _ _) as [n|]; [|discriminate H]. injection H as <-.
  split; [by destruct u|]. split; [by destruct v|].
  apply validateResidencyEvidence_spec in Hb' as (Hbw & [Hbs1 Hbs2] & [Hby1 Hby2]).
  apply validateResidencyEvidence_spec in Ho' as (How & [Hos1 Hos2] & [Hoy1 Hoy2]).
  rewrite validateResidencyEvidence_spec. unfold evidence_ok. cbn -[blank isResidencyOracle inheritClaim].
  unfold inheritClaim. cbn [fst snd]. rewrite Hos2, Hoy2, Hbs1, Hos1, Hby1, Hoy1.
  split_and!.
  - destruct (rc_WarmRAMVerified overlay); cbn [orb fst snd]; [|rewrite How; cbn [negb fst snd]].
    + destruct How as [-> ->]. by rewrite orb_true_r.
    + destruct (rc_WarmRAMVerified base); [|done]. by destruct Hbw as [-> ->].
  - by destruct (rc_SessionCheckpointVerified overlay), (rc_SessionCheckpointVerified base).
  - by destruct (rc_SessionCheckpointVerified overlay); cbn [orb negb fst snd].
  - by destruct (rc_YieldVerified overlay), (rc_YieldVerified base).
  - by destruct (rc_YieldVerified overlay); cbn [orb negb fst snd].
  - destruct (rc_WarmRAMVerified overlay); cbn [orb fst snd]; [auto|].
    rewrite How. cbn [negb fst snd]. auto.
  - destruct (rc_SessionCheckpointVerified overlay); cbn [orb negb fst snd]; auto.
  - destruct (rc_YieldVerified overlay); cbn [orb negb fst snd]; auto.
Qed.

Definition ex_caps : ResidencyCapabilities :=
  mkResidencyCapabilities "fleet-residency.v1" true true "mincore" true true "proof-1" false false "" true false 2 1.
Definition ex_overlay : ResidencyCapabilities :=
  mkResidencyCapabilities "" false false "" false false "" true true "proof-2" false true 2 0.

Lemma merge_keeps_evidence_witness :
  match MergeResidencyCapabilities ex_caps ex_overlay (mkCapabilityAliases true false 0 true) with
  | Ok merged => rc_YieldVerified merged = true /\ validateResidencyEvidence merged = Ok tt
  | Err _ => False
  end.
Proof.
  destruct (MergeResidencyCapabilities ex_caps ex_overlay (mkCapabilityAliases true false 0 true))
    as [merged|e] eqn:H; [|vm_compute in H; discriminate].
  split; [vm_compute in H; injection H as <-; reflexivity|].
  exact (proj1 (proj2 (proj2 (merge_keeps_evidence ex_caps ex_overlay _ merged H)))).
Defined.
