(* ===== verification/Jobs.v ===== *)
(** * The work-queue engine, [internal/jobs/manager.go]

    State and operations of [jobs.Manager]: submission, zero-gap dispatch,
    leases with fencing tokens, cross-worker retry, the lease reaper, pause and
    cancel.  The manager's mutex makes every operation below atomic; the
    goroutines that [leaseLocked] spawns are part of the state ([m_runs]) and
    their two critical sections are the operations [runItemStart] and
    [completeItem].

    Environment of an operation: the order in which Go ranges over a map
    ([GoRange]), the clock and [math/rand] ([dispatchEnv]).  The best-effort
    write-through to the job store ([persistJob], [persistItem] and their async
    forms) never feeds back into the manager and is not part of its state.
    Counters are unbounded integers: each is bounded by the number of work
    items or of registered slots. *)

From S2P Require Import Prelude Domain.

(** ** State *)

Record ItemInput := mkItemInput {
  ii_ItemID : string;
  ii_OperationVersion : string;
  ii_Payload : list (string * any);
}.

Record workerSlot := mkworkerSlot {
  ws_slots : Z;
  ws_unmeasured : bool;
  ws_active : Z;
}.
#[export] Instance eta_workerSlot : Eta workerSlot :=
  fun r => mkworkerSlot (ws_slots r) (ws_unmeasured r) (ws_active r).

Record WorkerStatus := mkWorkerStatus {
  wst_ID : string;
  wst_Slots : Z;
  wst_Active : Z;
  wst_Unmeasured : bool;
}.

Record itemIdentity := mkitemIdentity {
  id_jobID : string;
  id_itemID : string;
  id_operationVersion : string;
}.
#[export] Instance itemIdentity_eq_dec : EqDecision itemIdentity.
Proof. solve_decision. Defined.
#[export] Instance itemIdentity_countable : Countable itemIdentity.
Proof.
  refine (inj_countable' (fun k => (id_jobID k, id_itemID k, id_operationVersion k))
    (fun '(a, b, c) => mkitemIdentity a b c) _).
  by intros [].
Defined.

Definition itemKey (jobID itemID operationVersion : string) : itemIdentity :=
  mkitemIdentity jobID itemID operationVersion.

(** One goroutine spawned by [leaseLocked]: the arguments [runItem] was given
    that later matter, and whether its first critical section has run. *)
Record run := mkrun {
  run_key : itemIdentity;
  run_worker : string;
  run_token : Z;
  run_started : bool;
}.
#[export] Instance run_eq_dec : EqDecision run.
Proof. solve_decision. Defined.
#[export] Instance eta_run : Eta run :=
  fun r => mkrun (run_key r) (run_worker r) (run_token r) (run_started r).

Record Manager := mkManager {
  m_jobs : gmap string Job;
  m_items : gmap itemIdentity WorkItem;
  m_itemOrder : gmap string (list itemIdentity);
  m_jobOrder : list string;
  m_workers : gmap string workerSlot;
  m_leaseTok : gmap itemIdentity Z;
  m_leaseTTL : Duration;
  m_defaultMaxAttempts : Z;
  m_reaperInterval : Duration;
  m_idSeq : Z;
  m_runs : list run;
}.
#[export] Instance eta_Manager : Eta Manager :=
  fun r => mkManager (m_jobs r) (m_items r) (m_itemOrder r) (m_jobOrder r) (m_workers r)
    (m_leaseTok r) (m_leaseTTL r) (m_defaultMaxAttempts r) (m_reaperInterval r) (m_idSeq r)
    (m_runs r).

Definition NewManager (leaseTTL reaperInterval : Duration) (defaultMaxAttempts : Z) : Manager :=
  mkManager ∅ ∅ ∅ [] ∅ ∅
    (if leaseTTL <=? 0 then 30 * second else leaseTTL)
    (if defaultMaxAttempts <=? 0 then 8 else defaultMaxAttempts)
    (if reaperInterval <=? 0 then 500 * millisecond else reaperInterval)
    0 [].

(** ** Dispatch *)

(** Clock readings and random draws of one dispatch pass: [leaseLocked] reads
    the clock and [pickWorkerLocked] draws once per visited item. *)
Record dispatchEnv := mkdispatchEnv {
  env_now : itemIdentity -> Time;
  env_rand : itemIdentity -> Z;
}.

(** [rand.Intn]. *)
Definition Intn (draw n : Z) : Z := draw `mod` n.

Definition contains (ss : list string) (s : string) : bool := bool_decide (s ∈ ss).

Section ops.
Context {R : GoRange}.

(** Candidates of [pickWorkerLocked]: a free slot, not yet tried for the item. *)
Definition candidates (m : Manager) (item : WorkItem) : list (string * Z) :=
  omap (fun '(id, ws) =>
    if ws_slots ws <=? ws_active ws then None
    else if contains (wi_TriedWorkers item) id then None
    else Some (id, ws_slots ws - ws_active ws)) (go_range (m_workers m)).

Fixpoint pickWeighted (r : Z) (cs : list (string * Z)) : option string :=
  match cs with
  | [] => None
  | [(id, _)] => Some id
  | (id, weight) :: cs' => if r <? weight then Some id else pickWeighted (r - weight) cs'
  end.

Definition pickWorkerLocked (draw : Z) (m : Manager) (item : WorkItem) : option string :=
  let cs := candidates m item in
  let total := fold_right (fun c acc => c.2 + acc) 0 cs in
  pickWeighted (Intn draw total) cs.

Definition set_progress (f : JobProgress -> JobProgress) (job : Job) : Job :=
  job <| job_Progress := f (job_Progress job) |>.

Definition leaseItem (now : Time) (ttl : Duration) (workerID : string) (item : WorkItem) : WorkItem :=
  item <| wi_State := WorkItemLeased |>
       <| wi_LeaseOwner := workerID |>
       <| wi_LeaseExpiry := now + ttl |>
       <| wi_Attempt := wi_Attempt item + 1 |>
       <| wi_UpdatedAt := now |>.

Definition leaseJob (now : Time) (job : Job) : Job :=
  set_progress (fun p => p <| jp_Queued := jp_Queued p - 1 |>
                           <| jp_Running := jp_Running p + 1 |>) job
    <| job_UpdatedAt := now |>.

Definition leaseLocked (now : Time) (jobID : string) (key : itemIdentity) (workerID : string)
    (m : Manager) : Manager :=
  let token := default 0 (m_leaseTok m !! key) + 1 in
  m <| m_items := alter (leaseItem now (m_leaseTTL m) workerID) key (m_items m) |>
    <| m_workers := alter (fun ws => ws <| ws_active := ws_active ws + 1 |>) workerID (m_workers m) |>
    <| m_jobs := alter (leaseJob now) jobID (m_jobs m) |>
    <| m_leaseTok := <[key := token]> (m_leaseTok m) |>
    <| m_runs := mkrun key workerID token false :: m_runs m |>.

(** One iteration of the inner loop of [tryDispatchLocked].  A key of an
    order is always in [items] ([wf]); Go would panic otherwise. *)
Definition dispatchItem (env : dispatchEnv) (jobID : string) (m : Manager) (key : itemIdentity)
  : Manager :=
  match m_items m !! key with
  | None => m
  | Some item =>
      if wi_State item !=? WorkItemQueued then m
      else match pickWorkerLocked (env_rand env key) m item with
           | None => m
           | Some workerID => leaseLocked (env_now env key) jobID key workerID m
           end
  end.

Definition dispatchable (s : JobStatus) : bool :=
  match s with
  | JobPaused | JobCancelled | JobCompleted | JobCompletedWithErrors => false
  | JobPending | JobRunning => true
  end.

Definition dispatchJob (env : dispatchEnv) (m : Manager) (jobID : string) : Manager :=
  match m_jobs m !! jobID with
  | None => m
  | Some job =>
      if dispatchable (job_Status job)
      then foldl (dispatchItem env jobID) m (default [] (m_itemOrder m !! jobID))
      else m
  end.

Definition tryDispatchLocked (env : dispatchEnv) (m : Manager) : Manager :=
  foldl (dispatchJob env) m (m_jobOrder m).

(** ** Workers and submission *)

(** [profile_concurrency] is [Some c] for a non-nil profile with
    [Concurrency = c]. *)
Definition RegisterWorker (env : dispatchEnv) (workerID : string)
    (profile_concurrency : option Z) (m : Manager) : Manager * WorkerStatus :=
  let '(slots, unmeasured) :=
    match profile_concurrency with
    | Some c => if 0 <? c then (c, false) else (1, true)
    | None => (1, true)
    end in
  let m := m <| m_workers := <[workerID := mkworkerSlot slots unmeasured 0]> (m_workers m) |> in
  (tryDispatchLocked env m, mkWorkerStatus workerID slots 0 unmeasured).

Definition Workers (m : Manager) : list WorkerStatus :=
  sort_slice (fun a b => String.ltb (wst_ID a) (wst_ID b))
    (map (fun '(id, ws) => mkWorkerStatus id (ws_slots ws) (ws_active ws) (ws_unmeasured ws))
       (go_range (m_workers m))).

(** [nextID("job")]: ["job-<unix nanoseconds>-<sequence>"]. *)
Definition jobID_of (now : Time) (n : Z) : string :=
  ("job-" +:+ pretty (UnixNano now) +:+ "-" +:+ pretty n)%string.

Definition newItem (jobID itemID opVersion : string) (payload : list (string * any))
    (now : Time) (i : nat) : WorkItem :=
  mkWorkItem jobID itemID opVersion WorkItemQueued "" 0 0 "" payload [] "" now now (Z.of_nat i).

(** The item loop of [SubmitJob]: the items stored so far and the order built,
    [None] when a duplicate identity makes it return early. *)
Fixpoint submitItems (now : Time) (jobID : string) (i : nat) (inputs : list ItemInput)
    (items : gmap itemIdentity WorkItem) (order : list itemIdentity)
  : gmap itemIdentity WorkItem * option (list itemIdentity) :=
  match inputs with
  | [] => (items, Some order)
  | input :: rest =>
      let itemID := if ii_ItemID input ==? ""%string then ("item-" +:+ pretty i)%string
                    else ii_ItemID input in
      let opVersion := if ii_OperationVersion input ==? ""%string then "v1"%string
                       else ii_OperationVersion input in
      let key := itemKey jobID itemID opVersion in
      match items !! key with
      | Some _ => (items, None)
      | None =>
          submitItems now jobID (S i) rest
            (<[key := newItem jobID itemID opVersion (ii_Payload input) now i]> items)
            (order ++ [key])
      end
  end.

(** [SubmitJob] up to its call of [tryDispatchLocked]. *)
Definition enqueueJob (now now_id : Time) (operation pool : string)
    (inputs : list ItemInput) (maxAttempts : Z) (m : Manager) : Manager * result Job :=
  let maxAttempts := if maxAttempts <=? 0 then m_defaultMaxAttempts m else maxAttempts in
  let n := m_idSeq m + 1 in
  let jobID := jobID_of now_id n in
  let len := Z.of_nat (length inputs) in
  let job := mkJob jobID operation pool JobRunning "" "" now now "" maxAttempts
               (mkJobProgress len len 0 0 0 0) in
  let m := m <| m_idSeq := n |>
             <| m_jobs := <[jobID := job]> (m_jobs m) |>
             <| m_jobOrder := m_jobOrder m ++ [jobID] |> in
  match submitItems now jobID 0 inputs (m_items m) [] with
  | (items, None) => (m <| m_items := items |>, Err (ErrorsNew "jobs: duplicate item identity"))
  | (items, Some order) =>
      (m <| m_items := items |> <| m_itemOrder := <[jobID := order]> (m_itemOrder m) |>, Ok job)
  end.

Definition SubmitJob (env : dispatchEnv) (now now_id : Time) (operation pool : string)
    (inputs : list ItemInput) (maxAttempts : Z) (m : Manager) : Manager * result Job :=
  if bool_decide (inputs = []) then (m, Err (ErrorsNew "jobs: submit requires at least one work item"))
  else
    match enqueueJob now now_id operation pool inputs maxAttempts m with
    | (m, Err e) => (m, Err e)
    | (m, Ok job) =>
        let m := tryDispatchLocked env m in
        (m, Ok (default job (m_jobs m !! job_ID job)))
    end.

(** ** Execution and completion *)

(** The first critical section of [runItem]. *)
Definition runItemStart (now : Time) (key : itemIdentity) (m : Manager) : Manager :=
  match m_items m !! key with
  | Some cur =>
      if wi_State cur ==? WorkItemLeased
      then m <| m_items := <[key := cur <| wi_State := WorkItemRunning |>
                                        <| wi_UpdatedAt := now |>]> (m_items m) |>
      else m
  | None => m
  end.

Definition addTried (item : WorkItem) (workerID : string) : WorkItem :=
  if contains (wi_TriedWorkers item) workerID then item
  else item <| wi_TriedWorkers := wi_TriedWorkers item ++ [workerID] |>.

(** [exhausted || capped] of [failItemLocked]; the reaper tests the same. *)
Definition outOfAttempts (m : Manager) (job : Job) (item : WorkItem) : bool :=
  let eligible := Z.of_nat (size (m_workers m)) in
  ((0 <? eligible) && (eligible <=? Z.of_nat (length (wi_TriedWorkers item))))
  || (job_MaxAttempts job <=? wi_Attempt item).

(** Requeue or fail terminally, the shared tail of [failItemLocked] and of the
    reaper's loop body. *)
Definition requeueOrFail (m : Manager) (job : Job) (item : WorkItem) : Job * WorkItem :=
  if outOfAttempts m job item
  then (set_progress (fun p => p <| jp_Failed := jp_Failed p + 1 |>) job,
        item <| wi_State := WorkItemFailed |>)
  else (set_progress (fun p => p <| jp_Queued := jp_Queued p + 1 |>
                                 <| jp_Retried := jp_Retried p + 1 |>) job,
        item <| wi_State := WorkItemQueued |>).

Definition failItemLocked (m : Manager) (job : Job) (item : WorkItem) (workerID errMsg : string)
  : Job * WorkItem :=
  requeueOrFail m job (addTried (item <| wi_LastError := errMsg |>) workerID).

Definition recomputeJobStatusLocked (job : Job) : Job :=
  if (job_Status job ==? JobCancelled) || (job_Status job ==? JobPaused) then job
  else if (0 <? jp_Queued (job_Progress job)) || (0 <? jp_Running (job_Progress job)) then job
  else if 0 <? jp_Failed (job_Progress job) then job <| job_Status := JobCompletedWithErrors |>
  else job <| job_Status := JobCompleted |>.

(** [if ws := m.workers[id]; ws != nil && ws.active > 0 { ws.active-- }] *)
Definition freeSlot (workerID : string) (m : Manager) : Manager :=
  match m_workers m !! workerID with
  | Some ws => if 0 <? ws_active ws
               then m <| m_workers := <[workerID := ws <| ws_active := ws_active ws - 1 |>]> (m_workers m) |>
               else m
  | None => m
  end.

Definition storeItem (key : itemIdentity) (job : Job) (item : WorkItem) (m : Manager) : Manager :=
  m <| m_items := <[key := item]> (m_items m) |> <| m_jobs := <[id_jobID key := job]> (m_jobs m) |>.

(** A worker's outcome: [Ok output], or [Err]'s text. *)
Inductive outcome :=
  | ExecOk (output : string)
  | ExecErr (msg : string).

Definition completeItem (env : dispatchEnv) (now : Time) (key : itemIdentity) (workerID : string)
    (token : Z) (out : outcome) (m : Manager) : Manager :=
  match m_items m !! key, m_jobs m !! id_jobID key with
  | Some item, Some job =>
      let m := freeSlot workerID m in
      if default 0 (m_leaseTok m !! key) !=? token then tryDispatchLocked env m
      else if job_Status job ==? JobCancelled then
        if (wi_State item ==? WorkItemLeased) || (wi_State item ==? WorkItemRunning) then
          let item := item <| wi_State := WorkItemCancelled |> <| wi_UpdatedAt := now |> in
          let job := set_progress (fun p => p <| jp_Running := jp_Running p - 1 |>) job
                       <| job_UpdatedAt := now |> in
          tryDispatchLocked env (storeItem key job item m)
        else tryDispatchLocked env m
      else if (wi_State item ==? WorkItemSuccess) || (wi_State item ==? WorkItemFailed)
      then tryDispatchLocked env m
      else
        let item := item <| wi_UpdatedAt := now |> in
        let job := set_progress (fun p => p <| jp_Running := jp_Running p - 1 |>)
                     (job <| job_UpdatedAt := now |>) in
        let '(job, item) :=
          match out with
          | ExecOk output =>
              (set_progress (fun p => p <| jp_Success := jp_Success p + 1 |>) job,
               item <| wi_State := WorkItemSuccess |> <| wi_ResultRef := output |>)
          | ExecErr msg => failItemLocked m job item workerID msg
          end in
        tryDispatchLocked env (storeItem key (recomputeJobStatusLocked job) item m)
  | _, _ => m
  end.

(** ** The lease reaper *)

Definition leaseExpired (now : Time) (item : WorkItem) : bool :=
  ((wi_State item ==? WorkItemLeased) || (wi_State item ==? WorkItemRunning))
  && negb ((wi_LeaseExpiry item ==? 0) || (now <? wi_LeaseExpiry item)).

(** One iteration of the reaper's inner loop; the flag is [dispatched]. *)
Definition reapItem (now : Time) (jobID : string) (st : Manager * bool) (key : itemIdentity)
  : Manager * bool :=
  let '(m, dispatched) := st in
  match m_items m !! key, m_jobs m !! jobID with
  | Some item, Some job =>
      if negb (leaseExpired now item) then (m, dispatched)
      else
        let owner := wi_LeaseOwner item in
        let m := m <| m_leaseTok := <[key := default 0 (m_leaseTok m !! key) + 1]> (m_leaseTok m) |> in
        let m := freeSlot owner m in
        let job := set_progress (fun p => p <| jp_Running := jp_Running p - 1 |>) job in
        let item := item <| wi_State := WorkItemLeaseExpired |> <| wi_UpdatedAt := now |>
          <| wi_LastError := ("lease expired: no result from worker " +:+ owner +:+ " within TTL")%string |> in
        let '(job, item) := requeueOrFail m job (addTried item owner) in
        let job := recomputeJobStatusLocked (job <| job_UpdatedAt := now |>) in
        (m <| m_items := <[key := item]> (m_items m) |> <| m_jobs := <[jobID := job]> (m_jobs m) |>,
         true)
  | _, _ => (m, dispatched)
  end.

Definition reapExpiredLeases (env : dispatchEnv) (now : Time) (m : Manager) : Manager :=
  let '(m, dispatched) :=
    foldl (fun st '(jobID, order) => foldl (reapItem now jobID) st order)
      (m, false) (go_range (m_itemOrder m)) in
  if (dispatched : bool) then tryDispatchLocked env m else m.

End ops.

(** ** Pause, cancel and reads *)

Definition PauseJob (now : Time) (jobID : string) (m : Manager) : Manager * result unit :=
  match m_jobs m !! jobID with
  | None => (m, Err ErrNotFound)
  | Some job =>
      if (job_Status job ==? JobRunning) || (job_Status job ==? JobPending)
      then (m <| m_jobs := <[jobID := job <| job_Status := JobPaused |>
                                          <| job_UpdatedAt := now |>]> (m_jobs m) |>, Ok tt)
      else (m, Ok tt)
  end.

Definition cancelItem (now : Time) (jobID : string) (m : Manager) (key : itemIdentity) : Manager :=
  match m_items m !! key with
  | Some item =>
      if wi_State item ==? WorkItemQueued
      then m <| m_items := <[key := item <| wi_State := WorkItemCancelled |>
                                         <| wi_UpdatedAt := now |>]> (m_items m) |>
             <| m_jobs := alter (set_progress (fun p => p <| jp_Queued := jp_Queued p - 1 |>))
                            jobID (m_jobs m) |>
      else m
  | None => m
  end.

Definition CancelJob (now : Time) (jobID : string) (m : Manager) : Manager * result unit :=
  match m_jobs m !! jobID with
  | None => (m, Err ErrNotFound)
  | Some job =>
      if (job_Status job ==? JobCancelled) || (job_Status job ==? JobCompleted)
         || (job_Status job ==? JobCompletedWithErrors)
      then (m, Ok tt)
      else
        let m := foldl (cancelItem now jobID) m (default [] (m_itemOrder m !! jobID)) in
        (m <| m_jobs := alter (fun job => job <| job_Status := JobCancelled |>
                                              <| job_UpdatedAt := now |>) jobID (m_jobs m) |>,
         Ok tt)
  end.

Definition GetJob (jobID : string) (m : Manager) : result (Job * list WorkItem) :=
  match m_jobs m !! jobID with
  | None => Err ErrNotFound
  | Some job => Ok (job, omap (fun key => m_items m !! key) (default [] (m_itemOrder m !! jobID)))
  end.

Definition ListJobs (m : Manager) : list Job :=
  omap (fun id => m_jobs m !! id) (m_jobOrder m).
