(* ===== verification/JobsInv.v ===== *)
(** * Invariants of the work-queue engine

    The manager as a transition system over the operations of [Jobs.v], its
    well-formedness invariant [wf] and what follows from it: the progress
    counters count the work items, retries are bounded, a worker is never
    offered an item it already failed, terminal job statuses are truthful, and
    dispatch leaves no free eligible slot beside a queued item. *)

From S2P Require Import Prelude Domain Jobs.

(** ** The transition system *)

Inductive step : Manager -> Manager -> Prop :=
  | step_register (R : GoRange) env w conc m :
      step m (RegisterWorker env w conc m).1
  | step_submit (R : GoRange) env now now_id op pool inputs maxAttempts m :
      step m (SubmitJob env now now_id op pool inputs maxAttempts m).1
  | step_run_start now g l1 l2 m :
      m_runs m = l1 ++ g :: l2 -> run_started g = false ->
      step m (runItemStart now (run_key g) (m <| m_runs := l1 ++ g <| run_started := true |> :: l2 |>))
  | step_run_finish (R : GoRange) env now out g l1 l2 m :
      m_runs m = l1 ++ g :: l2 -> run_started g = true ->
      step m (completeItem env now (run_key g) (run_worker g) (run_token g) out
                (m <| m_runs := l1 ++ l2 |>))
  | step_reap (R : GoRange) env now m :
      step m (reapExpiredLeases env now m)
  | step_pause now id m : step m (PauseJob now id m).1
  | step_cancel now id m : step m (CancelJob now id m).1.

Definition initial (m : Manager) : Prop :=
  exists leaseTTL reaperInterval maxAttempts, m = NewManager leaseTTL reaperInterval maxAttempts.

Definition reachable (m : Manager) : Prop := exists m0, initial m0 /\ rtc step m0 m.

(** ** Counting items by state *)

Definition isQueued (s : WorkItemState) : bool := s ==? WorkItemQueued.
Definition isInflight (s : WorkItemState) : bool := (s ==? WorkItemLeased) || (s ==? WorkItemRunning).
Definition isSuccess (s : WorkItemState) : bool := s ==? WorkItemSuccess.
Definition isFailed (s : WorkItemState) : bool := s ==? WorkItemFailed.

Definition b2z (b : bool) : Z := if b then 1 else 0.

Definition count (f : WorkItemState -> bool) (items : gmap itemIdentity WorkItem)
    (order : list itemIdentity) : Z :=
  foldr (fun k acc =>
    match items !! k with Some it => b2z (f (wi_State it)) | None => 0 end + acc) 0 order.

Lemma count_nonneg f items order : 0 <= count f items order.
Proof.
  induction order as [|k order IH]; simpl; [done|].
  destruct (items !! k) as [it|]; [|lia]. unfold b2z. destruct (f _); lia.
Qed.

Lemma count_insert_notin f items order k it :
  k ∉ order -> count f (<[k := it]> items) order = count f items order.
Proof.
  induction order as [|k' order IH]; simpl; [done|].
  intros [Hne Hnin]%not_elem_of_cons. by rewrite lookup_insert_ne, IH.
Qed.

Lemma count_insert f items order k it it' :
  NoDup order -> k ∈ order -> items !! k = Some it ->
  count f (<[k := it']> items) order
  = count f items order + b2z (f (wi_State it')) - b2z (f (wi_State it)).
Proof.
  induction order as [|k' order IH]; intros Hnd Hin Hk; [by apply elem_of_nil in Hin|].
  apply NoDup_cons in Hnd as [Hnin Hnd]. simpl.
  apply elem_of_cons in Hin as [->|Hin].
  - rewrite lookup_insert_eq, Hk, count_insert_notin by done. lia.
  - rewrite lookup_insert_ne by (intros ->; done). rewrite IH by done. lia.
Qed.

Lemma count_zero f items order k it :
  count f items order = 0 -> k ∈ order -> items !! k = Some it -> f (wi_State it) = false.
Proof.
  induction order as [|k' order IH]; intros Hc Hin Hk; [by apply elem_of_nil in Hin|].
  simpl in Hc. pose proof (count_nonneg f items order).
  apply elem_of_cons in Hin as [->|Hin].
  - rewrite Hk in Hc. destruct (f _); [unfold b2z in Hc; lia|done].
  - apply IH; try done. destruct (items !! k') as [it'|]; [|lia].
    revert Hc. unfold b2z. destruct (f (wi_State it')); lia.
Qed.

(** ** The invariant *)

(** One work item of a published job; [W] is the set of registered workers. *)
Record item_ok (W : gset string) (job : Job) (it : WorkItem) : Prop := {
  io_tried_nodup : NoDup (wi_TriedWorkers it);
  io_tried_known : forall w, w ∈ wi_TriedWorkers it -> w ∈ W;
  io_attempt : 0 <= wi_Attempt it <= job_MaxAttempts job;
  io_not_expired : wi_State it <> WorkItemLeaseExpired;
  io_queued : wi_State it = WorkItemQueued ->
    wi_Attempt it < job_MaxAttempts job /\
    (wi_TriedWorkers it = [] \/ (length (wi_TriedWorkers it) < size W)%nat);
  io_owner : isInflight (wi_State it) = true ->
    wi_LeaseOwner it ∈ W /\ wi_LeaseOwner it ∉ wi_TriedWorkers it;
  io_cancelled : wi_State it = WorkItemCancelled -> job_Status job = JobCancelled;
}.

Record job_ok (items : gmap itemIdentity WorkItem) (W : gset string) (id : string)
    (job : Job) (order : list itemIdentity) : Prop := {
  jo_nodup : NoDup order;
  jo_keys : forall k, k ∈ order -> id_jobID k = id;
  jo_items : forall k, k ∈ order -> exists it, items !! k = Some it /\ item_ok W job it;
  jo_max : 1 <= job_MaxAttempts job;
  jo_total : jp_Total (job_Progress job) = Z.of_nat (length order);
  jo_queued : jp_Queued (job_Progress job) = count isQueued items order;
  jo_running : jp_Running (job_Progress job) = count isInflight items order;
  jo_success : jp_Success (job_Progress job) = count isSuccess items order;
  jo_failed : jp_Failed (job_Progress job) = count isFailed items order;
  jo_done : job_Status job = JobCompleted \/ job_Status job = JobCompletedWithErrors ->
    jp_Queued (job_Progress job) = 0 /\ jp_Running (job_Progress job) = 0;
  jo_errors : job_Status job = JobCompleted -> jp_Failed (job_Progress job) = 0;
  jo_errors' : job_Status job = JobCompletedWithErrors -> 0 < jp_Failed (job_Progress job);
}.

(** A spawned goroutine holds a token at most the current one, and one that
    still holds the current token executes an item leased to its worker. *)
Definition run_ok (m : Manager) (g : run) : Prop :=
  exists order it,
    m_itemOrder m !! id_jobID (run_key g) = Some order /\ run_key g ∈ order /\
    m_items m !! run_key g = Some it /\
    run_worker g ∈ dom (m_workers m) /\
    run_token g <= default 0 (m_leaseTok m !! run_key g) /\
    (run_token g = default 0 (m_leaseTok m !! run_key g) ->
       isInflight (wi_State it) = true /\ wi_LeaseOwner it = run_worker g).

Definition slot_ok (ws : workerSlot) : Prop := 1 <= ws_slots ws /\ 0 <= ws_active ws <= ws_slots ws.

Record wf (m : Manager) : Prop := {
  wf_orders : forall id order, m_itemOrder m !! id = Some order ->
    exists job, m_jobs m !! id = Some job /\ job_ok (m_items m) (dom (m_workers m)) id job order;
  wf_ids : forall id job, m_jobs m !! id = Some job ->
    exists t n, id = jobID_of t n /\ 0 < n <= m_idSeq m;
  wf_items : forall k it, m_items m !! k = Some it ->
    is_Some (m_jobs m !! id_jobID k) /\
    itemKey (wi_JobID it) (wi_ItemID it) (wi_OperationVersion it) = k;
  wf_jobOrder : forall id, id ∈ m_jobOrder m -> is_Some (m_jobs m !! id);
  wf_slots : map_Forall (fun _ ws => slot_ok ws) (m_workers m);
  wf_default : 1 <= m_defaultMaxAttempts m;
  wf_seq : 0 <= m_idSeq m;
  wf_runs : Forall (run_ok m) (m_runs m);
  wf_runs_nodup : NoDup (map (fun g => (run_key g, run_token g)) (m_runs m));
}.

(** ** One item of one job changes *)

(** What an update of item [it] to [it'] has to do to the job's record. *)
Record job_delta (job job' : Job) (it it' : WorkItem) : Prop := {
  jd_max : job_MaxAttempts job' = job_MaxAttempts job;
  jd_total : jp_Total (job_Progress job') = jp_Total (job_Progress job);
  jd_queued : jp_Queued (job_Progress job') = jp_Queued (job_Progress job)
    + b2z (isQueued (wi_State it')) - b2z (isQueued (wi_State it));
  jd_running : jp_Running (job_Progress job') = jp_Running (job_Progress job)
    + b2z (isInflight (wi_State it')) - b2z (isInflight (wi_State it));
  jd_success : jp_Success (job_Progress job') = jp_Success (job_Progress job)
    + b2z (isSuccess (wi_State it')) - b2z (isSuccess (wi_State it));
  jd_failed : jp_Failed (job_Progress job') = jp_Failed (job_Progress job)
    + b2z (isFailed (wi_State it')) - b2z (isFailed (wi_State it));
  jd_cancelled : job_Status job = JobCancelled -> job_Status job' = JobCancelled;
  jd_done : job_Status job' = JobCompleted \/ job_Status job' = JobCompletedWithErrors ->
    jp_Queued (job_Progress job') = 0 /\ jp_Running (job_Progress job') = 0;
  jd_errors : job_Status job' = JobCompleted -> jp_Failed (job_Progress job') = 0;
  jd_errors' : job_Status job' = JobCompletedWithErrors -> 0 < jp_Failed (job_Progress job');
}.

Lemma item_ok_job W job job' it :
  job_MaxAttempts job' = job_MaxAttempts job ->
  (job_Status job = JobCancelled -> job_Status job' = JobCancelled) ->
  item_ok W job it -> item_ok W job' it.
Proof. intros Hm Hc []; constructor; rewrite ?Hm; auto. Qed.

Lemma item_ok_workers W W' job it : W ⊆ W' -> item_ok W job it -> item_ok W' job it.
Proof.
  intros Hsub []; constructor; auto.
  - intros Hq. destruct (io_queued0 Hq) as [? [?|?]]; split; auto.
    right. apply subseteq_size in Hsub. lia.
  - intros Hi. destruct (io_owner0 Hi). auto.
Qed.

Lemma job_ok_update items W id job job' order k it it' :
  job_ok items W id job order -> k ∈ order -> items !! k = Some it ->
  job_delta job job' it it' -> item_ok W job' it' ->
  job_ok (<[k := it']> items) W id job' order.
Proof.
  intros [] Hin Hk [] Hit. constructor; auto;
    rewrite ?(count_insert _ _ _ _ it) by done; try congruence.
  intros k' Hk'. destruct (decide (k = k')) as [->|Hne].
  - exists it'. by rewrite lookup_insert_eq.
  - destruct (jo_items0 k' Hk') as (it0 & Hl & Hok). exists it0.
    rewrite lookup_insert_ne by done. eauto using item_ok_job.
Qed.

Lemma job_ok_frame items W id job order k it :
  job_ok items W id job order -> k ∉ order -> job_ok (<[k := it]> items) W id job order.
Proof.
  intros [] Hnin. constructor; auto; rewrite ?count_insert_notin by done; auto.
  intros k' Hk'. rewrite lookup_insert_ne by (intros ->; done). auto.
Qed.

Lemma job_ok_workers items W W' id job order :
  W ⊆ W' -> job_ok items W id job order -> job_ok items W' id job order.
Proof.
  intros Hsub []. constructor; auto.
  intros k Hk. destruct (jo_items0 k Hk) as (it & ? & ?). eauto using item_ok_workers.
Qed.

(** The manager after item [k] and its job changed, everything else static
    except tokens, slots and goroutines. *)
Lemma wf_local m m' k order it it' job job' :
  wf m ->
  m_itemOrder m !! id_jobID k = Some order -> k ∈ order ->
  m_items m !! k = Some it -> m_jobs m !! id_jobID k = Some job ->
  m_items m' = <[k := it']> (m_items m) ->
  m_jobs m' = <[id_jobID k := job']> (m_jobs m) ->
  m_itemOrder m' = m_itemOrder m -> m_jobOrder m' = m_jobOrder m ->
  dom (m_workers m') = dom (m_workers m) ->
  m_defaultMaxAttempts m' = m_defaultMaxAttempts m -> m_idSeq m' = m_idSeq m ->
  map_Forall (fun _ ws => slot_ok ws) (m_workers m') ->
  itemKey (wi_JobID it') (wi_ItemID it') (wi_OperationVersion it') = k ->
  job_delta job job' it it' -> item_ok (dom (m_workers m)) job' it' ->
  Forall (run_ok m') (m_runs m') ->
  NoDup (map (fun g => (run_key g, run_token g)) (m_runs m')) ->
  wf m'.
Proof.
  intros [] Hord Hin Hit Hjob Ei Ej Eo Ejo Ew Ed Es Hslots Hkey Hd Hok Hruns Hnd.
  constructor; rewrite ?Ei, ?Ej, ?Eo, ?Ejo, ?Ew, ?Ed, ?Es; auto.
  - intros id' order' Hid'. destruct (wf_orders0 _ _ Hid') as (job0 & Hj0 & Hok0).
    destruct (decide (id_jobID k = id')) as [<-|Hne].
    + exists job'. rewrite lookup_insert_eq. simplify_eq. split; [done|].
      by eapply job_ok_update.
    + exists job0. rewrite lookup_insert_ne by done. split; [done|].
      apply job_ok_frame; [done|]. intros Hk. destruct Hok0. by apply Hne, jo_keys0.
  - intros id job0. destruct (decide (id_jobID k = id)) as [<-|Hne]; eauto.
    rewrite lookup_insert_ne by done. eauto.
  - intros k' it0. destruct (decide (k = k')) as [->|Hne].
    + rewrite !lookup_insert_eq. intros [= <-]. split; [eauto|done].
    + rewrite lookup_insert_ne by done. intros Hl. destruct (wf_items0 _ _ Hl) as [[j Hj] ?].
      split; [|done]. destruct (decide (id_jobID k = id_jobID k')) as [->|];
        [rewrite lookup_insert_eq | rewrite lookup_insert_ne by done]; eauto.
  - intros id Hid. destruct (decide (id_jobID k = id)) as [->|];
      [rewrite lookup_insert_eq | rewrite lookup_insert_ne by done]; eauto.
Qed.

(** Every published item, with its job and the facts the invariant has on it. *)
Lemma wf_lookup m k order :
  wf m -> m_itemOrder m !! id_jobID k = Some order -> k ∈ order ->
  exists job it, m_jobs m !! id_jobID k = Some job /\ m_items m !! k = Some it /\
    job_ok (m_items m) (dom (m_workers m)) (id_jobID k) job order /\
    item_ok (dom (m_workers m)) job it /\
    itemKey (wi_JobID it) (wi_ItemID it) (wi_OperationVersion it) = k.
Proof.
  intros Hwf Hord Hin. destruct (wf_orders m Hwf _ _ Hord) as (job & Hj & Hok).
  destruct (jo_items _ _ _ _ _ Hok k Hin) as (it & Hit & Hiok).
  exists job, it. split_and!; try done. by apply (wf_items m Hwf k it).
Qed.

(** ** Preservation, operation by operation *)

Lemma run_ok_frame m m' g :
  m_itemOrder m' = m_itemOrder m ->
  m_items m' !! run_key g = m_items m !! run_key g ->
  m_leaseTok m' !! run_key g = m_leaseTok m !! run_key g ->
  dom (m_workers m) ⊆ dom (m_workers m') ->
  run_ok m g -> run_ok m' g.
Proof.
  intros Eo Ei Et Ew (order & it & Hg). exists order, it. rewrite Eo, Ei, Et.
  destruct Hg as (? & ? & ? & ? & ? & ?). split_and!; auto.
Qed.

(** A goroutine whose token is no longer current survives any change of the
    item it was started for. *)
Lemma run_ok_stale m m' g it' :
  m_itemOrder m' = m_itemOrder m ->
  m_items m' !! run_key g = Some it' ->
  run_token g < default 0 (m_leaseTok m' !! run_key g) ->
  dom (m_workers m) ⊆ dom (m_workers m') ->
  run_ok m g -> run_ok m' g.
Proof.
  intros Eo Ei Ht Ew (order & it & ? & ? & ? & ? & ? & ?). exists order, it'.
  rewrite Eo, Ei. split_and!; auto; lia.
Qed.

Lemma pickWeighted_elem r cs id : pickWeighted r cs = Some id -> exists w, (id, w) ∈ cs.
Proof.
  revert r. induction cs as [|[i w] cs IH]; intros r; simpl; [done|].
  destruct cs as [|c cs].
  - intros [= ->]. exists w. left.
  - destruct (r <? w); [intros [= ->]; exists w; left|].
    intros [w' Hw']%IH. exists w'. by right.
Qed.

Lemma candidates_elem {R : GoRange} m item id w :
  (id, w) ∈ candidates m item <->
  exists ws, m_workers m !! id = Some ws /\ ws_active ws < ws_slots ws /\
    (id ∉ wi_TriedWorkers item) /\ w = ws_slots ws - ws_active ws.
Proof.
  unfold candidates. rewrite list_elem_of_omap. split.
  - intros ([id' ws] & Hin & H). apply go_range_elem in Hin.
    unfold contains in H. destruct (Z.leb_spec (ws_slots ws) (ws_active ws)); [done|].
    case_bool_decide; [done|]. simplify_eq. eauto 10.
  - intros (ws & Hl & Hlt & Hnin & ->). exists (id, ws). split; [by apply go_range_elem|].
    unfold contains. destruct (Z.leb_spec (ws_slots ws) (ws_active ws)); [lia|].
    by rewrite bool_decide_eq_false_2.
Qed.

Lemma pickWorkerLocked_Some {R : GoRange} draw m item id :
  pickWorkerLocked draw m item = Some id ->
  exists ws, m_workers m !! id = Some ws /\ ws_active ws < ws_slots ws /\
    id ∉ wi_TriedWorkers item.
Proof. intros [w (ws & ? & ? & ? & _)%candidates_elem]%pickWeighted_elem. eauto. Qed.

Lemma pickWorkerLocked_None {R : GoRange} draw m item :
  pickWorkerLocked draw m item = None ->
  forall id ws, m_workers m !! id = Some ws ->
    ws_slots ws <= ws_active ws \/ id ∈ wi_TriedWorkers item.
Proof.
  unfold pickWorkerLocked. intros Hp id ws Hl.
  destruct (decide (id ∈ wi_TriedWorkers item)) as [?|Hnin]; [by right|]. left.
  destruct (Z.le_gt_cases (ws_slots ws) (ws_active ws)) as [?|Hlt]; [done|exfalso].
  assert ((id, ws_slots ws - ws_active ws) ∈ candidates m item) as Hin
    by (apply candidates_elem; eauto 10).
  revert Hp. generalize (Intn draw (foldr (fun c acc => c.2 + acc) 0 (candidates m item))).
  destruct (candidates m item) as [|c cs]; [by apply elem_of_nil in Hin|].
  clear Hin. revert c. induction cs as [|c' cs IH]; intros [i w] r; simpl; [done|].
  destruct (r <? w); [done|]. apply IH.
Qed.

Lemma alter_insert {K A} `{Countable K} (f : A -> A) (k : K) (m : gmap K A) (x : A) :
  m !! k = Some x -> alter f k m = <[k := f x]> m.
Proof.
  intros Hk. apply map_eq. intros k'. rewrite lookup_alter, lookup_insert.
  case_decide; [|done]. by subst; rewrite Hk.
Qed.

(** What a state change of an item has to respect to keep [item_ok] and the
    job counters; the side conditions are decided on the concrete states. *)
Ltac solve_delta :=
  constructor; simpl; unfold isQueued, isInflight, isSuccess, isFailed in *;
  repeat (match goal with H : wi_State _ = _ |- _ => rewrite H in * end);
  simpl; auto; try lia.

Lemma leaseLocked_wf now key workerID order job item ws m :
  wf m -> m_itemOrder m !! id_jobID key = Some order -> key ∈ order ->
  m_jobs m !! id_jobID key = Some job -> dispatchable (job_Status job) = true ->
  m_items m !! key = Some item -> wi_State item = WorkItemQueued ->
  m_workers m !! workerID = Some ws -> ws_active ws < ws_slots ws ->
  workerID ∉ wi_TriedWorkers item ->
  wf (leaseLocked now (id_jobID key) key workerID m).
Proof.
  intros Hwf Hord Hin Hj Hdisp Hit Hq Hw Hlt Hnt.
  destruct (wf_lookup m key order Hwf Hord Hin) as (job0 & it0 & Hj0 & Hit0 & Hjok & Hiok & Hkey).
  rewrite Hj in Hj0. rewrite Hit in Hit0. injection Hj0 as <-. injection Hit0 as <-.
  destruct (io_queued _ _ _ Hiok Hq) as [Hatt _].
  eapply (wf_local m _ key order item (leaseItem now (m_leaseTTL m) workerID item)
    job (leaseJob now job)); try done; simpl.
  - by apply alter_insert.
  - by apply alter_insert.
  - by rewrite dom_alter_L.
  - intros w' ws'. rewrite lookup_alter. case_decide as Hc.
    + subst w'. rewrite Hw. intros [= <-]. pose proof (wf_slots m Hwf _ _ Hw).
      unfold slot_ok in *. simpl. lia.
    + apply (wf_slots m Hwf).
  - solve_delta; destruct (job_Status job); simpl in *; naive_solver.
  - destruct Hiok. constructor; simpl; auto; try done; try lia.
    intros _. split; [by apply elem_of_dom; eauto|done].
  - constructor.
    + exists order, (leaseItem now (m_leaseTTL m) workerID item). simpl.
      rewrite (alter_insert _ _ _ item), !lookup_insert_eq, dom_alter_L by done. simpl.
      split_and!; try done. by apply elem_of_dom; eauto.
    + eapply Forall_impl; [apply (wf_runs m Hwf)|]. intros g Hg.
      destruct (decide (run_key g = key)) as [Hgk|Hgk].
      * eapply (run_ok_stale m); [done| | | |exact Hg]; simpl.
        -- rewrite Hgk, (alter_insert _ _ _ item), lookup_insert_eq; done.
        -- rewrite Hgk, lookup_insert_eq. simpl.
           destruct Hg as (? & ? & _ & _ & _ & _ & Hle & _). rewrite Hgk in Hle. lia.
        -- by rewrite dom_alter_L.
      * eapply (run_ok_frame m); [done| | | |exact Hg]; simpl.
        -- by rewrite lookup_alter_ne.
        -- by rewrite lookup_insert_ne.
        -- by rewrite dom_alter_L.
  - apply NoDup_cons. split; [|apply (wf_runs_nodup m Hwf)].
    rewrite list_elem_of_fmap. intros (g & [= Hgk Hgt] & Hgin).
    pose proof (wf_runs m Hwf) as Hr. rewrite Forall_forall in Hr. specialize (Hr g Hgin).
    destruct Hr as (? & ? & _ & _ & _ & _ & Hle & _). rewrite Hgk in Hgt. lia.
Qed.

(** *** Dispatch *)

(** What a dispatch pass may change: queued items become leased, slots fill
    up, nothing else that decides dispatch moves. *)
Record le_dispatch (m m' : Manager) : Prop := {
  ld_order : m_itemOrder m' = m_itemOrder m;
  ld_jobOrder : m_jobOrder m' = m_jobOrder m;
  ld_status : forall id, job_Status <$> m_jobs m' !! id = job_Status <$> m_jobs m !! id;
  ld_slots : forall w ws', m_workers m' !! w = Some ws' ->
    exists ws, m_workers m !! w = Some ws /\ ws_slots ws' = ws_slots ws /\ ws_active ws <= ws_active ws';
  ld_items : forall k it', m_items m' !! k = Some it' ->
    exists it, m_items m !! k = Some it /\ wi_TriedWorkers it' = wi_TriedWorkers it /\
      (it' = it \/ (wi_State it = WorkItemQueued /\ wi_State it' = WorkItemLeased));
  ld_payload : forall k, wi_Payload <$> m_items m' !! k = wi_Payload <$> m_items m !! k;
  ld_id : forall id, job_ID <$> m_jobs m' !! id = job_ID <$> m_jobs m !! id;
}.

#[export] Instance le_dispatch_preorder : PreOrder le_dispatch.
Proof.
  split.
  - intros m. constructor; eauto.
    intros w ws Hw. exists ws. split_and!; [done..|lia].
  - intros m1 m2 m3 [] []. constructor; [congruence|congruence| | | | |].
    + intros id. by rewrite ld_status1.
    + intros w ws3 Hw. destruct (ld_slots1 _ _ Hw) as (ws2 & Hw2 & ? & ?).
      destruct (ld_slots0 _ _ Hw2) as (ws1 & ? & ? & ?). exists ws1. split_and!; [done|congruence|lia].
    + intros k it3 Hk. destruct (ld_items1 _ _ Hk) as (it2 & Hk2 & Ht2 & Hs2).
      destruct (ld_items0 _ _ Hk2) as (it1 & Hk1 & Ht1 & Hs1). exists it1.
      split_and!; [done|congruence|].
      destruct Hs2 as [->|[Hq2 Hl3]], Hs1 as [->|[Hq1 Hl2]]; eauto; congruence.
    + intros k. by rewrite ld_payload1.
    + intros id. by rewrite ld_id1.
Qed.

Lemma leaseLocked_le now id key workerID item m :
  m_items m !! key = Some item -> wi_State item = WorkItemQueued ->
  le_dispatch m (leaseLocked now id key workerID m).
Proof.
  intros Hit Hq. constructor; simpl; auto.
  - intros id'. rewrite lookup_alter. case_decide; [|done]. subst. by destruct (m_jobs m !! id').
  - intros w ws'. rewrite lookup_alter. case_decide; [subst|]; intros Hw.
    + destruct (m_workers m !! w) as [ws|]; simplify_eq/=. exists ws. split_and!; simpl; auto; lia.
    + exists ws'. split_and!; auto; lia.
  - intros k it'. rewrite lookup_alter. case_decide; [subst|].
    + rewrite Hit. intros [= <-]. eauto 10.
    + eauto.
  - intros k. rewrite lookup_alter. case_decide; [|done]. subst. by rewrite Hit.
  - intros id'. rewrite lookup_alter. case_decide; [|done]. subst. by destruct (m_jobs m !! id').
Qed.

Lemma dispatchItem_le {R : GoRange} env id m key : le_dispatch m (dispatchItem env id m key).
Proof.
  unfold dispatchItem. destruct (m_items m !! key) as [item|] eqn:Hit; [|done].
  case_bool_decide as Hq; simpl; [|done].
  destruct (pickWorkerLocked _ m item) as [w|]; [|done]. by eapply leaseLocked_le.
Qed.

(** Item [key] is not queued, or every worker is full or was already tried. *)
Definition starved (m : Manager) (key : itemIdentity) : Prop :=
  forall item, m_items m !! key = Some item -> wi_State item = WorkItemQueued ->
  forall w ws, m_workers m !! w = Some ws -> ws_slots ws <= ws_active ws \/ w ∈ wi_TriedWorkers item.

Lemma starved_mono m m' key : le_dispatch m m' -> starved m key -> starved m' key.
Proof.
  intros [] Hs it' Hit' Hq w ws' Hw'.
  destruct (ld_items0 _ _ Hit') as (it & Hit & Ht & [->|[_ ?]]); [|congruence].
  destruct (ld_slots0 _ _ Hw') as (ws & Hw & ? & ?).
  destruct (Hs it Hit Hq w ws Hw); [left; lia|by right].
Qed.

Lemma dispatchItem_starved {R : GoRange} env id m key : starved (dispatchItem env id m key) key.
Proof.
  unfold dispatchItem. destruct (m_items m !! key) as [item|] eqn:Hit; [|intros ?; congruence].
  case_bool_decide as Hq; simpl; [|intros it Hit'; simplify_eq; done].
  destruct (pickWorkerLocked _ m item) as [w|] eqn:Hp.
  - intros it. simpl. rewrite (alter_insert _ _ _ item), lookup_insert_eq by done.
    by intros [= <-].
  - intros it Hit' _. simplify_eq. by eapply pickWorkerLocked_None.
Qed.

Lemma foldl_dispatch_le {R : GoRange} env id keys m :
  le_dispatch m (foldl (dispatchItem env id) m keys).
Proof.
  revert m. induction keys as [|k keys IH]; intros m; simpl; [done|].
  etrans; [apply dispatchItem_le|apply IH].
Qed.

Lemma foldl_dispatch_starved {R : GoRange} env id keys m key :
  key ∈ keys -> starved (foldl (dispatchItem env id) m keys) key.
Proof.
  revert m. induction keys as [|k keys IH]; intros m Hin; simpl; [by apply elem_of_nil in Hin|].
  apply elem_of_cons in Hin as [<-|Hin]; [|by apply IH].
  eapply starved_mono; [apply foldl_dispatch_le|apply dispatchItem_starved].
Qed.

Lemma dispatchJob_le {R : GoRange} env m id : le_dispatch m (dispatchJob env m id).
Proof.
  unfold dispatchJob. destruct (m_jobs m !! id) as [job|]; [|done].
  destruct (dispatchable _); [apply foldl_dispatch_le|done].
Qed.

Lemma foldl_dispatchJob_le {R : GoRange} env ids m : le_dispatch m (foldl (dispatchJob env) m ids).
Proof.
  revert m. induction ids as [|id ids IH]; intros m; simpl; [done|].
  etrans; [apply dispatchJob_le|apply IH].
Qed.

Lemma foldl_dispatchJob_starved {R : GoRange} env ids m id job order key :
  id ∈ ids -> m_jobs m !! id = Some job -> dispatchable (job_Status job) = true ->
  m_itemOrder m !! id = Some order -> key ∈ order ->
  starved (foldl (dispatchJob env) m ids) key.
Proof.
  revert m job. induction ids as [|i ids IH]; intros m job Hin Hj Hd Ho Hk; simpl;
    [by apply elem_of_nil in Hin|].
  destruct (decide (i = id)) as [->|Hne].
  - eapply starved_mono; [apply foldl_dispatchJob_le|].
    unfold dispatchJob. rewrite Hj, Hd, Ho. by apply foldl_dispatch_starved.
  - pose proof (dispatchJob_le env m i) as [Hlo _ Hls _ _ _ _].
    specialize (Hls id). rewrite Hj in Hls. simpl in Hls.
    destruct (m_jobs (dispatchJob env m i) !! id) as [job'|] eqn:Hj'; simplify_eq/=.
    eapply (IH _ job'); try done; [set_solver|congruence|congruence].
Qed.

(** *** Slots, tokens and goroutines *)

Lemma wf_workers m W :
  wf m -> dom (m_workers m) ⊆ dom W -> map_Forall (fun _ ws => slot_ok ws) W ->
  wf (m <| m_workers := W |>).
Proof.
  intros [] Hsub Hs. constructor; simpl; auto.
  - intros id order Ho. destruct (wf_orders0 _ _ Ho) as (job & ? & ?).
    eauto using job_ok_workers.
  - eapply Forall_impl; [done|]. intros g Hg. by eapply (run_ok_frame m).
Qed.

Lemma freeSlot_wf w m : wf m -> wf (freeSlot w m).
Proof.
  intros Hwf. unfold freeSlot. destruct (m_workers m !! w) as [ws|] eqn:Hw; [|done].
  destruct (Z.ltb_spec 0 (ws_active ws)); [|done].
  apply wf_workers; [done|rewrite dom_insert_L; set_solver|].
  apply map_Forall_insert_2; [|apply wf_slots; done].
  pose proof (wf_slots m Hwf _ _ Hw) as []. unfold slot_ok; simpl. lia.
Qed.

Lemma freeSlot_dom w m : dom (m_workers (freeSlot w m)) = dom (m_workers m).
Proof.
  unfold freeSlot. destruct (m_workers m !! w) as [ws|] eqn:Hw; [|done].
  destruct (0 <? _); [|done]. simpl. rewrite dom_insert_L.
  apply elem_of_dom_2 in Hw. set_solver.
Qed.

Lemma freeSlot_frame w m :
  m_items (freeSlot w m) = m_items m /\ m_jobs (freeSlot w m) = m_jobs m /\
  m_itemOrder (freeSlot w m) = m_itemOrder m /\ m_leaseTok (freeSlot w m) = m_leaseTok m /\
  m_runs (freeSlot w m) = m_runs m.
Proof.
  unfold freeSlot. destruct (m_workers m !! w) as [ws|]; [|done]. by destruct (0 <? _).
Qed.

Lemma wf_remove_run m l1 g l2 :
  wf m -> m_runs m = l1 ++ g :: l2 -> wf (m <| m_runs := l1 ++ l2 |>).
Proof.
  intros [] Hr. rewrite Hr in *. constructor; simpl; auto.
  - rewrite Forall_app, Forall_cons in wf_runs0. rewrite Forall_app. naive_solver.
  - rewrite map_app in *. simpl in *. rewrite <- Permutation_middle in wf_runs_nodup0.
    by apply NoDup_cons in wf_runs_nodup0 as [_ ?].
Qed.

Lemma wf_start_run m l1 g l2 :
  wf m -> m_runs m = l1 ++ g :: l2 -> wf (m <| m_runs := l1 ++ g <| run_started := true |> :: l2 |>).
Proof.
  intros [] Hr. rewrite Hr in *. constructor; simpl; auto.
  - rewrite Forall_app, Forall_cons in *. naive_solver.
  - by rewrite map_app in *.
Qed.

(** No goroutine other than [g] holds [g]'s token. *)
Lemma wf_run_unique m l1 g l2 g' :
  wf m -> m_runs m = l1 ++ g :: l2 -> g' ∈ l1 ++ l2 -> run_key g' = run_key g ->
  run_token g' <> run_token g.
Proof.
  intros Hwf Hr Hin Hk Ht. pose proof (wf_runs_nodup m Hwf) as Hnd. rewrite Hr in Hnd.
  rewrite map_app in Hnd. simpl in Hnd. rewrite <- Permutation_middle in Hnd.
  apply NoDup_cons in Hnd as [Hn _]. apply Hn. rewrite <- map_app, list_elem_of_fmap.
  exists g'. split; [congruence|done].
Qed.

Lemma wf_bump m key :
  wf m -> wf (m <| m_leaseTok := <[key := default 0 (m_leaseTok m !! key) + 1]> (m_leaseTok m) |>).
Proof.
  intros Hwf. destruct Hwf. constructor; simpl; auto.
  eapply Forall_impl; [done|]. intros g Hg.
  destruct (decide (run_key g = key)) as [Hgk|Hgk].
  - destruct Hg as (order & it & ? & ? & Hit & Hw & Hle & Hcur).
    eapply (run_ok_stale m _ _ it); simpl; try done.
    + rewrite Hgk, lookup_insert_eq. simpl. rewrite Hgk in Hle. lia.
    + exists order, it. split_and!; auto.
  - eapply (run_ok_frame m); simpl; try done. by rewrite lookup_insert_ne.
Qed.

(** *** Settling one item *)

Lemma wf_settle m key order it it' job job' :
  wf m -> m_itemOrder m !! id_jobID key = Some order -> key ∈ order ->
  m_items m !! key = Some it -> m_jobs m !! id_jobID key = Some job ->
  (forall g, g ∈ m_runs m -> run_key g = key -> run_token g < default 0 (m_leaseTok m !! key)) ->
  itemKey (wi_JobID it') (wi_ItemID it') (wi_OperationVersion it') = key ->
  job_delta job job' it it' -> item_ok (dom (m_workers m)) job' it' ->
  wf (storeItem key job' it' m).
Proof.
  intros Hwf Ho Hin Hit Hj Hruns Hkey Hd Hok.
  eapply (wf_local m _ key order it it' job job'); try done; [apply Hwf| |apply Hwf].
  apply Forall_forall. intros g Hg. pose proof (wf_runs m Hwf) as Hr.
  rewrite Forall_forall in Hr. specialize (Hr g Hg).
  destruct (decide (run_key g = key)) as [Hgk|Hgk].
  - eapply (run_ok_stale m _ _ it'); try done; simpl; rewrite Hgk, ?lookup_insert_eq; [done|].
    by apply Hruns.
  - eapply (run_ok_frame m); try done. simpl. by rewrite lookup_insert_ne.
Qed.

(** A queued item is held by no current goroutine. *)
Lemma wf_queued_runs m key it g :
  wf m -> m_items m !! key = Some it -> isInflight (wi_State it) = false ->
  g ∈ m_runs m -> run_key g = key -> run_token g < default 0 (m_leaseTok m !! key).
Proof.
  intros Hwf Hit Hs Hg <-. pose proof (wf_runs m Hwf) as Hr. rewrite Forall_forall in Hr.
  destruct (Hr g Hg) as (? & it0 & _ & _ & Hit0 & _ & Hle & Hcur).
  apply Z.le_neq. split; [done|]. intros E. destruct (Hcur E). congruence.
Qed.

(** The counter part of [job_delta]. *)
Record job_counts (job job' : Job) (it it' : WorkItem) : Prop := {
  jc_max : job_MaxAttempts job' = job_MaxAttempts job;
  jc_status : job_Status job' = job_Status job;
  jc_total : jp_Total (job_Progress job') = jp_Total (job_Progress job);
  jc_queued : jp_Queued (job_Progress job') = jp_Queued (job_Progress job)
    + b2z (isQueued (wi_State it')) - b2z (isQueued (wi_State it));
  jc_running : jp_Running (job_Progress job') = jp_Running (job_Progress job)
    + b2z (isInflight (wi_State it')) - b2z (isInflight (wi_State it));
  jc_success : jp_Success (job_Progress job') = jp_Success (job_Progress job)
    + b2z (isSuccess (wi_State it')) - b2z (isSuccess (wi_State it));
  jc_failed : jp_Failed (job_Progress job') = jp_Failed (job_Progress job)
    + b2z (isFailed (wi_State it')) - b2z (isFailed (wi_State it));
}.

(** A job with an item in flight has not been declared complete. *)
Lemma job_ok_inflight items W id job order k it :
  job_ok items W id job order -> k ∈ order -> items !! k = Some it ->
  isInflight (wi_State it) = true ->
  job_Status job <> JobCompleted /\ job_Status job <> JobCompletedWithErrors.
Proof.
  intros Hok Hin Hk Hi.
  assert (jp_Running (job_Progress job) <> 0) as Hne.
  { rewrite (jo_running _ _ _ _ _ Hok). intros Hz.
    pose proof (count_zero _ _ _ _ _ Hz Hin Hk). congruence. }
  pose proof (jo_done _ _ _ _ _ Hok). naive_solver.
Qed.

Lemma recompute_delta items W id job job1 order k it it' :
  job_ok items W id job order -> k ∈ order -> items !! k = Some it ->
  isInflight (wi_State it) = true -> job_counts job job1 it it' ->
  job_delta job (recomputeJobStatusLocked job1) it it'.
Proof.
  intros Hok Hin Hk Hi [].
  destruct (job_ok_inflight _ _ _ _ _ _ _ Hok Hin Hk Hi) as [Hn1 Hn2].
  assert (forall f, 0 <= count f items order + b2z (f (wi_State it')) - b2z (f (wi_State it))) as Hc.
  { intros f. rewrite <- (count_insert f items order k it it') by (done || apply Hok).
    apply count_nonneg. }
  pose proof (Hc isQueued). pose proof (Hc isInflight). pose proof (Hc isFailed). clear Hc.
  destruct Hok. unfold recomputeJobStatusLocked. rewrite jc_status0.
  destruct ((job_Status job ==? JobCancelled) || (job_Status job ==? JobPaused)) eqn:Es.
  { constructor; try done; try congruence; rewrite jc_status0; naive_solver. }
  bool_simp.
  destruct ((0 <? jp_Queued (job_Progress job1)) || (0 <? jp_Running (job_Progress job1))) eqn:Eq.
  { constructor; try done; try congruence; rewrite jc_status0; naive_solver. }
  bool_simp. destruct (Z.ltb_spec 0 (jp_Failed (job_Progress job1))).
  all: constructor; simpl; try done; try lia; try congruence; intros; lia.
Qed.

(** An item that leaves the in-flight states is either requeued, with an
    untried worker left and attempts to spare, or failed for good. *)
Lemma requeueOrFail_ok m job job1 it it1 owner job2 it2 :
  item_ok (dom (m_workers m)) job it ->
  isInflight (wi_State it) = true -> owner = wi_LeaseOwner it ->
  job_MaxAttempts job1 = job_MaxAttempts job -> job_Status job1 = job_Status job ->
  wi_TriedWorkers it1 = wi_TriedWorkers it -> wi_Attempt it1 = wi_Attempt it ->
  requeueOrFail m job1 (addTried it1 owner) = (job2, it2) ->
  item_ok (dom (m_workers m)) job2 it2.
Proof.
  intros [] Hi -> Hm1 Hs1 Ht1 Ha1 Hr. destruct (io_owner0 Hi) as [Hw Hnt].
  unfold requeueOrFail, addTried, contains in Hr. rewrite Ht1 in Hr.
  rewrite bool_decide_eq_false_2 in Hr by done.
  destruct (outOfAttempts _ _ _) eqn:Ho; injection Hr as <- <-; constructor; simpl;
    rewrite ?Ha1, ?Hm1; auto; try done.
  1,3: apply NoDup_app; split_and!; [done|set_solver|apply NoDup_singleton].
  1,2: intros w; rewrite elem_of_app, list_elem_of_singleton; naive_solver.
  intros _. unfold outOfAttempts in Ho. simpl in Ho. rewrite Hm1, Ha1 in Ho.
  apply orb_false_iff in Ho as [Ho ?]. bool_simp. split; [lia|]. right.
  apply andb_false_iff in Ho.
  assert (size (dom (m_workers m)) <> 0%nat) by (intros ?%size_empty_iff; set_solver).
  rewrite size_dom in *. destruct Ho; bool_simp; lia.
Qed.

(** *** The operations *)

(** A goroutine's item, unpacked. *)
Lemma wf_run m g :
  wf m -> run_ok m g ->
  exists order job it, m_itemOrder m !! id_jobID (run_key g) = Some order /\ run_key g ∈ order /\
    m_jobs m !! id_jobID (run_key g) = Some job /\ m_items m !! run_key g = Some it /\
    job_ok (m_items m) (dom (m_workers m)) (id_jobID (run_key g)) job order /\
    item_ok (dom (m_workers m)) job it /\
    itemKey (wi_JobID it) (wi_ItemID it) (wi_OperationVersion it) = run_key g /\
    (run_token g = default 0 (m_leaseTok m !! run_key g) ->
       isInflight (wi_State it) = true /\ wi_LeaseOwner it = run_worker g).
Proof.
  intros Hwf (order & it & Ho & Hin & Hit & _ & _ & Hcur).
  destruct (wf_lookup m _ order Hwf Ho Hin) as (job & it0 & Hj & Hit0 & Hjok & Hiok & Hkey).
  exists order, job, it0. assert (it = it0) as -> by congruence. by split_and!.
Qed.

Lemma runItemStart_wf now g m : wf m -> run_ok m g -> wf (runItemStart now (run_key g) m).
Proof.
  intros Hwf Hg. destruct (wf_run m g Hwf Hg) as (order & job & it & Ho & Hin & Hj & Hit & Hjok & Hiok & Hkey & _).
  unfold runItemStart. rewrite Hit. case_bool_decide as Hs; [|done].
  eapply (wf_local m _ (run_key g) order it
    (it <| wi_State := WorkItemRunning |> <| wi_UpdatedAt := now |>) job job); try done;
    [simpl; symmetry; by apply insert_id|apply Hwf| | | |apply Hwf].
  - destruct Hjok. solve_delta.
  - destruct Hiok. constructor; simpl; auto; try done. intros _. apply io_owner0. by rewrite Hs.
  - eapply Forall_impl; [apply Hwf|]. intros g' Hg'.
    destruct (decide (run_key g' = run_key g)) as [E|Hne].
    + destruct Hg' as (order' & it' & Ho' & Hin' & Hit' & Hw' & Hle' & Hcur'). rewrite E in *.
      exists order', (it <| wi_State := WorkItemRunning |> <| wi_UpdatedAt := now |>). simpl.
      rewrite E, lookup_insert_eq. assert (it' = it) as -> by congruence.
      split_and!; try done. intros Ht. split; [done|]. by apply Hcur'.
    + eapply (run_ok_frame m); try done. simpl. by rewrite lookup_insert_ne.
Qed.

(** The outcome of [completeItem]'s last branch. *)
Lemma complete_ok m job it now out workerID job2 it2 :
  item_ok (dom (m_workers m)) job it -> isInflight (wi_State it) = true ->
  workerID = wi_LeaseOwner it -> job_Status job <> JobCancelled ->
  (match out with
   | ExecOk output =>
       (set_progress (fun p => p <| jp_Success := jp_Success p + 1 |>)
          (set_progress (fun p => p <| jp_Running := jp_Running p - 1 |>) (job <| job_UpdatedAt := now |>)),
        (it <| wi_UpdatedAt := now |>) <| wi_State := WorkItemSuccess |> <| wi_ResultRef := output |>)
   | ExecErr msg =>
       failItemLocked m (set_progress (fun p => p <| jp_Running := jp_Running p - 1 |>)
         (job <| job_UpdatedAt := now |>)) (it <| wi_UpdatedAt := now |>) workerID msg
   end) = (job2, it2) ->
  job_counts job job2 it it2 /\ item_ok (dom (m_workers m)) job2 it2 /\
  itemKey (wi_JobID it2) (wi_ItemID it2) (wi_OperationVersion it2)
  = itemKey (wi_JobID it) (wi_ItemID it) (wi_OperationVersion it).
Proof.
  intros Hiok Hi Hw Hnc Hout. pose proof Hi as Hi'. unfold isInflight in Hi'.
  destruct out as [output|msg].
  - injection Hout as <- <-. split_and!; [|destruct Hiok; constructor; simpl; auto; done|done].
    destruct (wi_State it) eqn:Es; try done; constructor; simpl; rewrite ?Es; simpl; lia || done.
  - unfold failItemLocked in Hout. split_and!.
    + unfold requeueOrFail, addTried in Hout.
      destruct (contains _ _), (outOfAttempts _ _ _); injection Hout as <- <-;
        destruct (wi_State it) eqn:Es; try done; constructor; simpl; rewrite ?Es; simpl; lia || done.
    + eapply (requeueOrFail_ok m job); [done..| | | | |exact Hout]; done.
    + unfold requeueOrFail, addTried in Hout.
      by destruct (contains _ _), (outOfAttempts _ _ _); injection Hout as <- <-.
Qed.

(** *** Submission *)

Lemma jobID_of_inj t t' n n' : 0 < n -> 0 < n' -> jobID_of t n = jobID_of t' n' -> n = n'.
Proof.
  destruct n as [|p|], n' as [|p'|]; try lia. intros _ _ H.
  unfold jobID_of in H.
  assert (forall a b x : string, (a +:+ b +:+ "-" +:+ x = join "-"%char (a +:+ b) x)%string) as E.
  { intros a b x. unfold join. by rewrite string_app_assoc. }
  rewrite !E in H. apply join_inj_r in H as [_ H]; [by simplify_eq| |];
    apply (pretty_N_nochar _ (Npos _)), pretty_N_char_dash.
Qed.

Lemma submitItems_spec now id i inputs items order items' res :
  submitItems now id i inputs items order = (items', res) ->
  (forall k, id_jobID k <> id -> items' !! k = items !! k) /\
  (forall k it, items !! k = Some it -> items' !! k = Some it) /\
  (forall k it, items' !! k = Some it -> items !! k = Some it \/
     (id_jobID k = id /\ wi_State it = WorkItemQueued /\
      itemKey (wi_JobID it) (wi_ItemID it) (wi_OperationVersion it) = k)).
Proof.
  revert i items order. induction inputs as [|input inputs IH]; intros i items order H; simpl in H.
  { simplify_eq. eauto. }
  match type of H with context [items !! ?k] => set (key := k) in * end.
  destruct (items !! key) eqn:Hk; [by simplify_eq; eauto|].
  destruct (IH _ _ _ H) as (H1 & H2 & H3). split_and!.
  - intros k Hne. rewrite H1 by done. apply lookup_insert_ne. intros <-. by apply Hne.
  - intros k it Hit. apply H2. rewrite lookup_insert_ne; [done|]. intros <-. congruence.
  - intros k it Hit. destruct (H3 k it Hit) as [Hold|?]; [|by right].
    destruct (decide (key = k)) as [<-|Hne].
    + rewrite lookup_insert_eq in Hold. simplify_eq. by right.
    + rewrite lookup_insert_ne in Hold by done. by left.
Qed.

(** A freshly queued item. *)
Definition fresh (it : WorkItem) : Prop :=
  wi_State it = WorkItemQueued /\ wi_Attempt it = 0 /\ wi_TriedWorkers it = [].

Lemma submitItems_order now id i inputs items order items' order' :
  submitItems now id i inputs items order = (items', Some order') ->
  NoDup order -> (forall k, k ∈ order -> id_jobID k = id /\ exists it, items !! k = Some it /\ fresh it) ->
  NoDup order' /\ length order' = (length order + length inputs)%nat /\
  (forall k, k ∈ order' -> id_jobID k = id /\ exists it, items' !! k = Some it /\ fresh it).
Proof.
  revert i items order. induction inputs as [|input inputs IH]; intros i items order H Hnd Hin;
    simpl in H.
  { simplify_eq. split_and!; auto. }
  match type of H with context [items !! ?k] => set (key := k) in * end.
  destruct (items !! key) eqn:Hk; [done|].
  assert (key ∉ order) as Hnin by (intros Hin'; destruct (Hin _ Hin') as (_ & it & ? & _); congruence).
  destruct (IH _ _ _ H) as (H1 & H2 & H3).
  - apply NoDup_app. split_and!; [done|set_solver|apply NoDup_singleton].
  - intros k [Hk'|Hk'%list_elem_of_singleton]%elem_of_app.
    + destruct (Hin k Hk') as (? & it & ? & ?). split; [done|]. exists it.
      rewrite lookup_insert_ne; [done|]. intros <-. done.
    + subst k. split; [done|]. rewrite lookup_insert_eq. eexists. by split.
  - split_and!; try done. rewrite H2, length_app. simpl. lia.
Qed.

Lemma count_fresh f items order :
  (forall k, k ∈ order -> exists it, items !! k = Some it /\ fresh it) ->
  count f items order = b2z (f WorkItemQueued) * Z.of_nat (length order).
Proof.
  induction order as [|k order IH]; intros H; simpl; [lia|].
  destruct (H k) as (it & -> & -> & _); [left|]. rewrite IH by set_solver. lia.
Qed.

(** A job id drawn from the counter is new. *)
Lemma wf_fresh_id m t :
  wf m ->
  let id := jobID_of t (m_idSeq m + 1) in
  m_jobs m !! id = None /\ m_itemOrder m !! id = None /\
  forall k, id_jobID k = id -> m_items m !! k = None.
Proof.
  intros Hwf id.
  assert (m_jobs m !! id = None) as Hfresh.
  { destruct (m_jobs m !! id) eqn:E; [|done]. destruct (wf_ids m Hwf _ _ E) as (t' & n' & Hid & ?).
    pose proof (wf_seq m Hwf). apply jobID_of_inj in Hid; lia. }
  split_and!; [done| |].
  - destruct (m_itemOrder m !! id) eqn:E; [|done].
    destruct (wf_orders m Hwf _ _ E) as (j & Hj & _). congruence.
  - intros k Hk. destruct (m_items m !! k) eqn:E; [|done].
    destruct (wf_items m Hwf _ _ E) as [[j Hj] _]. congruence.
Qed.

Lemma count_ext f items items' order :
  (forall k, k ∈ order -> items' !! k = items !! k) -> count f items' order = count f items order.
Proof.
  induction order as [|k order IH]; intros Heq; simpl; [done|].
  rewrite Heq by left. rewrite IH; [done|]. set_solver.
Qed.

Lemma job_ok_ext items items' W id job order :
  (forall k, id_jobID k = id -> items' !! k = items !! k) ->
  job_ok items W id job order -> job_ok items' W id job order.
Proof.
  intros Heq Hok.
  assert (forall k, k ∈ order -> items' !! k = items !! k) as Heq'.
  { intros k Hk. by apply Heq, (jo_keys _ _ _ _ _ Hok). }
  destruct Hok. constructor; rewrite ?(count_ext _ _ _ _ Heq'); auto.
  intros k Hk. rewrite Heq' by done. auto.
Qed.

(** Inserting a new job with new items keeps the invariant. *)
Lemma wf_new_job m t id job items' :
  wf m -> id = jobID_of t (m_idSeq m + 1) ->
  (forall k, id_jobID k <> id -> items' !! k = m_items m !! k) ->
  (forall k it, m_items m !! k = Some it -> items' !! k = Some it) ->
  (forall k it, items' !! k = Some it -> m_items m !! k = Some it \/
     (id_jobID k = id /\ wi_State it = WorkItemQueued /\
      itemKey (wi_JobID it) (wi_ItemID it) (wi_OperationVersion it) = k)) ->
  wf (m <| m_idSeq := m_idSeq m + 1 |> <| m_jobs := <[id := job]> (m_jobs m) |>
        <| m_jobOrder := m_jobOrder m ++ [id] |> <| m_items := items' |>).
Proof.
  intros Hwf Hid Hs1 Hs2 Hs3. destruct (wf_fresh_id m t Hwf) as (Hfresh & Hfo & Hfi).
  cbv zeta in *. rewrite <- Hid in *. destruct Hwf. constructor; simpl; auto.
  - intros i order Hi. destruct (wf_orders0 _ _ Hi) as (j & Hj & Hok). exists j.
    rewrite lookup_insert_ne by congruence. split; [done|].
    eapply job_ok_ext; [|done]. intros k Hk. apply Hs1. congruence.
  - intros i j. destruct (decide (id = i)) as [<-|].
    + intros _. exists t, (m_idSeq m + 1). split; [done|lia].
    + rewrite lookup_insert_ne by done. intros Hj. destruct (wf_ids0 _ _ Hj) as (t' & n' & ? & ?).
      exists t', n'. split; [done|lia].
  - intros k it Hk. destruct (Hs3 k it Hk) as [Hold|(Hk' & _ & Hkey)].
    + destruct (wf_items0 _ _ Hold) as [[j Hj] ?]. split; [|done].
      rewrite lookup_insert_ne by congruence. eauto.
    + rewrite Hk', lookup_insert_eq. eauto.
  - intros i [Hi|Hi%list_elem_of_singleton]%elem_of_app.
    + destruct (wf_jobOrder0 i Hi) as [j Hj]. rewrite lookup_insert_ne by congruence. eauto.
    + subst i. rewrite lookup_insert_eq. eauto.
  - lia.
  - eapply Forall_impl; [done|]. intros g (order & it & Ho & Hin & Hit & ?).
    exists order, it. simpl. split_and!; try done; [by apply Hs2|naive_solver..].
Qed.

Lemma enqueueJob_wf now now_id op pool inputs maxAttempts m :
  wf m -> wf (enqueueJob now now_id op pool inputs maxAttempts m).1.
Proof.
  intros Hwf. unfold enqueueJob. destruct (wf_fresh_id m now_id Hwf) as (_ & Hfo & _).
  set (id := jobID_of now_id (m_idSeq m + 1)) in *. set (job := mkJob _ _ _ _ _ _ _ _ _ _ _). cbv zeta.
  assert (1 <= job_MaxAttempts job) as Hmax.
  { simpl. pose proof (wf_default m Hwf). destruct (Z.leb_spec maxAttempts 0); lia. }
  destruct (submitItems now id 0 inputs _ []) as [items' res] eqn:Hsub. simpl in Hsub.
  destruct (submitItems_spec _ _ _ _ _ _ _ _ Hsub) as (Hs1 & Hs2 & Hs3).
  pose proof (wf_new_job m now_id id job items' Hwf eq_refl Hs1 Hs2 Hs3) as Hwf1.
  destruct res as [order|]; cbn [fst]; [|done].
  destruct (submitItems_order _ _ _ _ _ _ _ _ Hsub) as (Hnd & Hlen & Hfr);
    [apply NoDup_nil_2|intros k Hk; by apply elem_of_nil in Hk|].
  assert (forall k, k ∈ order -> exists it, items' !! k = Some it /\ fresh it) as Hfr'
    by (intros k Hk; by apply Hfr).
  destruct Hwf1. constructor; simpl in *; auto.
  - intros i o. destruct (decide (id = i)) as [<-|Hi].
    + rewrite !lookup_insert_eq. intros [= <-]. exists job. split; [done|].
      constructor; simpl; rewrite ?(count_fresh _ _ _ Hfr'); simpl; try done; try lia.
      * intros k Hk. by apply Hfr.
      * intros k Hk. destruct (Hfr' k Hk) as (it & Hit & Hq & Ha & Ht). exists it. split; [done|].
        simpl in Hmax.
        constructor; simpl; rewrite ?Hq, ?Ha, ?Ht; try done; try lia;
          [apply NoDup_nil_2|intros w Hw; by apply elem_of_nil in Hw|split; [lia|by left]].
      * naive_solver.
    + rewrite lookup_insert_ne by done. apply wf_orders0.
  - eapply Forall_impl; [done|]. intros g (o & it & Ho & ?). exists o, it. simpl in *.
    rewrite lookup_insert_ne by congruence. done.
Qed.
