(* ===== verification/JobsMicro.v ===== *)
(** * The job manager's operations as sequences of atomic effects

    Every operation of the manager is a sequence of a few kinds of effect on
    the state: a lease, the start of a goroutine, a late result, a settled
    item, an expired lease, a registration, a submission, a status change, a
    dropped item.  [micro] lists them with the facts that hold when the code
    performs them, [step_micro] decomposes each operation, and an invariant of
    the manager then needs one case per effect.  The first such invariant is
    [JobsInv.wf]. *)

From S2P Require Import Prelude Domain Jobs JobsInv.

(** ** Effects *)

(** What [recomputeJobStatusLocked] does to the status of a job whose item
    leaves the in-flight states. *)
Definition job_settled (job job' : Job) : Prop :=
  (job_Status job' = job_Status job /\
   (dispatchable (job_Status job) = true ->
      0 < jp_Queued (job_Progress job') \/ 0 < jp_Running (job_Progress job'))) \/
  (dispatchable (job_Status job) = true /\
   (job_Status job' = JobCompleted \/ job_Status job' = JobCompletedWithErrors)).

(** Item [key] leaves the in-flight states. *)
Record settles (m : Manager) (key : itemIdentity) (it it' : WorkItem) (job job' : Job) : Prop := {
  st_order : exists order, m_itemOrder m !! id_jobID key = Some order /\ key ∈ order;
  st_item : m_items m !! key = Some it;
  st_job : m_jobs m !! id_jobID key = Some job;
  st_inflight : isInflight (wi_State it) = true;
  st_out : isInflight (wi_State it') = false;
  st_key : itemKey (wi_JobID it') (wi_ItemID it') (wi_OperationVersion it') = key;
  st_delta : job_delta job job' it it';
  st_ok : item_ok (dom (m_workers m)) job' it';
  st_status : job_settled job job';
}.

Inductive micro : Manager -> Manager -> Prop :=
  | mi_lease now key w order job it ws m :
      m_itemOrder m !! id_jobID key = Some order -> key ∈ order ->
      m_jobs m !! id_jobID key = Some job -> dispatchable (job_Status job) = true ->
      m_items m !! key = Some it -> wi_State it = WorkItemQueued ->
      m_workers m !! w = Some ws -> ws_active ws < ws_slots ws ->
      w ∉ wi_TriedWorkers it ->
      micro m (leaseLocked now (id_jobID key) key w m)
  | mi_start now g l1 l2 m :
      m_runs m = l1 ++ g :: l2 ->
      micro m (runItemStart now (run_key g) (m <| m_runs := l1 ++ g <| run_started := true |> :: l2 |>))
  | mi_late g l1 l2 m :
      m_runs m = l1 ++ g :: l2 -> run_token g <> default 0 (m_leaseTok m !! run_key g) ->
      micro m (freeSlot (run_worker g) (m <| m_runs := l1 ++ l2 |>))
  | mi_settle g l1 l2 it it' job job' m :
      m_runs m = l1 ++ g :: l2 -> run_token g = default 0 (m_leaseTok m !! run_key g) ->
      settles m (run_key g) it it' job job' ->
      micro m (storeItem (run_key g) job' it'
                 (freeSlot (run_worker g) (m <| m_runs := l1 ++ l2 |>)))
  | mi_expire key it it' job job' m :
      settles m key it it' job job' ->
      micro m (storeItem key job' it' (freeSlot (wi_LeaseOwner it)
        (m <| m_leaseTok := <[key := default 0 (m_leaseTok m !! key) + 1]> (m_leaseTok m) |>)))
  | mi_register w slots unmeasured m :
      1 <= slots ->
      micro m (m <| m_workers := <[w := mkworkerSlot slots unmeasured 0]> (m_workers m) |>)
  | mi_enqueue now now_id op pool inputs maxAttempts m :
      inputs <> [] ->
      micro m (enqueueJob now now_id op pool inputs maxAttempts m).1
  | mi_status now id job st m :
      m_jobs m !! id = Some job -> dispatchable (job_Status job) = true \/ job_Status job = JobPaused ->
      st = JobPaused \/ st = JobCancelled ->
      micro m (m <| m_jobs := <[id := job <| job_Status := st |> <| job_UpdatedAt := now |>]> (m_jobs m) |>)
  | mi_drop now key order job it m :
      m_itemOrder m !! id_jobID key = Some order -> key ∈ order ->
      m_jobs m !! id_jobID key = Some job -> job_Status job = JobCancelled ->
      m_items m !! key = Some it -> wi_State it = WorkItemQueued ->
      micro m (cancelItem now (id_jobID key) m key).

(** ** Effects keep the invariant *)

Lemma job_ok_status items W id job job' order :
  job_ok items W id job order ->
  job_MaxAttempts job' = job_MaxAttempts job -> job_Progress job' = job_Progress job ->
  (job_Status job = JobCancelled -> job_Status job' = JobCancelled) ->
  job_Status job' <> JobCompleted -> job_Status job' <> JobCompletedWithErrors ->
  job_ok items W id job' order.
Proof.
  intros Hok Hm Hp Hc Hn1 Hn2. destruct Hok as [? ? Hi]. constructor; rewrite ?Hm, ?Hp; auto.
  - intros k Hk. destruct (Hi k Hk) as (it & Hit & Hiok). exists it. split; [done|].
    by apply (item_ok_job _ job).
  - by intros [?|?].
  - done.
  - done.
Qed.

Lemma wf_set_status m id job job' :
  wf m -> m_jobs m !! id = Some job ->
  job_MaxAttempts job' = job_MaxAttempts job -> job_Progress job' = job_Progress job ->
  (job_Status job = JobCancelled -> job_Status job' = JobCancelled) ->
  job_Status job' <> JobCompleted -> job_Status job' <> JobCompletedWithErrors ->
  wf (m <| m_jobs := <[id := job']> (m_jobs m) |>).
Proof.
  intros Hwf Hj Hm Hp Hc Hn1 Hn2. constructor; cbn [m_jobs m_items m_itemOrder m_jobOrder m_workers set_field]; try apply Hwf.
  - intros i order Ho. destruct (wf_orders m Hwf _ _ Ho) as (j & Hj' & Hok).
    destruct (decide (id = i)) as [<-|Hne].
    + exists job'. rewrite lookup_insert_eq. split; [done|].
      rewrite Hj in Hj'. injection Hj' as <-. by apply (job_ok_status _ _ _ job).
    + exists j. by rewrite lookup_insert_ne.
  - intros i j. destruct (decide (id = i)) as [<-|Hne].
    + intros _. by apply (wf_ids m Hwf _ job).
    + rewrite lookup_insert_ne by done. apply Hwf.
  - intros k it Hk. destruct (wf_items m Hwf _ _ Hk) as [[j Hj'] ?]. split; [|done].
    rewrite lookup_insert. case_decide; eauto.
  - intros i Hi. rewrite lookup_insert. case_decide; [eauto|]. by apply (wf_jobOrder m Hwf).
Qed.

Definition setCancelled (now : Time) (id : string) (m : Manager) : Manager :=
  m <| m_jobs := alter (fun job => job <| job_Status := JobCancelled |>
                                       <| job_UpdatedAt := now |>) id (m_jobs m) |>.

Lemma cancelItem_commute now id keys m :
  setCancelled now id (foldl (cancelItem now id) m keys)
  = foldl (cancelItem now id) (setCancelled now id m) keys.
Proof.
  revert m. induction keys as [|k keys IH]; intros m; cbn [foldl]; [done|]. rewrite IH. f_equal.
  unfold cancelItem. change (m_items (setCancelled now id m)) with (m_items m). destruct (m_items m !! k) as [it|]; [|done].
  destruct (_ ==? _); [|done]. unfold setCancelled. simpl. f_equal.
  apply map_eq. intros i. rewrite !lookup_alter. case_decide; [|done].
  subst i. case_decide; [|done]. by destruct (m_jobs m !! id).
Qed.

Lemma cancelItem_wf now key order job m :
  wf m -> m_itemOrder m !! id_jobID key = Some order -> key ∈ order ->
  m_jobs m !! id_jobID key = Some job -> job_Status job = JobCancelled ->
  wf (cancelItem now (id_jobID key) m key).
Proof.
  intros Hwf Ho Hin Hj Hc. unfold cancelItem.
  destruct (wf_lookup m key order Hwf Ho Hin) as (job0 & it & Hj0 & Hit & Hjok & Hiok & Hkey).
  rewrite Hj in Hj0. injection Hj0 as <-. rewrite Hit. case_bool_decide as Hq; [|done].
  erewrite alter_insert by done.
  eapply (wf_settle m key order it _ job); try done.
  - intros g. eapply wf_queued_runs; try done. by rewrite Hq.
  - solve_delta; rewrite ?Hc; naive_solver.
  - destruct Hiok. constructor; simpl; auto; done.
Qed.

Lemma cancelItem_frame now id m key :
  m_itemOrder (cancelItem now id m key) = m_itemOrder m /\
  forall i, job_Status <$> m_jobs (cancelItem now id m key) !! i = job_Status <$> m_jobs m !! i.
Proof.
  unfold cancelItem. destruct (m_items m !! key) as [it|]; [|done].
  destruct (_ ==? _); [|done]. simpl. split; [done|]. intros i. rewrite lookup_alter.
  case_decide; [|done]. subst. by destruct (m_jobs m !! i).
Qed.

(** Settling an item once no goroutine holds its current token. *)
Lemma settles_wf m m' key it it' job job' :
  settles m key it it' job job' -> wf m' ->
  m_items m' = m_items m -> m_jobs m' = m_jobs m -> m_itemOrder m' = m_itemOrder m ->
  dom (m_workers m') = dom (m_workers m) ->
  (forall g, g ∈ m_runs m' -> run_key g = key -> run_token g < default 0 (m_leaseTok m' !! key)) ->
  wf (storeItem key job' it' m').
Proof.
  intros [(order & Ho & Hin)] Hwf Ei Ej Eo Ed Hruns.
  eapply (wf_settle m' key order it it' job); rewrite ?Ei, ?Ej, ?Eo, ?Ed; done.
Qed.

Lemma settle_run_wf g l1 l2 it it' job job' m :
  wf m -> m_runs m = l1 ++ g :: l2 -> run_token g = default 0 (m_leaseTok m !! run_key g) ->
  settles m (run_key g) it it' job job' ->
  wf (storeItem (run_key g) job' it' (freeSlot (run_worker g) (m <| m_runs := l1 ++ l2 |>))).
Proof.
  intros Hwf Hr Ht Hst. pose proof (wf_remove_run m l1 g l2 Hwf Hr) as Hwf0.
  destruct (freeSlot_frame (run_worker g) (m <| m_runs := l1 ++ l2 |>)) as (Ei & Ej & Eo & Et & Er).
  eapply settles_wf; [done|by apply freeSlot_wf|done..|by rewrite freeSlot_dom|].
  rewrite Et, Er. simpl. intros g' Hg' Hk'. rewrite <- Ht.
  pose proof (wf_run_unique m l1 g l2 g' Hwf Hr Hg' Hk').
  pose proof (wf_runs _ Hwf0) as Hf. rewrite Forall_forall in Hf.
  destruct (Hf g' Hg') as (? & ? & _ & _ & _ & _ & Hle & _). rewrite Hk' in Hle. simpl in Hle. lia.
Qed.

Lemma expire_wf key it it' job job' m :
  wf m -> settles m key it it' job job' ->
  wf (storeItem key job' it' (freeSlot (wi_LeaseOwner it)
        (m <| m_leaseTok := <[key := default 0 (m_leaseTok m !! key) + 1]> (m_leaseTok m) |>))).
Proof.
  intros Hwf Hst. set (m1 := m <| m_leaseTok := _ |>).
  destruct (freeSlot_frame (wi_LeaseOwner it) m1) as (Ei & Ej & Eo & Et & Er).
  eapply settles_wf; [done|by apply freeSlot_wf, wf_bump|done..|by rewrite freeSlot_dom|].
  rewrite Et, Er. simpl. intros g Hg Hk. rewrite lookup_insert_eq. simpl.
  pose proof (wf_runs m Hwf) as Hf. rewrite Forall_forall in Hf.
  destruct (Hf g Hg) as (? & ? & _ & _ & _ & _ & Hle & _). rewrite Hk in Hle. lia.
Qed.

Lemma micro_wf m m' : wf m -> micro m m' -> wf m'.
Proof.
  intros Hwf Hm. revert Hwf. destruct Hm; intros Hwf.
  - by eapply leaseLocked_wf.
  - apply runItemStart_wf; [by apply wf_start_run|].
    pose proof (wf_runs m Hwf) as Hf. rewrite Forall_forall in Hf. apply Hf.
    rewrite H. apply elem_of_app. right. left.
  - by apply freeSlot_wf, (wf_remove_run m l1 g l2).
  - by eapply settle_run_wf.
  - by eapply expire_wf.
  - apply wf_workers; [done|rewrite dom_insert_L; set_solver|].
    apply map_Forall_insert_2; [|apply wf_slots; done]. unfold slot_ok; simpl. lia.
  - by apply enqueueJob_wf.
  - eapply wf_set_status; try done; simpl; [|naive_solver..].
    intros Hc. rewrite Hc in *. naive_solver.
  - by eapply cancelItem_wf.
Qed.

Lemma micros_wf m m' : wf m -> rtc micro m m' -> wf m'.
Proof. intros Hwf Hm. revert Hwf. induction Hm; eauto using micro_wf. Qed.

(** ** Operations are sequences of effects *)

(** *** Dispatch *)

Lemma dispatchItem_micro {R : GoRange} env key order job m :
  m_itemOrder m !! id_jobID key = Some order -> key ∈ order ->
  m_jobs m !! id_jobID key = Some job -> dispatchable (job_Status job) = true ->
  rtc micro m (dispatchItem env (id_jobID key) m key).
Proof.
  intros Ho Hin Hj Hd. unfold dispatchItem.
  destruct (m_items m !! key) as [item|] eqn:Hit; [|done].
  case_bool_decide as Hq; simpl; [|done].
  destruct (pickWorkerLocked _ m item) as [w|] eqn:Hp; [|done].
  destruct (pickWorkerLocked_Some _ _ _ _ Hp) as (ws & ? & ? & ?).
  by eapply rtc_once, mi_lease.
Qed.

Lemma foldl_dispatch_micro {R : GoRange} env id keys order m :
  wf m -> m_itemOrder m !! id = Some order -> (forall k, k ∈ keys -> k ∈ order) ->
  (exists job, m_jobs m !! id = Some job /\ dispatchable (job_Status job) = true) ->
  rtc micro m (foldl (dispatchItem env id) m keys).
Proof.
  revert m. induction keys as [|k keys IH]; intros m Hwf Ho Hin (job & Hj & Hd); simpl; [done|].
  assert (id_jobID k = id) as <-.
  { destruct (wf_orders m Hwf _ _ Ho) as (j & _ & Hok). apply (jo_keys _ _ _ _ _ Hok). set_solver. }
  pose proof (dispatchItem_le env (id_jobID k) m k) as [Hlo _ Hls _ _ _ _].
  assert (rtc micro m (dispatchItem env (id_jobID k) m k)) as Hm.
  { eapply dispatchItem_micro; try done. set_solver. }
  etrans; [exact Hm|]. apply IH; [by eapply micros_wf|congruence|set_solver|].
  specialize (Hls (id_jobID k)). rewrite Hj in Hls.
  destruct (m_jobs (dispatchItem env (id_jobID k) m k) !! id_jobID k) as [job'|]; simplify_eq/=.
  exists job'. split; congruence.
Qed.

Lemma tryDispatchLocked_micro {R : GoRange} env m : wf m -> rtc micro m (tryDispatchLocked env m).
Proof.
  unfold tryDispatchLocked. generalize (m_jobOrder m) as ids. intros ids. revert m.
  induction ids as [|id ids IH]; intros m Hwf; simpl; [done|].
  assert (rtc micro m (dispatchJob env m id)) as Hm; [|etrans; eauto using micros_wf].
  unfold dispatchJob. destruct (m_jobs m !! id) as [job|] eqn:Hj; [|done].
  destruct (dispatchable _) eqn:Hd; [|done].
  destruct (m_itemOrder m !! id) as [order|] eqn:Ho; simpl; [|done].
  eapply foldl_dispatch_micro; eauto.
Qed.

(** One effect, then a dispatch pass. *)
Lemma micro_dispatch {R : GoRange} env m m' :
  wf m -> micro m m' -> rtc micro m (tryDispatchLocked env m').
Proof.
  intros Hwf Hm. eapply rtc_l; [exact Hm|]. eauto using tryDispatchLocked_micro, micro_wf.
Qed.

(** *** Settling *)

Lemma recompute_settled job job1 :
  job_Status job <> JobCompleted -> job_Status job <> JobCompletedWithErrors ->
  job_Status job1 = job_Status job -> job_settled job (recomputeJobStatusLocked job1).
Proof.
  intros Hn1 Hn2 Es. unfold recomputeJobStatusLocked, job_settled. rewrite Es.
  destruct (job_Status job) eqn:E; simpl; try done; try (left; split; [done|]; by intros).
  all: destruct (Z.ltb_spec 0 (jp_Queued (job_Progress job1)));
    destruct (Z.ltb_spec 0 (jp_Running (job_Progress job1)));
    destruct (Z.ltb_spec 0 (jp_Failed (job_Progress job1))); simpl; auto 10.
Qed.

Lemma recompute_status job :
  job_MaxAttempts (recomputeJobStatusLocked job) = job_MaxAttempts job /\
  (job_Status job = JobCancelled -> job_Status (recomputeJobStatusLocked job) = JobCancelled).
Proof.
  unfold recomputeJobStatusLocked. split; [by repeat case_match|]. intros E. by rewrite E.
Qed.

(** The shared shape of a settled item: counters moved by [job_counts], then
    [recomputeJobStatusLocked]. *)
Lemma settles_recompute m key order it it' job job1 :
  m_itemOrder m !! id_jobID key = Some order -> key ∈ order ->
  m_items m !! key = Some it -> m_jobs m !! id_jobID key = Some job ->
  job_ok (m_items m) (dom (m_workers m)) (id_jobID key) job order ->
  isInflight (wi_State it) = true -> isInflight (wi_State it') = false ->
  itemKey (wi_JobID it') (wi_ItemID it') (wi_OperationVersion it') = key ->
  job_counts job job1 it it' -> item_ok (dom (m_workers m)) job1 it' ->
  settles m key it it' job (recomputeJobStatusLocked job1).
Proof.
  intros Ho Hin Hit Hj Hjok Hi Hout Hkey Hc Hok.
  destruct (job_ok_inflight _ _ _ _ _ _ _ Hjok Hin Hit Hi) as [Hn1 Hn2].
  destruct (recompute_status job1) as [Hm Hcan].
  constructor; eauto using recompute_delta.
  - by apply (item_ok_job _ job1).
  - apply recompute_settled; [done..|apply Hc].
Qed.

Lemma completeItem_micro {R : GoRange} env now out g l1 l2 m :
  wf m -> m_runs m = l1 ++ g :: l2 ->
  rtc micro m (completeItem env now (run_key g) (run_worker g) (run_token g) out
                 (m <| m_runs := l1 ++ l2 |>)).
Proof.
  intros Hwf Hr.
  assert (run_ok m g) as Hg.
  { pose proof (wf_runs m Hwf) as Hf. rewrite Forall_forall in Hf. apply Hf. rewrite Hr. set_solver. }
  destruct (wf_run m g Hwf Hg) as (order & job & it & Ho & Hin & Hj & Hit & Hjok & Hiok & Hkey & Hcur).
  unfold completeItem. set (m0 := m <| m_runs := l1 ++ l2 |>).
  change (m_items m0) with (m_items m). change (m_jobs m0) with (m_jobs m). rewrite Hit, Hj.
  destruct (freeSlot_frame (run_worker g) m0) as (_ & _ & _ & Et & _). cbv zeta. rewrite Et.
  pose proof (freeSlot_dom (run_worker g) m0) as Ed. change (m_workers m0) with (m_workers m) in Ed.
  change (m_leaseTok m0) with (m_leaseTok m).
  case_bool_decide as Htok; cbn [negb]; [|by apply micro_dispatch, mi_late].
  destruct (Hcur (eq_sym Htok)) as [Hi Hown].
  destruct (job_ok_inflight _ _ _ _ _ _ _ Hjok Hin Hit Hi) as [Hn1 Hn2].
  case_bool_decide as Hcan.
  - unfold isInflight in Hi. rewrite Hi.
    apply micro_dispatch; [done|]. eapply (mi_settle g l1 l2 it); [done..|].
    constructor; eauto; try done.
    + destruct (wi_State it) eqn:Es; try done; constructor; simpl; rewrite ?Es; simpl;
        rewrite ?Hcan; try done; try lia; naive_solver.
    + destruct Hiok. constructor; simpl; auto; done.
    + left. split; [done|]. by rewrite Hcan.
  - destruct (_ || _) eqn:Hst; [destruct (wi_State it); done|].
    match goal with |- context [match ?x with (j, i) => _ end] => destruct x as [job2 it2] eqn:Hout end.
    destruct (complete_ok (freeSlot (run_worker g) m0) job it now out (run_worker g) job2 it2)
      as (Hc & Hok2 & Hk2); try done; [by rewrite Ed|].
    apply micro_dispatch; [done|]. eapply (mi_settle g l1 l2 it); [done..|].
    eapply settles_recompute; try done; [|by rewrite Hk2|by rewrite <- Ed].
    destruct out; [by injection Hout as <- <-|].
    unfold failItemLocked, requeueOrFail in Hout. by destruct (outOfAttempts _ _ _); injection Hout as <- <-.
Qed.

(** *** The reaper *)

Lemma reapItem_micro now m b key order :
  wf m -> m_itemOrder m !! id_jobID key = Some order -> key ∈ order ->
  rtc micro m (reapItem now (id_jobID key) (m, b) key).1.
Proof.
  intros Hwf Ho Hin.
  destruct (wf_lookup m key order Hwf Ho Hin) as (job & it & Hj & Hit & Hjok & Hiok & Hkey).
  unfold reapItem. rewrite Hit, Hj. destruct (leaseExpired now it) eqn:Hexp; cbn [negb]; [|done].
  assert (isInflight (wi_State it) = true) as Hi
    by (unfold leaseExpired in Hexp; by apply andb_true_iff in Hexp as [? _]).
  set (m1 := m <| m_leaseTok := _ |>) in *. cbv zeta.
  pose proof (freeSlot_dom (wi_LeaseOwner it) m1) as Ed. change (m_workers m1) with (m_workers m) in Ed.
  set (m2 := freeSlot (wi_LeaseOwner it) m1) in *.
  match goal with |- context [requeueOrFail m2 ?j ?i] =>
    destruct (requeueOrFail m2 j i) as [job2 it2] eqn:Hout end.
  assert (item_ok (dom (m_workers m)) job2 it2) as Hok2.
  { rewrite <- Ed. eapply (requeueOrFail_ok m2 job _ it); [| | | | | | |exact Hout]; try done. by rewrite Ed. }
  assert (job_counts job (job2 <| job_UpdatedAt := now |>) it it2 /\
          isInflight (wi_State it2) = false /\
          itemKey (wi_JobID it2) (wi_ItemID it2) (wi_OperationVersion it2) = key) as (Hc & Ho2 & Hk2).
  { rewrite <- Hkey. unfold requeueOrFail, addTried in Hout. clear -Hout Hi.
    destruct (contains _ _), (outOfAttempts _ _ _); injection Hout as <- <-; (split; [|done]);
      destruct (wi_State it) eqn:Es; try done; constructor; simpl; rewrite ?Es; simpl; lia || done. }
  eapply rtc_once, (mi_expire key it it2 job).
  eapply settles_recompute; try done. by apply (item_ok_job _ job2).
Qed.

Lemma foldl_reapItem_micro now id order keys st :
  wf st.1 -> m_itemOrder st.1 !! id = Some order -> (forall k, k ∈ keys -> k ∈ order) ->
  rtc micro st.1 (foldl (reapItem now id) st keys).1 /\
  m_itemOrder (foldl (reapItem now id) st keys).1 = m_itemOrder st.1.
Proof.
  revert st. induction keys as [|k keys IH]; intros [m b] Hwf Ho Hin; cbn [foldl fst] in *; [done|].
  assert (id_jobID k = id) as <-.
  { destruct (wf_orders m Hwf _ _ Ho) as (j & _ & Hok). apply (jo_keys _ _ _ _ _ Hok). set_solver. }
  assert (rtc micro m (reapItem now (id_jobID k) (m, b) k).1) as Hm.
  { eapply reapItem_micro; try done. set_solver. }
  assert (m_itemOrder (reapItem now (id_jobID k) (m, b) k).1 = m_itemOrder m) as Eo.
  { unfold reapItem. destruct (m_items m !! k) as [it|]; [|done].
    destruct (m_jobs m !! id_jobID k) as [job|]; [|done]. destruct (leaseExpired now it); [|done]. simpl.
    destruct (requeueOrFail _ _ _). simpl. by rewrite (proj1 (proj2 (proj2 (freeSlot_frame _ _)))). }
  destruct (IH (reapItem now (id_jobID k) (m, b) k)) as [? ->];
    [by eapply micros_wf|by rewrite Eo|set_solver|].
  split; [by etrans|done].
Qed.

Lemma reap_loop_micro now m l :
  wf m -> (forall id order, (id, order) ∈ l -> m_itemOrder m !! id = Some order) ->
  rtc micro m (foldl (fun st '(id, order) => foldl (reapItem now id) st order) (m, false) l).1.
Proof.
  intros Hwf Hl. enough (forall st, wf st.1 -> m_itemOrder st.1 = m_itemOrder m ->
    rtc micro st.1 (foldl (fun st '(id, order) => foldl (reapItem now id) st order) st l).1) as H
    by by apply (H (m, false)).
  induction l as [|[id order] l IH]; intros st Hst Heq; simpl; [done|].
  destruct (foldl_reapItem_micro now id order order st) as [? ?]; try done.
  { rewrite Heq. apply Hl. left. }
  etrans; [done|]. apply IH; [|by eapply micros_wf|congruence].
  intros i o Hio. apply Hl. by right.
Qed.

(** *** Whole operations *)

Lemma foldl_cancel_micro now id order keys m job :
  wf m -> m_itemOrder m !! id = Some order -> (forall k, k ∈ keys -> k ∈ order) ->
  m_jobs m !! id = Some job -> job_Status job = JobCancelled ->
  rtc micro m (foldl (cancelItem now id) m keys).
Proof.
  revert m job. induction keys as [|k keys IH]; intros m job Hwf Ho Hin Hj Hc; cbn [foldl]; [done|].
  assert (id_jobID k = id) as <-.
  { destruct (wf_orders m Hwf _ _ Ho) as (j & _ & Hok). apply (jo_keys _ _ _ _ _ Hok). set_solver. }
  destruct (cancelItem_frame now (id_jobID k) m k) as [Hfo Hfs]. specialize (Hfs (id_jobID k)).
  rewrite Hj in Hfs. simpl in Hfs.
  assert (rtc micro m (cancelItem now (id_jobID k) m k)) as Hm.
  { destruct (m_items m !! k) as [it|] eqn:Hit; [|by unfold cancelItem; rewrite Hit].
    destruct (decide (wi_State it = WorkItemQueued)) as [Hq|Hq].
    - eapply rtc_once, mi_drop; try done. set_solver.
    - unfold cancelItem. by rewrite Hit, bool_decide_eq_false_2. }
  destruct (m_jobs (cancelItem now (id_jobID k) m k) !! id_jobID k) as [job'|] eqn:Hj'; simplify_eq/=.
  etrans; [exact Hm|].
  eapply (IH _ job'); [by eapply micros_wf|congruence|set_solver|done|congruence].
Qed.

Lemma CancelJob_micro now id m : wf m -> rtc micro m (CancelJob now id m).1.
Proof.
  intros Hwf. unfold CancelJob. destruct (m_jobs m !! id) as [job|] eqn:Hj; [|done].
  destruct (_ || _) eqn:Hs; [done|]. cbn [fst].
  change (rtc micro m (setCancelled now id (foldl (cancelItem now id) m (default [] (m_itemOrder m !! id))))).
  rewrite cancelItem_commute.
  assert (micro m (setCancelled now id m)) as Hm.
  { unfold setCancelled. rewrite (alter_insert _ _ _ job) by done.
    apply (mi_status now id job JobCancelled); [done| |by right]. by destruct (job_Status job); auto. }
  eapply rtc_l; [exact Hm|]. pose proof (micro_wf _ _ Hwf Hm) as Hwf1.
  destruct (m_itemOrder m !! id) as [order|] eqn:Ho; simpl; [|done].
  eapply (foldl_cancel_micro now id order); try done; simpl;
    [by rewrite lookup_alter_eq, Hj|done].
Qed.

Lemma step_micro m m' : wf m -> step m m' -> rtc micro m m'.
Proof.
  intros Hwf Hstep. revert Hwf.
  destruct Hstep as [R env w conc m|R env now now_id op pool inputs n m|now g l1 l2 m Hr Hs
    |R env now out g l1 l2 m Hr Hs|R env now m|now id m|now id m]; intros Hwf.
  - unfold RegisterWorker.
    destruct (match conc with Some c => _ | None => _ end) as [slots unmeasured] eqn:Hs. cbn [fst].
    apply micro_dispatch, mi_register; [done|].
    destruct conc as [c|]; [destruct (Z.ltb_spec 0 c)|]; simplify_eq; lia.
  - unfold SubmitJob. case_bool_decide as Hne; [done|].
    pose proof (mi_enqueue now now_id op pool inputs n m Hne) as Hm.
    destruct (enqueueJob _ _ _ _ _ _ m) as [m1 [job|e]]; cbn [fst] in *;
      [by apply micro_dispatch|by apply rtc_once].
  - by apply rtc_once, mi_start.
  - by apply completeItem_micro.
  - unfold reapExpiredLeases.
    pose proof (reap_loop_micro now m (go_range (m_itemOrder m)) Hwf
      (fun id order => proj1 (go_range_elem _ _ _))) as Hm.
    destruct (foldl _ _ _) as [m1 []]; cbn [fst] in Hm; [|done].
    etrans; [done|]. apply tryDispatchLocked_micro. by eapply micros_wf.
  - unfold PauseJob. destruct (m_jobs m !! id) as [job|] eqn:Hj; [|done].
    destruct (_ || _) eqn:Hs; [|done]. apply rtc_once, mi_status; [done| |by left].
    left. by destruct (job_Status job).
  - by apply CancelJob_micro.
Qed.

(** ** Invariants of the reachable states *)

Lemma NewManager_wf ttl interval n : wf (NewManager ttl interval n).
Proof.
  unfold NewManager. constructor; simpl; try done.
  - intros id Hid. by apply elem_of_nil in Hid.
  - destruct (Z.leb_spec n 0); lia.
  - constructor.
Qed.

(** An invariant holds initially and is kept by every effect. *)
Lemma reachable_ind (P : Manager -> Prop) :
  (forall ttl interval n, P (NewManager ttl interval n)) ->
  (forall m m', wf m -> P m -> micro m m' -> P m') ->
  forall m, reachable m -> wf m /\ P m.
Proof.
  intros Hinit Hmicro m (m0 & (ttl & interval & n & ->) & Hsteps).
  assert (forall a b, rtc micro a b -> wf a /\ P a -> wf b /\ P b) as Hms.
  { induction 1; [done|]. intros []. eauto using micro_wf. }
  assert (forall a b, rtc step a b -> wf a /\ P a -> wf b /\ P b) as H.
  { induction 1 as [|a b c Hs _ IH]; [done|]. intros [Hwf HP]. eauto using step_micro. }
  apply (H _ _ Hsteps). split; [apply NewManager_wf|done].
Qed.

Lemma reachable_wf m : reachable m -> wf m.
Proof. intros Hr. by apply (reachable_ind (fun _ => True)). Qed.

(** A relation between a state and its successors that every effect keeps. *)
Lemma rtc_step_ind (Q : Manager -> Manager -> Prop) `{!PreOrder Q} :
  (forall m m', wf m -> micro m m' -> Q m m') ->
  forall m m', wf m -> rtc step m m' -> Q m m'.
Proof.
  intros HQ m m' Hwf Hs. revert Hwf.
  assert (forall a b, rtc micro a b -> wf a -> Q a b /\ wf b) as Hms.
  { induction 1 as [|a b c Hm _ IH]; intros Hwf; [done|].
    destruct IH as [? ?]; [by eapply micro_wf|]. split; [etrans; eauto|done]. }
  induction Hs as [|a b c Hstep _ IH]; intros Hwf; [done|].
  destruct (Hms _ _ (step_micro _ _ Hwf Hstep) Hwf) as [? ?]. etrans; eauto.
Qed.
