(* ===== verification/JobsLive.v ===== *)
(** * Liveness-side invariants of the job manager

    What [JobsInv.wf] does not say: settled items and finished jobs never
    change again, no worker slot is idle beside an item it could run, every
    item in flight has the goroutine that will settle it, and a running job
    has work left.  All are proved effect by effect over [JobsMicro.micro]. *)

From S2P Require Import Prelude Domain Jobs JobsInv JobsMicro.

(** ** Settled work is final *)

Definition itemSettled (s : WorkItemState) : bool :=
  match s with
  | WorkItemSuccess | WorkItemFailed | WorkItemCancelled => true
  | _ => false
  end.

Definition jobFinished (s : JobStatus) : bool :=
  match s with
  | JobCompleted | JobCompletedWithErrors => true
  | _ => false
  end.

(** From [m] to [m'] no settled item and no finished job changed, and a
    cancelled job stayed cancelled. *)
Record keeps (m m' : Manager) : Prop := {
  kp_items : forall k it, m_items m !! k = Some it -> itemSettled (wi_State it) = true ->
    m_items m' !! k = Some it;
  kp_jobs : forall id job order, m_itemOrder m !! id = Some order -> m_jobs m !! id = Some job ->
    jobFinished (job_Status job) = true -> m_jobs m' !! id = Some job;
  kp_order : forall id order, m_itemOrder m !! id = Some order -> m_itemOrder m' !! id = Some order;
  kp_cancelled : forall id job, m_jobs m !! id = Some job -> job_Status job = JobCancelled ->
    exists job', m_jobs m' !! id = Some job' /\ job_Status job' = JobCancelled;
}.

#[export] Instance keeps_preorder : PreOrder keeps.
Proof.
  split; [intros m; constructor; eauto|].
  intros m1 m2 m3 [Hi1 Hj1 Ho1 Hc1] [Hi2 Hj2 Ho2 Hc2]. constructor; eauto.
  intros id job Hj Hc. destruct (Hc1 _ _ Hj Hc) as (job' & ? & ?). eauto.
Qed.

(** An effect that touches item [k] and its job only. *)
Lemma keeps_local m m' k it job it' job' :
  m_items m !! k = Some it -> m_jobs m !! id_jobID k = Some job ->
  itemSettled (wi_State it) = false -> jobFinished (job_Status job) = false ->
  (job_Status job = JobCancelled -> job_Status job' = JobCancelled) ->
  m_items m' = <[k := it']> (m_items m) -> m_jobs m' = <[id_jobID k := job']> (m_jobs m) ->
  m_itemOrder m' = m_itemOrder m -> keeps m m'.
Proof.
  intros Hit Hj Hs Hf Hc Ei Ej Eo. constructor; rewrite ?Ei, ?Ej, ?Eo; auto.
  - intros k0 it0 Hk0 Hs0. rewrite lookup_insert_ne; [done|]. intros <-. congruence.
  - intros id job0 order _ Hj0 Hf0. rewrite lookup_insert_ne; [done|]. intros <-. congruence.
  - intros id job0 Hj0 Hc0. rewrite lookup_insert. case_decide as E; [|eauto].
    subst id. assert (job0 = job) as -> by congruence. eauto.
Qed.

Lemma settles_keeps m m' key it it' job job' :
  wf m -> settles m key it it' job job' ->
  m_items m' = m_items m -> m_jobs m' = m_jobs m -> m_itemOrder m' = m_itemOrder m ->
  keeps m (storeItem key job' it' m').
Proof.
  intros Hwf [(order & Ho & Hin) Hit Hj Hi _ _ _ _ Hst] Ei Ej Eo.
  destruct (wf_lookup m key order Hwf Ho Hin) as (job0 & it0 & Hj0 & Hit0 & Hjok & _).
  assert (job0 = job) as -> by congruence.
  destruct (job_ok_inflight _ _ _ _ _ _ _ Hjok Hin Hit Hi) as [Hn1 Hn2].
  eapply (keeps_local m _ key it job it' job'); simpl; rewrite ?Ei, ?Ej; try done.
  - by destruct (wi_State it).
  - by destruct (job_Status job).
  - intros Hc. destruct Hst as [[-> _]|[Hd _]]; [done|]. by rewrite Hc in Hd.
Qed.

(** Effects on workers, tokens and goroutines. *)
Lemma keeps_frame m m' :
  m_items m' = m_items m -> m_jobs m' = m_jobs m -> m_itemOrder m' = m_itemOrder m -> keeps m m'.
Proof. intros Ei Ej Eo. constructor; rewrite ?Ei, ?Ej, ?Eo; eauto. Qed.

Lemma enqueueJob_spec now now_id op pool inputs maxAttempts m :
  wf m ->
  let id := jobID_of now_id (m_idSeq m + 1) in
  let m' := (enqueueJob now now_id op pool inputs maxAttempts m).1 in
  (forall k it, m_items m !! k = Some it -> m_items m' !! k = Some it) /\
  (forall k it, m_items m' !! k = Some it -> m_items m !! k = Some it \/ wi_State it = WorkItemQueued) /\
  (exists job, m_jobs m' = <[id := job]> (m_jobs m) /\ job_Status job = JobRunning /\
     jp_Queued (job_Progress job) = Z.of_nat (length inputs)) /\
  m_jobOrder m' = m_jobOrder m ++ [id] /\
  (forall i order, m_itemOrder m !! i = Some order -> m_itemOrder m' !! i = Some order) /\
  (forall i order, m_itemOrder m' !! i = Some order -> i = id \/ m_itemOrder m !! i = Some order) /\
  m_workers m' = m_workers m /\ m_leaseTok m' = m_leaseTok m /\ m_runs m' = m_runs m.
Proof.
  intros Hwf. unfold enqueueJob. destruct (wf_fresh_id m now_id Hwf) as (_ & Hfo & _).
  set (id := jobID_of now_id (m_idSeq m + 1)) in *. cbv zeta.
  destruct (submitItems now id 0 inputs _ []) as [items' res] eqn:Hsub.
  destruct (submitItems_spec _ _ _ _ _ _ _ _ Hsub) as (_ & Hs2 & Hs3).
  destruct res as [order|]; simpl in *; split_and!; try done; eauto; try naive_solver.
  - intros i order' Hi. by rewrite lookup_insert_ne by congruence.
  - intros i order' Hi. destruct (decide (id = i)) as [->|]; [by left|].
    rewrite lookup_insert_ne in Hi by done. by right.
Qed.

Lemma micro_keeps m m' : wf m -> micro m m' -> keeps m m'.
Proof.
  intros Hwf Hm. revert Hwf. destruct Hm as
    [now key w order job it ws m Ho Hin Hj Hd Hit Hq Hw Hlt Hnt|now g l1 l2 m Hr|g l1 l2 m Hr Ht
    |g l1 l2 it it' job job' m Hr Ht Hst|key it it' job job' m Hst|w slots u m Hs
    |now now_id op pool inputs n m Hne|now id job st m Hj Hd Hst|now key order job it m Ho Hin Hj Hc Hit Hq]; intros Hwf.
  - apply (keeps_local m _ key it job (leaseItem now (m_leaseTTL m) w it) (leaseJob now job)); try done;
      [by rewrite Hq|by destruct (job_Status job)|by apply alter_insert..].
  - unfold runItemStart. simpl.
    pose proof (wf_runs m Hwf) as Hf. rewrite Forall_forall in Hf.
    destruct (wf_run m g Hwf (Hf g ltac:(rewrite Hr; set_solver))) as
      (order & job & it & Ho & Hin & Hj & Hit & Hjok & _). rewrite Hit.
    case_bool_decide as Hs; [|by apply keeps_frame].
    destruct (job_ok_inflight _ _ _ _ _ _ _ Hjok Hin Hit) as [? ?]; [by rewrite Hs|].
    eapply (keeps_local m _ (run_key g) it job _ job); simpl; try done;
      [by rewrite Hs|by destruct (job_Status job)|symmetry; by apply insert_id].
  - destruct (freeSlot_frame (run_worker g) (m <| m_runs := l1 ++ l2 |>)) as (? & ? & ? & _).
    by apply keeps_frame.
  - destruct (freeSlot_frame (run_worker g) (m <| m_runs := l1 ++ l2 |>)) as (? & ? & ? & _).
    by eapply settles_keeps.
  - match goal with |- keeps m (storeItem _ _ _ (freeSlot ?o ?x)) =>
      destruct (freeSlot_frame o x) as (? & ? & ? & _) end.
    by eapply settles_keeps.
  - by apply keeps_frame.
  - destruct (enqueueJob_spec now now_id op pool inputs n m Hwf) as (Hi & _ & (job & Ej & _) & _ & Ho & _).
    destruct (wf_fresh_id m now_id Hwf) as (Hfj & _). cbv zeta in *.
    constructor; rewrite ?Ej; auto; intros; rewrite lookup_insert_ne by congruence; eauto.
  - constructor; simpl; eauto; intros id0 job0.
    + intros order _ Hj0 Hf. rewrite lookup_insert_ne; [done|]. intros <-.
      assert (job0 = job) as -> by congruence. destruct Hd as [Hd|Hd]; by destruct (job_Status job).
    + intros Hj0 Hc. rewrite lookup_insert_ne; [eauto|]. intros <-.
      assert (job0 = job) as -> by congruence. rewrite Hc in Hd. by destruct Hd.
  - unfold cancelItem. rewrite Hit, bool_decide_eq_true_2 by done.
    eapply (keeps_local m _ key it job _
      (set_progress (fun p => p <| jp_Queued := jp_Queued p - 1 |>) job)); try done;
      [by rewrite Hq|by rewrite Hc|by apply alter_insert].
Qed.

Lemma steps_keep m m' : reachable m -> rtc step m m' -> keeps m m'.
Proof. intros Hr. apply rtc_step_ind; [apply _|apply micro_keeps|by apply reachable_wf]. Qed.

(** ** Goroutines, slots and remaining work *)

Definition runs_on (w : string) (l : list run) : Z :=
  Z.of_nat (length (filter (fun g => run_worker g = w) l)).

Lemma runs_on_nonneg w l : 0 <= runs_on w l.
Proof. unfold runs_on. lia. Qed.

Lemma runs_on_cons w g l : runs_on w (g :: l) = runs_on w l + (if decide (run_worker g = w) then 1 else 0).
Proof. unfold runs_on. rewrite filter_cons. case_decide; simpl; lia. Qed.

Lemma runs_on_middle w l1 g l2 :
  runs_on w (l1 ++ g :: l2) = runs_on w (l1 ++ l2) + (if decide (run_worker g = w) then 1 else 0).
Proof.
  unfold runs_on. rewrite !filter_app, filter_cons, !length_app. case_decide; simpl; lia.
Qed.

Record live (m : Manager) : Prop := {
  (** dispatch visits every job that has items; *)
  lv_listed : forall id order, m_itemOrder m !! id = Some order -> id ∈ m_jobOrder m;
  (** an occupied slot has a goroutine; *)
  lv_active : forall w ws, m_workers m !! w = Some ws -> ws_active ws <= runs_on w (m_runs m);
  (** an item in flight has the goroutine whose result will be accepted; *)
  lv_current : forall k it, m_items m !! k = Some it -> isInflight (wi_State it) = true ->
    exists g, g ∈ m_runs m /\ run_key g = k /\ run_token g = default 0 (m_leaseTok m !! k);
  (** a job open for dispatch has work left. *)
  lv_open : forall id order job, m_itemOrder m !! id = Some order -> m_jobs m !! id = Some job ->
    dispatchable (job_Status job) = true ->
    0 < jp_Queued (job_Progress job) \/ 0 < jp_Running (job_Progress job);
}.

Lemma NewManager_live ttl interval n : live (NewManager ttl interval n).
Proof. by constructor. Qed.

Lemma freeSlot_lookup w m w' ws' :
  m_workers (freeSlot w m) !! w' = Some ws' ->
  exists ws, m_workers m !! w' = Some ws /\ ws_slots ws' = ws_slots ws /\
    ws_active ws' = (if decide (w = w') then Z.min (ws_active ws) (Z.max 0 (ws_active ws - 1)) else ws_active ws).
Proof.
  unfold freeSlot. intros Hw'. destruct (m_workers m !! w) as [ws|] eqn:Hw.
  - destruct (Z.ltb_spec 0 (ws_active ws)); simpl in Hw'.
    + rewrite lookup_insert in Hw'. case_decide; simplify_eq; [|eauto].
      exists ws. split_and!; [done..|simpl; lia].
    + exists ws'. split_and!; [done..|]. case_decide; [|done]. simplify_eq. lia.
  - exists ws'. split_and!; [done..|]. case_decide; [|done]. simplify_eq.
Qed.

Lemma freeSlot_jobOrder w m : m_jobOrder (freeSlot w m) = m_jobOrder m.
Proof. unfold freeSlot. destruct (m_workers m !! w); [|done]. by destruct (0 <? _). Qed.

(** Removing a goroutine and freeing its slot keeps slots backed by goroutines. *)
Lemma remove_run_active m g l1 l2 :
  (forall w ws, m_workers m !! w = Some ws -> ws_active ws <= runs_on w (m_runs m)) ->
  m_runs m = l1 ++ g :: l2 ->
  forall w ws, m_workers (freeSlot (run_worker g) (m <| m_runs := l1 ++ l2 |>)) !! w = Some ws ->
    ws_active ws <= runs_on w (l1 ++ l2).
Proof.
  intros Ha Hr w ws (ws0 & Hw0 & _ & ->)%freeSlot_lookup. simpl in Hw0.
  specialize (Ha _ _ Hw0). rewrite Hr, runs_on_middle in Ha.
  pose proof (runs_on_nonneg w (l1 ++ l2)). case_decide; lia.
Qed.

(** Settling an item: what is left to show of the state it is stored in. *)
Lemma settles_live m m' key it it' job job' :
  live m -> settles m key it it' job job' ->
  m_items m' = m_items m -> m_jobs m' = m_jobs m -> m_itemOrder m' = m_itemOrder m ->
  m_jobOrder m' = m_jobOrder m ->
  (forall w ws, m_workers m' !! w = Some ws -> ws_active ws <= runs_on w (m_runs m')) ->
  (forall k, k <> key -> m_leaseTok m' !! k = m_leaseTok m !! k) ->
  (forall g, g ∈ m_runs m -> run_key g <> key -> g ∈ m_runs m') ->
  live (storeItem key job' it' m').
Proof.
  intros [Hl _ Hc Ho] [_ Hit Hj Hi Hout _ _ _ Hst] Ei Ej Eo Ejo Ha Et Er.
  constructor; simpl; rewrite ?Ei, ?Ej, ?Eo, ?Ejo; auto.
  - intros k it0. rewrite lookup_insert. case_decide as E; [intros [= <-]; congruence|].
    intros Hk Hi0. destruct (Hc k it0 Hk Hi0) as (g & Hg & Hgk & Hgt). exists g.
    rewrite Et by done. split_and!; [apply Er|..]; congruence.
  - intros id order job0 Hid. rewrite lookup_insert. case_decide as E; [|by apply Ho with order].
    intros [= <-] Hd. destruct Hst as [[Es Hq]|[_ [Es|Es]]]; rewrite Es in Hd; [by apply Hq|done..].
Qed.

Lemma lease_live now key w order job it ws m :
  wf m -> live m ->
  m_itemOrder m !! id_jobID key = Some order -> m_jobs m !! id_jobID key = Some job ->
  m_items m !! key = Some it -> m_workers m !! w = Some ws ->
  live (leaseLocked now (id_jobID key) key w m).
Proof.
  intros Hwf [Hl Ha Hc Ho] Hord Hj Hit Hw. constructor; simpl; auto.
  - intros w' ws'. rewrite lookup_alter, runs_on_cons. simpl.
    case_decide as E; [subst w'; rewrite Hw; intros [= <-]; specialize (Ha _ _ Hw); simpl; lia|].
    intros Hw'. specialize (Ha _ _ Hw'). lia.
  - intros k it0. rewrite lookup_alter. case_decide as E.
    + subst k. intros _ _. eexists. split; [left|]. simpl. by rewrite lookup_insert_eq.
    + intros Hk Hi. destruct (Hc k it0 Hk Hi) as (g & Hg & Hgk & Hgt). exists g.
      rewrite lookup_insert_ne by done. split; [by right|done].
  - intros id order' job'. rewrite lookup_alter. case_decide as E; [|apply Ho].
    subst id. rewrite Hj. intros Hord' [= <-] _. right. simpl.
    destruct (wf_orders m Hwf _ _ Hord') as (job0 & Hj0 & Hok). assert (job0 = job) as -> by congruence.
    rewrite (jo_running _ _ _ _ _ Hok). pose proof (count_nonneg isInflight (m_items m) order'). lia.
Qed.

Lemma start_live now g l1 l2 m :
  live m -> m_runs m = l1 ++ g :: l2 ->
  live (runItemStart now (run_key g) (m <| m_runs := l1 ++ g <| run_started := true |> :: l2 |>)).
Proof.
  intros [Hl Ha Hc Ho] Hr.
  assert (forall w, runs_on w (l1 ++ g <| run_started := true |> :: l2) = runs_on w (m_runs m)) as Hro.
  { intros w. by rewrite Hr, !runs_on_middle. }
  assert (forall k, (exists g', g' ∈ m_runs m /\ run_key g' = k /\ run_token g' = default 0 (m_leaseTok m !! k)) ->
    exists g', g' ∈ l1 ++ g <| run_started := true |> :: l2 /\ run_key g' = k /\
      run_token g' = default 0 (m_leaseTok m !! k)) as Hmap.
  { intros k (g' & Hg' & ? & ?). rewrite Hr in Hg'.
    apply elem_of_app in Hg' as [?|[->|?]%elem_of_cons].
    1,3: exists g'; set_solver.
    exists (g <| run_started := true |>). split; [set_solver|done]. }
  unfold runItemStart. simpl. destruct (m_items m !! run_key g) as [it|] eqn:Hit;
    [case_bool_decide as Hs|]; (constructor; simpl; [done|intros; rewrite Hro; auto| |done]).
  - intros k it0. rewrite lookup_insert. case_decide as E; intros Hk Hi; apply Hmap; [|eauto].
    subst k. apply (Hc _ it Hit). by rewrite Hs.
  - intros; eauto.
  - intros; eauto.
Qed.

Lemma late_live g l1 l2 m :
  live m -> m_runs m = l1 ++ g :: l2 -> run_token g <> default 0 (m_leaseTok m !! run_key g) ->
  live (freeSlot (run_worker g) (m <| m_runs := l1 ++ l2 |>)).
Proof.
  intros [Hl Ha Hc Ho] Hr Ht. set (m0 := m <| m_runs := l1 ++ l2 |>).
  destruct (freeSlot_frame (run_worker g) m0) as (Ei & Ej & Eo & Et & Er).
  constructor; rewrite ?Ei, ?Ej, ?Eo, ?Et, ?Er, ?freeSlot_jobOrder; auto.
  - intros w ws Hw. exact (remove_run_active m g l1 l2 Ha Hr w ws Hw).
  - simpl. intros k it Hk Hi. destruct (Hc k it Hk Hi) as (g' & Hg' & <- & Hgt). exists g'.
    split; [|done]. rewrite Hr in Hg'. set_solver.
Qed.

Lemma enqueue_live now now_id op pool inputs n m :
  wf m -> live m -> inputs <> [] -> live (enqueueJob now now_id op pool inputs n m).1.
Proof.
  intros Hwf [Hl Ha Hc Ho] Hne.
  destruct (enqueueJob_spec now now_id op pool inputs n m Hwf)
    as (_ & Hi & (job & Ej & Es & Eq) & Ejo & _ & Hord & Ew & Et & Er). cbv zeta in *.
  constructor; rewrite ?Ew, ?Et, ?Er, ?Ejo, ?Ej; auto.
  - intros id order Hid. destruct (Hord id order Hid) as [->|Hold]; [set_solver|].
    apply elem_of_app. left. eauto.
  - intros k it Hk Hin. destruct (Hi k it Hk) as [?|Hq]; [eauto|]. by rewrite Hq in Hin.
  - intros id order job0 Hid. rewrite lookup_insert. case_decide as E.
    + intros [= <-] _. left. rewrite Eq. destruct inputs; [done|]. simpl. lia.
    + destruct (Hord id order Hid) as [->|Hold]; [done|]. by apply Ho with order.
Qed.

Lemma micro_live m m' : wf m -> live m -> micro m m' -> live m'.
Proof.
  intros Hwf Hlive Hm. revert Hwf Hlive. destruct Hm as
    [now key w order job it ws m Ho Hin Hj Hd Hit Hq Hw Hlt Hnt|now g l1 l2 m Hr|g l1 l2 m Hr Ht
    |g l1 l2 it it' job job' m Hr Ht Hst|key it it' job job' m Hst|w slots u m Hs
    |now now_id op pool inputs n m Hne|now id job st m Hj Hd Hst|now key order job it m Ho Hin Hj Hc Hit Hq];
    intros Hwf Hlive.
  - by eapply lease_live.
  - by apply start_live.
  - by apply late_live.
  - destruct (freeSlot_frame (run_worker g) (m <| m_runs := l1 ++ l2 |>)) as (Ei & Ej & Eo & Et & Er).
    eapply settles_live; try done; rewrite ?freeSlot_jobOrder, ?Et, ?Er; try done.
    + apply remove_run_active; [apply Hlive|done].
    + intros g' Hg' Hne. rewrite Hr in Hg'. simpl. set_solver.
  - match goal with |- live (storeItem _ _ _ (freeSlot ?o ?x)) =>
      destruct (freeSlot_frame o x) as (Ei & Ej & Eo & Et & Er) end.
    eapply settles_live; try done; rewrite ?freeSlot_jobOrder, ?Et, ?Er; try done.
    + intros w ws (ws0 & Hw0 & _ & ->)%freeSlot_lookup. pose proof (lv_active m Hlive _ _ Hw0).
      simpl. case_decide; lia.
    + intros k Hk. simpl. by rewrite lookup_insert_ne.
  - destruct Hlive as [Hl Ha Hc Ho]. constructor; simpl; auto.
    intros w' ws'. rewrite lookup_insert. case_decide; [|apply Ha].
    intros [= <-]. apply runs_on_nonneg.
  - by apply enqueue_live.
  - destruct Hlive as [Hl Ha Hc Ho]. constructor; simpl; auto.
    intros i order job0 Hi. rewrite lookup_insert. case_decide; [|by apply Ho with order].
    intros [= <-] Hd'. simpl in Hd'. destruct Hst; by subst.
  - unfold cancelItem. rewrite Hit, bool_decide_eq_true_2 by done.
    destruct Hlive as [Hl Ha Hc' Ho']. constructor; simpl; auto.
    + intros k it0. rewrite lookup_insert. case_decide; [by intros [= <-]|apply Hc'].
    + intros id order' job0 Hid. rewrite lookup_alter. case_decide; [|by apply Ho' with order'].
      subst id. rewrite Hj. intros [= <-] Hd. simpl in Hd. by rewrite Hc in Hd.
Qed.

(** ** No idle slot beside a runnable item *)

Definition noidle (m : Manager) : Prop :=
  forall id job order key, m_jobs m !! id = Some job -> dispatchable (job_Status job) = true ->
  m_itemOrder m !! id = Some order -> key ∈ order -> starved m key.

Lemma tryDispatchLocked_noidle {R : GoRange} env m :
  (forall id order, m_itemOrder m !! id = Some order -> id ∈ m_jobOrder m) ->
  noidle (tryDispatchLocked env m).
Proof.
  intros Hl id job order key Hj Hd Ho Hin. unfold tryDispatchLocked in *.
  destruct (foldl_dispatchJob_le env (m_jobOrder m) m) as [Eo _ Es _ _ _ _].
  specialize (Es id). rewrite Hj in Es. simpl in Es. rewrite Eo in Ho.
  destruct (m_jobs m !! id) as [job0|] eqn:Hj0; simplify_eq/=.
  eapply (foldl_dispatchJob_starved env _ m id job0 order); try done; [by eapply Hl|congruence].
Qed.

(** Effects that free no slot, open no job and queue no listed item. *)
Lemma noidle_mono m m' :
  noidle m ->
  (forall id job' order, m_jobs m' !! id = Some job' -> dispatchable (job_Status job') = true ->
     m_itemOrder m' !! id = Some order ->
     m_itemOrder m !! id = Some order /\
     exists job, m_jobs m !! id = Some job /\ dispatchable (job_Status job) = true) ->
  (forall id order k it, m_itemOrder m !! id = Some order -> k ∈ order ->
     m_items m' !! k = Some it -> wi_State it = WorkItemQueued -> m_items m !! k = Some it) ->
  m_workers m' = m_workers m -> noidle m'.
Proof.
  intros Hn Hj Hi Ew id job' order key Hj' Hd' Ho' Hin it Hit Hq w ws. rewrite Ew.
  destruct (Hj _ _ _ Hj' Hd' Ho') as (Ho & job & Hjob & Hd).
  apply (Hn id job order key Hjob Hd Ho Hin it); [by eapply Hi|done].
Qed.

Lemma reap_flag now l st :
  (foldl (fun st '(id, order) => foldl (reapItem now id) st order) st l).2 = false ->
  foldl (fun st '(id, order) => foldl (reapItem now id) st order) st l = st.
Proof.
  assert (forall id st k, reapItem now id st k = st \/ (reapItem now id st k).2 = true) as H1.
  { intros id [m b] k. unfold reapItem. destruct (m_items m !! k); [|by left].
    destruct (m_jobs m !! id); [|by left]. destruct (leaseExpired _ _); [|by left].
    simpl. destruct (requeueOrFail _ _ _). by right. }
  assert (forall id st k, st.2 = true -> (reapItem now id st k).2 = true) as H2.
  { intros id st0 k Hb. destruct (H1 id st0 k) as [->|?]; done. }
  assert (forall id keys st, foldl (reapItem now id) st keys = st
            \/ (foldl (reapItem now id) st keys).2 = true) as H3.
  { intros id keys. induction keys as [|k keys IH]; intros st0; cbn [foldl]; [by left|].
    destruct (H1 id st0 k) as [->|Hb]; [apply IH|]. right.
    destruct (IH (reapItem now id st0 k)) as [->|?]; done. }
  assert (forall l st, foldl (fun st '(id, order) => foldl (reapItem now id) st order) st l = st \/
            (foldl (fun st '(id, order) => foldl (reapItem now id) st order) st l).2 = true) as H4.
  { clear l st. intros l. induction l as [|[id order] l IH]; intros st0; cbn [foldl]; [by left|].
    destruct (H3 id order st0) as [->|Hb]; [apply IH|]. right.
    destruct (IH (foldl (reapItem now id) st0 order)) as [->|?]; done. }
  destruct (H4 l st); [done|congruence].
Qed.

Lemma cancel_fold_frame now id keys m :
  m_workers (foldl (cancelItem now id) m keys) = m_workers m /\
  m_itemOrder (foldl (cancelItem now id) m keys) = m_itemOrder m /\
  (forall i, job_Status <$> m_jobs (foldl (cancelItem now id) m keys) !! i = job_Status <$> m_jobs m !! i) /\
  (forall k it, m_items (foldl (cancelItem now id) m keys) !! k = Some it -> wi_State it = WorkItemQueued ->
     m_items m !! k = Some it).
Proof.
  revert m. induction keys as [|k keys IH]; intros m; cbn [foldl]; [done|].
  destruct (IH (cancelItem now id m k)) as (Ew & Eo & Es & Hi).
  destruct (cancelItem_frame now id m k) as [Eo1 Es1].
  assert (m_workers (cancelItem now id m k) = m_workers m) as Ew1.
  { unfold cancelItem. destruct (m_items m !! k); [|done]. by case_bool_decide. }
  split_and!; [congruence|congruence|intros i; by rewrite Es|].
  intros k0 it Hit Hq. specialize (Hi k0 it Hit Hq). unfold cancelItem in Hi.
  destruct (m_items m !! k) as [it1|]; [|done]. case_bool_decide; [|done]. simpl in Hi.
  rewrite lookup_insert in Hi. case_decide; [|done]. by simplify_eq.
Qed.

Lemma CancelJob_noidle now id m : noidle m -> noidle (CancelJob now id m).1.
Proof.
  intros Hn. unfold CancelJob. destruct (m_jobs m !! id) as [job|] eqn:Hj; [|done].
  destruct (_ || _); [done|]. cbn [fst]. set (keys := default [] _).
  destruct (cancel_fold_frame now id keys m) as (Ew & Eo & Es & Hi).
  set (m1 := foldl _ _ _) in *. clearbody m1 keys.
  apply (noidle_mono m); simpl; try done; [|eauto].
  intros i job' order. rewrite lookup_alter. case_decide as E.
  { destruct (m_jobs m1 !! id); [|done]. by intros [= <-]. }
  intros Hj' Hd. rewrite Eo. split; [done|]. specialize (Es i). rewrite Hj' in Es.
  destruct (m_jobs m !! i) as [job0|]; simplify_eq/=. exists job0. split; congruence.
Qed.

Lemma enqueue_error_noidle now now_id op pool inputs n m m' e :
  wf m -> noidle m -> enqueueJob now now_id op pool inputs n m = (m', Err e) -> noidle m'.
Proof.
  intros Hwf Hn He. destruct (wf_fresh_id m now_id Hwf) as (_ & Hfo & _).
  unfold enqueueJob in He. set (id := jobID_of now_id (m_idSeq m + 1)) in *. cbv zeta in *.
  destruct (submitItems now id 0 inputs _ []) as [items' [order|]] eqn:Hsub; simplify_eq.
  destruct (submitItems_spec _ _ _ _ _ _ _ _ Hsub) as (Hs1 & _ & _).
  apply (noidle_mono m); simpl; try done.
  - intros i job' order. rewrite lookup_insert. case_decide; [subst; congruence|eauto].
  - intros i order k it Ho Hin Hk _. rewrite <- Hk. symmetry. apply Hs1.
    destruct (wf_orders m Hwf _ _ Ho) as (job & _ & Hok). rewrite (jo_keys _ _ _ _ _ Hok k Hin). congruence.
Qed.

Lemma completeItem_noidle {R : GoRange} env now out g l1 l2 m :
  wf m -> live m -> noidle m -> m_runs m = l1 ++ g :: l2 ->
  noidle (completeItem env now (run_key g) (run_worker g) (run_token g) out (m <| m_runs := l1 ++ l2 |>)).
Proof.
  intros Hwf [Hl _ _ _] Hn Hr. unfold completeItem. simpl.
  destruct (m_items m !! run_key g) as [it|]; [|done].
  destruct (m_jobs m !! id_jobID (run_key g)) as [job|]; [|done].
  destruct (freeSlot_frame (run_worker g) (m <| m_runs := l1 ++ l2 |>)) as (_ & _ & Eo & _ & _).
  pose proof (freeSlot_jobOrder (run_worker g) (m <| m_runs := l1 ++ l2 |>)) as Ejo.
  repeat case_match; apply tryDispatchLocked_noidle; simpl in *; rewrite ?Eo, ?Ejo; done.
Qed.

Lemma steps_live m m' : wf m -> live m -> rtc micro m m' -> live m'.
Proof. intros Hwf Hl Hm. revert Hwf Hl. induction Hm; eauto using micro_live, micro_wf. Qed.

Lemma step_noidle m m' : wf m -> live m -> noidle m -> step m m' -> noidle m'.
Proof.
  intros Hwf Hlive Hn Hstep. pose proof (step_micro _ _ Hwf Hstep) as Hm. revert Hwf Hlive Hn Hm.
  destruct Hstep as [R env w conc m|R env now now_id op pool inputs n m|now g l1 l2 m Hr Hs
    |R env now out g l1 l2 m Hr Hs|R env now m|now id m|now id m]; intros Hwf Hlive Hn Hm.
  - unfold RegisterWorker. destruct (match conc with Some c => _ | None => _ end) as [slots u].
    apply tryDispatchLocked_noidle, Hlive.
  - unfold SubmitJob. case_bool_decide as Hne; [done|].
    pose proof (enqueue_live now now_id op pool inputs n m Hwf Hlive Hne) as Hl1.
    destruct (enqueueJob _ _ _ _ _ _ m) as [m1 [job|e]] eqn:He; cbn [fst] in *.
    + apply tryDispatchLocked_noidle, Hl1.
    + by eapply enqueue_error_noidle.
  - unfold runItemStart. simpl. destruct (m_items m !! run_key g) as [it|] eqn:Hit; [|done].
    case_bool_decide as Hl; [|done]. apply (noidle_mono m); simpl; eauto.
    intros _ _ k it0 _ _. rewrite lookup_insert. case_decide; [|done]. by intros [= <-].
  - by apply completeItem_noidle.
  - unfold reapExpiredLeases.
    pose proof (reap_loop_micro now m (go_range (m_itemOrder m)) Hwf
      (fun id order => proj1 (go_range_elem _ _ _))) as Hl.
    pose proof (reap_flag now (go_range (m_itemOrder m)) (m, false)) as Hf.
    destruct (foldl _ _ _) as [m1 []]; cbn [fst snd] in *.
    + apply tryDispatchLocked_noidle, (steps_live m m1 Hwf Hlive Hl).
    + specialize (Hf eq_refl). by simplify_eq.
  - unfold PauseJob. destruct (m_jobs m !! id) as [job|] eqn:Hj; [|done].
    destruct (_ || _); [|done]. cbn [fst]. apply (noidle_mono m); simpl; eauto.
    intros i job' order. rewrite lookup_insert. case_decide; [by intros [= <-]|eauto].
  - by apply CancelJob_noidle.
Qed.

Lemma reachable_live m : reachable m -> wf m /\ live m /\ noidle m.
Proof.
  intros (m0 & (ttl & interval & n & ->) & Hsteps).
  assert (forall a b, rtc step a b -> wf a /\ live a /\ noidle a -> wf b /\ live b /\ noidle b) as H.
  { induction 1 as [|a b c Hs _ IH]; [done|]. intros (Hwf & Hl & Hn). apply IH.
    pose proof (step_micro _ _ Hwf Hs) as Hm.
    split_and!; eauto using micros_wf, steps_live, step_noidle. }
  apply (H _ _ Hsteps). split_and!; [apply NewManager_wf|apply NewManager_live|done].
Qed.

(** ** Work left has a goroutine *)

Lemma count_pos f items order :
  0 < count f items order -> exists k it, k ∈ order /\ items !! k = Some it /\ f (wi_State it) = true.
Proof.
  induction order as [|k order IH]; simpl; [lia|]. intros H.
  destruct (items !! k) as [it|] eqn:Hit; [destruct (f (wi_State it)) eqn:Hf|].
  - exists k, it. split; [left|done].
  - destruct IH as (k' & it' & ? & ?); [simpl in H; lia|]. exists k', it'. split; [by right|done].
  - destruct IH as (k' & it' & ? & ?); [lia|]. exists k', it'. split; [by right|done].
Qed.

Lemma open_job_item m id order job :
  live m -> m_itemOrder m !! id = Some order -> m_jobs m !! id = Some job ->
  dispatchable (job_Status job) = true ->
  job_ok (m_items m) (dom (m_workers m)) id job order ->
  exists k it, k ∈ order /\ m_items m !! k = Some it /\
    (isQueued (wi_State it) = true \/ isInflight (wi_State it) = true).
Proof.
  intros Hlive Ho Hj Hd Hok.
  destruct (lv_open m Hlive id order job Ho Hj Hd) as [Hpos|Hpos];
    [rewrite (jo_queued _ _ _ _ _ Hok) in Hpos|rewrite (jo_running _ _ _ _ _ Hok) in Hpos];
    destruct (count_pos _ _ _ Hpos) as (k & it & ? & ? & ?); exists k, it; auto.
Qed.

(** Beside a queued item an untried worker is full, so a goroutine runs on it. *)
Lemma queued_item_run m id order job k it :
  wf m -> live m -> noidle m ->
  m_itemOrder m !! id = Some order -> m_jobs m !! id = Some job ->
  dispatchable (job_Status job) = true -> k ∈ order ->
  m_items m !! k = Some it -> wi_State it = WorkItemQueued -> m_workers m <> ∅ ->
  exists g ws, g ∈ m_runs m /\ (run_worker g ∉ wi_TriedWorkers it) /\
    m_workers m !! run_worker g = Some ws /\ ws_active ws = ws_slots ws.
Proof.
  intros Hwf Hlive Hn Ho Hj Hd Hk Hit Hq Hne.
  destruct (wf_orders m Hwf _ _ Ho) as (job0 & Hj0 & Hok). assert (job0 = job) as -> by congruence.
  destruct (jo_items _ _ _ _ _ Hok k Hk) as (it0 & Hit0 & Hiok). assert (it0 = it) as -> by congruence.
  assert (exists w, w ∈ dom (m_workers m) /\ (w ∉ wi_TriedWorkers it)) as (w & Hw & Hnt).
  { destruct (io_queued _ _ _ Hiok Hq) as [_ [Ht|Hlt]].
    - destruct (map_choose (m_workers m) Hne) as (w & ws & Hw). exists w. rewrite Ht.
      split; [by eapply elem_of_dom_2|]. apply not_elem_of_nil.
    - destruct (set_choose_or_empty (dom (m_workers m) ∖ list_to_set (wi_TriedWorkers it)))
        as [[w Hw]|He]; [exists w; set_solver|].
      exfalso. assert (dom (m_workers m) ⊆ list_to_set (wi_TriedWorkers it)) as Hsub%subseteq_size by set_solver.
      pose proof (size_list_to_set (C := gset string) _ (io_tried_nodup _ _ _ Hiok)). lia. }
  apply elem_of_dom in Hw as [ws Hw]. pose proof (wf_slots m Hwf _ _ Hw) as [Hs1 Hs2].
  destruct (Hn id job order k Hj Hd Ho Hk it Hit Hq w ws Hw) as [Hfull|?]; [|done].
  pose proof (lv_active m Hlive _ _ Hw) as Hact. unfold runs_on in Hact.
  destruct (filter (fun g => run_worker g = w) (m_runs m)) as [|g l] eqn:Hfl; [simpl in Hact; lia|].
  assert (g ∈ filter (fun g => run_worker g = w) (m_runs m)) as [<- Hg]%list_elem_of_filter
    by (rewrite Hfl; left).
  exists g, ws. split_and!; [done..|lia].
Qed.

(** ** Slot accounting without lost leases *)

(** The steps of a run in which no lease expires and no worker id is
    registered twice. *)
Inductive quiet : Manager -> Manager -> Prop :=
  | quiet_register (R : GoRange) env w conc m :
      m_workers m !! w = None -> quiet m (RegisterWorker env w conc m).1
  | quiet_submit (R : GoRange) env now now_id op pool inputs maxAttempts m :
      quiet m (SubmitJob env now now_id op pool inputs maxAttempts m).1
  | quiet_run_start now g l1 l2 m :
      m_runs m = l1 ++ g :: l2 -> run_started g = false ->
      quiet m (runItemStart now (run_key g) (m <| m_runs := l1 ++ g <| run_started := true |> :: l2 |>))
  | quiet_run_finish (R : GoRange) env now out g l1 l2 m :
      m_runs m = l1 ++ g :: l2 -> run_started g = true ->
      quiet m (completeItem env now (run_key g) (run_worker g) (run_token g) out
                 (m <| m_runs := l1 ++ l2 |>))
  | quiet_reap (R : GoRange) env now m :
      map_Forall (fun _ it => leaseExpired now it = false) (m_items m) ->
      quiet m (reapExpiredLeases env now m)
  | quiet_pause now id m : quiet m (PauseJob now id m).1
  | quiet_cancel now id m : quiet m (CancelJob now id m).1.

Lemma quiet_step m m' : quiet m m' -> step m m'.
Proof. destruct 1; by constructor. Qed.

(** The slots a worker has taken are exactly the goroutines running on it. *)
Definition exact (m : Manager) : Prop :=
  forall w, runs_on w (m_runs m) = default 0 (ws_active <$> m_workers m !! w).

Lemma exact_dispatch {R : GoRange} env m : exact m -> exact (tryDispatchLocked env m).
Proof.
  assert (forall id keys m, exact m -> exact (foldl (dispatchItem env id) m keys)) as Hi.
  { clear m. intros id keys. induction keys as [|k keys IH]; intros m Hm; simpl; [done|]. apply IH.
    unfold dispatchItem. destruct (m_items m !! k) as [it|]; [|done]. destruct (_ !=? _); [done|].
    destruct (pickWorkerLocked _ m it) as [w|] eqn:Hp; [|done].
    destruct (pickWorkerLocked_Some _ _ _ _ Hp) as (ws & Hw & _). intros w'. simpl.
    rewrite runs_on_cons, Hm, lookup_alter. simpl.
    case_decide; [subst w'; by rewrite Hw|lia]. }
  unfold tryDispatchLocked. generalize (m_jobOrder m) as ids. intros ids. revert m.
  induction ids as [|id ids IH]; intros m Hm; simpl; [done|]. apply IH. unfold dispatchJob.
  destruct (m_jobs m !! id); [|done]. destruct (dispatchable _); [by apply Hi|done].
Qed.

Lemma exact_frame m m' : m_workers m' = m_workers m -> m_runs m' = m_runs m -> exact m -> exact m'.
Proof. intros Ew Er Hm w. by rewrite Ew, Er. Qed.

Lemma exact_finish m g l1 l2 :
  exact m -> m_runs m = l1 ++ g :: l2 -> exact (freeSlot (run_worker g) (m <| m_runs := l1 ++ l2 |>)).
Proof.
  intros Hm Hr w. pose proof (Hm w) as Hw. rewrite Hr, runs_on_middle in Hw.
  destruct (freeSlot_frame (run_worker g) (m <| m_runs := l1 ++ l2 |>)) as (_ & _ & _ & _ & ->). simpl.
  pose proof (runs_on_nonneg w (l1 ++ l2)). unfold freeSlot. simpl.
  destruct (decide (run_worker g = w)) as [<-|Hne].
  - destruct (m_workers m !! run_worker g) as [ws|] eqn:Hws; simpl in Hw; [|lia].
    destruct (Z.ltb_spec 0 (ws_active ws)); simpl; [rewrite lookup_insert_eq; simpl; lia|].
    rewrite Hws. simpl. lia.
  - destruct (m_workers m !! run_worker g) as [ws|]; [destruct (0 <? ws_active ws)|]; simpl;
      rewrite ?lookup_insert_ne by done; lia.
Qed.

Lemma reap_nothing now m l :
  map_Forall (fun _ it => leaseExpired now it = false) (m_items m) ->
  foldl (fun st '(id, order) => foldl (reapItem now id) st order) (m, false) l = (m, false).
Proof.
  intros Hn. assert (forall id keys, foldl (reapItem now id) (m, false) keys = (m, false)) as H.
  { intros id keys. induction keys as [|k keys IH]; cbn [foldl]; [done|].
    replace (reapItem now id (m, false) k) with (m, false); [done|]. unfold reapItem.
    destruct (m_items m !! k) as [it|] eqn:Hit; [|done]. by rewrite (Hn k it Hit); destruct (m_jobs m !! id). }
  induction l as [|[id order] l IH]; cbn [foldl]; [done|]. by rewrite H.
Qed.

Lemma quiet_exact m m' : wf m -> exact m -> quiet m m' -> exact m'.
Proof.
  intros Hwf Hm Hq. revert Hwf Hm.
  destruct Hq as [R env w conc m Hfresh|R env now now_id op pool inputs n m|now g l1 l2 m Hr Hs
    |R env now out g l1 l2 m Hr Hs|R env now m Hn|now id m|now id m]; intros Hwf Hm.
  - unfold RegisterWorker. destruct (match conc with Some c => _ | None => _ end) as [slots u].
    apply exact_dispatch. intros w'. simpl. rewrite lookup_insert. specialize (Hm w').
    case_decide; [subst w'|done]. by rewrite Hfresh in Hm.
  - unfold SubmitJob. case_bool_decide; [done|].
    destruct (enqueueJob_spec now now_id op pool inputs n m Hwf) as (_ & _ & _ & _ & _ & _ & Ew & _ & Er).
    destruct (enqueueJob _ _ _ _ _ _ m) as [m1 [job|e]]; cbn [fst] in *;
      [apply exact_dispatch|]; by eapply exact_frame.
  - assert (exact (m <| m_runs := l1 ++ g <| run_started := true |> :: l2 |>)) as Hm1.
    { intros w. simpl. pose proof (Hm w) as Hw. rewrite Hr in Hw.
      rewrite !runs_on_middle in *. exact Hw. }
    unfold runItemStart. simpl. destruct (m_items m !! run_key g); [|done]. by case_bool_decide.
  - pose proof (exact_finish m g l1 l2 Hm Hr) as Hm1.
    pose proof (wf_runs m Hwf) as Hf. rewrite Forall_forall in Hf.
    destruct (wf_run m g Hwf (Hf g ltac:(rewrite Hr; set_solver))) as
      (order & job & it & Ho & Hin & Hj & Hit & _).
    unfold completeItem. simpl. rewrite Hit, Hj.
    repeat case_match; apply exact_dispatch; by eapply exact_frame.
  - unfold reapExpiredLeases. by rewrite reap_nothing.
  - unfold PauseJob. destruct (m_jobs m !! id); [|done]. by destruct (_ || _).
  - unfold CancelJob. destruct (m_jobs m !! id); [|done]. destruct (_ || _); [done|]. cbn [fst].
    destruct (cancel_fold_frame now id (default [] (m_itemOrder m !! id)) m) as (Ew & _).
    eapply exact_frame; [exact Ew| |done]. simpl.
    generalize (default [] (m_itemOrder m !! id)) as keys. clear. intros keys. revert m.
    induction keys as [|k keys IH]; intros m; cbn [foldl]; [done|]. rewrite IH. unfold cancelItem.
    destruct (m_items m !! k); [|done]. by case_bool_decide.
Qed.

Lemma quiet_reachable_exact m0 m : initial m0 -> rtc quiet m0 m -> wf m /\ exact m.
Proof.
  intros (ttl & interval & n & ->) Hs.
  assert (forall a b, rtc quiet a b -> wf a /\ exact a -> wf b /\ exact b) as H.
  { induction 1 as [|a b c Hq _ IH]; [done|]. intros [Hwf He]. apply IH.
    split; [eapply micros_wf; [done|by apply step_micro, quiet_step]|by eapply quiet_exact]. }
  apply (H _ _ Hs). split; [apply NewManager_wf|done].
Qed.

(** ** What a result does to its item *)

(** A dispatch pass leaves an item alone, or leases a queued one to a worker
    that has not tried it. *)
Definition dispatched (it it' : WorkItem) : Prop :=
  it' = it \/
  wi_State it = WorkItemQueued /\ exists now ttl w, (w ∉ wi_TriedWorkers it) /\ it' = leaseItem now ttl w it.

#[export] Instance dispatched_preorder : PreOrder dispatched.
Proof.
  split; [by left|]. intros it1 it2 it3 H1 [->|H2]; [done|].
  destruct H1 as [->|(_ & now & ttl & w & _ & ->)]; [by right|]. by destruct H2.
Qed.

Definition dispatches (m m' : Manager) : Prop :=
  forall k it, m_items m !! k = Some it -> exists it', m_items m' !! k = Some it' /\ dispatched it it'.

#[export] Instance dispatches_preorder : PreOrder dispatches.
Proof.
  split; [intros m k it H; by exists it|].
  intros m1 m2 m3 H1 H2 k it H. destruct (H1 k it H) as (it1 & Hi1 & D1).
  destruct (H2 k it1 Hi1) as (it2 & Hi2 & D2). exists it2. split; [done|by etrans].
Qed.

Lemma foldl_preorder {A B} (P : A -> A -> Prop) `{!PreOrder P} (f : A -> B -> A) l a :
  (forall a b, P a (f a b)) -> P a (foldl f a l).
Proof. intros Hf. revert a. induction l as [|b l IH]; intros a; simpl; [done|]. by transitivity (f a b). Qed.

Lemma tryDispatchLocked_dispatches {R : GoRange} env m : dispatches m (tryDispatchLocked env m).
Proof.
  unfold tryDispatchLocked. apply (foldl_preorder dispatches). clear m. intros m id. unfold dispatchJob.
  destruct (m_jobs m !! id) as [job|]; [|done]. destruct (dispatchable _); [|done].
  apply (foldl_preorder dispatches). clear m. intros m key. unfold dispatchItem.
  destruct (m_items m !! key) as [item|] eqn:Hk; [|done]. case_bool_decide as Hq; simpl; [|done].
  destruct (pickWorkerLocked _ m item) as [w|] eqn:Hp; [|done].
  destruct (pickWorkerLocked_Some _ _ _ _ Hp) as (ws & _ & _ & Hnt).
  intros k it Hit. destruct (decide (key = k)) as [->|Hne]; simpl.
  - rewrite lookup_alter_eq, Hit. assert (item = it) as -> by congruence.
    eexists. split; [done|]. right. split; [done|]. eauto.
  - rewrite lookup_alter_ne, Hit by done. by exists it.
Qed.

(** What the result [out] of [worker] makes of the item [it] it was leased.  A
    success is final.  A failure counts the worker as tried; the item fails
    when no attempt is left and is otherwise queued again, possibly leased at
    once to a worker that has not tried it. *)
Definition recorded (m : Manager) (job : Job) (worker : string) (out : outcome) (it it' : WorkItem) : Prop :=
  match out with
  | ExecOk output => wi_State it' = WorkItemSuccess /\ wi_ResultRef it' = output
  | ExecErr msg =>
      wi_LastError it' = msg /\ wi_TriedWorkers it' = wi_TriedWorkers it ++ [worker] /\
      if outOfAttempts m job (it <| wi_TriedWorkers := wi_TriedWorkers it ++ [worker] |>)
      then wi_State it' = WorkItemFailed /\ wi_Attempt it' = wi_Attempt it
      else wi_State it' = WorkItemQueued /\ wi_Attempt it' = wi_Attempt it \/
           wi_State it' = WorkItemLeased /\ wi_Attempt it' = wi_Attempt it + 1 /\
           (wi_LeaseOwner it' ∉ wi_TriedWorkers it')
  end.

Lemma recorded_dispatched m job w out it it1 it2 :
  recorded m job w out it it1 -> dispatched it1 it2 -> recorded m job w out it it2.
Proof.
  intros Hr [->|(Hq & now & ttl & w' & Hnt & ->)]; [done|]. destruct out as [output|msg]; simpl in *.
  - destruct Hr as [Hs _]. congruence.
  - destruct Hr as (He & Ht & Hs). split_and!; [done..|]. destruct (outOfAttempts _ _ _).
    + destruct Hs as [Hs _]. congruence.
    + right. destruct Hs as [[_ <-]|[Hs _]]; [done|congruence].
Qed.

Lemma failItemLocked_recorded m m1 job job1 it now w msg job2 it2 :
  w ∉ wi_TriedWorkers it -> size (m_workers m1) = size (m_workers m) ->
  job_MaxAttempts job1 = job_MaxAttempts job ->
  failItemLocked m1 job1 (it <| wi_UpdatedAt := now |>) w msg = (job2, it2) ->
  recorded m job w (ExecErr msg) it it2.
Proof.
  intros Hnt Hsz Hmax. unfold failItemLocked, requeueOrFail, addTried, contains. simpl.
  rewrite bool_decide_eq_false_2 by done. unfold outOfAttempts. simpl. rewrite Hsz, Hmax.
  destruct (_ || _); intros [= _ <-]; simpl; auto 10.
Qed.

Lemma completeItem_records {R : GoRange} env now out g l1 l2 job it m :
  wf m -> m_runs m = l1 ++ g :: l2 -> m_jobs m !! id_jobID (run_key g) = Some job ->
  job_Status job <> JobCancelled -> m_items m !! run_key g = Some it ->
  run_token g = default 0 (m_leaseTok m !! run_key g) ->
  exists it', m_items (completeItem env now (run_key g) (run_worker g) (run_token g) out
                         (m <| m_runs := l1 ++ l2 |>)) !! run_key g = Some it' /\
    recorded m job (run_worker g) out it it'.
Proof.
  intros Hwf Hr Hj Hnc Hit Htok.
  assert (run_ok m g) as Hg by (eapply Forall_forall; [apply (wf_runs m Hwf)|rewrite Hr; set_solver]).
  destruct (wf_run m g Hwf Hg) as (order & job0 & it0 & _ & _ & Hj0 & Hit0 & _ & Hiok & _ & Hcur).
  assert (job0 = job) as -> by congruence. assert (it0 = it) as -> by congruence.
  destruct (Hcur Htok) as [Hi Hown]. destruct (io_owner _ _ _ Hiok Hi) as [_ Hnt]. rewrite Hown in Hnt.
  unfold completeItem. set (m0 := m <| m_runs := l1 ++ l2 |>).
  change (m_items m0) with (m_items m). change (m_jobs m0) with (m_jobs m). rewrite Hit, Hj.
  destruct (freeSlot_frame (run_worker g) m0) as (_ & _ & _ & Et & _). cbv zeta. rewrite Et.
  change (m_leaseTok m0) with (m_leaseTok m). rewrite <- Htok.
  rewrite bool_decide_eq_true_2 by done. cbn [negb]. rewrite bool_decide_eq_false_2 by done.
  destruct (_ || _) eqn:Hst; [unfold isInflight in Hi; by destruct (wi_State it)|].
  match goal with |- context [match ?x with (j, i) => _ end] => destruct x as [job2 it2] eqn:Hout end.
  set (m1 := storeItem _ _ it2 _).
  destruct (tryDispatchLocked_dispatches env m1 (run_key g) it2) as (it' & Hit' & Hd);
    [apply lookup_insert_eq|]. exists it'. split; [exact Hit'|].
  apply (recorded_dispatched m job (run_worker g) out it it2); [|done].
  destruct out as [output|msg]; [by injection Hout as _ <-|].
  eapply failItemLocked_recorded in Hout; [exact Hout|done| |done].
  by rewrite <- !size_dom, freeSlot_dom.
Qed.
