(* ===== verification/JobsProps.v ===== *)
(** * Correctness of the work-queue engine

    The theorems about [internal/jobs/manager.go], stated over the states its
    operations can reach and over what [GetJob] returns in them.  Traces for
    concrete inputs are given as lists of events and evaluated by [exec]. *)

From S2P Require Import Prelude Domain Jobs JobsInv JobsMicro JobsLive.

(** ** Executable traces *)

Inductive ev :=
  | EvRegister (w : string) (concurrency : option Z)
  | EvSubmit (now : Time) (inputs : list ItemInput) (maxAttempts : Z)
  | EvStart (now : Time) (i : nat)
  | EvFinish (now : Time) (i : nat) (out : outcome)
  | EvReap (now : Time)
  | EvPause (now : Time) (id : string)
  | EvCancel (now : Time) (id : string).

Definition env_at (now : Time) : dispatchEnv := mkdispatchEnv (fun _ => now) (fun _ => 0).

Section exec.
#[local] Instance R : GoRange := by_key.

Definition exec1 (m : Manager) (e : ev) : option Manager :=
  match e with
  | EvRegister w c => Some (RegisterWorker (env_at 1) w c m).1
  | EvSubmit now inputs n => Some (SubmitJob (env_at now) now now "op" "pool" inputs n m).1
  | EvStart now i =>
      g ← m_runs m !! i;
      if run_started g then None
      else Some (runItemStart now (run_key g)
             (m <| m_runs := take i (m_runs m) ++ g <| run_started := true |> :: drop (S i) (m_runs m) |>))
  | EvFinish now i out =>
      g ← m_runs m !! i;
      if run_started g
      then Some (completeItem (env_at now) now (run_key g) (run_worker g) (run_token g) out
             (m <| m_runs := take i (m_runs m) ++ drop (S i) (m_runs m) |>))
      else None
  | EvReap now => Some (reapExpiredLeases (env_at now) now m)
  | EvPause now id => Some (PauseJob now id m).1
  | EvCancel now id => Some (CancelJob now id m).1
  end.

Fixpoint exec (m : Manager) (es : list ev) : option Manager :=
  match es with
  | [] => Some m
  | e :: es => m' ← exec1 m e; exec m' es
  end.

Lemma exec1_step m e m' : exec1 m e = Some m' -> step m m'.
Proof.
  destruct e as [w c|now inputs n|now i|now i out|now|now id|now id]; simpl; intros H.
  3,4: destruct (m_runs m !! i) as [g|] eqn:Hg; [|done]; simpl in H; destruct (run_started g) eqn:Hs; try done.
  all: injection H as <-; constructor; try done; symmetry; by apply take_drop_middle.
Qed.

Lemma exec_steps m es m' : exec m es = Some m' -> rtc step m m'.
Proof.
  revert m. induction es as [|e es IH]; intros m H; simpl in H; [by simplify_eq|].
  destruct (exec1 m e) as [m1|] eqn:He; simpl in H; [|done].
  eapply rtc_l; [by eapply exec1_step|eauto].
Qed.

(** The manager with the configured defaults ([jobs.Options{}]). *)
Definition manager0 : Manager := NewManager 0 0 0.

Definition trace (es : list ev) : Manager := default manager0 (exec manager0 es).

Lemma trace_reachable es : reachable (trace es).
Proof.
  exists manager0. split; [by exists 0, 0, 0|].
  unfold trace. destruct (exec manager0 es) eqn:He; simpl; [by eapply exec_steps|done].
Qed.

End exec.

(** ** What [GetJob] shows *)

Definition tally (f : WorkItemState -> bool) (items : list WorkItem) : Z :=
  Z.of_nat (length (filter (fun it => f (wi_State it) = true) items)).

(** A job whose submission succeeded. *)
Definition accepted (m : Manager) (id : string) : Prop := is_Some (m_itemOrder m !! id).

Lemma count_tally f items order :
  (forall k, k ∈ order -> is_Some (items !! k)) ->
  count f items order = tally f (omap (fun k => items !! k) order).
Proof.
  unfold tally. induction order as [|k order IH]; intros H; csimpl; [done|].
  destruct (H k) as [it Hit]; [left|]. rewrite Hit, IH by set_solver.
  destruct (f (wi_State it)) eqn:E;
    [rewrite filter_cons_True by done|rewrite filter_cons_False by congruence]; csimpl; lia.
Qed.

Lemma omap_length {A B} (f : A -> option B) l :
  (forall x, x ∈ l -> is_Some (f x)) -> length (omap f l) = length l.
Proof.
  induction l as [|x l IH]; intros H; csimpl; [done|].
  destruct (H x) as [y ->]; [left|]. simpl. rewrite IH; [done|]. set_solver.
Qed.

Lemma GetJob_spec m id job items :
  wf m -> accepted m id -> GetJob id m = Ok (job, items) ->
  exists order, m_itemOrder m !! id = Some order /\ m_jobs m !! id = Some job /\
    job_ok (m_items m) (dom (m_workers m)) id job order /\
    items = omap (fun k => m_items m !! k) order.
Proof.
  intros Hwf [order Ho] Hg. destruct (wf_orders m Hwf _ _ Ho) as (job0 & Hj & Hok).
  unfold GetJob in Hg. rewrite Hj, Ho in Hg. injection Hg as <- <-. by exists order.
Qed.

Lemma GetJob_elem m id job items it :
  wf m -> GetJob id m = Ok (job, items) -> it ∈ items ->
  exists order k, m_itemOrder m !! id = Some order /\ k ∈ order /\ m_jobs m !! id = Some job /\
    m_items m !! k = Some it /\ job_ok (m_items m) (dom (m_workers m)) id job order /\
    item_ok (dom (m_workers m)) job it.
Proof.
  intros Hwf Hg Hin. unfold GetJob in Hg. destruct (m_jobs m !! id) as [job0|] eqn:Hj; [|done].
  injection Hg as -> <-. destruct (m_itemOrder m !! id) as [order|] eqn:Ho; simpl in Hin;
    [|by apply elem_of_nil in Hin].
  apply list_elem_of_omap in Hin as (k & Hk & Hit).
  destruct (wf_orders m Hwf _ _ Ho) as (job0 & Hj0 & Hok). assert (job0 = job) as -> by congruence.
  destruct (jo_items _ _ _ _ _ Hok k Hk) as (it0 & Hit0 & Hiok). exists order, k.
  assert (it0 = it) as -> by congruence. done.
Qed.

Lemma GetJob_present m id job order :
  job_ok (m_items m) (dom (m_workers m)) id job order ->
  forall k, k ∈ order -> is_Some (m_items m !! k).
Proof. intros Hok k Hk. destruct (jo_items _ _ _ _ _ Hok k Hk) as (it & ? & _). eauto. Qed.

Definition input (id : string) : ItemInput := mkItemInput id "" [].

(** Two workers, three items: one done, one failed once, one waiting. *)
Definition ex_running : Manager :=
  trace [EvRegister "w1" (Some 1); EvRegister "w2" None;
         EvSubmit 10 [input "a"; input "b"; input ""] 2;
         EvStart 11 1; EvFinish 12 1 (ExecErr "boom"); EvStart 13 1; EvFinish 14 1 (ExecOk "out")].

Definition job1 : string := jobID_of 10 1.

(** C1: in every reachable state the progress counters of an accepted job are
    the numbers of its work items in the corresponding states, and the total is
    the number of items. *)
Theorem progress_counts m id job items :
  reachable m -> accepted m id -> GetJob id m = Ok (job, items) ->
  jp_Total (job_Progress job) = Z.of_nat (length items) /\
  jp_Queued (job_Progress job) = tally isQueued items /\
  jp_Running (job_Progress job) = tally isInflight items /\
  jp_Success (job_Progress job) = tally isSuccess items /\
  jp_Failed (job_Progress job) = tally isFailed items.
Proof.
  intros Hr Ha Hg. apply reachable_wf in Hr.
  destruct (GetJob_spec m id job items Hr Ha Hg) as (order & Ho & Hj & Hok & ->).
  pose proof (GetJob_present m id job order Hok) as Hp.
  rewrite omap_length, <- !count_tally by done. by destruct Hok.
Qed.

Lemma progress_counts_witness :
  exists job items, GetJob job1 ex_running = Ok (job, items) /\ length items = 3%nat /\
    jp_Running (job_Progress job) = tally isInflight items.
Proof.
  destruct (GetJob job1 ex_running) as [[job items]|e] eqn:Hg; [|vm_compute in Hg; discriminate].
  exists job, items. split; [reflexivity|]. split.
  - vm_compute in Hg. injection Hg as <- <-. reflexivity.
  - apply (progress_counts ex_running job1 job items); [apply trace_reachable| |exact Hg].
    eexists. vm_compute. reflexivity.
Defined.

(** C2: dispatch is work-conserving.  In every reachable state, beside a queued
    item of a job open for dispatch no registered worker is idle: each has all
    its slots taken or already failed this item. *)
Theorem no_idle_slot m id job items it w ws :
  reachable m -> GetJob id m = Ok (job, items) -> dispatchable (job_Status job) = true ->
  it ∈ items -> wi_State it = WorkItemQueued -> m_workers m !! w = Some ws ->
  ws_active ws = ws_slots ws \/ w ∈ wi_TriedWorkers it.
Proof.
  intros Hr Hg Hd Hin Hq Hw. destruct (reachable_live m Hr) as (Hwf & _ & Hn).
  destruct (GetJob_elem m id job items it Hwf Hg Hin) as (order & k & Ho & Hk & Hj & Hit & _).
  pose proof (wf_slots m Hwf _ _ Hw) as [_ ?].
  destruct (Hn id job order k Hj Hd Ho Hk it Hit Hq w ws Hw); [left; lia|by right].
Qed.

(** One worker with one slot, two items: the second waits for the slot. *)
Definition ex_waiting : Manager :=
  trace [EvRegister "w1" (Some 1); EvSubmit 10 [input "a"; input "b"] 2].

Lemma no_idle_slot_witness :
  exists job items it ws, GetJob job1 ex_waiting = Ok (job, items) /\ items !! 1%nat = Some it /\
    m_workers ex_waiting !! "w1"%string = Some ws /\
    (ws_active ws = ws_slots ws \/ "w1"%string ∈ wi_TriedWorkers it).
Proof.
  destruct (GetJob job1 ex_waiting) as [[job items]|e] eqn:Hg; [|vm_compute in Hg; discriminate].
  destruct (items !! 1%nat) as [it|] eqn:Hit; [|vm_compute in Hg; injection Hg as <- <-; discriminate].
  destruct (m_workers ex_waiting !! "w1"%string) as [ws|] eqn:Hw; [|vm_compute in Hw; discriminate].
  exists job, items, it, ws. split; [reflexivity|]. split; [exact Hit|]. split; [reflexivity|].
  assert (dispatchable (job_Status job) = true /\ wi_State it = WorkItemQueued) as [Hd Hq].
  { vm_compute in Hg. injection Hg as <- <-. injection Hit as <-. split; reflexivity. }
  apply (no_idle_slot ex_waiting job1 job items it "w1" ws (trace_reachable _) Hg Hd); [|exact Hq|exact Hw].
  eapply list_elem_of_lookup_2. exact Hit.
Defined.

(** C3: retries are bounded and cross-worker.  In every reachable state an item
    was attempted at most [MaxAttempts] times, its tried workers are distinct,
    and an item in flight is held by a registered worker that has not failed it
    before. *)
Theorem attempts_bounded m id job items it :
  reachable m -> GetJob id m = Ok (job, items) -> it ∈ items ->
  0 <= wi_Attempt it <= job_MaxAttempts job /\ NoDup (wi_TriedWorkers it) /\
  (isInflight (wi_State it) = true ->
     is_Some (m_workers m !! wi_LeaseOwner it) /\ (wi_LeaseOwner it ∉ wi_TriedWorkers it)).
Proof.
  intros Hr Hg Hin. apply reachable_wf in Hr.
  destruct (GetJob_elem m id job items it Hr Hg Hin) as (_ & _ & _ & _ & _ & _ & _ & Hiok).
  split_and!; try apply Hiok. intros Hi. destruct (io_owner _ _ _ Hiok Hi) as [Hw Hn].
  by rewrite <- elem_of_dom.
Qed.

Lemma attempts_bounded_witness :
  match GetJob job1 ex_running with
  | Ok (job, it :: _) => wi_Attempt it <= job_MaxAttempts job
  | _ => False
  end.
Proof.
  destruct (GetJob job1 ex_running) as [[job [|it items]]|e] eqn:Hg; [vm_compute in Hg; discriminate| |vm_compute in Hg; discriminate].
  apply (attempts_bounded ex_running job1 job (it :: items) it (trace_reachable _) Hg). left.
Defined.

(** C4: terminal job statuses are truthful.  A [COMPLETED] job has only
    successful items; a [COMPLETED_WITH_ERRORS] job has only successful and
    failed ones, and at least one failed. *)
Theorem finished_truthful m id job items :
  reachable m -> accepted m id -> GetJob id m = Ok (job, items) ->
  (job_Status job = JobCompleted -> forall it, it ∈ items -> wi_State it = WorkItemSuccess) /\
  (job_Status job = JobCompletedWithErrors ->
     (forall it, it ∈ items -> wi_State it = WorkItemSuccess \/ wi_State it = WorkItemFailed) /\
     exists it, it ∈ items /\ wi_State it = WorkItemFailed).
Proof.
  intros Hr Ha Hg. apply reachable_wf in Hr.
  assert (forall it, it ∈ items -> job_Status job = JobCompleted \/ job_Status job = JobCompletedWithErrors ->
    wi_State it = WorkItemSuccess \/ wi_State it = WorkItemFailed) as Hsf.
  { intros it Hin Hst. destruct (GetJob_elem m id job items it Hr Hg Hin)
      as (order & k & Ho & Hk & Hj & Hit & Hok & Hiok).
    destruct (jo_done _ _ _ _ _ Hok Hst) as [Hq Hi].
    rewrite (jo_queued _ _ _ _ _ Hok) in Hq. rewrite (jo_running _ _ _ _ _ Hok) in Hi.
    pose proof (count_zero _ _ _ _ _ Hq Hk Hit). pose proof (count_zero _ _ _ _ _ Hi Hk Hit).
    pose proof (io_not_expired _ _ _ Hiok). pose proof (io_cancelled _ _ _ Hiok) as Hcan.
    destruct (wi_State it); try done; auto. specialize (Hcan eq_refl). destruct Hst; congruence. }
  destruct (GetJob_spec m id job items Hr Ha Hg) as (order & Ho & Hj & Hok & Hitems). split.
  - intros Hst it Hin. destruct (Hsf it Hin (or_introl Hst)) as [?|Hf]; [done|].
    destruct (GetJob_elem m id job items it Hr Hg Hin) as (order' & k & Ho' & Hk & _ & Hit & Hok' & _).
    pose proof (jo_errors _ _ _ _ _ Hok' Hst) as Hz. rewrite (jo_failed _ _ _ _ _ Hok') in Hz.
    pose proof (count_zero _ _ _ _ _ Hz Hk Hit) as Hc. by rewrite Hf in Hc.
  - intros Hst. split; [eauto|]. pose proof (jo_errors' _ _ _ _ _ Hok Hst) as Hpos.
    rewrite (jo_failed _ _ _ _ _ Hok), count_tally, <- Hitems in Hpos by (by eapply GetJob_present).
    unfold tally in Hpos.
    destruct (filter (fun it => isFailed (wi_State it) = true) items) as [|it l] eqn:Hfl; [simpl in Hpos; lia|].
    assert (it ∈ filter (fun it => isFailed (wi_State it) = true) items) as [Hf Hin]%list_elem_of_filter
      by (rewrite Hfl; left).
    exists it. split; [done|]. by destruct (wi_State it).
Qed.

(** A job that ran to the end: one item succeeds, one fails on every worker. *)
Definition ex_finished : Manager :=
  trace [EvRegister "w1" (Some 2); EvSubmit 10 [input "a"; input "b"] 3;
         EvStart 11 0; EvStart 11 1; EvFinish 12 0 (ExecErr "boom"); EvFinish 13 0 (ExecOk "out")].

Lemma finished_truthful_witness :
  match GetJob job1 ex_finished with
  | Ok (job, items) => job_Status job = JobCompletedWithErrors /\
                       exists it, it ∈ items /\ wi_State it = WorkItemFailed
  | Err _ => False
  end.
Proof.
  destruct (GetJob job1 ex_finished) as [[job items]|e] eqn:Hg; [|vm_compute in Hg; discriminate].
  assert (job_Status job = JobCompletedWithErrors) as Hst
    by (vm_compute in Hg; injection Hg as <- <-; reflexivity).
  split; [exact Hst|].
  apply (finished_truthful ex_finished job1 job items (trace_reachable _)); [|exact Hg|exact Hst].
  eexists. vm_compute. reflexivity.
Defined.

(** C5: results are final.  Once an item is [SUCCESS], [FAILED] or [CANCELLED],
    no later operation, late result, lease expiry or retry changes anything
    about it, and a finished job's record is frozen too. *)
Theorem settled_final m m' :
  reachable m -> rtc step m m' ->
  (forall k it, m_items m !! k = Some it -> itemSettled (wi_State it) = true ->
     m_items m' !! k = Some it) /\
  (forall id job, accepted m id -> m_jobs m !! id = Some job ->
     jobFinished (job_Status job) = true -> m_jobs m' !! id = Some job).
Proof.
  intros Hr Hs. destruct (steps_keep m m' Hr Hs) as [Hi Hj _ _]. split; [done|].
  intros id job [order Ho] Hl Hf. by apply Hj with order.
Qed.

Lemma settled_final_witness :
  match m_jobs ex_finished !! job1 with
  | Some job => jobFinished (job_Status job) = true /\
                m_jobs (CancelJob 99 job1 ex_finished).1 !! job1 = Some job
  | None => False
  end.
Proof.
  destruct (m_jobs ex_finished !! job1) as [job|] eqn:Hj; [|vm_compute in Hj; discriminate].
  assert (jobFinished (job_Status job) = true) as Hf
    by (vm_compute in Hj; injection Hj as <-; reflexivity).
  split; [exact Hf|].
  apply (settled_final ex_finished (CancelJob 99 job1 ex_finished).1 (trace_reachable _)
           (rtc_once _ _ (step_cancel 99 job1 ex_finished))); [|exact Hj|exact Hf].
  eexists. vm_compute. reflexivity.
Defined.





(** C7: slots are respected while leases are kept.  As long as no lease expires
    and no worker id is registered twice, the goroutines running on a worker
    are exactly its taken slots and never more than the slots it registered. *)
Theorem slots_respected m0 m w ws :
  initial m0 -> rtc quiet m0 m -> m_workers m !! w = Some ws ->
  runs_on w (m_runs m) = ws_active ws /\ runs_on w (m_runs m) <= ws_slots ws.
Proof.
  intros H0 Hs Hw. destruct (quiet_reachable_exact m0 m H0 Hs) as [Hwf He].
  specialize (He w). rewrite Hw in He. simpl in He. pose proof (wf_slots m Hwf _ _ Hw) as [_ ?]. lia.
Qed.

Lemma slots_respected_witness :
  exists ws, m_workers ex_waiting !! "w1"%string = Some ws /\ ws_slots ws = 1 /\ length (m_runs ex_waiting) = 1%nat /\
    runs_on "w1" (m_runs ex_waiting) = ws_active ws /\ runs_on "w1" (m_runs ex_waiting) <= ws_slots ws.
Proof.
  assert (exists ws, m_workers ex_waiting !! "w1"%string = Some ws /\ ws_slots ws = 1) as (ws & Hw & Hs).
  { exists (mkworkerSlot 1 false 1). split; [vm_compute; reflexivity|reflexivity]. }
  exists ws. split; [exact Hw|]. split; [exact Hs|]. split; [vm_compute; reflexivity|].
  apply (slots_respected manager0 ex_waiting "w1" ws); [by exists 0, 0, 0| |exact Hw].
  set (m1 := (RegisterWorker (R := by_key) (env_at 1) "w1" (Some 1) manager0).1).
  apply (rtc_l _ _ m1); [apply quiet_register; reflexivity|].
  exact (rtc_once _ _ (quiet_submit by_key (env_at 10) 10 10 "op" "pool" [input "a"; input "b"] 2 m1)).
Defined.

(** Goroutines on [w] whose lease is the current one of their item. *)
Definition live_runs_on (w : string) (m : Manager) : Z :=
  runs_on w (filter (fun g => run_token g = default 0 (m_leaseTok m !! run_key g)) (m_runs m)).

(** One worker with one slot, three items; the lease of the first expires and
    its result then arrives late. *)
Definition ex_late : Manager :=
  trace [EvRegister "w1" (Some 1); EvSubmit 10 [input "a"; input "b"; input "c"] 8;
         EvStart 11 0; EvReap (10 + 30 * second); EvFinish (11 + 30 * second) 1 (ExecOk "late")].

(** A lease expiry frees its slot twice, in the reaper and again when the
    late result arrives.  There is a reachable state in which a worker
    registered with one slot executes two current leases at once. *)
Theorem late_result_oversubscribes :
  exists m w ws, reachable m /\ m_workers m !! w = Some ws /\ ws_slots ws = 1 /\ live_runs_on w m = 2.
Proof.
  exists ex_late, "w1"%string, (mkworkerSlot 1 false 1).
  split; [apply trace_reachable|]. split; [vm_compute; reflexivity|]. split; [reflexivity|].
  vm_compute. reflexivity.
Qed.

(** The identity [SubmitJob] gives to the [i]-th input. *)
Definition input_ids (i : nat) (input : ItemInput) : string * string :=
  (if ii_ItemID input ==? ""%string then ("item-" +:+ pretty i)%string else ii_ItemID input,
   if ii_OperationVersion input ==? ""%string then "v1"%string else ii_OperationVersion input).

Definition item_ids (it : WorkItem) : string * string := (wi_ItemID it, wi_OperationVersion it).

Fixpoint identities (i : nat) (inputs : list ItemInput) : list (string * string) :=
  match inputs with
  | [] => []
  | input :: rest => input_ids i input :: identities (S i) rest
  end.

Definition key_of (id : string) (p : string * string) : itemIdentity := itemKey id p.1 p.2.

#[local] Instance key_of_inj id : Inj (=) (=) (key_of id).
Proof. intros [a b] [c d]. unfold key_of, itemKey. simpl. by intros [= -> ->]. Qed.

Lemma submitItems_accepts now id i inputs items order :
  NoDup (identities i inputs) ->
  (forall p, p ∈ identities i inputs -> items !! key_of id p = None) ->
  exists items',
    submitItems now id i inputs items order
    = (items', Some (order ++ map (key_of id) (identities i inputs))) /\
    (forall k, k ∉ map (key_of id) (identities i inputs) -> items' !! k = items !! k) /\
    Forall2 (fun p input => wi_Payload <$> items' !! key_of id p = Some (ii_Payload input))
      (identities i inputs) inputs.
Proof.
  revert i items order. induction inputs as [|x inputs IH]; intros i items order Hnd Hf; simpl in *.
  { exists items. rewrite app_nil_r. by repeat split. }
  apply NoDup_cons in Hnd as [Hn Hnd].
  change (itemKey id (if ii_ItemID x ==? ""%string then _ else _)
                     (if ii_OperationVersion x ==? ""%string then _ else _))
    with (key_of id (input_ids i x)).
  rewrite (Hf (input_ids i x)) by left.
  match goal with |- context [<[key_of id (input_ids i x) := ?it]> items] => set (it0 := it) end.
  destruct (IH (S i) (<[key_of id (input_ids i x) := it0]> items) (order ++ [key_of id (input_ids i x)]) Hnd)
    as (items' & -> & Hother & Hall).
  { intros p Hp. rewrite lookup_insert_ne; [apply Hf; by right|]. intros Heq%(inj (key_of id)). by subst p. }
  exists items'. rewrite <- app_assoc. split; [done|]. split.
  - intros k [Hk1 Hk2]%not_elem_of_cons. rewrite Hother by done. by apply lookup_insert_ne.
  - constructor; [|done]. rewrite Hother; [by rewrite lookup_insert_eq|].
    intros (p & Hp%(inj (key_of id)) & Hin)%list_elem_of_fmap. by subst.
Qed.

Lemma submitItems_rejects now id i inputs items order items' order' :
  submitItems now id i inputs items order = (items', Some order') ->
  NoDup (identities i inputs) /\ forall p, p ∈ identities i inputs -> items !! key_of id p = None.
Proof.
  revert i items order. induction inputs as [|x inputs IH]; intros i items order H; simpl in *.
  { split; [constructor|]. intros p Hp. by apply elem_of_nil in Hp. }
  change (itemKey id (if ii_ItemID x ==? ""%string then _ else _)
                     (if ii_OperationVersion x ==? ""%string then _ else _))
    with (key_of id (input_ids i x)) in H.
  destruct (items !! key_of id (input_ids i x)) eqn:Hk; [done|].
  destruct (IH _ _ _ H) as [Hnd Hf].
  assert (forall p, p ∈ identities (S i) inputs -> p <> input_ids i x /\ items !! key_of id p = None) as Hf'.
  { intros p Hp. specialize (Hf p Hp). rewrite lookup_insert_None in Hf.
    destruct Hf as [? Hne]. split; [|done]. intros ->. done. }
  split.
  - constructor; [|done]. intros Hin. by destruct (Hf' _ Hin).
  - intros p [->|Hp]%elem_of_cons; [done|]. by apply Hf'.
Qed.

(** What [GetJob] shows of a job just before and just after a dispatch pass. *)
Lemma GetJob_dispatch {R : GoRange} env m id job order :
  wf m -> m_itemOrder m !! id = Some order -> m_jobs m !! id = Some job -> job_ID job = id ->
  exists job' items,
    GetJob id (tryDispatchLocked env m) = Ok (job', items) /\ job_ID job' = id /\
    m_jobs (tryDispatchLocked env m) !! id = Some job' /\
    m_itemOrder (tryDispatchLocked env m) !! id = Some order /\
    map item_ids items = map (fun k => (id_itemID k, id_operationVersion k)) order /\
    map Some (map wi_Payload items) = map (fun k => wi_Payload <$> m_items m !! k) order.
Proof.
  intros Hwf Ho Hj Hid.
  pose proof (micros_wf _ _ Hwf (tryDispatchLocked_micro env m Hwf)) as Hwf'.
  destruct (foldl_dispatchJob_le env (m_jobOrder m) m) as [Eo _ _ _ _ Ep Ei].
  change (foldl (dispatchJob env) m (m_jobOrder m)) with (tryDispatchLocked env m) in *.
  set (m' := tryDispatchLocked env m) in *. clearbody m'.
  specialize (Ei id). rewrite Hj in Ei. destruct (m_jobs m' !! id) as [job'|] eqn:Hj'; simplify_eq/=.
  unfold GetJob. rewrite Hj', Eo, Ho. simpl. eexists _, _. split_and!; try done.
  - assert (forall k, k ∈ order -> is_Some (m_items m' !! k)) as Hp.
    { rewrite <- Eo in Ho. destruct (wf_orders m' Hwf' _ _ Ho) as (j & _ & Hok). by eapply GetJob_present. }
    clear -Hp Hwf'. induction order as [|k order IH]; csimpl; [done|].
    destruct (Hp k) as [it Hit]; [left|]. rewrite Hit. csimpl. rewrite IH by set_solver.
    destruct (wf_items m' Hwf' k it Hit) as [_ <-]. done.
  - assert (forall k, k ∈ order -> is_Some (m_items m !! k)) as Hp.
    { destruct (wf_orders m Hwf _ _ Ho) as (j & _ & Hok). by eapply GetJob_present. }
    clear -Hp Ep. induction order as [|k order IH]; csimpl; [done|].
    destruct (Hp k) as [it Hit]; [left|]. rewrite <- (Ep k). specialize (Ep k). rewrite Hit in Ep.
    destruct (m_items m' !! k) as [it'|]; simplify_eq/=. csimpl. by rewrite IH by set_solver.
Qed.

(** C8: submitting work items with distinct identities succeeds under a new job
    id, and [GetJob] then shows exactly the submitted items, in order, with the
    identities and payloads given. *)
Theorem SubmitJob_roundtrip {R : GoRange} env now now_id op pool inputs maxAttempts m :
  reachable m -> inputs <> [] -> NoDup (identities 0 inputs) ->
  exists m' job items,
    SubmitJob env now now_id op pool inputs maxAttempts m = (m', Ok job) /\
    m_jobs m !! job_ID job = None /\ accepted m' (job_ID job) /\
    GetJob (job_ID job) m' = Ok (job, items) /\
    map item_ids items = identities 0 inputs /\
    map wi_Payload items = map ii_Payload inputs.
Proof.
  intros Hr Hne Hnd. apply reachable_wf in Hr.
  destruct (wf_fresh_id m now_id Hr) as (Hfj & Hfo & Hfi). cbv zeta in *.
  pose proof (enqueueJob_wf now now_id op pool inputs maxAttempts m Hr) as Hwf1.
  unfold SubmitJob. rewrite bool_decide_eq_false_2 by done. unfold enqueueJob in *.
  set (id := jobID_of now_id (m_idSeq m + 1)) in *. cbv zeta in *.
  destruct (submitItems_accepts now id 0 inputs (m_items m) [] Hnd) as (items' & Hsub & _ & Hall).
  { intros p _. by apply Hfi. }
  change (m_items (_ <| m_jobOrder := _ |>)) with (m_items m) in *. rewrite Hsub in *. cbn [app fst] in *.
  set (m1 := _ <| m_itemOrder := _ |>) in *. set (job := mkJob _ _ _ _ _ _ _ _ _ _ _) in *.
  destruct (GetJob_dispatch env m1 id job (map (key_of id) (identities 0 inputs)) Hwf1)
    as (job' & items & Hg & Hid & Hj' & Ho' & Hids & Hpay); [by apply lookup_insert_eq..|done|].
  exists (tryDispatchLocked env m1), job', items. change (job_ID job) with id.
  rewrite Hj'. cbn [default from_option]. rewrite Hid. split_and!; try done.
  - by exists (map (key_of id) (identities 0 inputs)).
  - rewrite Hids, map_map. clear. induction (identities 0 inputs) as [|[a b] l IH]; simpl; [done|].
    f_equal. exact IH.
  - apply (inj (map Some)). rewrite Hpay. clear -Hall. simpl.
    induction Hall as [|p x ps xs Hp _ IH]; simpl; [done|]. by rewrite Hp, IH.
Qed.

Lemma SubmitJob_roundtrip_witness :
  exists m' job items,
    @SubmitJob by_key (env_at 10) 10 10 "op" "pool" [input "a"; input ""] 2 ex_waiting = (m', Ok job) /\
    m_jobs ex_waiting !! job_ID job = None /\ accepted m' (job_ID job) /\
    GetJob (job_ID job) m' = Ok (job, items) /\
    map item_ids items = identities 0 [input "a"; input ""] /\
    map wi_Payload items = map ii_Payload [input "a"; input ""].
Proof.
  apply (SubmitJob_roundtrip (R := by_key)); [apply trace_reachable|discriminate|].
  refine (bool_decide_unpack (NoDup (identities 0 [input "a"; input ""])) _). vm_compute. exact I.
Defined.

(** A submission that repeats an item identity is refused with an error but
    not undone: the job stays registered, listed as [RUNNING] with every item
    counted as queued, and has no items that dispatch could ever run. *)
Theorem SubmitJob_duplicate_leaves_job {R : GoRange} env now now_id op pool inputs maxAttempts m :
  reachable m -> ~ NoDup (identities 0 inputs) ->
  exists m' job e,
    SubmitJob env now now_id op pool inputs maxAttempts m = (m', Err e) /\
    ListJobs m' = ListJobs m ++ [job] /\ GetJob (job_ID job) m' = Ok (job, []) /\
    job_Status job = JobRunning /\
    jp_Queued (job_Progress job) = Z.of_nat (length inputs) /\ ~ accepted m' (job_ID job).
Proof.
  intros Hr Hnd. apply reachable_wf in Hr.
  destruct (wf_fresh_id m now_id Hr) as (Hfj & Hfo & _). cbv zeta in *.
  unfold SubmitJob. rewrite bool_decide_eq_false_2 by (intros ->; apply Hnd; constructor).
  unfold enqueueJob. set (id := jobID_of now_id (m_idSeq m + 1)) in *. cbv zeta.
  set (job := mkJob _ _ _ _ _ _ _ _ _ _ _).
  destruct (submitItems now id 0 inputs _ []) as [items' [order|]] eqn:Hsub.
  { destruct (submitItems_rejects _ _ _ _ _ _ _ _ Hsub). done. }
  eexists _, job, _. split; [reflexivity|]. unfold ListJobs, GetJob, accepted. simpl.
  rewrite lookup_insert_eq, Hfo. split_and!; try done.
  rewrite omap_app. simpl. rewrite lookup_insert_eq. f_equal.
  apply list_omap_ext, Forall_Forall2_diag, Forall_forall. intros i Hi.
  rewrite lookup_insert_ne; [done|]. intros <-. destruct (wf_jobOrder m Hr _ Hi). congruence.
Qed.

Lemma SubmitJob_duplicate_leaves_job_witness :
  exists m' job e,
    @SubmitJob by_key (env_at 10) 10 10 "op" "pool" [input "a"; input "a"] 2 ex_waiting = (m', Err e) /\
    ListJobs m' = ListJobs ex_waiting ++ [job] /\ GetJob (job_ID job) m' = Ok (job, []) /\
    job_Status job = JobRunning /\
    jp_Queued (job_Progress job) = Z.of_nat (length [input "a"; input "a"]) /\ ~ accepted m' (job_ID job).
Proof.
  apply (SubmitJob_duplicate_leaves_job (R := by_key)); [apply trace_reachable|].
  refine (bool_decide_unpack (~ NoDup (identities 0 [input "a"; input "a"])) _). vm_compute. exact I.
Defined.

(** Two workers; the job is cancelled while an item is in flight, and then the
    lease of that item expires. *)
Definition ex_cancelled : Manager :=
  trace [EvRegister "w1" (Some 1); EvRegister "w2" (Some 1); EvSubmit 10 [input "a"] 8;
         EvCancel 11 job1; EvReap (10 + 30 * second)].

(** Cancellation does not drop an in-flight item whose lease expires.
    There is a reachable state in which a cancelled job has an item back in
    [QUEUED], counted as queued and retried, that is never dispatched again. *)
Theorem cancelled_job_requeues :
  exists m job it, reachable m /\ GetJob job1 m = Ok (job, [it]) /\
    job_Status job = JobCancelled /\ wi_State it = WorkItemQueued /\
    jp_Queued (job_Progress job) = 1 /\ jp_Retried (job_Progress job) = 1.
Proof.
  destruct (GetJob job1 ex_cancelled) as [[job [|it [|]]]|e] eqn:Hg; vm_compute in Hg; try discriminate.
  exists ex_cancelled, job, it. split; [apply trace_reachable|].
  injection Hg as <- <-. split; [vm_compute; reflexivity|]. done.
Qed.
