(* ===== verification/Store.v ===== *)
(** * The in-memory store: rows and state ([internal/store])

    The row types [store.go] and [llm_displacement.go] declare, field for
    field, and the [MemoryStore] state of [memory.go].  Each handler of the
    store runs under the store's lock, so it is modelled as one function from
    the state to the new state and the returned values; the files that follow
    each model one group of tables.  The deep copies the Go code makes on the
    way in and out ([clone...]) keep callers from aliasing stored rows: with
    immutable values they are the identity. *)

From S2P Require Import Prelude Domain DomainWorkload DomainNode.

(** ** Rows declared by the store *)

Record LLMCheckpointOperation := mkLLMCheckpointOperation {
  ckpt_ID : string;
  ckpt_IdempotencyKey : string;
  ckpt_OwnerID : string;
  ckpt_WorkloadID : string;
  ckpt_NodeID : string;
  ckpt_AcceleratorID : string;
  ckpt_TargetID : string;
  ckpt_Model : string;
  ckpt_SlotID : Z;
  ckpt_Generation : Z;
  ckpt_Fence : Z;
  ckpt_RuntimeIdentity : string;
  ckpt_ModelFingerprint : string;
  ckpt_ProfileFingerprint : string;
  ckpt_ContextFingerprint : string;
  ckpt_ConversationID : string;
  ckpt_ContinuationConversationID : string;
  ckpt_CompensationOf : string;
  ckpt_WorkloadRevision : Z;
  ckpt_RecoveryWorkloadRevision : Z;
  ckpt_RecoveryState : string;
  ckpt_RecoveryHandle : option ExecutionHandle;
  ckpt_RecoveryFence : Z;
  ckpt_RecoveryAcceleratorID : string;
  ckpt_CleanupOperationID : string;
  ckpt_CleanupSlotID : Z;
  ckpt_CleanupConversationID : string;
  ckpt_CleanupContinuationConversationID : string;
  ckpt_CleanupState : string;
  ckpt_CleanupHandle : option ExecutionHandle;
  ckpt_CleanupTargetID : string;
  ckpt_CleanupNodeID : string;
  ckpt_CleanupAcceleratorID : string;
  ckpt_CleanupGeneration : Z;
  ckpt_CleanupFence : Z;
  ckpt_CleanupTerminalDisposition : string;
  ckpt_CleanupMessage : string;
  ckpt_SnapshotName : string;
  ckpt_SnapshotDigest : string;
  ckpt_Phase : string;
  ckpt_PhaseOrdinal : Z;
  ckpt_PartialOutputHash : string;
  ckpt_PartialOutputOffset : Z;
  ckpt_PartialOutputContent : string;
  ckpt_PartialOutputUnsafeToolCall : bool;
  ckpt_SavedTokens : Z;
  ckpt_ReusedTokens : Z;
  ckpt_QuotaBytes : Z;
  ckpt_SnapshotBytes : Z;
  ckpt_CreatedAt : Time;
  ckpt_UpdatedAt : Time;
  ckpt_Error : string;
  ckpt_Revision : Z;
}.
#[export] Instance eta_LLMCheckpointOperation : Eta LLMCheckpointOperation := fun r => mkLLMCheckpointOperation
  (ckpt_ID r) (ckpt_IdempotencyKey r) (ckpt_OwnerID r) (ckpt_WorkloadID r) (ckpt_NodeID r)
  (ckpt_AcceleratorID r) (ckpt_TargetID r) (ckpt_Model r) (ckpt_SlotID r) (ckpt_Generation r)
  (ckpt_Fence r) (ckpt_RuntimeIdentity r) (ckpt_ModelFingerprint r) (ckpt_ProfileFingerprint r)
  (ckpt_ContextFingerprint r) (ckpt_ConversationID r) (ckpt_ContinuationConversationID r)
  (ckpt_CompensationOf r) (ckpt_WorkloadRevision r) (ckpt_RecoveryWorkloadRevision r)
  (ckpt_RecoveryState r) (ckpt_RecoveryHandle r) (ckpt_RecoveryFence r)
  (ckpt_RecoveryAcceleratorID r) (ckpt_CleanupOperationID r) (ckpt_CleanupSlotID r)
  (ckpt_CleanupConversationID r) (ckpt_CleanupContinuationConversationID r)
  (ckpt_CleanupState r) (ckpt_CleanupHandle r) (ckpt_CleanupTargetID r) (ckpt_CleanupNodeID r)
  (ckpt_CleanupAcceleratorID r) (ckpt_CleanupGeneration r) (ckpt_CleanupFence r)
  (ckpt_CleanupTerminalDisposition r) (ckpt_CleanupMessage r) (ckpt_SnapshotName r)
  (ckpt_SnapshotDigest r) (ckpt_Phase r) (ckpt_PhaseOrdinal r) (ckpt_PartialOutputHash r)
  (ckpt_PartialOutputOffset r) (ckpt_PartialOutputContent r)
  (ckpt_PartialOutputUnsafeToolCall r) (ckpt_SavedTokens r) (ckpt_ReusedTokens r)
  (ckpt_QuotaBytes r) (ckpt_SnapshotBytes r) (ckpt_CreatedAt r) (ckpt_UpdatedAt r)
  (ckpt_Error r) (ckpt_Revision r).

Record ModelCapacity := mkModelCapacity {
  mc_ID : string;
  mc_TargetID : string;
  mc_AcceleratorID : string;
  mc_Model : string;
  mc_ProfileID : string;
  mc_ModelFingerprint : string;
  mc_RuntimeIdentity : string;
  mc_CapabilityVersion : string;
  mc_CapabilityRevision : string;
  mc_ModelBytes : Z;
  mc_ProfileBytes : Z;
  mc_VRAMReserveBytes : Z;
  mc_RuntimeHardCapBytes : Z;
  mc_RAMBytes : Z;
  mc_RAMReserveBytes : Z;
  mc_VRAMTotalBytes : Z;
  mc_RAMTotalBytes : Z;
  mc_UnifiedMemory : bool;
  mc_CapacitySource : string;
  mc_Verified : bool;
  mc_Revision : Z;
  mc_UpdatedAt : Time;
  mc_ObservedAt : Time;
}.
#[export] Instance eta_ModelCapacity : Eta ModelCapacity := fun r => mkModelCapacity (mc_ID r)
  (mc_TargetID r) (mc_AcceleratorID r) (mc_Model r) (mc_ProfileID r) (mc_ModelFingerprint r)
  (mc_RuntimeIdentity r) (mc_CapabilityVersion r) (mc_CapabilityRevision r) (mc_ModelBytes r)
  (mc_ProfileBytes r) (mc_VRAMReserveBytes r) (mc_RuntimeHardCapBytes r) (mc_RAMBytes r)
  (mc_RAMReserveBytes r) (mc_VRAMTotalBytes r) (mc_RAMTotalBytes r) (mc_UnifiedMemory r)
  (mc_CapacitySource r) (mc_Verified r) (mc_Revision r) (mc_UpdatedAt r) (mc_ObservedAt r).

Record LLMDisplacementCommandIntent := mkLLMDisplacementCommandIntent {
  dci_Step : string;
  dci_CommandID : string;
  dci_Digest : string;
  dci_Signature : string;
}.
#[export] Instance eta_LLMDisplacementCommandIntent : Eta LLMDisplacementCommandIntent := fun r => mkLLMDisplacementCommandIntent
  (dci_Step r) (dci_CommandID r) (dci_Digest r) (dci_Signature r).

Record LLMDisplacementModelBinding := mkLLMDisplacementModelBinding {
  dmb_TargetID : string;
  dmb_NodeID : string;
  dmb_AcceleratorID : string;
  dmb_CatalogModel : string;
  dmb_CatalogAliases : list string;
  dmb_ActualAlias : string;
  dmb_LocalPlanID : string;
  dmb_LocalPlanHash : string;
  dmb_ControllerPlanID : string;
  dmb_ControllerPlanHash : string;
  dmb_ArtifactID : string;
  dmb_ArtifactDigest : string;
  dmb_RuntimeIdentity : string;
  dmb_ProfileIdentity : string;
  dmb_ContextIdentity : string;
  dmb_CheckpointID : string;
  dmb_CheckpointDigest : string;
  dmb_ProofBinding : string;
}.
#[export] Instance eta_LLMDisplacementModelBinding : Eta LLMDisplacementModelBinding := fun r => mkLLMDisplacementModelBinding
  (dmb_TargetID r) (dmb_NodeID r) (dmb_AcceleratorID r) (dmb_CatalogModel r)
  (dmb_CatalogAliases r) (dmb_ActualAlias r) (dmb_LocalPlanID r) (dmb_LocalPlanHash r)
  (dmb_ControllerPlanID r) (dmb_ControllerPlanHash r) (dmb_ArtifactID r) (dmb_ArtifactDigest r)
  (dmb_RuntimeIdentity r) (dmb_ProfileIdentity r) (dmb_ContextIdentity r) (dmb_CheckpointID r)
  (dmb_CheckpointDigest r) (dmb_ProofBinding r).

Record LLMDisplacementObservedResult := mkLLMDisplacementObservedResult {
  dor_Step : string;
  dor_CommandID : string;
  dor_ResultID : string;
  dor_Digest : string;
  dor_ProofBinding : string;
  dor_KeyID : string;
  dor_Signature : string;
  dor_EnvelopeDigest : string;
}.
#[export] Instance eta_LLMDisplacementObservedResult : Eta LLMDisplacementObservedResult := fun r => mkLLMDisplacementObservedResult
  (dor_Step r) (dor_CommandID r) (dor_ResultID r) (dor_Digest r) (dor_ProofBinding r)
  (dor_KeyID r) (dor_Signature r) (dor_EnvelopeDigest r).

Record LLMDisplacementOperation := mkLLMDisplacementOperation {
  disp_ID : string;
  disp_IdempotencyKey : string;
  disp_OwnerID : string;
  disp_VictimWorkloadID : string;
  disp_VictimOwnerID : string;
  disp_VictimWorkloadRevision : Z;
  disp_UrgentWorkloadID : string;
  disp_UrgentOwnerID : string;
  disp_UrgentWorkloadRevision : Z;
  disp_AcceleratorID : string;
  disp_NodeID : string;
  disp_OriginalLease : option AcceleratorLease;
  disp_Fence : Z;
  disp_VictimBinding : LLMDisplacementModelBinding;
  disp_UrgentBinding : LLMDisplacementModelBinding;
  disp_ProofBinding : string;
  disp_Phase : string;
  disp_Revision : Z;
  disp_CommandIntents : list LLMDisplacementCommandIntent;
  disp_ObservedResults : list LLMDisplacementObservedResult;
  disp_SnapshotIdentity : string;
  disp_SafeBoundaryObserved : bool;
  disp_VictimStopObserved : bool;
  disp_SnapshotObserved : bool;
  disp_UrgentLoadObserved : bool;
  disp_UrgentStopObserved : bool;
  disp_VictimReloadObserved : bool;
  disp_KVRestoreObserved : bool;
  disp_LeaseSettled : bool;
  disp_SnapshotCustodySettled : bool;
  disp_ObservedProof : string;
  disp_LastError : string;
  disp_CreatedAt : Time;
  disp_UpdatedAt : Time;
}.
#[export] Instance eta_LLMDisplacementOperation : Eta LLMDisplacementOperation := fun r => mkLLMDisplacementOperation
  (disp_ID r) (disp_IdempotencyKey r) (disp_OwnerID r) (disp_VictimWorkloadID r)
  (disp_VictimOwnerID r) (disp_VictimWorkloadRevision r) (disp_UrgentWorkloadID r)
  (disp_UrgentOwnerID r) (disp_UrgentWorkloadRevision r) (disp_AcceleratorID r) (disp_NodeID r)
  (disp_OriginalLease r) (disp_Fence r) (disp_VictimBinding r) (disp_UrgentBinding r)
  (disp_ProofBinding r) (disp_Phase r) (disp_Revision r) (disp_CommandIntents r)
  (disp_ObservedResults r) (disp_SnapshotIdentity r) (disp_SafeBoundaryObserved r)
  (disp_VictimStopObserved r) (disp_SnapshotObserved r) (disp_UrgentLoadObserved r)
  (disp_UrgentStopObserved r) (disp_VictimReloadObserved r) (disp_KVRestoreObserved r)
  (disp_LeaseSettled r) (disp_SnapshotCustodySettled r) (disp_ObservedProof r)
  (disp_LastError r) (disp_CreatedAt r) (disp_UpdatedAt r).

(** ** The store's state *)

Record MemoryStore := mkMemoryStore {
  nodes : gmap string Node;
  engines : gmap string EngineInstance;
  profiles : gmap string (list PerformanceProfile);
  jobs : gmap string Job;
  workItems : gmap string (gmap string (gmap string WorkItem));
  workloads : gmap string Workload;
  idempotency : gmap string string;
  leases : gmap string AcceleratorLease;
  leaseFences : gmap string Z;
  leaseCleanupIntents : gmap string AcceleratorLeaseCleanupIntent;
  promptMappings : gmap string PromptMapping;
  auditEvents : list AuditEvent;
  incidents : gmap string Incident;
  residencies : gmap string ModelResidency;
  transitions : gmap string ResidencyTransition;
  transitionKeys : gmap string string;
  notifications : gmap string NotificationDelivery;
  notificationKeys : gmap string string;
  nodeCommands : gmap string NodeCommand;
  nodeCommandKeys : gmap string string;
  budgets : gmap string BudgetReservation;
  transformApprovals : gmap string TransformationApproval;
  learningSamples : list SchedulerLearningSample;
  interferenceProfiles : gmap string InterferenceProfile;
  transitionPlans : gmap string TransitionPlan;
  targetPolicyOverrides : gmap string TargetPolicyOverride;
  browserSessions : gmap string BrowserSession;
  nodeEnrollments : gmap string NodeEnrollment;
  runtimeProfiles : gmap string RuntimeProfile;
  workingSets : gmap string WorkingSet;
  modelCapacities : gmap string ModelCapacity;
  llmCheckpointOps : gmap string LLMCheckpointOperation;
  llmCheckpointKeys : gmap string string;
  llmDisplacementOps : gmap string LLMDisplacementOperation;
  llmDisplacementKeys : gmap string string;
}.
#[export] Instance eta_MemoryStore : Eta MemoryStore := fun r => mkMemoryStore (nodes r)
  (engines r) (profiles r) (jobs r) (workItems r) (workloads r) (idempotency r) (leases r)
  (leaseFences r) (leaseCleanupIntents r) (promptMappings r) (auditEvents r) (incidents r)
  (residencies r) (transitions r) (transitionKeys r) (notifications r) (notificationKeys r)
  (nodeCommands r) (nodeCommandKeys r) (budgets r) (transformApprovals r) (learningSamples r)
  (interferenceProfiles r) (transitionPlans r) (targetPolicyOverrides r) (browserSessions r)
  (nodeEnrollments r) (runtimeProfiles r) (workingSets r) (modelCapacities r)
  (llmCheckpointOps r) (llmCheckpointKeys r) (llmDisplacementOps r) (llmDisplacementKeys r).

Definition NewMemoryStore : MemoryStore := mkMemoryStore ∅ ∅ ∅ ∅ ∅ ∅ ∅ ∅ ∅ ∅ ∅ [] ∅ ∅ ∅ ∅ ∅ ∅ ∅
  ∅ ∅ ∅ [] ∅ ∅ ∅ ∅ ∅ ∅ ∅ ∅ ∅ ∅ ∅ ∅.

(** ** Shapes shared by the handlers *)

(** [m[k]] of a map of strings: the empty string for an absent key. *)
Definition lookup_string (m : gmap string string) (k : string) : string := default ""%string (m !! k).

(** [a + "\x00" + b], the composite keys of the tables. *)
Definition key2 (a b : string) : string := join NUL a b.

(** The rows of a table that satisfy a filter, in [range] order. *)
Definition range_rows {R : GoRange} {A} (p : A -> bool) (m : gmap string A) : list A :=
  filter (fun x => p x = true) (map snd (go_range m)).

(** [if len(out) > limit { out = out[:limit] }]. *)
Definition truncate_list {A} (limit : Z) (l : list A) : list A :=
  if limit <? Z.of_nat (length l) then firstn (Z.to_nat limit) l else l.

Lemma range_rows_elem {R : GoRange} {A} (p : A -> bool) (m : gmap string A) x :
  x ∈ range_rows p m <-> p x = true /\ exists k, m !! k = Some x.
Proof.
  unfold range_rows. rewrite list_elem_of_filter, list_elem_of_fmap. split.
  - intros [Hp ([k y] & -> & Hin)]. split; [done|]. exists k. by apply go_range_elem.
  - intros [Hp [k Hk]]. split; [done|]. exists (k, x). split; [done|]. by apply go_range_elem.
Qed.

Lemma lookup_string_absent (keys : gmap string string) key :
  (forall k, keys !! key = Some k -> k <> ""%string) -> lookup_string keys key = ""%string -> keys !! key = None.
Proof. unfold lookup_string. destruct (keys !! key) as [k|]; [|done]. intros H E. by destruct (H k). Qed.

(** ** Indexed tables

    Rows stored under their own id, and an index of idempotency keys that
    points to stored rows. *)
Record indexed {A} (id : A -> string) (rows : gmap string A) (keys : gmap string string) : Prop := {
  ix_rows : forall k a, rows !! k = Some a -> id a = k;
  ix_keys : forall key k, keys !! key = Some k -> is_Some (rows !! k);
}.

Lemma indexed_empty {A} (id : A -> string) : indexed id ∅ ∅.
Proof. split; intros *; rewrite lookup_empty; done. Qed.

Lemma indexed_insert {A} (id : A -> string) rows keys b :
  indexed id rows keys -> indexed id (<[id b := b]> rows) keys.
Proof.
  intros [H1 H2]. split.
  - intros k a. rewrite lookup_insert. case_decide as E; [by intros [= <-]|apply H1].
  - intros key k Hk. rewrite lookup_insert. case_decide; [done|by apply (H2 key)].
Qed.

Lemma indexed_key {A} (id : A -> string) rows keys key k :
  is_Some (rows !! k) -> indexed id rows keys -> indexed id rows (<[key := k]> keys).
Proof. intros Hs [H1 H2]. split; [done|]. intros key' k'. rewrite lookup_insert. case_decide; [by intros [= <-]|apply H2]. Qed.

Lemma indexed_create {A} (id : A -> string) rows keys key b :
  indexed id rows keys -> indexed id (<[id b := b]> rows) (<[key := id b]> keys).
Proof. intros H. apply indexed_key; [by rewrite lookup_insert_eq|by apply indexed_insert]. Qed.
