(* ===== verification/Checkpoint.v ===== *)
(** * Checkpoint operations ([store.go], [memory.go])

    The durable journal of model checkpoints: the phase vocabulary and its
    transition graph, the validation of a row's identity and cleanup custody,
    and the create/read/update/list handlers of the in-memory store. *)

From S2P Require Import Prelude GoText SHA256 Domain DomainWorkload DomainNode Store.

(** ** Phases *)

Definition llmCheckpointTerminalPhases : list string :=
  ["completed"; "failed"; "cancelled"; "released"; "restore_failed"]%string.

Definition llmCheckpointFinalPhases : list string :=
  ["completed"; "failed"; "cancelled"; "restore_failed"]%string.

Definition llmCheckpointPhaseIsTerminal (phase : string) : bool :=
  bool_decide (phase ∈ llmCheckpointTerminalPhases).

Definition llmCheckpointPhaseIsFinal (phase : string) : bool :=
  bool_decide (phase ∈ llmCheckpointFinalPhases).

Definition llmCheckpointHoldsSlot (phase : string) : bool := negb (llmCheckpointPhaseIsTerminal phase).

Definition llmCheckpointPhaseOrdinal (phase : string) : Z :=
  let p := ToLower (TrimSpace phase) in
  if p ==? "planned"%string then 1
  else if p ==? "assigned"%string then 1
  else if p ==? "started"%string then 2
  else if p ==? "paused"%string then 3
  else if p ==? "saved"%string then 4
  else if p ==? "stopped"%string then 5
  else if p ==? "released"%string then 6
  else if p ==? "restore_planned"%string then 6
  else if p ==? "restore_assigned"%string then 8
  else if p ==? "reloaded"%string then 9
  else if p ==? "restored"%string then 10
  else if p ==? "resumed"%string then 11
  else if p ==? "continued"%string then 12
  else if p ==? "reused"%string then 13
  else if bool_decide (p ∈ ["completed"; "failed"; "cancelled"; "restore_failed"]%string) then 15
  else 0.

Definition llmCheckpointPhaseKnown (phase : string) : bool := 0 <? llmCheckpointPhaseOrdinal phase.

(** The [allowed] table of [llmCheckpointTransitionAllowed]. *)
Definition llmCheckpointEdges (from : string) : list string :=
  if from ==? "planned"%string then ["assigned"; "failed"; "cancelled"]%string
  else if from ==? "assigned"%string then ["started"; "failed"; "cancelled"]%string
  else if from ==? "started"%string then ["paused"; "stopped"; "failed"; "cancelled"]%string
  else if from ==? "paused"%string then ["saved"; "failed"; "cancelled"]%string
  else if from ==? "saved"%string then ["stopped"; "failed"; "cancelled"]%string
  else if from ==? "stopped"%string then ["released"; "failed"; "cancelled"]%string
  else if from ==? "released"%string then ["restore_planned"; "completed"; "failed"; "cancelled"]%string
  else if from ==? "restore_planned"%string then ["restore_assigned"; "restore_failed"; "failed"; "cancelled"]%string
  else if from ==? "restore_assigned"%string then ["reloaded"; "restore_failed"; "failed"; "cancelled"]%string
  else if from ==? "reloaded"%string then ["restored"; "restore_failed"; "failed"; "cancelled"]%string
  else if from ==? "restored"%string then ["resumed"; "restore_failed"; "failed"; "cancelled"]%string
  else if from ==? "resumed"%string then ["continued"; "restore_failed"; "failed"; "cancelled"]%string
  else if from ==? "continued"%string then ["reused"; "restore_failed"; "failed"; "cancelled"]%string
  else if from ==? "reused"%string then ["completed"; "failed"; "cancelled"]%string
  else [].

Definition llmCheckpointTransitionAllowed (from to : string) : bool :=
  if (from ==? ""%string) || (to ==? ""%string) then false
  else if from ==? to then true
  else if negb (llmCheckpointPhaseKnown from) || negb (llmCheckpointPhaseKnown to)
            || llmCheckpointPhaseIsFinal from then false
  else bool_decide (to ∈ llmCheckpointEdges from).

Definition llmCheckpointTransitionAllowedFor (from to : LLMCheckpointOperation) : bool :=
  if ckpt_Phase from ==? ckpt_Phase to then true
  else llmCheckpointTransitionAllowed (ckpt_Phase from) (ckpt_Phase to).

(** ** Validation *)

Definition validateLLMCheckpointCleanup (op : LLMCheckpointOperation) : result unit :=
  if ckpt_CleanupState op ==? ""%string then Ok tt else
  reject negb (bool_decide (ckpt_CleanupState op ∈ ["armed"; "owned"; "pending"; "failed"; "stopped"; "confirmed"]%string))
    with ErrorsNew "checkpoint cleanup state is invalid";
  if ckpt_CleanupState op ==? "confirmed"%string then Ok tt else
  reject blank (ckpt_CleanupTargetID op) || blank (ckpt_CleanupAcceleratorID op)
      || (ckpt_CleanupFence op =? 0) || (ckpt_CleanupGeneration op =? 0)
    with ErrorsNew "checkpoint cleanup identity is incomplete";
  reject ckpt_CleanupSlotID op <? -1
    with ErrorsNew "checkpoint cleanup slot is invalid";
  reject match ckpt_CleanupHandle op with Some h => blank (eh_ExternalID h) | None => false end
    with ErrorsNew "checkpoint cleanup handle identity is incomplete";
  reject negb (bool_decide (ckpt_CleanupTerminalDisposition op ∈ [""; "success"; "failure"; "cancel"]%string))
    with ErrorsNew "checkpoint cleanup terminal disposition is invalid";
  reject 2048 <? len (ckpt_CleanupMessage op)
    with ErrorsNew "checkpoint cleanup message is too long";
  Ok tt.

Definition validateLLMCheckpointRequiredIdentity (op : LLMCheckpointOperation) : result unit :=
  reject blank (ckpt_ID op) || blank (ckpt_IdempotencyKey op) || blank (ckpt_OwnerID op)
      || blank (ckpt_WorkloadID op) || blank (ckpt_NodeID op) || blank (ckpt_TargetID op)
      || blank (ckpt_AcceleratorID op) || blank (ckpt_RuntimeIdentity op) || blank (ckpt_Model op)
      || blank (ckpt_ModelFingerprint op) || blank (ckpt_ProfileFingerprint op)
      || blank (ckpt_ContextFingerprint op) || (ckpt_Generation op =? 0) || (ckpt_Fence op =? 0)
      || blank (ckpt_Phase op)
    with ErrorsNew "checkpoint operation identity is incomplete";
  reject ckpt_WorkloadRevision op =? 0
    with ErrorsNew "checkpoint operation workload revision is required";
  reject (ckpt_PhaseOrdinal op <=? 0) || (llmCheckpointPhaseOrdinal (ckpt_Phase op) <=? 0)
      || negb (ckpt_PhaseOrdinal op =? llmCheckpointPhaseOrdinal (ckpt_Phase op))
    with ErrorsNew "checkpoint operation phase or ordinal is invalid";
  reject blank (ckpt_ConversationID op)
    with ErrorsNew "checkpoint operation conversation identity is incomplete";
  reject ckpt_SlotID op <? -1
    with ErrorsNew "checkpoint operation slot is invalid";
  let? _u := validateLLMCheckpointCleanup op in
  Ok tt.

(** ** Identity *)

Definition llmCheckpointIdentityEqual (a b : LLMCheckpointOperation) (includeSlot : bool) : bool :=
  (ckpt_ID a ==? ckpt_ID b)
  && (ckpt_IdempotencyKey a ==? ckpt_IdempotencyKey b)
  && (ckpt_OwnerID a ==? ckpt_OwnerID b)
  && (ckpt_WorkloadID a ==? ckpt_WorkloadID b)
  && (ckpt_WorkloadRevision a =? ckpt_WorkloadRevision b)
  && (ckpt_NodeID a ==? ckpt_NodeID b)
  && (ckpt_AcceleratorID a ==? ckpt_AcceleratorID b)
  && (ckpt_TargetID a ==? ckpt_TargetID b)
  && (ckpt_Model a ==? ckpt_Model b)
  && (negb includeSlot || (ckpt_SlotID a =? ckpt_SlotID b))
  && (ckpt_Generation a =? ckpt_Generation b)
  && (ckpt_Fence a =? ckpt_Fence b)
  && (ckpt_RuntimeIdentity a ==? ckpt_RuntimeIdentity b)
  && (ckpt_ModelFingerprint a ==? ckpt_ModelFingerprint b)
  && (ckpt_ProfileFingerprint a ==? ckpt_ProfileFingerprint b)
  && (ckpt_ContextFingerprint a ==? ckpt_ContextFingerprint b)
  && (ckpt_ConversationID a ==? ckpt_ConversationID b)
  && (ckpt_ContinuationConversationID a ==? ckpt_ContinuationConversationID b)
  && (ckpt_CompensationOf a ==? ckpt_CompensationOf b).

Definition sameLLMCheckpointIdentity (a b : LLMCheckpointOperation) : bool :=
  llmCheckpointIdentityEqual a b true.

Definition llmCheckpointImmutableIdentityEqual (a b : LLMCheckpointOperation) : bool :=
  llmCheckpointIdentityEqual a b false.

(** ** Creation *)

Definition canonicalLLMCheckpointTime (t : Time) : Time :=
  if t =? 0 then t else truncate microsecond t.

(** The conversation identity derived for a row that carries none. *)
Definition derivedConversationID (op : LLMCheckpointOperation) : string :=
  let seed := Sum256 (ckpt_OwnerID op +:+ "|" +:+ ckpt_WorkloadID op +:+ "|" +:+ Sprint (ckpt_Generation op)
                        +:+ "|" +:+ Sprint (ckpt_Fence op) +:+ "|" +:+ ckpt_ID op) in
  ("conv-" +:+ hex_encode (firstn 12 seed))%string.

Definition prepareLLMCheckpointCreate (now : Time) (op : option LLMCheckpointOperation)
  : result LLMCheckpointOperation :=
  match op with
  | None => Err (ErrorsNew "checkpoint operation identity is incomplete")
  | Some op =>
      let copy := if blank (ckpt_ConversationID op)
                  then op <| ckpt_ConversationID := derivedConversationID op |> else op in
      let copy := if ckpt_PhaseOrdinal copy =? 0
                  then copy <| ckpt_PhaseOrdinal := llmCheckpointPhaseOrdinal (ckpt_Phase copy) |> else copy in
      let phase := ToLower (TrimSpace (ckpt_Phase copy)) in
      let? _u :=
        if phase ==? "planned"%string then
          reject (ckpt_SnapshotName copy !=? ""%string) || (ckpt_CompensationOf copy !=? ""%string)
              || (ckpt_RecoveryState copy !=? ""%string)
            with ErrorsNew "checkpoint planned root has unexpected recovery identity";
          Ok tt
        else if phase ==? "restore_planned"%string then
          reject blank (ckpt_SnapshotName copy)
              || (blank (ckpt_CompensationOf copy)
                  && (TrimSpace (ckpt_RecoveryState copy) !=? "pending"%string)
                  && (ckpt_WorkloadRevision copy =? 0))
            with ErrorsNew "checkpoint restore root requires snapshot and recovery justification";
          Ok tt
        else Err (ErrorsNew "checkpoint create phase must be planned or justified restore_planned") in
      let? _u := validateLLMCheckpointRequiredIdentity copy in
      let copy := copy <| ckpt_Revision := 1 |> in
      let copy := copy <| ckpt_CreatedAt := if ckpt_CreatedAt copy =? 0 then truncate microsecond now
                                            else canonicalLLMCheckpointTime (ckpt_CreatedAt copy) |> in
      let copy := copy <| ckpt_UpdatedAt := if ckpt_UpdatedAt copy =? 0 then ckpt_CreatedAt copy
                                            else canonicalLLMCheckpointTime (ckpt_UpdatedAt copy) |> in
      Ok copy
  end.

(** ** Handlers *)

Section handlers.
Context {R : GoRange}.

Definition slotHeldAtCreate (prepared existing : LLMCheckpointOperation) : bool :=
  (ckpt_TargetID existing ==? ckpt_TargetID prepared)
  && (ckpt_AcceleratorID existing ==? ckpt_AcceleratorID prepared)
  && (0 <=? ckpt_SlotID existing) && (ckpt_SlotID existing =? ckpt_SlotID prepared)
  && llmCheckpointHoldsSlot (ckpt_Phase existing) && llmCheckpointHoldsSlot (ckpt_Phase prepared).

(** The operation, and whether this call created it. *)
Definition CreateLLMCheckpointOperation (now : Time) (op : option LLMCheckpointOperation) (m : MemoryStore)
  : result (MemoryStore * (LLMCheckpointOperation * bool)) :=
  let? prepared := prepareLLMCheckpointCreate now op in
  match llmCheckpointOps m !! ckpt_ID prepared with
  | Some existing =>
      if sameLLMCheckpointIdentity existing prepared then Ok (m, (existing, false))
      else Err ErrLLMCheckpointConflict
  | None =>
      let key := key2 (ckpt_OwnerID prepared) (ckpt_IdempotencyKey prepared) in
      let id := lookup_string (llmCheckpointKeys m) key in
      if id !=? ""%string then
        match llmCheckpointOps m !! id with
        | Some existing =>
            if sameLLMCheckpointIdentity existing prepared then Ok (m, (existing, false))
            else Err ErrLLMCheckpointConflict
        | None => Err ErrLLMCheckpointConflict
        end
      else
        match range_find (fun _ => slotHeldAtCreate prepared) (llmCheckpointOps m) with
        | Some _ => Err ErrLLMCheckpointConflict
        | None =>
            Ok (m <| llmCheckpointOps := <[ckpt_ID prepared := prepared]> (llmCheckpointOps m) |>
                  <| llmCheckpointKeys := <[key := ckpt_ID prepared]> (llmCheckpointKeys m) |>,
                (prepared, true))
        end
  end.

Definition GetLLMCheckpointOperation (id : string) (m : MemoryStore) : result LLMCheckpointOperation :=
  match llmCheckpointOps m !! id with
  | Some op => Ok op
  | None => Err ErrNotFound
  end.

Definition GetLLMCheckpointOperationByIdempotency (owner key : string) (m : MemoryStore)
  : result LLMCheckpointOperation :=
  let id := lookup_string (llmCheckpointKeys m) (key2 owner key) in
  reject id ==? ""%string with ErrNotFound;
  match llmCheckpointOps m !! id with
  | Some op => Ok op
  | None => Err ErrNotFound
  end.

Definition slotHeldAtUpdate (op : LLMCheckpointOperation) (id : string) (existing : LLMCheckpointOperation) : bool :=
  negb ((id ==? ckpt_ID op) || (ckpt_TargetID existing !=? ckpt_TargetID op)
        || (ckpt_AcceleratorID existing !=? ckpt_AcceleratorID op) || (ckpt_SlotID existing <? 0)
        || (ckpt_SlotID op <? 0) || negb (ckpt_SlotID existing =? ckpt_SlotID op))
  && llmCheckpointHoldsSlot (ckpt_Phase existing) && llmCheckpointHoldsSlot (ckpt_Phase op).

Definition UpdateLLMCheckpointOperation (now : Time) (op : option LLMCheckpointOperation) (expected : Z)
    (m : MemoryStore) : result (MemoryStore * LLMCheckpointOperation) :=
  match op with
  | None => Err (ErrorsNew "checkpoint operation identity is incomplete")
  | Some op =>
      let op := if ckpt_ConversationID op ==? ""%string
                then op <| ckpt_ConversationID := derivedConversationID op |> else op in
      let? _u := validateLLMCheckpointRequiredIdentity op in
      reject expected =? 0 with ErrLLMCheckpointConflict;
      match llmCheckpointOps m !! ckpt_ID op with
      | None => Err ErrNotFound
      | Some current =>
          reject negb (ckpt_Revision current =? expected) with ErrLLMCheckpointConflict;
          reject negb (llmCheckpointImmutableIdentityEqual current op) with ErrLLMCheckpointConflict;
          reject negb (llmCheckpointTransitionAllowedFor current op) with ErrLLMCheckpointConflict;
          match range_find (slotHeldAtUpdate op) (llmCheckpointOps m) with
          | Some _ => Err ErrLLMCheckpointConflict
          | None =>
              let copy := op <| ckpt_CreatedAt := ckpt_CreatedAt current |>
                             <| ckpt_Revision := wrapU64 (ckpt_Revision current + 1) |>
                             <| ckpt_UpdatedAt := truncate microsecond now |> in
              Ok (m <| llmCheckpointOps := <[ckpt_ID op := copy]> (llmCheckpointOps m) |>, copy)
          end
      end
  end.

Definition ListLLMCheckpointOperations (owner : string) (m : MemoryStore) : list LLMCheckpointOperation :=
  sort_slice (fun a b =>
      if ckpt_UpdatedAt a =? ckpt_UpdatedAt b then String.ltb (ckpt_ID a) (ckpt_ID b)
      else ckpt_UpdatedAt a <? ckpt_UpdatedAt b)
    (range_rows (fun op => (owner ==? ""%string) || (ckpt_OwnerID op ==? owner)) (llmCheckpointOps m)).

End handlers.

(** ** The immutable identity *)

Definition ckpt_identity (a : LLMCheckpointOperation) :=
  ((ckpt_ID a, ckpt_IdempotencyKey a, ckpt_OwnerID a, ckpt_WorkloadID a, ckpt_WorkloadRevision a, ckpt_NodeID a),
   (ckpt_AcceleratorID a, ckpt_TargetID a, ckpt_Model a, ckpt_Generation a, ckpt_Fence a, ckpt_RuntimeIdentity a),
   (ckpt_ModelFingerprint a, ckpt_ProfileFingerprint a, ckpt_ContextFingerprint a, ckpt_ConversationID a,
    ckpt_ContinuationConversationID a, ckpt_CompensationOf a)).

Lemma identityEqual_spec a b slot :
  llmCheckpointIdentityEqual a b slot = true <->
  ckpt_identity a = ckpt_identity b /\ (slot = true -> ckpt_SlotID a = ckpt_SlotID b).
Proof.
  unfold llmCheckpointIdentityEqual, ckpt_identity.
  rewrite !andb_true_iff, !bool_decide_eq_true, !Z.eqb_eq, orb_true_iff, negb_true_iff, Z.eqb_eq, !pair_equal_spec.
  destruct slot; intuition congruence.
Qed.

(** Fields of equal identities. *)
Lemma identity_ID a b : ckpt_identity a = ckpt_identity b -> ckpt_ID a = ckpt_ID b.
Proof. unfold ckpt_identity. congruence. Qed.
Lemma identity_device a b : ckpt_identity a = ckpt_identity b ->
  ckpt_TargetID a = ckpt_TargetID b /\ ckpt_AcceleratorID a = ckpt_AcceleratorID b.
Proof. unfold ckpt_identity. intros H. split; congruence. Qed.
Lemma identity_key a b : ckpt_identity a = ckpt_identity b ->
  key2 (ckpt_OwnerID a) (ckpt_IdempotencyKey a) = key2 (ckpt_OwnerID b) (ckpt_IdempotencyKey b).
Proof. unfold ckpt_identity. intros H. f_equal; congruence. Qed.

(** ** The phase graph *)

(** One edge of the graph, between different phases. *)
Definition edge (p q : string) : Prop := q ∈ llmCheckpointEdges p.

Lemma transitionAllowed_edge p q :
  llmCheckpointTransitionAllowed p q = true -> p = q \/ edge p q.
Proof.
  unfold llmCheckpointTransitionAllowed. destruct (_ || _); [done|].
  case_bool_decide; [by left|]. destruct (_ || _ || _); [done|]. intros Hq%bool_decide_eq_true. by right.
Qed.

Lemma transitionAllowedFor_edge a b :
  llmCheckpointTransitionAllowedFor a b = true -> ckpt_Phase a = ckpt_Phase b \/ edge (ckpt_Phase a) (ckpt_Phase b).
Proof.
  unfold llmCheckpointTransitionAllowedFor. case_bool_decide; [by left|]. apply transitionAllowed_edge.
Qed.

(** The phases with outgoing edges, for finite case analysis. *)
Definition openPhases : list string :=
  ["planned"; "assigned"; "started"; "paused"; "saved"; "stopped"; "released"; "restore_planned";
   "restore_assigned"; "reloaded"; "restored"; "resumed"; "continued"; "reused"]%string.

Lemma edge_source p q : edge p q -> p ∈ openPhases.
Proof.
  unfold edge, llmCheckpointEdges, openPhases. intros H.
  repeat (case_bool_decide; [subst p; clear; apply list_elem_of_In; cbn; tauto|]). by apply elem_of_nil in H.
Qed.

(** A statement about all edges, checked by evaluation. *)
Lemma edge_forall (P : string -> string -> bool) :
  forallb (fun p => forallb (P p) (llmCheckpointEdges p)) openPhases = true ->
  forall p q, edge p q -> P p q = true.
Proof.
  intros H p q He. rewrite forallb_forall in H.
  specialize (H p ltac:(apply list_elem_of_In, (edge_source p q He))).
  rewrite forallb_forall in H. apply H. by apply list_elem_of_In.
Qed.

(** Ordinals never decrease along the graph. *)
Lemma edge_ordinal p q : edge p q -> llmCheckpointPhaseOrdinal p <= llmCheckpointPhaseOrdinal q.
Proof.
  intros He. apply Z.leb_le.
  apply (edge_forall (fun p q => llmCheckpointPhaseOrdinal p <=? llmCheckpointPhaseOrdinal q)); [by vm_compute|done].
Qed.

Lemma edge_not_final p q : edge p q -> llmCheckpointPhaseIsFinal p = false.
Proof.
  intros He. apply negb_true_iff.
  apply (edge_forall (fun p _ => negb (llmCheckpointPhaseIsFinal p)) ltac:(by vm_compute) p q He).
Qed.

(** ** What the handlers do to a row and to the table *)

(** How one step changes a stored row. *)
Record row_step (a b : LLMCheckpointOperation) : Prop := {
  rs_identity : ckpt_identity b = ckpt_identity a;
  rs_created : ckpt_CreatedAt b = ckpt_CreatedAt a;
  rs_revision : ckpt_Revision b = wrapU64 (ckpt_Revision a + 1);
  rs_phase : ckpt_Phase b = ckpt_Phase a \/ edge (ckpt_Phase a) (ckpt_Phase b);
}.

Definition holds (op : LLMCheckpointOperation) : bool := llmCheckpointHoldsSlot (ckpt_Phase op).

(** Two rows that claim the same slot of a device. *)
Definition slot_clash (a b : LLMCheckpointOperation) : Prop :=
  ckpt_TargetID a = ckpt_TargetID b /\ ckpt_AcceleratorID a = ckpt_AcceleratorID b /\
  ckpt_SlotID a = ckpt_SlotID b /\ 0 <= ckpt_SlotID a /\ holds a = true /\ holds b = true.

Lemma slot_clash_sym a b : slot_clash a b -> slot_clash b a.
Proof. unfold slot_clash. intros (? & ? & H & ? & ? & ?). rewrite <- H. auto 10. Qed.

(** A row as a create leaves it. *)
Definition root_row (op : LLMCheckpointOperation) : Prop :=
  validateLLMCheckpointRequiredIdentity op = Ok tt /\ ckpt_Revision op = 1 /\
  (ToLower (TrimSpace (ckpt_Phase op)) = "planned"%string \/
   ToLower (TrimSpace (ckpt_Phase op)) = "restore_planned"%string /\ blank (ckpt_SnapshotName op) = false).

(** The abstract steps of the two checkpoint tables. *)
Inductive ckpt_table_step (ops : gmap string LLMCheckpointOperation) (keys : gmap string string)
  : gmap string LLMCheckpointOperation -> gmap string string -> Prop :=
  | ct_create op :
      root_row op ->
      ops !! ckpt_ID op = None ->
      lookup_string keys (key2 (ckpt_OwnerID op) (ckpt_IdempotencyKey op)) = ""%string ->
      (forall k a, ops !! k = Some a -> ~ slot_clash a op) ->
      ckpt_table_step ops keys (<[ckpt_ID op := op]> ops)
        (<[key2 (ckpt_OwnerID op) (ckpt_IdempotencyKey op) := ckpt_ID op]> keys)
  | ct_update k a b :
      ops !! k = Some a -> row_step a b ->
      (forall k' a', ops !! k' = Some a' -> k' <> k -> ~ slot_clash a' b) ->
      ckpt_table_step ops keys (<[k := b]> ops) keys.

(** The row a create prepares. *)
Definition prepared_of (now : Time) (op prepared : LLMCheckpointOperation) : Prop :=
  root_row prepared /\
  ckpt_ID prepared = ckpt_ID op /\ ckpt_OwnerID prepared = ckpt_OwnerID op /\
  ckpt_IdempotencyKey prepared = ckpt_IdempotencyKey op /\ ckpt_SlotID prepared = ckpt_SlotID op.

Lemma validate_times op r c u :
  validateLLMCheckpointRequiredIdentity
    (op <| ckpt_Revision := r |> <| ckpt_CreatedAt := c |> <| ckpt_UpdatedAt := u |>)
  = validateLLMCheckpointRequiredIdentity op.
Proof. reflexivity. Qed.

Lemma prepare_spec now op prepared :
  prepareLLMCheckpointCreate now op = Ok prepared ->
  exists op0, op = Some op0 /\ prepared_of now op0 prepared.
Proof.
  unfold prepareLLMCheckpointCreate. destruct op as [op|]; [|done]. intros H. exists op. split; [done|].
  set (op1 := if blank _ then _ else _) in H.
  set (op2 := if _ =? 0 then _ else op1) in H.
  assert (ckpt_ID op2 = ckpt_ID op /\ ckpt_OwnerID op2 = ckpt_OwnerID op /\
    ckpt_IdempotencyKey op2 = ckpt_IdempotencyKey op /\ ckpt_SlotID op2 = ckpt_SlotID op) as Hf.
  { subst op1 op2. destruct (blank _); (destruct (_ =? 0); done). }
  clearbody op2. clear op1.
  destruct (if _ ==? _ then _ else _) as [[]|] eqn:Hroot in H; [|discriminate H].
  destruct (validateLLMCheckpointRequiredIdentity op2) as [[]|] eqn:Hv; [|discriminate H].
  injection H as <-. split; [|exact Hf]. split; [|split; [reflexivity|]].
  - exact (eq_trans (validate_times _ _ _ _) Hv).
  - cbn. clear Hv Hf. case_bool_decide as H1; [by left|]. case_bool_decide as H2; [|discriminate Hroot].
    right. split; [done|]. by destruct (blank (ckpt_SnapshotName op2)).
Qed.

Lemma slotHeldAtCreate_spec prepared a :
  slotHeldAtCreate prepared a = false -> ~ slot_clash a prepared.
Proof.
  unfold slotHeldAtCreate. intros H (H1 & H2 & H3 & H4 & H5 & H6). unfold holds in *.
  rewrite !bool_decide_eq_true_2, H5, H6 in H by done.
  rewrite (proj2 (Z.leb_le _ _) H4), (proj2 (Z.eqb_eq _ _) H3) in H. done.
Qed.

Lemma slotHeldAtUpdate_spec op id a :
  slotHeldAtUpdate op id a = false -> id <> ckpt_ID op -> ~ slot_clash a op.
Proof.
  unfold slotHeldAtUpdate. intros H Hid (H1 & H2 & H3 & H4 & H5 & H6). unfold holds in *.
  rewrite H5, H6, (bool_decide_eq_false_2 _ Hid), !(bool_decide_eq_true_2 _ H1), !(bool_decide_eq_true_2 _ H2) in H.
  rewrite <- H3, (proj2 (Z.ltb_ge _ _) H4), Z.eqb_refl in H. done.
Qed.

Lemma CreateLLMCheckpointOperation_spec {R : GoRange} now op m m' row created :
  CreateLLMCheckpointOperation now op m = Ok (m', (row, created)) ->
  exists op0 prepared, op = Some op0 /\ prepareLLMCheckpointCreate now op = Ok prepared /\
    prepared_of now op0 prepared /\
    if created
    then row = prepared /\ m' = m <| llmCheckpointOps := llmCheckpointOps m' |> <| llmCheckpointKeys := llmCheckpointKeys m' |> /\
         llmCheckpointOps m' = <[ckpt_ID row := row]> (llmCheckpointOps m) /\
         ckpt_table_step (llmCheckpointOps m) (llmCheckpointKeys m) (llmCheckpointOps m') (llmCheckpointKeys m')
    else m' = m /\ sameLLMCheckpointIdentity row prepared = true /\ exists k, llmCheckpointOps m !! k = Some row.
Proof.
  unfold CreateLLMCheckpointOperation. intros H.
  destruct (prepareLLMCheckpointCreate now op) as [p|] eqn:Hp; [|discriminate H].
  destruct (prepare_spec _ _ _ Hp) as (op0 & -> & Hpo). exists op0, p. do 3 (split; [done|]).
  destruct (llmCheckpointOps m !! ckpt_ID p) as [old|] eqn:Hid.
  { destruct (sameLLMCheckpointIdentity old p) eqn:Hs; [|discriminate H]. injection H as <- <- <-. eauto. }
  destruct (lookup_string _ _ !=? _) eqn:Hkey in H.
  { destruct (llmCheckpointOps m !! lookup_string _ _) as [old|] eqn:Hold in H; [|discriminate H].
    destruct (sameLLMCheckpointIdentity old p) eqn:Hs; [|discriminate H]. injection H as <- <- <-. eauto. }
  destruct (range_find _ _) eqn:Hscan in H; [discriminate H|]. injection H as <- <- <-.
  do 3 (split; [reflexivity|]). bool_simp. constructor; [apply Hpo|done|done|].
  intros k a Hk. apply slotHeldAtCreate_spec. by apply (proj1 (range_find_None _ _) Hscan k a).
Qed.

(** The row an update writes. *)
Lemma UpdateLLMCheckpointOperation_spec {R : GoRange} now op expected m m' row :
  UpdateLLMCheckpointOperation now op expected m = Ok (m', row) ->
  exists cur, llmCheckpointOps m !! ckpt_ID row = Some cur /\ ckpt_Revision cur = expected /\
    row_step cur row /\ validateLLMCheckpointRequiredIdentity row = Ok tt /\
    m' = m <| llmCheckpointOps := <[ckpt_ID row := row]> (llmCheckpointOps m) |> /\
    ckpt_table_step (llmCheckpointOps m) (llmCheckpointKeys m) (llmCheckpointOps m') (llmCheckpointKeys m').
Proof.
  unfold UpdateLLMCheckpointOperation. destruct op as [op|]; [|done].
  generalize (if ckpt_ConversationID op ==? "" then op <| ckpt_ConversationID := derivedConversationID op |> else op).
  clear op. intros op1 H.
  destruct (validateLLMCheckpointRequiredIdentity op1) as [[]|] eqn:Hv; [|discriminate H].
  destruct (expected =? 0); [discriminate H|].
  destruct (llmCheckpointOps m !! ckpt_ID op1) as [cur|] eqn:Hcur; [|discriminate H].
  destruct (negb (_ =? expected)) eqn:Hrev in H; [discriminate H|].
  destruct (negb (llmCheckpointImmutableIdentityEqual _ _)) eqn:Hident in H; [discriminate H|].
  destruct (negb (llmCheckpointTransitionAllowedFor _ _)) eqn:Htr in H; [discriminate H|].
  destruct (range_find _ _) eqn:Hscan in H; [discriminate H|]. injection H as <- <-.
  bool_simp. unfold llmCheckpointImmutableIdentityEqual in Hident. apply identityEqual_spec in Hident as [Hident _]. apply transitionAllowedFor_edge in Htr.
  pose (row := op1 <| ckpt_CreatedAt := ckpt_CreatedAt cur |> <| ckpt_Revision := wrapU64 (ckpt_Revision cur + 1) |>
                   <| ckpt_UpdatedAt := truncate microsecond now |>).
  assert (row_step cur row) as Hrow by (split; [done..|destruct Htr; auto]).
  exists cur. split; [exact Hcur|]. split; [exact Hrev|]. split; [exact Hrow|]. split; [exact Hv|]. split; [reflexivity|].
  apply (ct_update _ _ (ckpt_ID op1) cur row); [done|done|].
  intros k a Hk Hne Hclash. apply (slotHeldAtUpdate_spec op1 k a); [|done|exact Hclash].
  by apply (proj1 (range_find_None _ _) Hscan).
Qed.

(** ** Table invariant *)

Record ckpt_inv (ops : gmap string LLMCheckpointOperation) (keys : gmap string string) : Prop := {
  ci_keyed : forall k a, ops !! k = Some a -> ckpt_ID a = k /\ k <> ""%string;
  ci_slots : forall k k' a b, ops !! k = Some a -> ops !! k' = Some b -> slot_clash a b -> k = k';
  ci_indexed : forall k a, ops !! k = Some a ->
    keys !! key2 (ckpt_OwnerID a) (ckpt_IdempotencyKey a) = Some k;
  ci_index : forall key k, keys !! key = Some k ->
    exists a, ops !! k = Some a /\ key2 (ckpt_OwnerID a) (ckpt_IdempotencyKey a) = key;
}.

Lemma ckpt_inv_empty : ckpt_inv ∅ ∅.
Proof. split; intros *; rewrite lookup_empty; done. Qed.

Lemma root_row_ID op : root_row op -> ckpt_ID op <> ""%string.
Proof.
  intros [Hv _] E. unfold validateLLMCheckpointRequiredIdentity in Hv. rewrite E in Hv. discriminate Hv.
Qed.

Lemma ckpt_inv_create ops keys op :
  ckpt_inv ops keys -> root_row op -> ops !! ckpt_ID op = None ->
  lookup_string keys (key2 (ckpt_OwnerID op) (ckpt_IdempotencyKey op)) = ""%string ->
  (forall k a, ops !! k = Some a -> ~ slot_clash a op) ->
  ckpt_inv (<[ckpt_ID op := op]> ops) (<[key2 (ckpt_OwnerID op) (ckpt_IdempotencyKey op) := ckpt_ID op]> keys).
Proof.
  intros [Hk Hs Hi Hx] Hroot Hfresh Hkey Hfree. pose proof (root_row_ID op Hroot) as Hne.
  assert (keys !! key2 (ckpt_OwnerID op) (ckpt_IdempotencyKey op) = None) as Hnone.
  { apply lookup_string_absent; [|done].
    intros k (a & Ha & _)%Hx. by destruct (Hk k a Ha). }
  split.
  - intros k a [[<- <-]|[Hn Ha]]%lookup_insert_Some; [done|]. eauto.
  - intros k k' a b [[<- <-]|[Hn Ha]]%lookup_insert_Some [[<- <-]|[Hn' Hb]]%lookup_insert_Some Hc; [done|..].
    + destruct (Hfree k' b Hb). by apply slot_clash_sym.
    + by destruct (Hfree k a Ha).
    + eauto.
  - intros k a [[<- <-]|[Hn Ha]]%lookup_insert_Some; [by rewrite lookup_insert_eq|].
    rewrite lookup_insert_ne; [by apply Hi|]. intros E. apply Hi in Ha. congruence.
  - intros key k [[<- <-]|[Hn Ha]]%lookup_insert_Some; [exists op; by rewrite lookup_insert_eq|].
    destruct (Hx key k Ha) as (a & Hka & E). exists a. rewrite lookup_insert_ne; [done|congruence].
Qed.

Lemma ckpt_inv_update ops keys k a b :
  ckpt_inv ops keys -> ops !! k = Some a -> ckpt_identity b = ckpt_identity a ->
  (forall k' a', ops !! k' = Some a' -> k' <> k -> ~ slot_clash a' b) ->
  ckpt_inv (<[k := b]> ops) keys.
Proof.
  intros [Hk Hs Hi Hx] Ha Hid Hfree. split.
  - intros k' a' [[<- <-]|[Hn Ha']]%lookup_insert_Some; [|by eauto].
    rewrite (identity_ID b a Hid). eauto.
  - intros k1 k2 a1 a2 [[<- <-]|[Hn1 H1]]%lookup_insert_Some [[<- <-]|[Hn2 H2]]%lookup_insert_Some Hc; [done|..].
    + destruct (Hfree k2 a2 H2); [done|]. by apply slot_clash_sym.
    + by destruct (Hfree k1 a1 H1).
    + eauto.
  - intros k' a' [[<- <-]|[Hn Ha']]%lookup_insert_Some; [|by eauto]. rewrite (identity_key b a Hid). eauto.
  - intros key k' Hkey. destruct (Hx key k' Hkey) as (a' & Ha' & E).
    destruct (decide (k' = k)) as [->|]; [|exists a'; by rewrite lookup_insert_ne].
    exists b. rewrite lookup_insert_eq, (identity_key b a Hid). split; [done|]. congruence.
Qed.

Lemma ckpt_table_step_inv ops keys ops' keys' :
  ckpt_table_step ops keys ops' keys' -> ckpt_inv ops keys -> ckpt_inv ops' keys'.
Proof.
  intros [op|k a b] Hinv; [by apply ckpt_inv_create|]. eapply ckpt_inv_update; eauto using rs_identity.
Qed.

Lemma ckpt_table_step_row ops keys ops' keys' k a :
  ckpt_table_step ops keys ops' keys' -> ops !! k = Some a ->
  exists b, ops' !! k = Some b /\ (b = a \/ row_step a b).
Proof.
  intros [op|k' a' b] Ha.
  - exists a. rewrite lookup_insert_ne; [auto|congruence].
  - destruct (decide (k = k')) as [->|]; [|exists a; rewrite lookup_insert_ne; auto].
    exists b. rewrite lookup_insert_eq. replace a with a' by congruence. auto.
Qed.

(** ** Steps of this component on the store *)

Inductive ckpt_step (m m' : MemoryStore) : Prop :=
  | cs_create (R : GoRange) now op r : CreateLLMCheckpointOperation now op m = Ok (m', r) -> ckpt_step m m'
  | cs_update (R : GoRange) now op expected r :
      UpdateLLMCheckpointOperation now op expected m = Ok (m', r) -> ckpt_step m m'.

Lemma ckpt_step_frame m m' : ckpt_step m m' ->
  m' = m <| llmCheckpointOps := llmCheckpointOps m' |> <| llmCheckpointKeys := llmCheckpointKeys m' |>.
Proof.
  intros [R now op [row c] H|R now op e r H].
  - apply CreateLLMCheckpointOperation_spec in H as (op0 & p & _ & _ & _ & H).
    destruct c; [apply H|]. destruct H as [-> _]. by destruct m.
  - apply UpdateLLMCheckpointOperation_spec in H as (cur & _ & _ & _ & _ & -> & _). by destruct m.
Qed.

Lemma ckpt_step_table m m' : ckpt_step m m' ->
  m' = m \/ ckpt_table_step (llmCheckpointOps m) (llmCheckpointKeys m) (llmCheckpointOps m') (llmCheckpointKeys m').
Proof.
  intros [R now op [row c] H|R now op e r H].
  - apply CreateLLMCheckpointOperation_spec in H as (op0 & p & _ & _ & _ & H).
    destruct c; [right; apply H|]. left. apply H.
  - apply UpdateLLMCheckpointOperation_spec in H as (cur & _ & _ & _ & _ & _ & H). by right.
Qed.
