(* ===== verification/Displacement.v ===== *)
(** * Displacement operations ([llm_displacement.go])

    The journal of an accelerator displacement: a victim model is paused,
    snapshotted and stopped, an urgent one loaded and stopped, and the victim
    restored, each step as a sealed command intent followed by an observed
    result.  Modelled are the validation of a journal row, the update guard and
    the handlers of the in-memory store. *)

From S2P Require Import Prelude GoText SHA256 GoTime Domain DomainWorkload DomainNode GoJSON Store.

(** ** Vocabulary *)

Definition displacementPhases : list string :=
  ["planned"; "pause_intent_sealed"; "safe_boundary_paused"; "snapshot_intent_sealed"; "snapshot_captured";
   "victim_stop_intent_sealed"; "victim_stopped"; "urgent_load_intent_sealed"; "urgent_loaded";
   "urgent_stop_intent_sealed"; "urgent_stopped"; "victim_reload_intent_sealed"; "victim_reloaded";
   "kv_restore_intent_sealed"; "kv_restored"; "settlement_intent_sealed"; "settled"; "completed"]%string.

Definition displacementSteps : list string :=
  ["pause"; "snapshot"; "victim_stop"; "urgent_load"; "urgent_stop"; "victim_reload"; "kv_restore";
   "settlement"]%string.

(** The phases of a row set aside for an operator. *)
Definition reconciliationPhase (phase : string) : bool :=
  bool_decide (phase ∈ ["pending"; "uncertain"; "manual_reconciliation"]%string).

Definition displacementIntentStep (phase : string) : string :=
  if phase ==? "pause_intent_sealed"%string then "pause"
  else if phase ==? "snapshot_intent_sealed"%string then "snapshot"
  else if phase ==? "victim_stop_intent_sealed"%string then "victim_stop"
  else if phase ==? "urgent_load_intent_sealed"%string then "urgent_load"
  else if phase ==? "urgent_stop_intent_sealed"%string then "urgent_stop"
  else if phase ==? "victim_reload_intent_sealed"%string then "victim_reload"
  else if phase ==? "kv_restore_intent_sealed"%string then "kv_restore"
  else if phase ==? "settlement_intent_sealed"%string then "settlement"
  else "".

Definition displacementResultStep (phase : string) : string :=
  if phase ==? "safe_boundary_paused"%string then "pause"
  else if phase ==? "snapshot_captured"%string then "snapshot"
  else if phase ==? "victim_stopped"%string then "victim_stop"
  else if phase ==? "urgent_loaded"%string then "urgent_load"
  else if phase ==? "urgent_stopped"%string then "urgent_stop"
  else if phase ==? "victim_reloaded"%string then "victim_reload"
  else if phase ==? "kv_restored"%string then "kv_restore"
  else if phase ==? "settled"%string then "settlement"
  else "".

Definition hasDisplacementResult (op : LLMDisplacementOperation) (step : string) : bool :=
  existsb (fun r => dor_Step r ==? step) (disp_ObservedResults op).

Definition hasDisplacementIntent (op : LLMDisplacementOperation) (step : string) : bool :=
  existsb (fun c => dci_Step c ==? step) (disp_CommandIntents op).

(** The index of the first occurrence, [-1] when there is none. *)
Fixpoint index_of (i : Z) (x : string) (l : list string) : Z :=
  match l with
  | [] => -1
  | y :: l => if y ==? x then i else index_of (i + 1) x l
  end.

Definition displacementTransitionAllowed (from to : string) : bool :=
  if reconciliationPhase to
  then (from !=? "completed"%string) && (from !=? "uncertain"%string)
       && (from !=? "manual_reconciliation"%string) && (from !=? "pending"%string)
  else
    let i := index_of 0 from displacementPhases in
    (0 <=? i) && (i + 1 <? Z.of_nat (length displacementPhases))
    && (displacementPhases !! Z.to_nat (i + 1) ==? Some to).

(** ** Signed envelopes *)

(** The digest over the JSON text of an anonymous struct with these fields. *)
Definition observedResultEnvelopeDigest (r : LLMDisplacementObservedResult) : string :=
  let payload := print (JObject [("Step"%string, JString (dor_Step r)); ("CommandID"%string, JString (dor_CommandID r));
    ("ResultID"%string, JString (dor_ResultID r)); ("Digest"%string, JString (dor_Digest r));
    ("ProofBinding"%string, JString (dor_ProofBinding r)); ("KeyID"%string, JString (dor_KeyID r))]) in
  hex_encode (Sum256 payload).

(** ** Validation of a row *)

Fixpoint uniqueAliases (seen l : list string) : bool :=
  match l with
  | [] => true
  | alias :: l => negb (blank alias || bool_decide (alias ∈ seen)) && uniqueAliases (alias :: seen) l
  end.

Definition validLLMDisplacementBinding (b : LLMDisplacementModelBinding) : bool :=
  if blank (dmb_TargetID b) || blank (dmb_NodeID b) || blank (dmb_AcceleratorID b) || blank (dmb_CatalogModel b)
     || (Z.of_nat (length (dmb_CatalogAliases b)) =? 0) || blank (dmb_ActualAlias b) || blank (dmb_LocalPlanID b)
     || blank (dmb_LocalPlanHash b) || blank (dmb_ControllerPlanID b) || blank (dmb_ControllerPlanHash b)
     || blank (dmb_ArtifactID b) || blank (dmb_ArtifactDigest b) || blank (dmb_RuntimeIdentity b)
     || blank (dmb_ProfileIdentity b) || blank (dmb_ContextIdentity b) || blank (dmb_CheckpointID b)
     || blank (dmb_CheckpointDigest b) || blank (dmb_ProofBinding b)
  then false
  else uniqueAliases [] (dmb_CatalogAliases b)
       && (Z.of_nat (length (filter (fun a => a = dmb_ActualAlias b) (dmb_CatalogAliases b))) =? 1).

(** The lease a row carries: held by the victim on the row's accelerator under
    the row's fence. *)
Definition leaseMismatch (op : LLMDisplacementOperation) : bool :=
  match disp_OriginalLease op with
  | None => true
  | Some lease =>
      (lease_AcceleratorID lease !=? disp_AcceleratorID op) || (lease_WorkloadID lease !=? disp_VictimWorkloadID op)
      || (lease_FencingToken lease <=? 0) || negb (wrapU64 (lease_FencingToken lease) =? disp_Fence op)
      || (lease_ExpiresAt lease =? 0)
  end.

Definition identityIncomplete (op : LLMDisplacementOperation) : bool :=
  blank (disp_ID op) || blank (disp_IdempotencyKey op) || blank (disp_OwnerID op)
  || blank (disp_VictimWorkloadID op) || blank (disp_VictimOwnerID op) || (disp_VictimWorkloadRevision op =? 0)
  || blank (disp_UrgentWorkloadID op) || blank (disp_UrgentOwnerID op) || (disp_UrgentWorkloadRevision op =? 0)
  || (disp_VictimWorkloadID op ==? disp_UrgentWorkloadID op)
  || blank (disp_AcceleratorID op) || blank (disp_NodeID op) || leaseMismatch op
  || (disp_Fence op =? 0) || (disp_Revision op =? 0) || (MaxInt64 <? disp_Revision op)
  || negb (validLLMDisplacementBinding (disp_VictimBinding op))
  || negb (validLLMDisplacementBinding (disp_UrgentBinding op))
  || (dmb_NodeID (disp_VictimBinding op) !=? disp_NodeID op) || (dmb_NodeID (disp_UrgentBinding op) !=? disp_NodeID op)
  || (dmb_AcceleratorID (disp_VictimBinding op) !=? disp_AcceleratorID op)
  || (dmb_AcceleratorID (disp_UrgentBinding op) !=? disp_AcceleratorID op)
  || blank (disp_ProofBinding op).

(** The loop over the command intents, from index [i] with the command ids
    already seen; it returns all of them. *)
Fixpoint checkIntents (i : nat) (seen : list string) (l : list LLMDisplacementCommandIntent)
  : result (list string) :=
  match l with
  | [] => Ok seen
  | intent :: l =>
      reject blank (dci_Step intent) || blank (dci_CommandID intent) || blank (dci_Digest intent)
          || blank (dci_Signature intent)
        with ErrorsNew "sealed displacement command intent is incomplete";
      reject (displacementSteps !! i !=? Some (dci_Step intent)) || bool_decide (dci_CommandID intent ∈ seen)
        with ErrorsNew "displacement command intent history is malformed";
      checkIntents (S i) (dci_CommandID intent :: seen) l
  end.

(** The loop over the observed results; [commands] are the sealed command ids
    and [seen] the result ids already seen.  The index stays below the number
    of steps because no row has more results than intents. *)
Fixpoint checkResults (commands : list string) (intents : list LLMDisplacementCommandIntent) (i : nat)
    (seen : list string) (l : list LLMDisplacementObservedResult) : result unit :=
  match l with
  | [] => Ok tt
  | r :: l =>
      reject blank (dor_Step r) || blank (dor_CommandID r) || blank (dor_ResultID r) || blank (dor_Digest r)
          || blank (dor_ProofBinding r) || blank (dor_KeyID r) || blank (dor_Signature r)
          || (dor_EnvelopeDigest r !=? observedResultEnvelopeDigest r)
        with ErrorsNew "displacement observed result identity is incomplete";
      reject (displacementSteps !! i !=? Some (dor_Step r)) || bool_decide (dor_ResultID r ∈ seen)
        with ErrorsNew "displacement observed result history is malformed";
      reject negb (bool_decide (dor_CommandID r ∈ commands))
          || ((dci_CommandID <$> intents !! i) !=? Some (dor_CommandID r))
        with ErrorsNew "displacement result is not linked to its unique command intent";
      checkResults commands intents (S i) (dor_ResultID r :: seen) l
  end.

Definition flagsDisagree (op : LLMDisplacementOperation) : bool :=
  (disp_SafeBoundaryObserved op !=? hasDisplacementResult op "pause")
  || (disp_SnapshotObserved op !=? hasDisplacementResult op "snapshot")
  || (disp_VictimStopObserved op !=? hasDisplacementResult op "victim_stop")
  || (disp_UrgentLoadObserved op !=? hasDisplacementResult op "urgent_load")
  || (disp_UrgentStopObserved op !=? hasDisplacementResult op "urgent_stop")
  || (disp_VictimReloadObserved op !=? hasDisplacementResult op "victim_reload")
  || (disp_KVRestoreObserved op !=? hasDisplacementResult op "kv_restore")
  || (disp_LeaseSettled op !=? hasDisplacementResult op "settlement")
  || (disp_SnapshotCustodySettled op !=? hasDisplacementResult op "settlement").

Definition intents (op : LLMDisplacementOperation) : Z := Z.of_nat (length (disp_CommandIntents op)).
Definition results (op : LLMDisplacementOperation) : Z := Z.of_nat (length (disp_ObservedResults op)).

(** The phase fixes how many intents and results the row has, and its
    revision. *)
Definition checkPhaseHistory (op : LLMDisplacementOperation) : result unit :=
  if negb (reconciliationPhase (disp_Phase op)) then
    let phaseIndex := index_of 0 (disp_Phase op) displacementPhases in
    reject phaseIndex <? 0 with ErrorsNew "llm displacement phase is unknown";
    let completed := disp_Phase op ==? "completed"%string in
    let wantIntents := if completed then 8 else (phaseIndex + 1) `div` 2 in
    let wantResults := if completed then 8 else phaseIndex `div` 2 in
    reject negb (intents op =? wantIntents) || negb (results op =? wantResults)
      with ErrorsNew "displacement phase disagrees with sealed intent/result history";
    reject negb (disp_Revision op =? phaseIndex + 1)
      with ErrorsNew "displacement revision disagrees with persisted phase";
    Ok tt
  else
    reject negb (disp_Revision op =? intents op + results op + 2) || (intents op <? results op)
        || (1 <? intents op - results op)
      with ErrorsNew "displacement reconciliation revision disagrees with retained history";
    Ok tt.

Definition checkSnapshot (op : LLMDisplacementOperation) : result unit :=
  let snapshots := filter (fun r => dor_Step r = "snapshot"%string) (disp_ObservedResults op) in
  reject existsb (fun r => disp_SnapshotIdentity op !=? dor_ResultID r) snapshots
    with ErrorsNew "displacement snapshot identity differs from immutable authenticated result";
  reject (disp_SnapshotIdentity op !=? ""%string) !=? (0 <? Z.of_nat (length snapshots))
    with ErrorsNew "displacement snapshot identity lacks authenticated observation";
  Ok tt.

Definition checkCompletion (op : LLMDisplacementOperation) : result unit :=
  let completed := disp_Phase op ==? "completed"%string in
  reject (disp_ObservedProof op !=? ""%string) && negb completed
    with ErrorsNew "completion proof is present before terminal settlement";
  reject completed && negb (disp_SafeBoundaryObserved op && disp_SnapshotObserved op && disp_VictimStopObserved op
        && disp_UrgentLoadObserved op && disp_UrgentStopObserved op && disp_VictimReloadObserved op
        && disp_KVRestoreObserved op && disp_LeaseSettled op && disp_SnapshotCustodySettled op
        && hasDisplacementResult op "settlement" && (disp_ObservedProof op !=? ""%string))
    with ErrorsNew "displacement cannot complete before observed boundaries and custody settlement";
  reject completed && existsb (fun r => (dor_Step r ==? "settlement"%string) && (dor_Digest r !=? disp_ObservedProof op))
                        (disp_ObservedResults op)
    with ErrorsNew "completion proof must match observed custody settlement";
  Ok tt.

Definition validateLLMDisplacementIdentity (op : LLMDisplacementOperation) : result unit :=
  reject identityIncomplete op with ErrorsNew "llm displacement identity is incomplete or inconsistent";
  reject (8192 <? len (disp_ObservedProof op)) || (2048 <? len (disp_LastError op))
      || (Z.of_nat (length displacementSteps) <? intents op) || (Z.of_nat (length displacementSteps) <? results op)
    with ErrorsNew "llm displacement journal field is too long";
  let? commands := checkIntents 0 [] (disp_CommandIntents op) in
  reject intents op <? results op with ErrorsNew "displacement has an unsealed observed result";
  let? _u := checkResults commands (disp_CommandIntents op) 0 [] (disp_ObservedResults op) in
  reject negb (validLLMDisplacementBinding (disp_VictimBinding op))
      || negb (validLLMDisplacementBinding (disp_UrgentBinding op))
    with ErrorsNew "displacement model binding is incomplete";
  reject existsb (fun r => dor_ProofBinding r !=? disp_ProofBinding op) (disp_ObservedResults op)
    with ErrorsNew "displacement observation proof is not bound to orchestration identity";
  reject flagsDisagree op
    with ErrorsNew "displacement observed flags disagree with authenticated result history";
  let? _u := checkPhaseHistory op in
  let? _u := checkSnapshot op in
  checkCompletion op.

(** A row the validation refuses keeps its accelerator too. *)
Definition displacementRecordRetainsCustody (op : LLMDisplacementOperation) : bool :=
  negb (is_ok (validateLLMDisplacementIdentity op)) || (disp_Phase op !=? "completed"%string).

(** ** The world a displacement is created in *)

Definition planMismatch (op : LLMDisplacementOperation) (w : Workload) (b : LLMDisplacementModelBinding) : bool :=
  match w_Plan w with
  | None => true
  | Some plan =>
      (plan_WorkloadID plan !=? req_ID (w_Request w)) || (plan_ID plan !=? dmb_ControllerPlanID b)
      || (plan_PlanHash plan !=? dmb_ControllerPlanHash b) || (plan_TargetID plan !=? dmb_TargetID b)
      || (plan_AcceleratorID plan !=? disp_AcceleratorID op) || (w_ProgressNode w !=? disp_NodeID op)
  end.

Definition validateLLMDisplacementWorld (op : LLMDisplacementOperation) (victim urgent : option Workload)
    (currentLease : option AcceleratorLease) (now : Time) : result unit :=
  match victim, urgent with
  | Some victim, Some urgent =>
      reject (req_ID (w_Request victim) !=? disp_VictimWorkloadID op)
          || (req_ID (w_Request urgent) !=? disp_UrgentWorkloadID op)
          || (req_OwnerID (w_Request victim) !=? disp_VictimOwnerID op)
          || (req_OwnerID (w_Request urgent) !=? disp_UrgentOwnerID op)
          || negb (w_Revision victim =? disp_VictimWorkloadRevision op)
          || negb (w_Revision urgent =? disp_UrgentWorkloadRevision op)
        with ErrLLMDisplacementConflict;
      reject planMismatch op victim (disp_VictimBinding op) with ErrLLMDisplacementConflict;
      reject planMismatch op urgent (disp_UrgentBinding op) with ErrLLMDisplacementConflict;
      match currentLease, disp_OriginalLease op with
      | Some lease, Some original =>
          reject (lease_AcceleratorID lease !=? disp_AcceleratorID op)
              || (lease_WorkloadID lease !=? disp_VictimWorkloadID op)
              || negb (lease_FencingToken lease =? wrap64 (disp_Fence op))
              || negb (lease_ExpiresAt lease =? lease_ExpiresAt original)
              || negb (now <? lease_ExpiresAt lease)
            with ErrLLMDisplacementConflict;
          Ok tt
      | _, _ => Err ErrLLMDisplacementConflict
      end
  | _, _ => Err ErrLLMDisplacementConflict
  end.

Definition prepareLLMDisplacementCreate (now : Time) (op : option LLMDisplacementOperation)
  : result LLMDisplacementOperation :=
  match op with
  | None => Err (ErrorsNew "llm displacement identity is incomplete")
  | Some op =>
      let out := if disp_Phase op ==? ""%string then op <| disp_Phase := "planned"%string |> else op in
      reject (disp_Phase out !=? "planned"%string) || (0 <? intents out) || (0 <? results out)
          || disp_SnapshotObserved out || (disp_SnapshotIdentity out !=? ""%string) || disp_SafeBoundaryObserved out
          || disp_VictimStopObserved out || disp_UrgentLoadObserved out || disp_UrgentStopObserved out
          || disp_VictimReloadObserved out || disp_KVRestoreObserved out || disp_LeaseSettled out
          || disp_SnapshotCustodySettled out || (disp_ObservedProof out !=? ""%string)
          || negb (disp_Revision out =? 0)
        with ErrorsNew "llm displacement must begin as unsealed planned intent";
      let out := out <| disp_Revision := 1 |> in
      let? _u := validateLLMDisplacementIdentity out in
      let out := out <| disp_CreatedAt := if disp_CreatedAt out =? 0 then truncate microsecond now
                                          else truncate microsecond (disp_CreatedAt out) |> in
      let out := out <| disp_UpdatedAt := if disp_UpdatedAt out =? 0 then disp_CreatedAt out
                                          else truncate microsecond (disp_UpdatedAt out) |> in
      Ok out
  end.

(** ** Identity

    The JSON text of a row whose lifecycle fields are cleared: the fields
    without [omitempty], in declaration order.  An instant that does not
    marshal makes the text empty, because the error is dropped. *)
Definition strings_json (l : list string) : json :=
  match l with
  | [] => JNull
  | l => JArray (map JString l)
  end.

Definition time_json (t : Time) : option json := JString <$> rfc3339 t.

Definition lease_json (l : AcceleratorLease) : option json :=
  expires ← time_json (lease_ExpiresAt l);
  Some (JObject [("accelerator_id"%string, JString (lease_AcceleratorID l));
    ("workload_id"%string, JString (lease_WorkloadID l)); ("fencing_token"%string, JNumber (Sprint (lease_FencingToken l)));
    ("expires_at"%string, expires)]).

Definition binding_json (b : LLMDisplacementModelBinding) : json :=
  JObject [("target_id"%string, JString (dmb_TargetID b)); ("node_id"%string, JString (dmb_NodeID b));
    ("accelerator_id"%string, JString (dmb_AcceleratorID b)); ("catalog_model"%string, JString (dmb_CatalogModel b));
    ("catalog_aliases"%string, strings_json (dmb_CatalogAliases b)); ("actual_alias"%string, JString (dmb_ActualAlias b));
    ("local_plan_id"%string, JString (dmb_LocalPlanID b)); ("local_plan_hash"%string, JString (dmb_LocalPlanHash b));
    ("controller_plan_id"%string, JString (dmb_ControllerPlanID b));
    ("controller_plan_hash"%string, JString (dmb_ControllerPlanHash b));
    ("artifact_id"%string, JString (dmb_ArtifactID b)); ("artifact_digest"%string, JString (dmb_ArtifactDigest b));
    ("runtime_identity"%string, JString (dmb_RuntimeIdentity b)); ("profile_identity"%string, JString (dmb_ProfileIdentity b));
    ("context_identity"%string, JString (dmb_ContextIdentity b)); ("checkpoint_id"%string, JString (dmb_CheckpointID b));
    ("checkpoint_digest"%string, JString (dmb_CheckpointDigest b)); ("proof_binding"%string, JString (dmb_ProofBinding b))].

Definition identity_object (op : LLMDisplacementOperation) (lease zero : json) : json :=
  JObject [("id"%string, JString (disp_ID op)); ("idempotency_key"%string, JString (disp_IdempotencyKey op));
    ("owner_id"%string, JString (disp_OwnerID op)); ("victim_workload_id"%string, JString (disp_VictimWorkloadID op));
    ("victim_owner_id"%string, JString (disp_VictimOwnerID op));
    ("victim_workload_revision"%string, JNumber (Sprint (disp_VictimWorkloadRevision op)));
    ("urgent_workload_id"%string, JString (disp_UrgentWorkloadID op));
    ("urgent_owner_id"%string, JString (disp_UrgentOwnerID op));
    ("urgent_workload_revision"%string, JNumber (Sprint (disp_UrgentWorkloadRevision op)));
    ("accelerator_id"%string, JString (disp_AcceleratorID op)); ("node_id"%string, JString (disp_NodeID op));
    ("original_lease"%string, lease); ("fence"%string, JNumber (Sprint (disp_Fence op)));
    ("victim_binding"%string, binding_json (disp_VictimBinding op));
    ("urgent_binding"%string, binding_json (disp_UrgentBinding op));
    ("proof_binding"%string, JString (disp_ProofBinding op)); ("phase"%string, JString "");
    ("revision"%string, JNumber (Sprint 0)); ("created_at"%string, zero); ("updated_at"%string, zero)].

Definition identity_json (op : LLMDisplacementOperation) : option json :=
  lease ← match disp_OriginalLease op with None => Some JNull | Some l => lease_json l end;
  zero ← time_json 0;
  Some (identity_object op lease zero).

Definition identity_text (op : LLMDisplacementOperation) : string :=
  match identity_json op with
  | Some j => print j
  | None => ""
  end.

Definition displacementIdentityEqual (a b : LLMDisplacementOperation) : bool :=
  identity_text a ==? identity_text b.

(** ** Updates *)

#[export] Instance LLMDisplacementCommandIntent_eq_dec : EqDecision LLMDisplacementCommandIntent.
Proof. solve_decision. Defined.
#[export] Instance LLMDisplacementObservedResult_eq_dec : EqDecision LLMDisplacementObservedResult.
Proof. solve_decision. Defined.

(** [for i := range old { if i >= len(next) || old[i] != next[i] { ... } }]. *)
Definition history_kept {A} `{EqDecision A} (old next : list A) : bool :=
  bool_decide (old `prefix_of` next).

Definition boundariesDropped (old next : LLMDisplacementOperation) : bool :=
  (disp_SafeBoundaryObserved old && negb (disp_SafeBoundaryObserved next))
  || (disp_VictimStopObserved old && negb (disp_VictimStopObserved next))
  || (disp_SnapshotObserved old && negb (disp_SnapshotObserved next))
  || (disp_UrgentLoadObserved old && negb (disp_UrgentLoadObserved next))
  || (disp_UrgentStopObserved old && negb (disp_UrgentStopObserved next))
  || (disp_VictimReloadObserved old && negb (disp_VictimReloadObserved next))
  || (disp_KVRestoreObserved old && negb (disp_KVRestoreObserved next))
  || (disp_LeaseSettled old && negb (disp_LeaseSettled next))
  || (disp_SnapshotCustodySettled old && negb (disp_SnapshotCustodySettled next)).

(** The intents and results a phase must append. *)
Definition checkAppends (old next : LLMDisplacementOperation) : result unit :=
  let intentStep := displacementIntentStep (disp_Phase next) in
  let resultStep := displacementResultStep (disp_Phase next) in
  reject if intentStep !=? ""%string
         then negb (intents next =? intents old + 1)
              || ((dci_Step <$> last (disp_CommandIntents next)) !=? Some intentStep)
         else negb (intents next =? intents old)
    with ErrLLMDisplacementConflict;
  reject if resultStep !=? ""%string
         then negb (results next =? results old + 1)
              || ((dor_Step <$> last (disp_ObservedResults next)) !=? Some resultStep)
         else negb (results next =? results old)
    with ErrLLMDisplacementConflict;
  if resultStep !=? ""%string then
    match last (disp_ObservedResults next) with
    | None => Ok tt
    | Some result =>
        let matched := existsb (fun intent => (dci_Step intent ==? resultStep)
                                  && (dci_CommandID intent ==? dor_CommandID result)) (disp_CommandIntents next) in
        reject negb matched || (dor_ProofBinding result !=? disp_ProofBinding next) with ErrLLMDisplacementConflict;
        reject (resultStep ==? "snapshot"%string) && (disp_SnapshotIdentity next !=? dor_ResultID result)
          with ErrLLMDisplacementConflict;
        Ok tt
    end
  else Ok tt.

(** The evidence a phase requires. *)
Definition evidenceMissing (next : LLMDisplacementOperation) : bool :=
  let p := disp_Phase next in
  if p ==? "safe_boundary_paused"%string then negb (disp_SafeBoundaryObserved next)
  else if p ==? "snapshot_captured"%string then
    negb (disp_SafeBoundaryObserved next) || negb (disp_SnapshotObserved next)
    || (disp_SnapshotIdentity next ==? ""%string)
  else if p ==? "victim_stopped"%string then negb (disp_VictimStopObserved next) || negb (disp_SnapshotObserved next)
  else if p ==? "urgent_loaded"%string then negb (disp_UrgentLoadObserved next) || negb (disp_VictimStopObserved next)
  else if p ==? "urgent_stopped"%string then negb (disp_UrgentStopObserved next)
  else if p ==? "victim_reloaded"%string then negb (disp_VictimReloadObserved next)
  else if p ==? "kv_restored"%string then negb (disp_KVRestoreObserved next)
  else if p ==? "settled"%string then
    negb (disp_LeaseSettled next) || negb (disp_SnapshotCustodySettled next)
    || negb (hasDisplacementIntent next "settlement")
  else false.

Definition validateDisplacementUpdate (old next : LLMDisplacementOperation) (expected : Z) : result unit :=
  reject negb (is_ok (validateLLMDisplacementIdentity old)) with ErrLLMDisplacementConflict;
  reject negb (disp_Revision next =? expected) with ErrLLMDisplacementConflict;
  reject MaxInt64 <=? expected with ErrLLMDisplacementConflict;
  reject negb (disp_Revision old =? expected) || (expected =? 0) || (MaxInt64 <=? expected)
      || (MaxInt64 <=? disp_Revision old) || negb (displacementIdentityEqual old next)
      || negb (displacementTransitionAllowed (disp_Phase old) (disp_Phase next))
    with ErrLLMDisplacementConflict;
  reject (disp_SnapshotIdentity old !=? ""%string) && (disp_SnapshotIdentity next !=? disp_SnapshotIdentity old)
    with ErrLLMDisplacementConflict;
  reject boundariesDropped old next with ErrLLMDisplacementConflict;
  reject negb (history_kept (disp_CommandIntents old) (disp_CommandIntents next)) with ErrLLMDisplacementConflict;
  reject negb (history_kept (disp_ObservedResults old) (disp_ObservedResults next)) with ErrLLMDisplacementConflict;
  let? _u := checkAppends old next in
  reject evidenceMissing next with ErrLLMDisplacementConflict;
  validateLLMDisplacementIdentity (next <| disp_Revision := wrapU64 (disp_Revision next + 1) |>).

(** ** Handlers *)

Section handlers.
Context {R : GoRange}.

(** A replayed create: the stored row when it is the same displacement. *)
Definition replayDisplacement (old prepared : LLMDisplacementOperation) (m : MemoryStore)
  : result (MemoryStore * (LLMDisplacementOperation * bool)) :=
  reject negb (is_ok (validateLLMDisplacementIdentity old)) with ErrLLMDisplacementConflict;
  if displacementIdentityEqual old prepared then Ok (m, (old, false)) else Err ErrLLMDisplacementConflict.

(** Some displacement keeps custody of the accelerator. *)
Definition displacementCustody (acceleratorID : string) (m : MemoryStore) : option (string * LLMDisplacementOperation) :=
  range_find (fun _ old => (disp_AcceleratorID old ==? acceleratorID) && displacementRecordRetainsCustody old)
    (llmDisplacementOps m).

Definition CreateLLMDisplacementOperation (now : Time) (op : option LLMDisplacementOperation) (m : MemoryStore)
  : result (MemoryStore * (LLMDisplacementOperation * bool)) :=
  let? prepared := prepareLLMDisplacementCreate now op in
  match llmDisplacementOps m !! disp_ID prepared with
  | Some old => replayDisplacement old prepared m
  | None =>
      let key := key2 (disp_OwnerID prepared) (disp_IdempotencyKey prepared) in
      let id := lookup_string (llmDisplacementKeys m) key in
      if id !=? ""%string then
        match llmDisplacementOps m !! id with
        | Some old => replayDisplacement old prepared m
        | None => Err ErrLLMDisplacementConflict
        end
      else
        match displacementCustody (disp_AcceleratorID prepared) m with
        | Some _ => Err ErrLLMDisplacementConflict
        | None =>
            let? _u := validateLLMDisplacementWorld prepared (workloads m !! disp_VictimWorkloadID prepared)
                         (workloads m !! disp_UrgentWorkloadID prepared) (leases m !! disp_AcceleratorID prepared) now in
            Ok (m <| llmDisplacementOps := <[disp_ID prepared := prepared]> (llmDisplacementOps m) |>
                  <| llmDisplacementKeys := <[key := disp_ID prepared]> (llmDisplacementKeys m) |>,
                (prepared, true))
        end
  end.

Definition GetLLMDisplacementOperation (id : string) (m : MemoryStore) : result LLMDisplacementOperation :=
  match llmDisplacementOps m !! id with
  | Some op => Ok op
  | None => Err ErrNotFound
  end.

Definition GetLLMDisplacementOperationByIdempotency (owner key : string) (m : MemoryStore)
  : result LLMDisplacementOperation :=
  let id := lookup_string (llmDisplacementKeys m) (key2 owner key) in
  reject id ==? ""%string with ErrNotFound;
  match llmDisplacementOps m !! id with
  | Some op => Ok op
  | None => Err ErrNotFound
  end.

Definition UpdateLLMDisplacementOperation (now : Time) (op : option LLMDisplacementOperation) (expected : Z)
    (m : MemoryStore) : result (MemoryStore * LLMDisplacementOperation) :=
  match op with
  | None => Err (ErrorsNew "llm displacement identity is incomplete")
  | Some next =>
      match llmDisplacementOps m !! disp_ID next with
      | None => Err ErrNotFound
      | Some old =>
          let? _u := validateDisplacementUpdate old next expected in
          let next := next <| disp_Revision := wrapU64 (disp_Revision old + 1) |>
                           <| disp_CreatedAt := disp_CreatedAt old |>
                           <| disp_UpdatedAt := truncate microsecond now |> in
          Ok (m <| llmDisplacementOps := <[disp_ID next := next]> (llmDisplacementOps m) |>, next)
      end
  end.

Definition ListLLMDisplacementOperations (owner : string) (m : MemoryStore) : list LLMDisplacementOperation :=
  range_rows (fun op => (owner ==? ""%string) || (disp_OwnerID op ==? owner)) (llmDisplacementOps m).

End handlers.

(** ** What a valid row says *)

Definition valid (op : LLMDisplacementOperation) : Prop := validateLLMDisplacementIdentity op = Ok tt.

Lemma valid_inv op : valid op ->
  identityIncomplete op = false /\
  (exists commands, checkIntents 0 [] (disp_CommandIntents op) = Ok commands /\
     checkResults commands (disp_CommandIntents op) 0 [] (disp_ObservedResults op) = Ok tt) /\
  results op <= intents op <= 8 /\
  (forall r, r ∈ disp_ObservedResults op -> dor_ProofBinding r = disp_ProofBinding op) /\
  flagsDisagree op = false /\ checkPhaseHistory op = Ok tt /\ checkSnapshot op = Ok tt /\ checkCompletion op = Ok tt.
Proof.
  unfold valid, validateLLMDisplacementIdentity. intros H.
  destruct (identityIncomplete op); [discriminate H|]. split; [done|].
  destruct (_ || _) eqn:Hlong in H; [discriminate H|].
  destruct (checkIntents _ _ _) as [commands|] eqn:Hi; [|discriminate H].
  destruct (intents op <? results op) eqn:Hle; [discriminate H|].
  destruct (checkResults _ _ _ _ _) as [[]|] eqn:Hr in H; [|discriminate H].
  destruct (_ || _) in H; [discriminate H|].
  destruct (existsb _ _) eqn:Hproof in H; [discriminate H|].
  destruct (flagsDisagree op) eqn:Hflags in H; [discriminate H|].
  destruct (checkPhaseHistory op) as [[]|] eqn:Hph in H; [|discriminate H].
  destruct (checkSnapshot op) as [[]|] eqn:Hsn in H; [|discriminate H].
  split; [eauto|]. bool_simp. cbn [length displacementSteps] in *. split; [lia|].
  split; [|done]. intros r Hin. pose proof (proj1 (existsb_false _ _) Hproof r Hin) as Hr'.
  simpl in Hr'. by bool_simp.
Qed.

Lemma checkIntents_spec i seen l commands : checkIntents i seen l = Ok commands ->
  (forall j x, l !! j = Some x -> displacementSteps !! (i + j)%nat = Some (dci_Step x)) /\
  NoDup (map dci_CommandID l) /\ (forall x, x ∈ l -> dci_CommandID x ∉ seen).
Proof.
  revert i seen. induction l as [|x l IH]; intros i seen H; simpl in H.
  { split; [by intros j x Hj; rewrite lookup_nil in Hj|]. split; [constructor|by intros x ?%elem_of_nil]. }
  destruct (_ || _) in H; [discriminate H|]. destruct (_ || _) eqn:Hx in H; [discriminate H|]. bool_simp.
  apply IH in H as (Hsteps & Hnd & Hfresh). split; [|split].
  - intros [|j] y Hy; [by simplify_eq/=; rewrite Nat.add_0_r|]. rewrite Nat.add_succ_r. by apply (Hsteps j).
  - constructor; [|done]. intros (y & E & Hy)%list_elem_of_fmap. apply (Hfresh y Hy). rewrite E. left.
  - intros y [->|Hy]%elem_of_cons; [done|]. intros Hin. apply (Hfresh y Hy). by right.
Qed.

(** The [j]-th result is the observation of the [j]-th step under the command
    sealed for it. *)
Lemma checkResults_spec commands cis i seen l : checkResults commands cis i seen l = Ok tt ->
  (forall j r, l !! j = Some r -> displacementSteps !! (i + j)%nat = Some (dor_Step r) /\
     dci_CommandID <$> cis !! (i + j)%nat = Some (dor_CommandID r) /\
     dor_EnvelopeDigest r = observedResultEnvelopeDigest r).
Proof.
  revert i seen. induction l as [|x l IH]; intros i seen H; cbn [checkResults] in H.
  { by intros j x Hj; rewrite lookup_nil in Hj. }
  destruct (_ || _) eqn:Hb in H; [discriminate H|]. destruct (_ || _) eqn:Hx in H; [discriminate H|].
  destruct (_ || _) eqn:Hc in H; [discriminate H|].
  apply orb_false_iff in Hb as [_ Hb]. bool_simp. specialize (IH _ _ H).
  intros [|j] y Hy; [simplify_eq/=; rewrite Nat.add_0_r; auto|]. rewrite Nat.add_succ_r. by apply (IH j).
Qed.

Lemma displacementSteps_NoDup : NoDup displacementSteps.
Proof. apply (bool_decide_unpack _). by vm_compute. Qed.

(** The observed steps of a valid row are the first ones, in order. *)
Lemma observed_iff op k step : valid op -> displacementSteps !! k = Some step ->
  hasDisplacementResult op step = true <-> (k < length (disp_ObservedResults op))%nat.
Proof.
  intros (_ & (commands & _ & Hr) & _)%valid_inv Hk. pose proof (checkResults_spec _ _ _ _ _ Hr) as Hstep. simpl in Hstep.
  unfold hasDisplacementResult. rewrite existsb_true. split.
  - intros (r & Hin & E%bool_decide_eq_true). apply list_elem_of_lookup in Hin as [j Hj].
    destruct (Hstep j r Hj) as [Hs _]. rewrite E in Hs.
    rewrite (NoDup_lookup _ _ _ _ displacementSteps_NoDup Hk Hs). by eapply lookup_lt_Some.
  - intros Hlt. apply lookup_lt_is_Some in Hlt as [r Hrk]. exists r.
    split; [by eapply list_elem_of_lookup_2|]. apply bool_decide_eq_true. destruct (Hstep k r Hrk). congruence.
Qed.

Lemma index_of_spec i x l : index_of i x l = -1 \/
  (i <= index_of i x l /\ l !! Z.to_nat (index_of i x l - i) = Some x).
Proof.
  revert i. induction l as [|y l IH]; intros i; simpl; [by left|].
  case_bool_decide as E; [subst; right; rewrite Z.sub_diag; split; [lia|done]|].
  destruct (IH (i + 1)) as [->|[Hle Hl]]; [by left|]. right. split; [lia|].
  replace (Z.to_nat (index_of (i + 1) x l - i)) with (S (Z.to_nat (index_of (i + 1) x l - (i + 1)))) by lia. done.
Qed.

Lemma index_of_phase p i : displacementPhases !! i = Some p -> index_of 0 p displacementPhases = Z.of_nat i.
Proof.
  intros H. destruct (le_lt_dec 18 i) as [Hi|Hi]; [by rewrite lookup_ge_None_2 in H|].
  do 18 (destruct i as [|i]; [injection H as <-; by vm_compute|]). lia.
Qed.

Lemma phase_not_reconciliation p i : displacementPhases !! i = Some p -> reconciliationPhase p = false.
Proof.
  intros H. destruct (le_lt_dec 18 i) as [Hi|Hi]; [by rewrite lookup_ge_None_2 in H|].
  do 18 (destruct i as [|i]; [injection H as <-; by vm_compute|]). lia.
Qed.

(** The position of a row in the journal. *)
Definition position (op : LLMDisplacementOperation) : Z := intents op + results op.

(** The journal of a valid row: its phase determines how much of it is written. *)
Inductive journal (op : LLMDisplacementOperation) : Prop :=
  | j_phase i : displacementPhases !! i = Some (disp_Phase op) -> (i <= 16)%nat ->
      position op = Z.of_nat i -> results op = Z.of_nat i `div` 2 -> disp_Revision op = Z.of_nat i + 1 -> journal op
  | j_completed : disp_Phase op = "completed"%string -> intents op = 8 -> results op = 8 -> disp_Revision op = 18 ->
      journal op
  | j_reconciliation : reconciliationPhase (disp_Phase op) = true -> disp_Revision op = position op + 2 ->
      results op <= intents op <= results op + 1 -> journal op.

Lemma valid_journal op : valid op -> journal op.
Proof.
  intros (_ & _ & _ & _ & _ & H & _)%valid_inv. unfold checkPhaseHistory in H.
  destruct (reconciliationPhase (disp_Phase op)) eqn:Hrec; cbn [negb] in H.
  { destruct (_ || _) eqn:E in H; [discriminate H|]. bool_simp. apply j_reconciliation; unfold position; [done|lia..]. }
  destruct (index_of_spec 0 (disp_Phase op) displacementPhases) as [Hi|[Hge Hi]]; [by rewrite Hi in H|].
  rewrite Z.sub_0_r in Hi. set (i := Z.to_nat _) in Hi. rewrite (index_of_phase _ _ Hi) in H. clearbody i. clear Hge.
  replace (Z.of_nat i <? 0) with false in H by (symmetry; apply Z.ltb_ge; lia).
  pose proof (lookup_lt_Some _ _ _ Hi) as Hlt. cbn [length displacementPhases] in Hlt.
  case_bool_decide as Hc; destruct (_ || _) eqn:E in H; try discriminate H;
    destruct (negb _) eqn:Hrev in H; try discriminate H; bool_simp.
  - assert (i = 17%nat) as -> by (pose proof (index_of_phase _ _ Hi) as X; rewrite Hc in X; change (17 = Z.of_nat i) in X; lia).
    apply j_completed; [done|lia..].
  - destruct (decide (i = 17%nat)) as [->|]; [by injection Hi as Hi|].
    apply (j_phase op i); [done|lia|unfold position|lia|lia].
    pose proof (Z.div_mod (Z.of_nat i) 2 ltac:(lia)). pose proof (Z.mod_pos_bound (Z.of_nat i) 2 ltac:(lia)).
    assert ((Z.of_nat i + 1) `div` 2 = Z.of_nat i - Z.of_nat i `div` 2); [|lia].
    symmetry. apply (Z.div_unique_pos _ _ _ (1 - Z.of_nat i `mod` 2)); lia.
Qed.

(** ** What the handlers do *)

(** How one update changes a stored row. *)
Record drow_step (a b : LLMDisplacementOperation) : Prop := {
  ds_old : valid a;
  ds_valid : valid b;
  ds_identity : identity_text b = identity_text a;
  ds_id : disp_ID b = disp_ID a;
  ds_created : disp_CreatedAt b = disp_CreatedAt a;
  ds_revision : disp_Revision b = disp_Revision a + 1;
  ds_phase : displacementTransitionAllowed (disp_Phase a) (disp_Phase b) = true;
  ds_intents : disp_CommandIntents a `prefix_of` disp_CommandIntents b;
  ds_results : disp_ObservedResults a `prefix_of` disp_ObservedResults b;
}.

(** Times are not part of the validation. *)
Lemma valid_times op r c u : valid (op <| disp_Revision := r |>) ->
  valid (op <| disp_Revision := r |> <| disp_CreatedAt := c |> <| disp_UpdatedAt := u |>).
Proof. exact (fun H => H). Qed.

Lemma valid_revision op : valid op -> 0 < disp_Revision op <= 18.
Proof.
  intros Hv. pose proof (valid_inv _ Hv) as (_ & _ & Hle & _). destruct (valid_journal _ Hv); unfold position in *.
  - lia.
  - lia.
  - unfold intents, results in *. lia.
Qed.

Lemma validateDisplacementUpdate_spec old next expected :
  validateDisplacementUpdate old next expected = Ok tt ->
  valid old /\ valid (next <| disp_Revision := wrapU64 (disp_Revision next + 1) |>) /\
  disp_Revision next = expected /\ disp_Revision old = expected /\
  displacementIdentityEqual old next = true /\ displacementTransitionAllowed (disp_Phase old) (disp_Phase next) = true /\
  disp_CommandIntents old `prefix_of` disp_CommandIntents next /\
  disp_ObservedResults old `prefix_of` disp_ObservedResults next.
Proof.
  unfold validateDisplacementUpdate, valid, history_kept. intros H.
  destruct (validateLLMDisplacementIdentity old) as [[]|] eqn:Hv; [cbn [is_ok negb] in H|discriminate H].
  destruct (negb (disp_Revision next =? _)) eqn:Hn in H; [discriminate H|].
  destruct (MaxInt64 <=? _) in H; [discriminate H|].
  destruct (_ || _) eqn:Hc in H; [discriminate H|].
  destruct (_ && _) in H; [discriminate H|].
  destruct (boundariesDropped _ _) in H; [discriminate H|].
  destruct (negb (bool_decide _)) eqn:Hi in H; [discriminate H|].
  destruct (negb (bool_decide _)) eqn:Hr in H; [discriminate H|].
  destruct (checkAppends _ _) as [[]|] in H; [|discriminate H].
  destruct (evidenceMissing _) in H; [discriminate H|].
  apply orb_false_iff in Hc as [Hc Ht]. apply orb_false_iff in Hc as [Hc He].
  apply negb_false_iff in Ht, He. bool_simp. auto 10.
Qed.

Lemma UpdateLLMDisplacementOperation_spec now op expected m m' row :
  UpdateLLMDisplacementOperation now op expected m = Ok (m', row) ->
  exists next old, op = Some next /\ llmDisplacementOps m !! disp_ID row = Some old /\
    disp_Revision old = expected /\
    (exists r c u, row = next <| disp_Revision := r |> <| disp_CreatedAt := c |> <| disp_UpdatedAt := u |>) /\
    identity_text old = identity_text row /\ (disp_ID old = disp_ID row -> drow_step old row) /\
    m' = m <| llmDisplacementOps := <[disp_ID row := row]> (llmDisplacementOps m) |>.
Proof.
  unfold UpdateLLMDisplacementOperation. destruct op as [next|]; [|done]. intros H.
  destruct (llmDisplacementOps m !! disp_ID next) as [old|] eqn:Hold; [|discriminate H].
  destruct (validateDisplacementUpdate _ _ _) as [[]|] eqn:Hv in H; [|discriminate H].
  injection H as <- <-. exists next, old.
  apply validateDisplacementUpdate_spec in Hv as (Ho & Hn & Hrn & Hro & Hid & Ht & Hi & Hr).
  apply bool_decide_eq_true in Hid. pose proof (valid_revision _ Ho) as Hrev.
  rewrite Hrn, <- Hro, wrapU64_small in Hn by (unfold two64; lia).
  do 3 (split; [done|]). split; [by eexists _, _, _|]. split; [done|]. split; [|reflexivity]. intros E. split; try done.
  - cbn -[valid]. rewrite wrapU64_small by (unfold two64; lia). exact Hn.
  - cbn. apply wrapU64_small. unfold two64. lia.
Qed.
