(* ===== verification/DisplacementInv.v ===== *)
(** * Displacement operations: identity and table invariant

    The identity comparison through JSON text decides equality of the
    immutable fields when both rows can be printed and hold valid UTF-8; rows
    keep their identity, and an accelerator has at most one displacement that
    retains custody. *)

From S2P Require Import Prelude GoText SHA256 GoTime Domain DomainWorkload DomainNode GoJSON Store Displacement.

(** ** Numbers *)

Lemma digit_char_ok x : in_range 48 57 (pretty_N_char x) = true.
Proof. unfold pretty_N_char. by repeat case_match. Qed.

Lemma pretty_N_go_digits x s : all_chars number_char s = true -> all_chars number_char (pretty_N_go x s) = true.
Proof.
  revert s. induction (N.lt_wf_0 x) as [x _ IH]; intros s Hs.
  destruct (decide (x = 0%N)) as [->|]; [by rewrite pretty_N_go_0|].
  rewrite pretty_N_go_step by lia. apply IH; [apply N.div_lt; lia|]. simpl.
  unfold number_char at 1. by rewrite digit_char_ok, Hs.
Qed.

(** A digit string that starts with a digit. *)
Definition digits (s : string) : Prop :=
  match s with String c _ => in_range 48 57 c = true | EmptyString => False end.

Lemma pretty_N_go_first x s : digits s -> digits (pretty_N_go x s).
Proof.
  revert s. induction (N.lt_wf_0 x) as [x _ IH]; intros s Hs.
  destruct (decide (x = 0%N)) as [->|]; [by rewrite pretty_N_go_0|].
  rewrite pretty_N_go_step by lia. apply IH; [apply N.div_lt; lia|]. apply digit_char_ok.
Qed.

Lemma pretty_N_ok (x : N) : digits (pretty x) /\ all_chars number_char (pretty x) = true.
Proof.
  unfold pretty, pretty_N. case_decide as E; [done|]. split; [|by apply pretty_N_go_digits].
  rewrite pretty_N_go_step by lia. apply pretty_N_go_first, digit_char_ok.
Qed.

Lemma Sprint_ok z : number_ok (Sprint z) = true.
Proof.
  assert (forall p, number_ok (pretty (N.pos p)) = true) as Hpos.
  { intros p. destruct (pretty_N_ok (N.pos p)) as [Hd Ha]. unfold number_ok.
    destruct (pretty (N.pos p)) as [|c s]; [done|]. simpl in Hd. by rewrite Hd, Ha. }
  destruct z as [|p|p]; [done|apply Hpos|].
  change (Sprint (Z.neg p)) with ("-" +:+ pretty (N.pos p))%string.
  destruct (pretty_N_ok (N.pos p)) as [_ Ha]. cbn. exact Ha.
Qed.

(** ** Instants print in ASCII *)

Definition ascii7 (c : Ascii.ascii) : bool := (code c <? 128)%N.

Lemma runes_go_ascii n s : all_chars ascii7 s = true -> forallb (fun r => bool_decide (is_Some r)) (runes_go n s) = true.
Proof.
  revert s. induction n as [|n IH]; intros [|a s] Hs; try done. cbn [all_chars] in Hs. bool_simp.
  cbn [runes_go]. unfold decode. unfold ascii7 in *. rewrite H. cbn [forallb]. by apply IH.
Qed.

Lemma ascii_utf8 s : all_chars ascii7 s = true -> utf8_valid s = true.
Proof. apply runes_go_ascii. Qed.

Lemma all_chars_app p a b : all_chars p (a +:+ b) = all_chars p a && all_chars p b.
Proof. induction a as [|c a IH]; simpl; [done|]. by rewrite IH, andb_assoc. Qed.

Lemma fixed_ascii k n : all_chars ascii7 (fixed k n) = true.
Proof.
  revert n. induction k as [|k IH]; intros n; [done|]. cbn [fixed]. rewrite all_chars_app, IH. cbn [all_chars andb].
  rewrite andb_true_r. unfold ascii7, code, digit. pose proof (Z.mod_pos_bound n 10 ltac:(lia)).
  rewrite Ascii.N_ascii_embedding by lia. apply N.ltb_lt. lia.
Qed.

Lemma trim0_chars p s : all_chars p s = true -> all_chars p (trim0 s) = true.
Proof.
  induction s as [|c s IH]; [done|]. cbn [all_chars trim0]. intros Hs. bool_simp. specialize (IH H0).
  destruct (trim0 s); [destruct (Ascii.eqb c "0"); [done|]|]; cbn [all_chars] in *; by rewrite H.
Qed.

Lemma rfc3339_utf8 t s : rfc3339 t = Some s -> utf8_valid s = true.
Proof.
  unfold rfc3339. destruct (civil _) as [[y mo] d]. destruct (_ || _); [done|]. intros E. apply (inj Some) in E as <-.
  apply ascii_utf8. rewrite !all_chars_app, !fixed_ascii. unfold fraction.
  destruct (_ =? 0); [done|]. cbn [all_chars]. rewrite trim0_chars by apply fixed_ascii. done.
Qed.

(** ** Texts of rows *)

Definition binding_strings (b : LLMDisplacementModelBinding) : list string :=
  [dmb_TargetID b; dmb_NodeID b; dmb_AcceleratorID b; dmb_CatalogModel b; dmb_ActualAlias b; dmb_LocalPlanID b;
   dmb_LocalPlanHash b; dmb_ControllerPlanID b; dmb_ControllerPlanHash b; dmb_ArtifactID b; dmb_ArtifactDigest b;
   dmb_RuntimeIdentity b; dmb_ProfileIdentity b; dmb_ContextIdentity b; dmb_CheckpointID b; dmb_CheckpointDigest b;
   dmb_ProofBinding b] ++ dmb_CatalogAliases b.

Definition lease_strings (l : option AcceleratorLease) : list string :=
  match l with None => [] | Some l => [lease_AcceleratorID l; lease_WorkloadID l] end.

Definition row_strings (op : LLMDisplacementOperation) : list string :=
  [disp_ID op; disp_IdempotencyKey op; disp_OwnerID op; disp_VictimWorkloadID op; disp_VictimOwnerID op;
   disp_UrgentWorkloadID op; disp_UrgentOwnerID op; disp_AcceleratorID op; disp_NodeID op; disp_ProofBinding op]
  ++ lease_strings (disp_OriginalLease op) ++ binding_strings (disp_VictimBinding op)
  ++ binding_strings (disp_UrgentBinding op).

(** Every string of the identity is valid UTF-8, as in a decoded request. *)
Definition utf8_row (op : LLMDisplacementOperation) : bool := forallb utf8_valid (row_strings op).

(** The row with its lifecycle fields cleared. *)
Definition cleared (op : LLMDisplacementOperation) : LLMDisplacementOperation :=
  op <| disp_Phase := ""%string |> <| disp_Revision := 0 |> <| disp_CommandIntents := [] |> <| disp_ObservedResults := [] |>
     <| disp_SnapshotIdentity := ""%string |> <| disp_SafeBoundaryObserved := false |> <| disp_VictimStopObserved := false |>
     <| disp_SnapshotObserved := false |> <| disp_UrgentLoadObserved := false |> <| disp_UrgentStopObserved := false |>
     <| disp_VictimReloadObserved := false |> <| disp_KVRestoreObserved := false |> <| disp_LeaseSettled := false |>
     <| disp_SnapshotCustodySettled := false |> <| disp_ObservedProof := ""%string |> <| disp_LastError := ""%string |>
     <| disp_CreatedAt := 0 |> <| disp_UpdatedAt := 0 |>.

Lemma strings_json_ok l : json_ok (strings_json l) = true.
Proof.
  destruct l as [|x l]; [done|]. cbn [strings_json json_ok]. induction (x :: l) as [|y l' IH]; [done|exact IH].
Qed.

Lemma binding_json_ok b : json_ok (binding_json b) = true.
Proof. unfold binding_json. cbn [json_ok forallb snd]. by rewrite strings_json_ok. Qed.

Lemma identity_json_ok op j : identity_json op = Some j -> json_ok j = true.
Proof.
  unfold identity_json, lease_json, time_json, identity_object. change (rfc3339 0) with (Some "0001-01-01T00:00:00Z"%string).
  destruct (disp_OriginalLease op) as [l|]; [destruct (rfc3339 (lease_ExpiresAt l)); [|done]|];
    intros [= <-]; cbn [json_ok forallb snd]; by rewrite !Sprint_ok, !binding_json_ok.
Qed.

(** Equal trees of objects have equal member trees. *)
Lemma tree_members l l' : tree (JObject l) = tree (JObject l') ->
  map (fun kv => tree kv.2) l = map (fun kv => tree kv.2) l'.
Proof.
  intros E. injection E as E. revert l' E. induction l as [|x l IH]; intros [|y l'] E; try discriminate E; [done|].
  injection E as _ E1 E. simpl. by rewrite E1, (IH l' E).
Qed.

Lemma strings_inj l l' : forallb utf8_valid l = true -> forallb utf8_valid l' = true ->
  tree (strings_json l) = tree (strings_json l') -> l = l'.
Proof.
  intros Hl Hl' E. destruct l as [|x l], l' as [|y l']; try discriminate E; [done|].
  apply (f_equal (fun t => match t with TArray l => l | _ => [] end)) in E.
  change (map tree (map JString (x :: l)) = map tree (map JString (y :: l'))) in E. rewrite !map_map in E. revert Hl Hl' E. generalize (x :: l), (y :: l'). clear x l y l'.
  intros l l' Hl Hl'. revert l' Hl'. induction l as [|x l IH]; intros [|y l'] Hl' E; try discriminate E; [done|].
  cbn [forallb map tree] in *. bool_simp. injection E as E1 E. f_equal; [by apply runes_inj|by apply IH].
Qed.

(** Split an equation between lists of member trees. *)
Ltac split_members E :=
  repeat match type of E with
  | _ :: _ = _ :: _ => let E1 := fresh "Em" in
      pose proof (f_equal (fun l => match l with x :: _ => x | [] => TNull end) E) as E1;
      apply (f_equal tail) in E; cbn [tail] in E; cbn beta iota in E1
  end.

(** Read the equation of two printed strings back. *)
Ltac read_strings :=
  repeat match goal with
  | H : tree (JString _) = tree (JString _) |- _ =>
      apply (f_equal (fun t => match t with TString s => s | _ => [] end)) in H; cbn beta iota in H;
      apply runes_inj in H; [|assumption..]
  | H : tree (JNumber _) = tree (JNumber _) |- _ =>
      apply (f_equal (fun t => match t with TNumber s => s | _ => ""%string end)) in H; cbn beta iota in H;
      apply (inj pretty) in H
  end.

Lemma forallb_app_true {A} (p : A -> bool) l l' : forallb p (l ++ l') = true <-> forallb p l = true /\ forallb p l' = true.
Proof. rewrite forallb_app. apply andb_true_iff. Qed.

Lemma binding_inj b b' : forallb utf8_valid (binding_strings b) = true -> forallb utf8_valid (binding_strings b') = true ->
  tree (binding_json b) = tree (binding_json b') -> b = b'.
Proof.
  unfold binding_strings. rewrite !forallb_app_true. cbn [forallb]. intros [Hb Ha] [Hb' Ha'] E. bool_simp.
  apply tree_members in E. cbn [map snd] in E. split_members E. read_strings.
  match goal with H : tree (strings_json _) = _ |- _ => apply strings_inj in H; [|assumption..] end.
  destruct b, b'. cbn in *. subst. reflexivity.
Qed.

Lemma lease_inj l l' j j' : forallb utf8_valid (lease_strings (Some l)) = true ->
  forallb utf8_valid (lease_strings (Some l')) = true ->
  lease_json l = Some j -> lease_json l' = Some j' -> tree j = tree j' -> l = l'.
Proof.
  unfold lease_json, time_json. cbn [lease_strings forallb]. intros Hl Hl'. bool_simp.
  destruct (rfc3339 (lease_ExpiresAt l)) as [t|] eqn:Ht; [|done].
  destruct (rfc3339 (lease_ExpiresAt l')) as [t'|] eqn:Ht'; [|done].
  intros [= <-] [= <-] E. apply tree_members in E. cbn [map snd] in E. split_members E.
  assert (t = t') as <-.
  { apply runes_inj; [by apply (rfc3339_utf8 (lease_ExpiresAt l))|by apply (rfc3339_utf8 (lease_ExpiresAt l'))|].
    by injection Em2. }
  clear Em2. read_strings. pose proof (rfc3339_inj _ _ _ Ht Ht'). destruct l, l'. cbn in *. by subst.
Qed.

(** ** The identity comparison *)

(** A row whose text exists. *)
Definition printable (op : LLMDisplacementOperation) : bool := bool_decide (is_Some (identity_json op)).

Definition zero_json : json := JString "0001-01-01T00:00:00Z".

Lemma identity_json_shape op j : identity_json op = Some j -> exists lease, j = identity_object op lease zero_json /\
  match disp_OriginalLease op with None => lease = JNull | Some l => lease_json l = Some lease end.
Proof.
  unfold identity_json. change (time_json 0) with (Some zero_json).
  destruct (disp_OriginalLease op) as [l|]; [destruct (lease_json l) as [jl|]; [|done]|]; intros [= <-]; eauto.
Qed.

Lemma members_inj a b ja jb : utf8_row a = true -> utf8_row b = true ->
  tree (identity_object a ja zero_json) = tree (identity_object b jb zero_json) ->
  tree ja = tree jb /\ (disp_OriginalLease a = disp_OriginalLease b -> cleared a = cleared b).
Proof.
  unfold utf8_row, row_strings. rewrite !forallb_app_true. cbn [forallb].
  intros (Ha & _ & Hav & Hau) (Hb & _ & Hbv & Hbu) E. bool_simp.
  apply tree_members in E. cbn [map snd] in E. split_members E.
  apply binding_inj in Em12, Em13; [|assumption..]. split; [exact Em10|]. intros El. clear Em10 E.
  read_strings. destruct a, b. cbn in *. subst. reflexivity.
Qed.

Lemma print_nonempty j : json_ok j = true -> print j <> ""%string.
Proof. intros (c & s & -> & _)%print_first. done. Qed.

Lemma identity_text_printable op : printable op = true -> identity_text op <> ""%string.
Proof.
  unfold printable, identity_text. intros [j Hj]%bool_decide_eq_true. rewrite Hj. by apply print_nonempty, (identity_json_ok op).
Qed.

Lemma identity_text_unprintable op : printable op = false -> identity_text op = ""%string.
Proof. unfold printable, identity_text. destruct (identity_json op); [done|reflexivity]. Qed.

(** Equal texts mean equal identities. *)
Lemma identity_text_inj a b : utf8_row a = true -> utf8_row b = true -> printable a = true ->
  identity_text a = identity_text b -> cleared a = cleared b.
Proof.
  intros Ha Hb Hp E. destruct (printable b) eqn:Hpb.
  2:{ rewrite (identity_text_unprintable b Hpb) in E. by destruct (identity_text_printable a Hp). }
  unfold printable, identity_text in *. bool_simp. destruct Hp as [ja Hja], Hpb as [jb Hjb]. rewrite Hja, Hjb in E.
  apply print_inj in E; [|by eapply identity_json_ok..].
  apply identity_json_shape in Hja as (la & -> & Hla), Hjb as (lb & -> & Hlb).
  apply members_inj in E as [El Hc]; [|done..]. apply Hc. unfold utf8_row, row_strings in *.
  rewrite !forallb_app_true in Ha, Hb. destruct Ha as (_ & Ha & _), Hb as (_ & Hb & _).
  destruct (disp_OriginalLease a) as [l|] eqn:Hl, (disp_OriginalLease b) as [l'|] eqn:Hl'; [|exfalso..|done].
  - f_equal. by eapply lease_inj.
  - subst lb. unfold lease_json in Hla. destruct (time_json _); [|discriminate Hla]. by injection Hla as <-.
  - subst la. unfold lease_json in Hlb. destruct (time_json _); [|discriminate Hlb]. by injection Hlb as <-.
Qed.

Lemma cleared_text a b : cleared a = cleared b -> identity_text a = identity_text b.
Proof. intros E. change (identity_text (cleared a) = identity_text (cleared b)). by rewrite E. Qed.

Lemma cleared_device a b : cleared a = cleared b ->
  disp_AcceleratorID a = disp_AcceleratorID b /\
  key2 (disp_OwnerID a) (disp_IdempotencyKey a) = key2 (disp_OwnerID b) (disp_IdempotencyKey b).
Proof.
  intros E. split.
  - exact (f_equal disp_AcceleratorID E).
  - exact (f_equal (fun c => key2 (disp_OwnerID c) (disp_IdempotencyKey c)) E).
Qed.

(** ** Instants of leases

    A lease that expires before March of year 9600 prints. *)
Definition lease_horizon : Time := (24 * 146097 - 306) * day_ns.

Lemma rfc3339_printable t : 0 <= t < lease_horizon -> is_Some (rfc3339 t).
Proof.
  intros [H0 H1]. unfold rfc3339, civil. set (z := t `div` day_ns + 306).
  assert (306 <= z < 24 * 146097) as Hz.
  { subst z. split; [enough (0 <= t `div` day_ns) by lia; by apply Z.div_pos|].
    enough (t `div` day_ns < 24 * 146097 - 306) by lia. apply Z.div_lt_upper_bound; [done|].
    unfold lease_horizon in H1. lia. }
  pose proof (cycle_ok_all _ (Z.mod_pos_bound z 146097 ltac:(lia))) as Hok. unfold cycle_ok in Hok.
  destruct (civil_of_cycle (z `mod` 146097)) as [[y mo] d]. bool_simp.
  assert (0 <= z `div` 146097 <= 23).
  { split; [apply Z.div_pos; lia|]. apply Z.lt_succ_r, Z.div_lt_upper_bound; lia. }
  assert (0 <= y <= 400) by (destruct (mo <=? 2); lia).
  destruct (_ || _) eqn:E; [|done]. exfalso. apply orb_true_iff in E as [E|E]; bool_simp; lia.
Qed.

(** ** The handlers as table steps *)

Definition custody (op : LLMDisplacementOperation) : Prop := disp_Phase op <> "completed"%string.

Lemma retainsCustody_custody op : custody op -> displacementRecordRetainsCustody op = true.
Proof.
  unfold custody, displacementRecordRetainsCustody. intros H. by rewrite (bool_decide_eq_false_2 _ H), orb_true_r.
Qed.

Lemma transitionAllowed_open p q : displacementTransitionAllowed p q = true -> p <> "completed"%string.
Proof. intros H ->. unfold displacementTransitionAllowed in H. by destruct (reconciliationPhase q). Qed.

Lemma prepareDisplacement_spec now op p : prepareLLMDisplacementCreate now op = Ok p ->
  exists op0, op = Some op0 /\ valid p /\ disp_Phase p = "planned"%string /\ cleared p = cleared op0.
Proof.
  unfold prepareLLMDisplacementCreate. destruct op as [op|]; [|done]. intros H. exists op. split; [done|].
  set (out := if disp_Phase op ==? ""%string then op <| disp_Phase := "planned"%string |> else op) in H.
  assert (cleared out = cleared op) as Hc by (subst out; clear H; by destruct (disp_Phase op ==? "")). clearbody out.
  destruct (_ || _) eqn:Hb in H; [discriminate H|].
  destruct (validateLLMDisplacementIdentity _) as [[]|] eqn:Hv in H; [|discriminate H].
  repeat (apply orb_false_iff in Hb as [Hb _]). apply negb_bool_decide_false in Hb.
  injection H as <-. split; [exact Hv|]. split; [exact Hb|]. exact Hc.
Qed.

Lemma world_lease op victim urgent lease now : validateLLMDisplacementWorld op victim urgent lease now = Ok tt ->
  exists cur orig, lease = Some cur /\ disp_OriginalLease op = Some orig /\
    lease_ExpiresAt cur = lease_ExpiresAt orig /\ now < lease_ExpiresAt cur /\
    lease_WorkloadID cur = disp_VictimWorkloadID op /\ lease_FencingToken cur = wrap64 (disp_Fence op).
Proof.
  unfold validateLLMDisplacementWorld. destruct victim as [v|], urgent as [u|]; try done. intros H.
  destruct (_ || _) in H; [discriminate H|]. destruct (planMismatch _ _ _) in H; [discriminate H|].
  destruct (planMismatch _ _ _) in H; [discriminate H|].
  destruct lease as [cur|], (disp_OriginalLease op) as [orig|]; try discriminate H.
  destruct (_ || _) eqn:E in H; [discriminate H|]. bool_simp. eauto 10.
Qed.

Lemma CreateLLMDisplacementOperation_spec {R : GoRange} now op m m' row created :
  CreateLLMDisplacementOperation now op m = Ok (m', (row, created)) ->
  exists op0 p, op = Some op0 /\ valid p /\ disp_Phase p = "planned"%string /\ cleared p = cleared op0 /\
    if created
    then row = p /\
         m' = m <| llmDisplacementOps := <[disp_ID p := p]> (llmDisplacementOps m) |>
                <| llmDisplacementKeys := <[key2 (disp_OwnerID p) (disp_IdempotencyKey p) := disp_ID p]> (llmDisplacementKeys m) |> /\
         llmDisplacementOps m !! disp_ID p = None /\
         lookup_string (llmDisplacementKeys m) (key2 (disp_OwnerID p) (disp_IdempotencyKey p)) = ""%string /\
         (forall k a, llmDisplacementOps m !! k = Some a -> disp_AcceleratorID a = disp_AcceleratorID p -> ~ custody a) /\
         validateLLMDisplacementWorld p (workloads m !! disp_VictimWorkloadID p) (workloads m !! disp_UrgentWorkloadID p)
           (leases m !! disp_AcceleratorID p) now = Ok tt
    else m' = m /\ valid row /\ identity_text row = identity_text p /\ exists k, llmDisplacementOps m !! k = Some row.
Proof.
  unfold CreateLLMDisplacementOperation. intros H.
  destruct (prepareLLMDisplacementCreate now op) as [p|] eqn:Hp; [|discriminate H].
  destruct (prepareDisplacement_spec _ _ _ Hp) as (op0 & -> & Hv & Hph & Hc). exists op0, p. do 4 (split; [done|]).
  assert (forall k old, llmDisplacementOps m !! k = Some old -> replayDisplacement old p m = Ok (m', (row, created)) ->
    created = false /\ m' = m /\ valid row /\ identity_text row = identity_text p /\ exists k, llmDisplacementOps m !! k = Some row) as Hreplay.
  { intros k old Hk Hr. unfold replayDisplacement in Hr.
    destruct (validateLLMDisplacementIdentity old) as [[]|] eqn:Hvo; [cbn in Hr|discriminate Hr].
    destruct (displacementIdentityEqual old p) eqn:He; [|discriminate Hr]. injection Hr as <- <- <-.
    apply bool_decide_eq_true in He. eauto 10. }
  destruct (llmDisplacementOps m !! disp_ID p) as [old|] eqn:Hold.
  { destruct (Hreplay _ _ Hold H) as [-> Hf]. exact Hf. }
  destruct (lookup_string _ _ !=? _) eqn:Hkey in H.
  { destruct (llmDisplacementOps m !! lookup_string _ _) as [old|] eqn:Hold' in H; [|discriminate H].
    destruct (Hreplay _ _ Hold' H) as [-> Hf]. exact Hf. }
  destruct (displacementCustody _ _) as [|] eqn:Hcu in H; [discriminate H|].
  destruct (validateLLMDisplacementWorld _ _ _ _ _) as [[]|] eqn:Hw in H; [|discriminate H].
  injection H as <- <- <-. bool_simp. do 4 (split; [done|]). split; [|done].
  intros k a Ha Hacc Hcust. pose proof (proj1 (range_find_None _ _) Hcu k a Ha) as Hf. cbn in Hf.
  by rewrite (bool_decide_eq_true_2 _ Hacc), (retainsCustody_custody a Hcust) in Hf.
Qed.

(** ** Table invariant *)

Record disp_inv (ops : gmap string LLMDisplacementOperation) (keys : gmap string string) : Prop := {
  di_keyed : forall k a, ops !! k = Some a -> disp_ID a = k /\ k <> ""%string;
  di_valid : forall k a, ops !! k = Some a -> valid a;
  di_text : forall k a, ops !! k = Some a -> utf8_row a = true /\ printable a = true;
  di_custody : forall k k' a b, ops !! k = Some a -> ops !! k' = Some b ->
    disp_AcceleratorID a = disp_AcceleratorID b -> custody a -> custody b -> k = k';
  di_indexed : forall k a, ops !! k = Some a ->
    keys !! key2 (disp_OwnerID a) (disp_IdempotencyKey a) = Some k;
  di_index : forall key k, keys !! key = Some k ->
    exists a, ops !! k = Some a /\ key2 (disp_OwnerID a) (disp_IdempotencyKey a) = key;
}.

Lemma disp_inv_empty : disp_inv ∅ ∅.
Proof. split; intros *; rewrite lookup_empty; done. Qed.

Lemma valid_ID op : valid op -> disp_ID op <> ""%string.
Proof. intros (H & _)%valid_inv E. unfold identityIncomplete in H. by rewrite E in H. Qed.

Lemma disp_inv_create ops keys op :
  disp_inv ops keys -> valid op -> utf8_row op = true -> printable op = true -> ops !! disp_ID op = None ->
  lookup_string keys (key2 (disp_OwnerID op) (disp_IdempotencyKey op)) = ""%string ->
  (forall k a, ops !! k = Some a -> disp_AcceleratorID a = disp_AcceleratorID op -> ~ custody a) ->
  disp_inv (<[disp_ID op := op]> ops) (<[key2 (disp_OwnerID op) (disp_IdempotencyKey op) := disp_ID op]> keys).
Proof.
  intros [Hk Hv Ht Hs Hi Hx] Hvop Hu Hp Hfresh Hkey Hfree. pose proof (valid_ID op Hvop) as Hne.
  assert (keys !! key2 (disp_OwnerID op) (disp_IdempotencyKey op) = None) as Hnone.
  { apply lookup_string_absent; [|done]. intros k (a & Ha & _)%Hx. by destruct (Hk k a Ha). }
  split.
  - intros k a [[<- <-]|[Hn Ha]]%lookup_insert_Some; [done|]. eauto.
  - intros k a [[<- <-]|[Hn Ha]]%lookup_insert_Some; [done|]. eauto.
  - intros k a [[<- <-]|[Hn Ha]]%lookup_insert_Some; [done|]. eauto.
  - intros k k' a b [[<- <-]|[Hn Ha]]%lookup_insert_Some [[<- <-]|[Hn' Hb]]%lookup_insert_Some Hacc Hca Hcb; [done|..].
    + by destruct (Hfree k' b Hb).
    + by destruct (Hfree k a Ha).
    + eauto.
  - intros k a [[<- <-]|[Hn Ha]]%lookup_insert_Some; [by rewrite lookup_insert_eq|].
    rewrite lookup_insert_ne; [by apply Hi|]. intros E. apply Hi in Ha. congruence.
  - intros key k [[<- <-]|[Hn Ha]]%lookup_insert_Some; [exists op; by rewrite lookup_insert_eq|].
    destruct (Hx key k Ha) as (a & Hka & E). exists a. rewrite lookup_insert_ne; [done|congruence].
Qed.

Lemma disp_inv_update ops keys k a b :
  disp_inv ops keys -> ops !! k = Some a -> drow_step a b -> utf8_row b = true -> disp_inv (<[k := b]> ops) keys.
Proof.
  intros [Hk Hv Ht Hs Hi Hx] Ha Hstep Hu. destruct (Ht k a Ha) as [Hua Hpa].
  pose proof (identity_text_inj a b Hua Hu Hpa (eq_sym (ds_identity _ _ Hstep))) as Hc.
  destruct (cleared_device a b Hc) as [Hacc Hkey]. destruct (Hk k a Ha) as [Hid Hne].
  assert (custody a) as Hca by (eapply transitionAllowed_open, ds_phase, Hstep).
  assert (printable b = true) as Hpb.
  { destruct (printable b) eqn:E; [done|]. apply identity_text_unprintable in E.
    rewrite (ds_identity _ _ Hstep) in E. by apply identity_text_printable in Hpa. }
  split.
  - intros k' a' [[<- <-]|[Hn Ha']]%lookup_insert_Some; [|by eauto]. by rewrite (ds_id _ _ Hstep).
  - intros k' a' [[<- <-]|[Hn Ha']]%lookup_insert_Some; [by eapply ds_valid|by eauto].
  - intros k' a' [[<- <-]|[Hn Ha']]%lookup_insert_Some; [done|by eauto].
  - intros k1 k2 a1 a2 [[<- <-]|[Hn1 H1]]%lookup_insert_Some [[<- <-]|[Hn2 H2]]%lookup_insert_Some Hd Hc1 Hc2; [done|..].
    + eapply Hs; [exact Ha|exact H2|congruence|done|done].
    + eapply Hs; [exact H1|exact Ha|congruence|done|done].
    + eauto.
  - intros k' a' [[<- <-]|[Hn Ha']]%lookup_insert_Some; [|by eauto]. rewrite <- Hkey. eauto.
  - intros key k' Hk'. destruct (Hx key k' Hk') as (a' & Ha' & E).
    destruct (decide (k' = k)) as [->|]; [|exists a'; by rewrite lookup_insert_ne].
    exists b. rewrite lookup_insert_eq, <- Hkey. split; [done|]. congruence.
Qed.

(** ** Steps of this component on the store

    Requests reach the store decoded from JSON, so their strings are valid
    UTF-8; the clock is past year 1. *)
Inductive disp_step (m m' : MemoryStore) : Prop :=
  | ds_create_step (R : GoRange) now op r : 0 <= now -> (forall o, op = Some o -> utf8_row o = true) ->
      CreateLLMDisplacementOperation now op m = Ok (m', r) -> disp_step m m'
  | ds_update_step now op expected r : (forall o, op = Some o -> utf8_row o = true) ->
      UpdateLLMDisplacementOperation now op expected m = Ok (m', r) -> disp_step m m'.

Lemma disp_step_frame m m' : disp_step m m' ->
  m' = m <| llmDisplacementOps := llmDisplacementOps m' |> <| llmDisplacementKeys := llmDisplacementKeys m' |>.
Proof.
  intros [R now op [row c] _ _ H|now op e r _ H].
  - apply CreateLLMDisplacementOperation_spec in H as (op0 & p & _ & _ & _ & _ & H).
    destruct c; [destruct H as (_ & -> & _); reflexivity|]. destruct H as [-> _]. by destruct m.
  - apply UpdateLLMDisplacementOperation_spec in H as (next & old & _ & _ & _ & _ & _ & _ & ->). by destruct m.
Qed.

(** Every lease expires before the horizon. *)
Definition leases_near (m : MemoryStore) : Prop :=
  forall a l, leases m !! a = Some l -> lease_ExpiresAt l < lease_horizon.

Lemma world_printable m p now : leases_near m -> 0 <= now ->
  validateLLMDisplacementWorld p (workloads m !! disp_VictimWorkloadID p) (workloads m !! disp_UrgentWorkloadID p)
    (leases m !! disp_AcceleratorID p) now = Ok tt -> printable p = true.
Proof.
  intros Hl Hnow (cur & orig & Hcur & Horig & He & Hlt & _)%world_lease. apply Hl in Hcur.
  apply bool_decide_eq_true. unfold identity_json, lease_json, time_json. rewrite Horig, <- He.
  destruct (rfc3339_printable (lease_ExpiresAt cur)) as [t ->]; [lia|]. eexists. reflexivity.
Qed.

Lemma disp_step_inv m m' : disp_step m m' -> leases_near m ->
  disp_inv (llmDisplacementOps m) (llmDisplacementKeys m) -> disp_inv (llmDisplacementOps m') (llmDisplacementKeys m').
Proof.
  intros [R now op [row c] Hnow Hu H|now op e r Hu H] Hl Hinv.
  - apply CreateLLMDisplacementOperation_spec in H as (op0 & p & -> & Hv & _ & Hc & H).
    destruct c; [|destruct H as [-> _]; done]. destruct H as (_ & -> & Hf & Hk & Hcust & Hw).
    apply disp_inv_create; try done; [|by eapply world_printable].
    change (utf8_row (cleared p) = true). rewrite Hc. by apply (Hu op0).
  - apply UpdateLLMDisplacementOperation_spec in H as (next & old & -> & Hold & _ & (? & ? & ? & Hrow) & _ & Hs & ->).
    eapply disp_inv_update; [done|exact Hold| |].
    + apply Hs. by destruct (di_keyed _ _ Hinv _ _ Hold).
    + rewrite Hrow. by apply (Hu next).
Qed.

Lemma disp_step_row m m' k a : disp_step m m' -> disp_inv (llmDisplacementOps m) (llmDisplacementKeys m) ->
  llmDisplacementOps m !! k = Some a ->
  exists b, llmDisplacementOps m' !! k = Some b /\ (b = a \/ drow_step a b).
Proof.
  intros [R now op [row c] Hnow Hu H|now op e r Hu H] Hinv Ha.
  - apply CreateLLMDisplacementOperation_spec in H as (op0 & p & -> & Hv & _ & Hc & H).
    destruct c; [|destruct H as [-> _]; eauto]. destruct H as (_ & -> & Hf & _).
    exists a. cbn. rewrite lookup_insert_ne; [auto|congruence].
  - apply UpdateLLMDisplacementOperation_spec in H as (next & old & -> & Hold & _ & _ & _ & Hs & ->). cbn.
    destruct (decide (disp_ID r = k)) as [<-|]; [|exists a; rewrite lookup_insert_ne; auto].
    exists r. rewrite lookup_insert_eq. replace a with old by congruence. split; [done|]. right. apply Hs.
    by destruct (di_keyed _ _ Hinv _ _ Hold).
Qed.

(** The update of a row can only follow a sealed, non-final phase. *)
Lemma reconciliation_final p q : reconciliationPhase p = true -> displacementTransitionAllowed p q = false.
Proof.
  unfold reconciliationPhase. intros H%bool_decide_eq_true. rewrite !elem_of_cons, elem_of_nil in H.
  unfold displacementTransitionAllowed. destruct (reconciliationPhase q), H as [->|[->|[->|[]]]]; by vm_compute.
Qed.
