(* ===== verification/Leases.v ===== *)
(** * Accelerator leases ([memory.go], [store.go])

    Fenced leases on accelerators: acquisition with its blockers (displacement
    custody, unresolved checkpoint cleanup, a live lease) and the checkpoint
    recovery seam, renewal, release, and the durable cleanup intents of
    releases that did not complete. *)

From S2P Require Import Prelude GoText GoTime Domain DomainWorkload DomainNode Store Checkpoint Displacement.
From S2P Require Import DisplacementInv.

(** ** Acquisition *)

Definition firstNonEmptyMemory (values : list string) : string :=
  default ""%string (head (filter (fun v => v <> ""%string) values)).

Section acquire.
Context {R : GoRange}.

(** The row that authorises a recovery acquisition. *)
Definition recoveryMatch (acceleratorID workloadID recoveryOperationID : string) (op : LLMCheckpointOperation) : bool :=
  (ckpt_CleanupAcceleratorID op ==? acceleratorID) && (ckpt_CleanupState op ==? "armed"%string)
  && (ckpt_WorkloadID op ==? workloadID) && (recoveryOperationID !=? ""%string)
  && ((ckpt_ID op ==? recoveryOperationID) || (ckpt_CleanupOperationID op ==? recoveryOperationID)).

(** Unresolved cleanup custody of an accelerator. *)
Definition cleanupBlocks (acceleratorID : string) (op : LLMCheckpointOperation) : bool :=
  negb ((ckpt_CleanupAcceleratorID op !=? acceleratorID)
        || negb (bool_decide (ckpt_CleanupState op ∈ ["armed"; "owned"; "pending"; "failed"; "stopped"]%string))).

(** The last fence the new token must exceed. *)
Definition fenceBase (acceleratorID : string) (recoveryOp : option (string * LLMCheckpointOperation)) (m : MemoryStore) : Z :=
  let fence := default 0 (leaseFences m !! acceleratorID) in
  match recoveryOp with
  | Some (_, op) => if fence <? wrap64 (ckpt_CleanupFence op) then wrap64 (ckpt_CleanupFence op) else fence
  | None => fence
  end.

(** The recovery row after it has been given the new fence. *)
Definition recoverRow (now : Time) (acceleratorID recoveryOperationID : string) (fence : Z)
    (op : LLMCheckpointOperation) : LLMCheckpointOperation :=
  op <| ckpt_CleanupState := "pending"%string |>
     <| ckpt_CleanupOperationID := firstNonEmptyMemory [ckpt_CleanupOperationID op; recoveryOperationID; ckpt_ID op] |>
     <| ckpt_CleanupAcceleratorID := acceleratorID |>
     <| ckpt_CleanupFence := wrapU64 fence |>
     <| ckpt_CleanupGeneration := if ckpt_CleanupGeneration op =? 0 then ckpt_Generation op else ckpt_CleanupGeneration op |>
     <| ckpt_Revision := wrapU64 (ckpt_Revision op + 1) |>
     <| ckpt_UpdatedAt := now |>.

(** The lease, and whether it was granted to this caller. *)
Definition acquireAcceleratorLease (now : Time) (acceleratorID workloadID recoveryOperationID : string) (ttl : Duration)
    (m : MemoryStore) : MemoryStore * (AcceleratorLease * bool) :=
  match displacementCustody acceleratorID m with
  | Some (_, op) =>
      (m, (default (mkAcceleratorLease acceleratorID (disp_VictimWorkloadID op) (wrap64 (disp_Fence op)) 0)
             (disp_OriginalLease op), false))
  | None =>
      let recoveryOp := range_find (fun _ => recoveryMatch acceleratorID workloadID recoveryOperationID) (llmCheckpointOps m) in
      match range_find (fun k op => cleanupBlocks acceleratorID op && negb (Some k ==? (fst <$> recoveryOp)))
              (llmCheckpointOps m) with
      | Some (_, op) =>
          let fence := wrap64 (ckpt_CleanupFence op) in
          let fence := if fence =? 0 then wrap64 (ckpt_Fence op) else fence in
          (m, (mkAcceleratorLease acceleratorID (ckpt_WorkloadID op) fence (now + ttl), false))
      | None =>
          let live := match leases m !! acceleratorID with
                      | Some cur => if now <? lease_ExpiresAt cur then Some cur else None
                      | None => None
                      end in
          match live with
          | Some cur => (m, (cur, false))
          | None =>
              let fence := wrap64 (fenceBase acceleratorID recoveryOp m + 1) in
              let lease := mkAcceleratorLease acceleratorID workloadID fence (now + ttl) in
              let m := m <| leaseFences := <[acceleratorID := fence]> (leaseFences m) |>
                         <| leases := <[acceleratorID := lease]> (leases m) |> in
              let m := match recoveryOp with
                       | Some (k, op) =>
                           m <| llmCheckpointOps := <[k := recoverRow now acceleratorID recoveryOperationID fence op]>
                                                      (llmCheckpointOps m) |>
                       | None => m
                       end in
              (m, (lease, true))
          end
      end
  end.

Definition AcquireAcceleratorLease (now : Time) (acceleratorID workloadID : string) (ttl : Duration) (m : MemoryStore)
  : MemoryStore * (AcceleratorLease * bool) :=
  acquireAcceleratorLease now acceleratorID workloadID "" ttl m.

Definition AcquireAcceleratorLeaseForCheckpointRecovery (now : Time) (acceleratorID workloadID operationID : string)
    (ttl : Duration) (m : MemoryStore) : MemoryStore * (AcceleratorLease * bool) :=
  acquireAcceleratorLease now acceleratorID workloadID operationID ttl m.
End acquire.

(** ** Renewal and release *)

Definition RenewAcceleratorLease (now : Time) (acceleratorID workloadID : string) (fencingToken : Z) (ttl : Duration)
    (m : MemoryStore) : result MemoryStore :=
  match leases m !! acceleratorID with
  | None => Err ErrNotFound
  | Some lease =>
      reject (lease_WorkloadID lease !=? workloadID) || negb (lease_FencingToken lease =? fencingToken) with ErrNotFound;
      Ok (m <| leases := <[acceleratorID := lease <| lease_ExpiresAt := now + ttl |>]> (leases m) |>)
  end.

Definition ReleaseAcceleratorLease (acceleratorID workloadID : string) (fencingToken : Z) (m : MemoryStore)
  : result MemoryStore :=
  match leases m !! acceleratorID with
  | None => Ok m
  | Some lease =>
      reject (lease_WorkloadID lease !=? workloadID) || negb (lease_FencingToken lease =? fencingToken) with ErrNotFound;
      Ok (m <| leases := delete acceleratorID (leases m) |>)
  end.

Definition GetAcceleratorLease (acceleratorID : string) (m : MemoryStore) : result AcceleratorLease :=
  match leases m !! acceleratorID with
  | None => Err ErrNotFound
  | Some lease => Ok lease
  end.

(** ** Cleanup intents *)

Definition leaseCleanupKey (acceleratorID owner : string) (fencingToken : Z) : string :=
  key2 (key2 acceleratorID owner) (Sprint fencingToken).

Definition leaseCleanupRecordKey (intent : AcceleratorLeaseCleanupIntent) : string :=
  let key := leaseCleanupKey (lci_AcceleratorID intent) (lci_Owner intent) (lci_FencingToken intent) in
  if lci_WorkloadID intent !=? ""%string then key2 key (lci_WorkloadID intent) else key.

Definition validateLeaseCleanupIntent (intent : option AcceleratorLeaseCleanupIntent) : result unit :=
  match intent with
  | None => Err (ErrorsNew "accelerator lease cleanup intent requires exact lease identity")
  | Some intent =>
      reject (lci_AcceleratorID intent ==? ""%string) || (lci_Owner intent ==? ""%string) || (lci_FencingToken intent <=? 0)
        with ErrorsNew "accelerator lease cleanup intent requires exact lease identity";
      reject lci_Attempts intent <? 1
        with ErrorsNew "accelerator lease cleanup intent attempts must be positive";
      reject (512 <? len (lci_LastError intent)) || (128 <? len (lci_TerminalErrorCode intent))
        with ErrorsNew "accelerator lease cleanup intent error is too long";
      if lci_TerminalDisposition intent ==? ""%string then
        reject (lci_WorkloadID intent !=? ""%string) || negb (lci_ExpectedWorkloadRevision intent =? 0)
            || lci_ReleaseConfirmed intent || lci_TerminalPublished intent || lci_AuditPublished intent
            || lci_NotificationPublished intent || lci_BudgetSettled intent
          with ErrorsNew "ordinary lease cleanup intent carries terminal continuation fields";
        Ok tt
      else
        reject (lci_WorkloadID intent ==? ""%string) || (lci_ExpectedWorkloadRevision intent =? 0)
            || (lci_TerminalErrorCode intent ==? ""%string)
          with ErrorsNew "terminal lease cleanup intent is incomplete";
        reject (lci_TerminalDisposition intent !=? "success"%string) && (lci_TerminalDisposition intent !=? "failure"%string)
            && (lci_TerminalDisposition intent !=? "cancel"%string)
          with ErrorsNew "terminal lease cleanup intent has invalid disposition";
        reject lci_TerminalPublished intent && negb (lci_ReleaseConfirmed intent)
          with ErrorsNew "terminal continuation published before release confirmation";
        reject (lci_AuditPublished intent || lci_NotificationPublished intent || lci_BudgetSettled intent)
            && negb (lci_TerminalPublished intent)
          with ErrorsNew "terminal continuation side effect published before terminal state";
        Ok tt
  end.

Definition RecordAcceleratorLeaseCleanupIntent (now : Time) (intent : option AcceleratorLeaseCleanupIntent)
    (m : MemoryStore) : result (MemoryStore * AcceleratorLeaseCleanupIntent) :=
  let? _u := validateLeaseCleanupIntent intent in
  match intent with
  | None => Err (ErrorsNew "accelerator lease cleanup intent requires exact lease identity")
  | Some intent =>
      let key := leaseCleanupRecordKey intent in
      let stored := intent <| lci_CreatedAt := if lci_CreatedAt intent =? 0 then now else lci_CreatedAt intent |>
                           <| lci_UpdatedAt := if lci_UpdatedAt intent =? 0 then now else lci_UpdatedAt intent |>
                           <| lci_Attempts := if lci_Attempts intent <=? 0 then 1 else lci_Attempts intent |> in
      let? stored :=
        match leaseCleanupIntents m !! key with
        | None => Ok stored
        | Some existing =>
            reject (lci_WorkloadID existing !=? lci_WorkloadID intent)
                || negb (lci_ExpectedWorkloadRevision existing =? lci_ExpectedWorkloadRevision intent)
                || (lci_TerminalDisposition existing !=? lci_TerminalDisposition intent)
                || (lci_TerminalErrorCode existing !=? lci_TerminalErrorCode intent)
              with ErrAcceleratorLeaseCleanupConflict;
            Ok (stored <| lci_Attempts := if lci_Attempts stored <? lci_Attempts existing then lci_Attempts existing
                                          else lci_Attempts stored |>
                       <| lci_CreatedAt := lci_CreatedAt existing |>
                       <| lci_ReleaseConfirmed := lci_ReleaseConfirmed existing || lci_ReleaseConfirmed stored |>
                       <| lci_TerminalPublished := lci_TerminalPublished existing || lci_TerminalPublished stored |>
                       <| lci_AuditPublished := lci_AuditPublished existing || lci_AuditPublished stored |>
                       <| lci_NotificationPublished := lci_NotificationPublished existing || lci_NotificationPublished stored |>
                       <| lci_BudgetSettled := lci_BudgetSettled existing || lci_BudgetSettled stored |>)
        end in
      Ok (m <| leaseCleanupIntents := <[key := stored]> (leaseCleanupIntents m) |>, stored)
  end.

Definition ListAcceleratorLeaseCleanupIntents {R : GoRange} (clock now : Time) (limit : Z) (m : MemoryStore)
  : list AcceleratorLeaseCleanupIntent :=
  let now := if now =? 0 then clock else now in
  let key i := leaseCleanupKey (lci_AcceleratorID i) (lci_Owner i) (lci_FencingToken i) in
  let rows := sort_slice (fun a b => if lci_UpdatedAt a =? lci_UpdatedAt b then String.ltb (key a) (key b)
                                     else lci_UpdatedAt a <? lci_UpdatedAt b)
    (range_rows (fun i => negb match lci_NextRetryAt i with Some t => now <? t | None => false end) (leaseCleanupIntents m)) in
  if (0 <? limit) && (limit <? Z.of_nat (length rows)) then firstn (Z.to_nat limit) rows else rows.

Definition DeleteAcceleratorLeaseCleanupIntent (acceleratorID owner : string) (fencingToken : Z) (m : MemoryStore)
  : MemoryStore :=
  let prefix := leaseCleanupKey acceleratorID owner fencingToken in
  m <| leaseCleanupIntents :=
         filter (fun kv => negb ((kv.1 ==? prefix) || HasPrefix kv.1 (key2 prefix "")) = true) (leaseCleanupIntents m) |>.

Definition DeleteAcceleratorLeaseCleanupIntentForWorkload (acceleratorID owner : string) (fencingToken : Z)
    (workloadID : string) (m : MemoryStore) : MemoryStore :=
  m <| leaseCleanupIntents := delete (key2 (leaseCleanupKey acceleratorID owner fencingToken) workloadID) (leaseCleanupIntents m) |>.

(** ** Acquisition, case by case *)

(** Nothing stands in the way of a lease on the accelerator; [exempt] is the
    key of the row that authorises a recovery. *)
Definition unblocked (now : Time) (acceleratorID : string) (exempt : option string) (m : MemoryStore) : Prop :=
  (forall k op, llmDisplacementOps m !! k = Some op -> disp_AcceleratorID op = acceleratorID ->
     displacementRecordRetainsCustody op = false) /\
  (forall k op, llmCheckpointOps m !! k = Some op -> Some k <> exempt -> cleanupBlocks acceleratorID op = false) /\
  (forall lease, leases m !! acceleratorID = Some lease -> lease_ExpiresAt lease <= now).

Lemma displacementCustody_None {R : GoRange} acc m : displacementCustody acc m = None <->
  forall k op, llmDisplacementOps m !! k = Some op -> disp_AcceleratorID op = acc -> displacementRecordRetainsCustody op = false.
Proof.
  unfold displacementCustody. rewrite range_find_None. split.
  - intros H k op Hk Ha. specialize (H k op Hk). by rewrite (bool_decide_eq_true_2 _ Ha) in H.
  - intros H k op Hk. case_bool_decide as Ha; [|done]. by rewrite (H k op Hk Ha).
Qed.

(** The state after a grant. *)
Definition granted (now : Time) (acc recovery : string) (lease : AcceleratorLease)
    (recoveryOp : option (string * LLMCheckpointOperation)) (m : MemoryStore) : MemoryStore :=
  let m' := m <| leaseFences := <[acc := lease_FencingToken lease]> (leaseFences m) |> <| leases := <[acc := lease]> (leases m) |> in
  match recoveryOp with
  | Some (k, op) =>
      m' <| llmCheckpointOps := <[k := recoverRow now acc recovery (lease_FencingToken lease) op]> (llmCheckpointOps m) |>
  | None => m'
  end.

Lemma acquire_cases {R : GoRange} now acc w recovery ttl m m' lease ok :
  acquireAcceleratorLease now acc w recovery ttl m = (m', (lease, ok)) ->
  let recoveryOp := range_find (fun _ => recoveryMatch acc w recovery) (llmCheckpointOps m) in
  if ok then
    unblocked now acc (fst <$> recoveryOp) m /\
    lease = mkAcceleratorLease acc w (wrap64 (fenceBase acc recoveryOp m + 1)) (now + ttl) /\
    m' = granted now acc recovery lease recoveryOp m
  else m' = m /\ ~ unblocked now acc (fst <$> recoveryOp) m.
Proof.
  intros H recoveryOp. unfold acquireAcceleratorLease in H. fold recoveryOp in H. unfold unblocked.
  destruct (displacementCustody acc m) as [[kd d]|] eqn:Hd.
  { injection H as <- <- <-. split; [done|]. intros (Hc & _). apply (displacementCustody_None (R := R)) in Hc. congruence. }
  destruct (range_find _ _) as [[kb b]|] eqn:Hb in H.
  { injection H as <- <- <-. split; [done|]. intros (_ & Hc & _). apply range_find_Some in Hb as [Hb Hp].
    apply andb_true_iff in Hp as [Hp1 Hp2]. apply negb_bool_decide_true in Hp2. by rewrite (Hc kb b Hb Hp2) in Hp1. }
  destruct (match leases m !! acc with Some _ => _ | None => None end) as [cur|] eqn:Hl in H.
  { injection H as <- <- <-. split; [done|]. intros (_ & _ & Hc). destruct (leases m !! acc) as [l|]; [|done].
    specialize (Hc l eq_refl). destruct (now <? _) eqn:E; [|done]. bool_simp. lia. }
  injection H as <- <- <-. split; [|split; [done|]].
  - split; [by apply displacementCustody_None|split].
    + intros k op Hk Hne. pose proof (proj1 (range_find_None _ _) Hb k op Hk) as Hf. cbn in Hf.
      by rewrite (bool_decide_eq_false_2 _ Hne), andb_true_r in Hf.
    + intros l Hl'. rewrite Hl' in Hl. destruct (now <? lease_ExpiresAt l) eqn:E; [done|]. by bool_simp.
  - unfold granted. destruct recoveryOp as [[k op]|]; reflexivity.
Qed.

(** ** Steps of this component on the store

    The clock stays between year 1 and the lease horizon less the longest
    duration, and the fence of an accelerator below the largest [int64]: both
    are far beyond what the running controller reaches. *)
Definition clock_ok (now : Time) : Prop := 0 <= now < lease_horizon - MaxInt64.

Definition fence (m : MemoryStore) (acc : string) : Z := default 0 (leaseFences m !! acc).

Inductive lease_step (m m' : MemoryStore) : Prop :=
  | ls_acquire (R : GoRange) now acc w recovery ttl r : clock_ok now -> is_int64 ttl ->
      fenceBase acc (range_find (fun _ => recoveryMatch acc w recovery) (llmCheckpointOps m)) m < MaxInt64 ->
      acquireAcceleratorLease now acc w recovery ttl m = (m', r) -> lease_step m m'
  | ls_renew now acc w token ttl : clock_ok now -> is_int64 ttl ->
      RenewAcceleratorLease now acc w token ttl m = Ok m' -> lease_step m m'
  | ls_release acc w token : ReleaseAcceleratorLease acc w token m = Ok m' -> lease_step m m'
  | ls_record now intent r : RecordAcceleratorLeaseCleanupIntent now intent m = Ok (m', r) -> lease_step m m'
  | ls_delete acc owner token : m' = DeleteAcceleratorLeaseCleanupIntent acc owner token m -> lease_step m m'
  | ls_delete_workload acc owner token w :
      m' = DeleteAcceleratorLeaseCleanupIntentForWorkload acc owner token w m -> lease_step m m'.

(** The three ways the lease tables change. *)
Inductive lease_effect (m m' : MemoryStore) : Prop :=
  | le_none : leases m' = leases m -> leaseFences m' = leaseFences m -> llmCheckpointOps m' = llmCheckpointOps m ->
      lease_effect m m'
  | le_grant now acc recovery lease recoveryOp :
      (exists exempt, unblocked now acc exempt m) ->
      fence m acc < lease_FencingToken lease <= MaxInt64 -> lease_AcceleratorID lease = acc ->
      lease_ExpiresAt lease < lease_horizon ->
      (forall k op, recoveryOp = Some (k, op) -> llmCheckpointOps m !! k = Some op) ->
      m' = granted now acc recovery lease recoveryOp m -> lease_effect m m'
  | le_renew acc lease expires :
      leases m !! acc = Some lease -> expires < lease_horizon ->
      leases m' = <[acc := lease <| lease_ExpiresAt := expires |>]> (leases m) ->
      leaseFences m' = leaseFences m -> llmCheckpointOps m' = llmCheckpointOps m -> lease_effect m m'
  | le_release acc : leases m' = delete acc (leases m) -> leaseFences m' = leaseFences m ->
      llmCheckpointOps m' = llmCheckpointOps m -> lease_effect m m'.

Lemma fenceBase_bound acc r m : 0 <= fence m acc -> fence m acc <= fenceBase acc r m.
Proof.
  intros H. unfold fenceBase, fence in *. destruct r as [[k op]|]; [|lia]. destruct (_ <? _) eqn:E; [|lia]. bool_simp. lia.
Qed.

Lemma lease_step_effect m m' : (forall a, 0 <= fence m a) -> lease_step m m' -> lease_effect m m'.
Proof.
  intros Hf [R now acc w rec ttl [lease ok] [Hn0 Hn1] [Ht0 Ht1] Hb H|now acc w token ttl [Hn0 Hn1] [Ht0 Ht1] H|acc w token H|
    now i r H|acc owner token H|acc owner token w H].
  - apply acquire_cases in H. destruct ok; [|by destruct H as [-> _]; constructor].
    destruct H as (Hu & -> & ->). set (r := range_find _ _) in *.
    pose proof (fenceBase_bound acc r m (Hf acc)) as Hle. pose proof (Hf acc).
    eapply (le_grant _ _ now acc rec _ r); [by eexists|..|reflexivity]; cbn.
    + rewrite wrap64_small by lia. lia.
    + done.
    + lia.
    + intros k op Hr. by apply range_find_Some in Hr as [? _].
  - unfold RenewAcceleratorLease in H. destruct (leases m !! acc) as [l|] eqn:Hl; [|done].
    destruct (_ || _); [done|]. injection H as <-. eapply (le_renew _ _ acc l (now + ttl)); try done. lia.
  - unfold ReleaseAcceleratorLease in H. destruct (leases m !! acc) as [l|] eqn:Hl; [|injection H as <-; by constructor].
    destruct (_ || _); [done|]. injection H as <-. by eapply (le_release _ _ acc).
  - unfold RecordAcceleratorLeaseCleanupIntent in H. repeat (branch H); injection H as <- _; by constructor.
  - subst. by constructor.
  - subst. by constructor.
Qed.

Lemma lease_step_frame m m' : lease_step m m' ->
  m' = m <| leases := leases m' |> <| leaseFences := leaseFences m' |> <| leaseCleanupIntents := leaseCleanupIntents m' |>
         <| llmCheckpointOps := llmCheckpointOps m' |>.
Proof.
  intros [R now acc w rec ttl [lease ok] _ _ _ H|now acc w token ttl _ _ H|acc w token H|now i r H|acc owner token H|acc owner token w H].
  - apply acquire_cases in H. destruct ok; [|destruct H as [-> _]; by destruct m].
    destruct H as (_ & _ & ->). unfold granted. destruct (range_find _ _) as [[k op]|]; by destruct m.
  - unfold RenewAcceleratorLease in H. repeat (branch H); injection H as <-; by destruct m.
  - unfold ReleaseAcceleratorLease in H. repeat (branch H); injection H as <-; by destruct m.
  - unfold RecordAcceleratorLeaseCleanupIntent in H. repeat (branch H); injection H as <- _; by destruct m.
  - subst. by destruct m.
  - subst. by destruct m.
Qed.

(** ** Invariant *)

Record lease_inv (m : MemoryStore) : Prop := {
  li_fence : forall a, 0 <= fence m a <= MaxInt64;
  li_token : forall a l, leases m !! a = Some l -> lease_AcceleratorID l = a /\ 0 < lease_FencingToken l <= fence m a;
  li_near : leases_near m;
}.

Lemma lease_inv_new : lease_inv NewMemoryStore.
Proof. split; [done|intros a l H; by (cbn in H; rewrite lookup_empty in H)|intros a l H; by (cbn in H; rewrite lookup_empty in H)]. Qed.

Lemma granted_leases now acc rec lease r m : leases (granted now acc rec lease r m) = <[acc := lease]> (leases m).
Proof. by destruct r as [[]|]. Qed.
Lemma granted_fences now acc rec lease r m :
  leaseFences (granted now acc rec lease r m) = <[acc := lease_FencingToken lease]> (leaseFences m).
Proof. by destruct r as [[]|]. Qed.

Lemma fence_insert m m' acc t a : leaseFences m' = <[acc := t]> (leaseFences m) ->
  fence m' a = if decide (acc = a) then t else fence m a.
Proof.
  intros E. unfold fence. rewrite E. destruct (decide (acc = a)) as [->|]; [by rewrite lookup_insert_eq|by rewrite lookup_insert_ne].
Qed.

Lemma fence_same m m' a : leaseFences m' = leaseFences m -> fence m' a = fence m a.
Proof. unfold fence. by intros ->. Qed.

Lemma lease_effect_inv m m' : lease_effect m m' -> lease_inv m -> lease_inv m'.
Proof.
  intros [Hl Hf _|now acc rec lease r _ Hb Ha Hh _ ->|acc lease e Hl He Hl' Hf _|acc Hl Hf _] [If It In].
  - split; [intros a; rewrite (fence_same _ _ _ Hf); done|intros a l; rewrite Hl, (fence_same _ _ _ Hf); apply It|
      intros a l; rewrite Hl; apply In].
  - pose proof (granted_fences now acc rec lease r m) as Hf. pose proof (If acc).
    split; [intros a|intros a l; rewrite granted_leases..].
    + rewrite (fence_insert _ _ _ _ a Hf). case_decide; [subst; lia|done].
    + rewrite (fence_insert _ _ _ _ a Hf). intros [[<- <-]|[Hne Hl]]%lookup_insert_Some.
      * rewrite decide_True by done. split; [done|lia].
      * rewrite decide_False by done. by apply It.
    + intros [[<- <-]|[Hne Hl]]%lookup_insert_Some; [done|by eapply In].
  - split; [intros a; rewrite (fence_same _ _ _ Hf); done|intros a l; rewrite Hl', (fence_same _ _ _ Hf)|intros a l; rewrite Hl'].
    + intros [[<- <-]|[Hne Hl2]]%lookup_insert_Some; [by apply (It acc lease)|by apply It].
    + intros [[<- <-]|[Hne Hl2]]%lookup_insert_Some; [done|by eapply In].
  - split; [intros a; rewrite (fence_same _ _ _ Hf); done|intros a l; rewrite Hl, (fence_same _ _ _ Hf)|intros a l; rewrite Hl].
    + intros [_ Hl2]%lookup_delete_Some. by apply It.
    + intros [_ Hl2]%lookup_delete_Some. by eapply In.
Qed.

Lemma lease_effect_fence m m' a : lease_effect m m' -> fence m a <= fence m' a.
Proof.
  intros [Hl Hf _|now acc rec lease r _ Hb Ha Hh _ ->|acc lease e Hl He Hl' Hf _|acc Hl Hf _];
    try (rewrite (fence_same _ _ _ Hf); lia).
  rewrite (fence_insert _ _ _ _ a (granted_fences now acc rec lease r m)). case_decide; [subst; lia|lia].
Qed.

(** A recovery rewrites its row without touching identity, phase or slot. *)
(** A lease in the table is an earlier one, renewed or not, or carries a token
    above the old fence. *)
Definition tokens_move (m m' : MemoryStore) : Prop :=
  forall a l', leases m' !! a = Some l' -> fence m a < lease_FencingToken l' \/
    exists l, leases m !! a = Some l /\ lease_FencingToken l = lease_FencingToken l' /\ lease_WorkloadID l = lease_WorkloadID l'.

Lemma tokens_same m m' : leases m' = leases m -> tokens_move m m'.
Proof. intros E a l'. rewrite E. right. eauto. Qed.

Lemma lease_effect_tokens m m' : lease_effect m m' -> tokens_move m m'.
Proof.
  intros [El _ _|now acc rec lease r _ [Hf _] _ _ _ ->|acc lease ex Hl _ El _ _|acc El _ _]; [by apply tokens_same|..];
    intros a l'; [rewrite granted_leases|rewrite El|rewrite El].
  - intros [[<- <-]|[_ H]]%lookup_insert_Some; [by left|right; eauto].
  - intros [[<- <-]|[_ H]]%lookup_insert_Some; right; eauto.
  - intros [_ H]%lookup_delete_Some. right; eauto.
Qed.

Lemma recoverRow_step now acc rec f op : row_step op (recoverRow now acc rec f op) /\
  (forall a, slot_clash a (recoverRow now acc rec f op) -> slot_clash a op).
Proof. split; [split; [done..|by left]|intros a H; exact H]. Qed.

Lemma lease_effect_ckpt m m' : lease_effect m m' -> ckpt_inv (llmCheckpointOps m) (llmCheckpointKeys m) ->
  llmCheckpointOps m' = llmCheckpointOps m \/
  ckpt_table_step (llmCheckpointOps m) (llmCheckpointKeys m) (llmCheckpointOps m') (llmCheckpointKeys m).
Proof.
  intros [Hl Hf Hc|now acc rec lease [[k op]|] _ Hb Ha Hh Hop ->|acc lease e Hl He Hl' Hf Hc|acc Hl Hf Hc] Hinv; auto.
  right. specialize (Hop k op eq_refl). destruct (recoverRow_step now acc rec (lease_FencingToken lease) op) as [Hs Hcl].
  apply (ct_update _ _ k op); [done|done|]. intros k' a' Hk' Hne Hclash%Hcl.
  by apply Hne, (ci_slots _ _ Hinv k' k a' op).
Qed.
