(* ===== verification/Residency.v ===== *)
(** * Model residency and its fenced transitions ([memory.go], [store.go])

    The residency projection of a model on a target, guarded by revision and
    target generation, and the transitions that move it between tiers, each
    with a fencing token unique to the target and model and, for leased
    allocations, the provenance of the lease it was made under. *)

From S2P Require Import Prelude GoText Domain DomainWorkload DomainNode Store.

(** ** Residency rows *)

Definition residencyKey (targetID model : string) : string := key2 targetID model.

Definition residencyGenerationCompatible (existing incoming : ModelResidency) : bool :=
  if mr_TargetGeneration incoming <? mr_TargetGeneration existing then false
  else if mr_TargetGeneration incoming =? mr_TargetGeneration existing
  then (mr_ExecutionFingerprint existing !=? ""%string) && (mr_ExecutionFingerprint incoming !=? ""%string)
       && (mr_ExecutionFingerprint existing ==? mr_ExecutionFingerprint incoming)
  else mr_ExecutionFingerprint incoming !=? ""%string.

(** The caller's row is given the revision too; the stored row is returned. *)
Definition UpsertModelResidency (residency : ModelResidency) (m : MemoryStore) : result (MemoryStore * ModelResidency) :=
  let key := residencyKey (mr_TargetID residency) (mr_Model residency) in
  let? stored :=
    match residencies m !! key with
    | Some existing =>
        reject negb (residencyGenerationCompatible existing residency) with ErrModelResidencyGenerationConflict;
        Ok (if mr_Revision residency <=? mr_Revision existing
            then residency <| mr_Revision := wrapU64 (mr_Revision existing + 1) |> else residency)
    | None => Ok (if mr_Revision residency =? 0 then residency <| mr_Revision := 1 |> else residency)
    end in
  Ok (m <| residencies := <[key := stored]> (residencies m) |>, stored).

Definition CreateModelResidency (residency : ModelResidency) (m : MemoryStore)
  : result (MemoryStore * (ModelResidency * bool)) :=
  let key := residencyKey (mr_TargetID residency) (mr_Model residency) in
  match residencies m !! key with
  | Some existing =>
      reject negb (residencyGenerationCompatible existing residency) with ErrModelResidencyGenerationConflict;
      Ok (m, (existing, false))
  | None =>
      let created := if mr_Revision residency =? 0 then residency <| mr_Revision := 1 |> else residency in
      Ok (m <| residencies := <[key := created]> (residencies m) |>, (created, true))
  end.

(** [cancelled] is the error of the caller's context, when it has one. *)
Definition CompareAndSwapModelResidency (cancelled : option error) (residency : ModelResidency) (expectedRevision : Z)
    (m : MemoryStore) : result (MemoryStore * ModelResidency) :=
  match cancelled with
  | Some e => Err e
  | None =>
      let key := residencyKey (mr_TargetID residency) (mr_Model residency) in
      match residencies m !! key with
      | None => Err ErrModelResidencyConflict
      | Some current =>
          reject negb (mr_Revision current =? expectedRevision) with ErrModelResidencyConflict;
          reject negb (residencyGenerationCompatible current residency) with ErrModelResidencyGenerationConflict;
          let updated := residency <| mr_Revision := wrapU64 (expectedRevision + 1) |> in
          Ok (m <| residencies := <[key := updated]> (residencies m) |>, updated)
      end
  end.

Definition GetModelResidency (targetID model : string) (m : MemoryStore) : result ModelResidency :=
  match residencies m !! residencyKey targetID model with
  | Some residency => Ok residency
  | None => Err ErrNotFound
  end.

Definition ListModelResidencies {R : GoRange} (m : MemoryStore) : list ModelResidency :=
  sort_slice (fun a b => if mr_TargetID a !=? mr_TargetID b then String.ltb (mr_TargetID a) (mr_TargetID b)
                         else String.ltb (mr_Model a) (mr_Model b))
    (range_rows (fun _ => true) (residencies m)).

(** ** Replays of a transition *)

Definition verifyResidencyTransitionCanonical (existing requested : ResidencyTransition) (compareFence : bool)
  : result unit :=
  let fenceDiffers := compareFence && negb (rt_FencingToken existing =? rt_FencingToken requested) in
  reject (rt_IdempotencyKey existing !=? rt_IdempotencyKey requested) || (rt_TargetID existing !=? rt_TargetID requested)
      || (rt_AcceleratorID existing !=? rt_AcceleratorID requested) || (rt_Model existing !=? rt_Model requested)
      || (rt_FromTier existing !=? rt_FromTier requested) || (rt_ToTier existing !=? rt_ToTier requested)
      || (rt_Reason existing !=? rt_Reason requested) || (rt_RequestedBy existing !=? rt_RequestedBy requested)
      || (rt_WorkloadID existing !=? rt_WorkloadID requested) || fenceDiffers
      || (rt_CapabilityVersion existing !=? rt_CapabilityVersion requested)
      || (rt_CapabilityRevision existing !=? rt_CapabilityRevision requested)
      || negb (rt_TargetGeneration existing =? rt_TargetGeneration requested)
      || (rt_ExecutionFingerprint existing !=? rt_ExecutionFingerprint requested)
    with ErrResidencyTransitionConflict;
  Ok tt.

Definition sameResidencyTransitionLeaseOrigin (left right : ResidencyTransition) : bool :=
  (rt_LeaseOriginAcceleratorID left ==? rt_LeaseOriginAcceleratorID right)
  && (rt_LeaseOriginWorkloadID left ==? rt_LeaseOriginWorkloadID right)
  && (rt_LeaseOriginFencingToken left =? rt_LeaseOriginFencingToken right)
  && (rt_LeaseOriginAllocated left ==? rt_LeaseOriginAllocated right).

Definition verifyResidencyTransitionReplay (existing : option ResidencyTransition) (requested : ResidencyTransition)
  : result unit :=
  match existing with
  | None => Err ErrResidencyTransitionConflict
  | Some existing =>
      let? _u := verifyResidencyTransitionCanonical existing requested true in
      reject negb (sameResidencyTransitionLeaseOrigin existing requested) with ErrResidencyTransitionConflict;
      Ok tt
  end.

Definition residencyTransitionHasLeaseOrigin (t : ResidencyTransition) : bool :=
  (rt_LeaseOriginAcceleratorID t !=? ""%string) || (rt_LeaseOriginWorkloadID t !=? ""%string)
  || negb (rt_LeaseOriginFencingToken t =? 0) || rt_LeaseOriginAllocated t.

Definition validateResidencyTransitionStoredOrigin (t : ResidencyTransition) : result unit :=
  if negb (residencyTransitionHasLeaseOrigin t) then Ok tt else
  reject (rt_LeaseOriginAcceleratorID t ==? ""%string) || (rt_LeaseOriginWorkloadID t ==? ""%string)
      || (rt_LeaseOriginFencingToken t <=? 0) || negb (rt_LeaseOriginAllocated t)
    with ErrResidencyTransitionConflict;
  Ok tt.

(** ** Lease provenance *)

Definition validateResidencyTransitionLeaseOriginRequest (t : option ResidencyTransition) (lease : option AcceleratorLease)
  : result string :=
  match t with
  | None => Err ErrResidencyTransitionConflict
  | Some t =>
      reject (rt_ID t ==? ""%string) || (rt_IdempotencyKey t ==? ""%string) || (rt_TargetID t ==? ""%string)
          || (rt_Model t ==? ""%string)
        with ErrResidencyTransitionConflict;
      reject (rt_Status t !=? ResidencyTransitionPlanned) || negb (rt_Revision t =? 0)
          || bool_decide (is_Some (rt_StartedAt t)) || bool_decide (is_Some (rt_FinishedAt t))
          || (rt_Error t !=? ""%string) || (rt_ObservedTier t !=? ""%string) || negb (rt_WarmModelBytes t =? 0)
          || rt_WarmModelBytesVerified t || (rt_RuntimeIdentity t !=? ""%string) || negb (rt_ObservedFence t =? 0)
          || rt_ProjectionRepairPending t
        with ErrResidencyTransitionConflict;
      reject residencyTransitionHasLeaseOrigin t with ErrResidencyTransitionConflict;
      match lease with
      | None => Err ErrResidencyTransitionConflict
      | Some lease =>
          reject (lease_WorkloadID lease ==? ""%string) || (lease_FencingToken lease <=? 0) || (lease_ExpiresAt lease =? 0)
              || negb (rt_FencingToken t =? lease_FencingToken lease)
            with ErrResidencyTransitionConflict;
          let virtual := ("virtual/" +:+ rt_TargetID t)%string in
          let resource := if rt_AcceleratorID t !=? ""%string then rt_AcceleratorID t else virtual in
          reject lease_AcceleratorID lease !=? resource with ErrResidencyTransitionConflict;
          reject resource ==? ""%string with ErrResidencyTransitionConflict;
          Ok resource
      end
  end.

Definition validateCurrentResidencyLeaseOrigin (current requested : option AcceleratorLease) (now : Time) : result unit :=
  match requested, current with
  | Some requested, Some current =>
      reject (lease_AcceleratorID requested ==? ""%string) || (lease_WorkloadID requested ==? ""%string)
          || (lease_FencingToken requested <=? 0)
          || (lease_AcceleratorID current !=? lease_AcceleratorID requested)
          || (lease_WorkloadID current !=? lease_WorkloadID requested)
          || negb (lease_FencingToken current =? lease_FencingToken requested)
          || negb (now <? lease_ExpiresAt current)
        with ErrResidencyTransitionConflict;
      Ok tt
  | _, _ => Err ErrResidencyTransitionConflict
  end.

Definition verifyResidencyTransitionLeaseReplay (existing requested : ResidencyTransition) (lease : AcceleratorLease)
  : result unit :=
  let? resource := validateResidencyTransitionLeaseOriginRequest (Some requested) (Some lease) in
  let? _u := verifyResidencyTransitionCanonical existing requested false in
  reject (rt_LeaseOriginAcceleratorID existing !=? resource) || (rt_LeaseOriginWorkloadID existing !=? lease_WorkloadID lease)
      || negb (rt_LeaseOriginFencingToken existing =? lease_FencingToken lease) || negb (rt_LeaseOriginAllocated existing)
      || (rt_FencingToken existing <? lease_FencingToken lease)
    with ErrResidencyTransitionConflict;
  Ok tt.

(** ** Transition handlers *)

Section handlers.
Context {R : GoRange}.

(** The largest token of a target and model. *)
Definition highwater (targetID model : string) (m : MemoryStore) : Z :=
  foldl (fun hw row => if (rt_TargetID row ==? targetID) && (rt_Model row ==? model) && (hw <? rt_FencingToken row)
                       then rt_FencingToken row else hw)
    0 (map snd (go_range (transitions m))).

(** The row already stored under the request's key or id. *)
Definition replayTransition (t : ResidencyTransition) (existing : option ResidencyTransition) (m : MemoryStore)
  : result (MemoryStore * (ResidencyTransition * bool)) :=
  let? _u := verifyResidencyTransitionReplay existing t in
  match existing with
  | Some existing => Ok (m, (existing, false))
  | None => Err ErrResidencyTransitionConflict
  end.

Definition storeTransition (t : ResidencyTransition) (m : MemoryStore) : MemoryStore :=
  m <| transitions := <[rt_ID t := t]> (transitions m) |>
    <| transitionKeys := <[rt_IdempotencyKey t := rt_ID t]> (transitionKeys m) |>.

Definition CreateResidencyTransition (t : ResidencyTransition) (m : MemoryStore)
  : result (MemoryStore * (ResidencyTransition * bool)) :=
  let? _u := validateResidencyTransitionStoredOrigin t in
  reject residencyTransitionHasLeaseOrigin t with ErrResidencyTransitionConflict;
  let id := lookup_string (transitionKeys m) (rt_IdempotencyKey t) in
  if id !=? ""%string then replayTransition t (transitions m !! id) m
  else match transitions m !! rt_ID t with
       | Some existing => replayTransition t (Some existing) m
       | None => Ok (storeTransition t m, (t, true))
       end.

(** The row with its first revision and a token above the high-water mark. *)
Definition allocateFence (t : ResidencyTransition) (m : MemoryStore) : result ResidencyTransition :=
  let allocated := if rt_Revision t =? 0 then t <| rt_Revision := 1 |> else t in
  let hw := highwater (rt_TargetID allocated) (rt_Model allocated) m in
  reject hw =? MaxInt64 with ErrResidencyTransitionConflict;
  Ok (if rt_FencingToken allocated <=? hw then allocated <| rt_FencingToken := hw + 1 |> else allocated).

Definition AllocateResidencyTransition (t : ResidencyTransition) (m : MemoryStore)
  : result (MemoryStore * (ResidencyTransition * bool)) :=
  let? _u := validateResidencyTransitionStoredOrigin t in
  reject residencyTransitionHasLeaseOrigin t with ErrResidencyTransitionConflict;
  let id := lookup_string (transitionKeys m) (rt_IdempotencyKey t) in
  if id !=? ""%string then replayTransition t (transitions m !! id) m
  else match transitions m !! rt_ID t with
       | Some existing => replayTransition t (Some existing) m
       | None =>
           let? allocated := allocateFence t m in
           Ok (storeTransition allocated m, (allocated, true))
       end.

Definition AllocateResidencyTransitionWithLease (now : Time) (t : option ResidencyTransition) (lease : option AcceleratorLease)
    (m : MemoryStore) : result (MemoryStore * (ResidencyTransition * bool)) :=
  let? resource := validateResidencyTransitionLeaseOriginRequest t lease in
  let? _u := validateCurrentResidencyLeaseOrigin (leases m !! resource) lease now in
  match t, lease with
  | Some t, Some lease =>
      let byKeyID := lookup_string (transitionKeys m) (rt_IdempotencyKey t) in
      let byID := transitions m !! rt_ID t in
      if byKeyID !=? ""%string then
        match transitions m !! byKeyID with
        | None => Err ErrResidencyTransitionConflict
        | Some byKey =>
            reject match byID with Some row => rt_ID row !=? rt_ID byKey | None => false end
              with ErrResidencyTransitionConflict;
            let? _u := verifyResidencyTransitionLeaseReplay byKey t lease in
            Ok (m, (byKey, false))
        end
      else match byID with
           | Some row =>
               let? _u := verifyResidencyTransitionLeaseReplay row t lease in
               Ok (m, (row, false))
           | None =>
               let? allocated := allocateFence t m in
               let allocated := allocated <| rt_LeaseOriginAcceleratorID := resource |>
                                          <| rt_LeaseOriginWorkloadID := lease_WorkloadID lease |>
                                          <| rt_LeaseOriginFencingToken := lease_FencingToken lease |>
                                          <| rt_LeaseOriginAllocated := true |> in
               Ok (storeTransition allocated m, (allocated, true))
           end
  | _, _ => Err ErrResidencyTransitionConflict
  end.

Definition GetResidencyTransitionByIdempotencyForLease (now : Time) (idempotencyKey : string)
    (lease : option AcceleratorLease) (m : MemoryStore) : result ResidencyTransition :=
  match lease with
  | None => Err ErrNotFound
  | Some lease =>
      reject (idempotencyKey ==? ""%string) || (lease_AcceleratorID lease ==? ""%string) with ErrNotFound;
      let? _u := validateCurrentResidencyLeaseOrigin (leases m !! lease_AcceleratorID lease) (Some lease) now in
      let id := lookup_string (transitionKeys m) idempotencyKey in
      reject id ==? ""%string with ErrNotFound;
      match transitions m !! id with
      | None => Err ErrNotFound
      | Some t =>
          reject (rt_LeaseOriginAcceleratorID t !=? lease_AcceleratorID lease)
              || (rt_LeaseOriginWorkloadID t !=? lease_WorkloadID lease)
              || negb (rt_LeaseOriginFencingToken t =? lease_FencingToken lease) || negb (rt_LeaseOriginAllocated t)
              || (rt_FencingToken t <? lease_FencingToken lease)
            with ErrResidencyTransitionConflict;
          Ok t
      end
  end.

Definition CompareAndSwapResidencyTransition (t : ResidencyTransition) (expectedRevision : Z)
    (expectedStatus : ResidencyTransitionStatus) (expectedFence : Z) (m : MemoryStore)
  : result (MemoryStore * ResidencyTransition) :=
  match transitions m !! rt_ID t with
  | None => Err ErrNotFound
  | Some current =>
      let? _u := validateResidencyTransitionStoredOrigin current in
      let? _u := validateResidencyTransitionStoredOrigin t in
      reject negb (rt_Revision current =? expectedRevision) || (rt_Status current !=? expectedStatus)
          || negb (rt_FencingToken current =? expectedFence)
        with ErrResidencyTransitionConflict;
      let? _u := verifyResidencyTransitionReplay (Some current) t in
      let updated := t <| rt_Revision := wrapU64 (expectedRevision + 1) |> in
      Ok (m <| transitions := <[rt_ID updated := updated]> (transitions m) |>, updated)
  end.

Definition UpdateResidencyTransition (t : ResidencyTransition) (m : MemoryStore)
  : result (MemoryStore * ResidencyTransition) :=
  match transitions m !! rt_ID t with
  | None => Err ErrNotFound
  | Some current =>
      let? _u := validateResidencyTransitionStoredOrigin current in
      let? _u := validateResidencyTransitionStoredOrigin t in
      reject negb (sameResidencyTransitionLeaseOrigin current t) with ErrResidencyTransitionConflict;
      reject rt_LeaseOriginAllocated current && negb (is_ok (verifyResidencyTransitionCanonical current t true))
        with ErrResidencyTransitionConflict;
      Ok (m <| transitions := <[rt_ID t := t]> (transitions m) |>, t)
  end.

Definition GetResidencyTransitionByIdempotency (idempotencyKey : string) (m : MemoryStore) : result ResidencyTransition :=
  reject idempotencyKey ==? ""%string with ErrNotFound;
  let id := lookup_string (transitionKeys m) idempotencyKey in
  reject id ==? ""%string with ErrNotFound;
  match transitions m !! id with
  | Some t => Ok t
  | None => Err ErrNotFound
  end.

Definition GetResidencyTransition (id : string) (m : MemoryStore) : result ResidencyTransition :=
  match transitions m !! id with
  | Some t => Ok t
  | None => Err ErrNotFound
  end.

Definition MaxResidencyFencingToken (targetID model : string) (m : MemoryStore) : Z := highwater targetID model m.

Definition ListActiveResidencyTransitions (targetID model : string) (m : MemoryStore) : list ResidencyTransition :=
  sort_slice (fun a b => rt_CreatedAt b <? rt_CreatedAt a)
    (range_rows (fun t => negb ((rt_TargetID t !=? targetID) || (rt_Model t !=? model)
        || ((rt_Status t !=? ResidencyTransitionPlanned) && (rt_Status t !=? ResidencyTransitionRunning)
            && negb ((rt_Status t ==? ResidencyTransitionSucceeded) && rt_ProjectionRepairPending t))))
      (transitions m)).

Definition ListResidencyTransitions (limit : Z) (m : MemoryStore) : list ResidencyTransition :=
  let all := limit <? 0 in
  let limit := if (limit <=? 0) || (1000 <? limit) then 100 else limit in
  let out := sort_slice (fun a b => rt_CreatedAt b <? rt_CreatedAt a) (range_rows (fun _ => true) (transitions m)) in
  if all then out else truncate_list limit out.
End handlers.

(** ** The high-water mark *)

Definition of_model (targetID model : string) (t : ResidencyTransition) : Prop :=
  rt_TargetID t = targetID /\ rt_Model t = model.

Lemma highwater_fold targetID model l hw0 :
  let hw := foldl (fun hw row => if (rt_TargetID row ==? targetID) && (rt_Model row ==? model) && (hw <? rt_FencingToken row)
                                 then rt_FencingToken row else hw) hw0 l in
  hw0 <= hw /\ (forall t, t ∈ l -> of_model targetID model t -> rt_FencingToken t <= hw) /\
  (hw = hw0 \/ exists t, t ∈ l /\ of_model targetID model t /\ rt_FencingToken t = hw).
Proof.
  revert hw0. induction l as [|x l IH]; intros hw0; cbn [foldl].
  { split; [lia|]. split; [by intros t ?%elem_of_nil|by left]. }
  destruct (_ && _) eqn:E.
  - bool_simp. destruct (IH (rt_FencingToken x)) as (Hle & Hall & Hex). split; [lia|]. split.
    + intros t [->|Hin]%elem_of_cons Hm; [done|]. by apply Hall.
    + right. destruct Hex as [->|(t & Hin & Hm & Ht)]; [exists x; split; [left|done]|exists t; split; [by right|done]].
  - destruct (IH hw0) as (Hle & Hall & Hex). split; [done|]. split.
    + intros t [->|Hin]%elem_of_cons Hm; [|by apply Hall]. destruct Hm as [Hm1 Hm2].
      rewrite (bool_decide_eq_true_2 _ Hm1), (bool_decide_eq_true_2 _ Hm2) in E. cbn in E. bool_simp. lia.
    + destruct Hex as [->|(t & Hin & Hm)]; [by left|right; exists t; split; [by right|done]].
Qed.

Lemma range_values {R : GoRange} {A} (m : gmap string A) x : x ∈ map snd (go_range m) <-> exists k, m !! k = Some x.
Proof.
  rewrite list_elem_of_fmap. split.
  - intros ([k y] & -> & Hin). exists k. by apply go_range_elem.
  - intros [k Hk]. exists (k, x). split; [done|]. by apply go_range_elem.
Qed.

Lemma highwater_spec {R : GoRange} targetID model m :
  0 <= highwater targetID model m /\
  (forall k t, transitions m !! k = Some t -> of_model targetID model t -> rt_FencingToken t <= highwater targetID model m) /\
  (highwater targetID model m = 0 \/
   exists k t, transitions m !! k = Some t /\ of_model targetID model t /\ rt_FencingToken t = highwater targetID model m).
Proof.
  destruct (highwater_fold targetID model (map snd (go_range (transitions m))) 0) as (H0 & Hall & Hex).
  unfold highwater. split; [done|]. split.
  - intros k t Hk. apply Hall, range_values. eauto.
  - destruct Hex as [->|(t & Hin & Hm & Ht)]; [by left|]. right. apply range_values in Hin as [k Hk]. eauto.
Qed.

(** The order of [range] does not matter. *)
Lemma highwater_order (R R' : GoRange) targetID model m :
  highwater (R := R) targetID model m = highwater (R := R') targetID model m.
Proof.
  destruct (highwater_spec (R := R) targetID model m) as (H0 & Hall & Hex).
  destruct (highwater_spec (R := R') targetID model m) as (H0' & Hall' & Hex').
  apply Z.le_antisymm.
  - destruct Hex as [->|(k & t & Hk & Hm & <-)]; [done|by eapply Hall'].
  - destruct Hex' as [->|(k & t & Hk & Hm & <-)]; [done|by eapply Hall].
Qed.

Lemma allocateFence_spec {R : GoRange} t m a : allocateFence t m = Ok a ->
  rt_ID a = rt_ID t /\ rt_IdempotencyKey a = rt_IdempotencyKey t /\ of_model (rt_TargetID t) (rt_Model t) a /\
  highwater (rt_TargetID t) (rt_Model t) m < rt_FencingToken a /\ rt_FencingToken t <= rt_FencingToken a.
Proof.
  unfold allocateFence. set (t1 := if rt_Revision t =? 0 then t <| rt_Revision := 1 |> else t).
  assert (rt_ID t1 = rt_ID t /\ rt_IdempotencyKey t1 = rt_IdempotencyKey t /\ rt_TargetID t1 = rt_TargetID t /\
    rt_Model t1 = rt_Model t /\ rt_FencingToken t1 = rt_FencingToken t) as (H1 & H2 & H3 & H4 & H5)
    by (subst t1; by destruct (rt_Revision t =? 0)).
  clearbody t1. rewrite H3, H4. intros H. destruct (_ =? MaxInt64); [discriminate H|].
  destruct (rt_FencingToken t1 <=? _) eqn:E in H; apply (f_equal (fun r => match r with Ok x => x | _ => t1 end)) in H;
    cbn beta iota in H; subst a; bool_simp; unfold of_model; cbn; rewrite ?H1, ?H2, ?H3, ?H4, ?H5; repeat split; lia || done.
Qed.

(** ** Effects of the handlers *)

(** The arguments a replay must repeat, and the lease provenance. *)
Definition rt_canonical (t : ResidencyTransition) :=
  ((rt_IdempotencyKey t, rt_TargetID t, rt_AcceleratorID t, rt_Model t, rt_FromTier t),
   (rt_ToTier t, rt_Reason t, rt_RequestedBy t, rt_WorkloadID t, rt_FencingToken t),
   (rt_CapabilityVersion t, rt_CapabilityRevision t, rt_TargetGeneration t, rt_ExecutionFingerprint t)).

Definition rt_origin (t : ResidencyTransition) :=
  (rt_LeaseOriginAcceleratorID t, rt_LeaseOriginWorkloadID t, rt_LeaseOriginFencingToken t, rt_LeaseOriginAllocated t).

Lemma verifyCanonical_spec a b : verifyResidencyTransitionCanonical a b true = Ok tt <-> rt_canonical a = rt_canonical b.
Proof.
  unfold verifyResidencyTransitionCanonical, rt_canonical. cbn [andb]. rewrite !pair_equal_spec. destruct (_ || _) eqn:E.
  - split; [done|]. intros H. exfalso. repeat (apply orb_true_iff in E as [E|E]); bool_simp; intuition congruence.
  - split; [|done]. intros _. bool_simp. intuition congruence.
Qed.

Lemma sameOrigin_spec a b : sameResidencyTransitionLeaseOrigin a b = true <-> rt_origin a = rt_origin b.
Proof.
  unfold sameResidencyTransitionLeaseOrigin, rt_origin.
  rewrite !andb_true_iff, !bool_decide_eq_true, Z.eqb_eq, !pair_equal_spec. tauto.
Qed.

Lemma verifyReplay_spec a b : verifyResidencyTransitionReplay (Some a) b = Ok tt ->
  rt_canonical a = rt_canonical b /\ rt_origin a = rt_origin b.
Proof.
  unfold verifyResidencyTransitionReplay. destruct (verifyResidencyTransitionCanonical a b true) as [[]|] eqn:E; [|done].
  destruct (sameResidencyTransitionLeaseOrigin a b) eqn:Ho; [|done]. intros _.
  split; [by apply verifyCanonical_spec|by apply sameOrigin_spec].
Qed.

(** How a residency row is replaced. *)
Definition mr_step (a b : ModelResidency) : Prop :=
  residencyGenerationCompatible a b = true /\
  (mr_Revision b = wrapU64 (mr_Revision a + 1) \/ mr_Revision a < mr_Revision b).

(** With [g], a transition is only replaced with the next revision. *)
Inductive res_effect (g : bool) (m m' : MemoryStore) : Prop :=
  | re_none : m' = m -> res_effect g m m'
  | re_residency b : m' = m <| residencies := <[residencyKey (mr_TargetID b) (mr_Model b) := b]> (residencies m) |> ->
      (forall a, residencies m !! residencyKey (mr_TargetID b) (mr_Model b) = Some a -> mr_step a b) -> res_effect g m m'
  | re_insert t : transitions m !! rt_ID t = None -> m' = storeTransition t m -> res_effect g m m'
  | re_replace a b : transitions m !! rt_ID b = Some a ->
      m' = m <| transitions := <[rt_ID b := b]> (transitions m) |> ->
      rt_origin b = rt_origin a -> (rt_LeaseOriginAllocated a = true -> rt_canonical b = rt_canonical a) ->
      (g = true -> rt_Revision b = wrapU64 (rt_Revision a + 1)) ->
      res_effect g m m'.

Inductive res_guarded (m m' : MemoryStore) : Prop :=
  | rs_upsert r x : UpsertModelResidency r m = Ok (m', x) -> res_guarded m m'
  | rs_create r x : CreateModelResidency r m = Ok (m', x) -> res_guarded m m'
  | rs_cas c r e x : CompareAndSwapModelResidency c r e m = Ok (m', x) -> res_guarded m m'
  | rs_create_transition t x : CreateResidencyTransition t m = Ok (m', x) -> res_guarded m m'
  | rs_allocate (R : GoRange) t x : AllocateResidencyTransition t m = Ok (m', x) -> res_guarded m m'
  | rs_allocate_lease (R : GoRange) now t l x : AllocateResidencyTransitionWithLease now t l m = Ok (m', x) -> res_guarded m m'
  | rs_cas_transition t e st f x : CompareAndSwapResidencyTransition t e st f m = Ok (m', x) -> res_guarded m m'.

(** The plain update stores the revision of the caller. *)
Inductive res_step (m m' : MemoryStore) : Prop :=
  | rs_guarded : res_guarded m m' -> res_step m m'
  | rs_update_transition t x : UpdateResidencyTransition t m = Ok (m', x) -> res_step m m'.

Lemma replayTransition_spec t o m m' x : replayTransition t o m = Ok (m', x) -> m' = m /\ o = Some x.1 /\ x.2 = false.
Proof. unfold replayTransition. intros H. repeat (branch H); by injection H as <- <-. Qed.

Lemma Upsert_effect r m m' x : UpsertModelResidency r m = Ok (m', x) -> res_effect true m m'.
Proof.
  unfold UpsertModelResidency. intros H.
  destruct (residencies m !! _) as [a|] eqn:Ha in H.
  - destruct (residencyGenerationCompatible a r) eqn:Hg; [cbn [negb] in H|discriminate H]. injection H as <- _.
    apply (re_residency _ _ _ (if mr_Revision r <=? mr_Revision a then r <| mr_Revision := wrapU64 (mr_Revision a + 1) |> else r)).
    { by destruct (_ <=? _). }
    intros a' Ha'. assert (a' = a) as -> by (destruct (_ <=? _) in Ha'; cbn in Ha'; congruence).
    split; [by destruct (_ <=? _)|]. destruct (_ <=? _) eqn:E; [by left|]. bool_simp. by right.
  - injection H as <- _. apply (re_residency _ _ _ (if mr_Revision r =? 0 then r <| mr_Revision := 1 |> else r)).
    { by destruct (_ =? 0). }
    intros a' Ha'. destruct (_ =? 0) in Ha'; cbn in Ha'; congruence.
Qed.

Lemma res_guarded_effect m m' : res_guarded m m' -> res_effect true m m'.
Proof.
  intros [r x H|r x H|c r e x H|t x H|R t x H|R now t l x H|t e st f x H].
  - by eapply Upsert_effect.
  - unfold CreateModelResidency in H. destruct (residencies m !! _) as [a|] eqn:Ha in H.
    { destruct (negb _) in H; [done|]. injection H as <- _. by constructor. }
    injection H as <- _. apply (re_residency _ _ _ (if mr_Revision r =? 0 then r <| mr_Revision := 1 |> else r)).
    { by destruct (_ =? 0). }
    intros a Ha'. destruct (_ =? 0) in Ha'; cbn in Ha'; congruence.
  - unfold CompareAndSwapModelResidency in H. destruct c; [done|]. destruct (residencies m !! _) as [a|] eqn:Ha in H; [|done].
    destruct (negb (_ =? e)) eqn:He in H; [done|]. destruct (negb (residencyGenerationCompatible _ _)) eqn:Hg in H; [done|].
    injection H as <- _. bool_simp.
    apply (re_residency _ _ _ (r <| mr_Revision := wrapU64 (e + 1) |>)); [reflexivity|]. cbn. intros a' Ha'.
    replace a' with a by congruence. split; [done|]. left. cbn. by rewrite He.
  - unfold CreateResidencyTransition in H. repeat (branch H); try (apply replayTransition_spec in H as [-> _]; by constructor).
    injection H as <- _. by eapply re_insert.
  - unfold AllocateResidencyTransition in H. repeat (branch H); try (apply replayTransition_spec in H as [-> _]; by constructor).
    injection H as <- _. eapply re_insert; [|reflexivity].
    match goal with E : allocateFence _ _ = Ok _ |- _ => apply allocateFence_spec in E as (-> & _) end. done.
  - unfold AllocateResidencyTransitionWithLease in H. repeat (branch H); try (injection H as <- _; by constructor).
    injection H as <- _. eapply re_insert; [|reflexivity]. cbn.
    match goal with E : allocateFence _ _ = Ok _ |- _ => apply allocateFence_spec in E as (-> & _) end. done.
  - unfold CompareAndSwapResidencyTransition in H. destruct (transitions m !! rt_ID t) as [a|] eqn:Ha; [|done].
    destruct (validateResidencyTransitionStoredOrigin a); [|done]. destruct (validateResidencyTransitionStoredOrigin t); [|done].
    destruct (_ || _) eqn:He in H; [done|]. destruct (verifyResidencyTransitionReplay _ _) as [[]|] eqn:Hv in H; [|done].
    injection H as <- _. apply verifyReplay_spec in Hv as [Hc Ho].
    apply (re_replace _ _ _ a (t <| rt_Revision := wrapU64 (e + 1) |>)); [exact Ha|reflexivity|exact (eq_sym Ho)|..].
    + intros _. exact (eq_sym Hc).
    + intros _. bool_simp. cbn. congruence.
Qed.

Lemma res_effect_weaken m m' : res_effect true m m' -> res_effect false m m'.
Proof. intros [H|b H H'|t H H'|a b H H' Ho Hc _]; [by constructor|by eapply re_residency|by eapply re_insert|by eapply re_replace]. Qed.

Lemma res_step_effect m m' : res_step m m' -> res_effect false m m'.
Proof.
  intros [H|t x H]; [by apply res_effect_weaken, res_guarded_effect|].
  unfold UpdateResidencyTransition in H. destruct (transitions m !! rt_ID t) as [a|] eqn:Ha; [|done].
  destruct (validateResidencyTransitionStoredOrigin a); [|done]. destruct (validateResidencyTransitionStoredOrigin t); [|done].
  destruct (sameResidencyTransitionLeaseOrigin a t) eqn:Ho; [cbn [negb] in H|done].
  destruct (_ && _) eqn:Hc in H; [done|]. injection H as <- _. apply sameOrigin_spec in Ho.
  eapply re_replace; [done|done|done| |done]. intros Hal. rewrite Hal in Hc. cbn [andb] in Hc.
  destruct (verifyResidencyTransitionCanonical a t true) as [[]|] eqn:E; [|done]. symmetry. by apply verifyCanonical_spec.
Qed.

Lemma res_step_frame m m' : res_step m m' ->
  m' = m <| residencies := residencies m' |> <| transitions := transitions m' |> <| transitionKeys := transitionKeys m' |>.
Proof. intros [->|b -> _|t _ ->|a b _ -> _ _ _]%res_step_effect; by destruct m. Qed.

Lemma res_step_indexed m m' : res_step m m' ->
  indexed rt_ID (transitions m) (transitionKeys m) -> indexed rt_ID (transitions m') (transitionKeys m').
Proof.
  intros [->|b -> _|t _ ->|a b _ -> _ _ _]%res_step_effect I; [done|done|by apply indexed_create|by apply indexed_insert].
Qed.

Lemma res_step_keyed m m' : res_step m m' ->
  (forall k r, residencies m !! k = Some r -> residencyKey (mr_TargetID r) (mr_Model r) = k) ->
  forall k r, residencies m' !! k = Some r -> residencyKey (mr_TargetID r) (mr_Model r) = k.
Proof.
  intros [->|b -> _|t _ ->|a b _ -> _ _ _]%res_step_effect H k r; cbn; [apply H| |apply H|apply H].
  rewrite lookup_insert. case_decide as E; [by intros [= <-]|apply H].
Qed.

Lemma res_guarded_revises m m' k a : res_guarded m m' -> transitions m !! k = Some a ->
  exists b, transitions m' !! k = Some b /\ (b = a \/ rt_Revision b = wrapU64 (rt_Revision a + 1)).
Proof.
  intros [->|b -> _|t Hn ->|a' b Ha' -> _ _ Hr]%res_guarded_effect Ha; [eauto|eauto|..]; cbn; rewrite lookup_insert;
    case_decide as E; eauto; [congruence|].
  subst. assert (a' = a) as -> by congruence. eauto.
Qed.

(** Residency rows are only replaced by compatible ones. *)
Lemma res_effect_residency m m' k a : res_effect false m m' -> residencies m !! k = Some a ->
  exists b, residencies m' !! k = Some b /\ (b = a \/ mr_step a b).
Proof.
  intros [->|b -> Hb|t _ ->|a' b _ -> _ _ _] Ha; [by eauto| |by eauto|by eauto]. cbn.
  destruct (decide (residencyKey (mr_TargetID b) (mr_Model b) = k)) as [<-|];
    [exists b; rewrite lookup_insert_eq|exists a; rewrite lookup_insert_ne]; auto.
Qed.

(** An allocated transition keeps its arguments, its token and its provenance. *)
Lemma res_effect_leased m m' k a : res_effect false m m' -> transitions m !! k = Some a -> rt_LeaseOriginAllocated a = true ->
  exists b, transitions m' !! k = Some b /\ rt_canonical b = rt_canonical a /\ rt_origin b = rt_origin a.
Proof.
  intros [->|b -> Hb|t Hf ->|a' b Ha' -> Ho Hc _] Ha Hal; [by eauto|by eauto|..]; cbn.
  - exists a. rewrite lookup_insert_ne; [done|congruence].
  - destruct (decide (rt_ID b = k)) as [<-|]; [exists b; rewrite lookup_insert_eq|exists a; by rewrite lookup_insert_ne].
    assert (a' = a) as -> by congruence. auto.
Qed.

Lemma compatible_generation a b : residencyGenerationCompatible a b = true ->
  mr_TargetGeneration a <= mr_TargetGeneration b /\ mr_ExecutionFingerprint b <> ""%string /\
  (mr_TargetGeneration a = mr_TargetGeneration b -> mr_ExecutionFingerprint a = mr_ExecutionFingerprint b).
Proof.
  unfold residencyGenerationCompatible. destruct (_ <? _) eqn:E1; [done|]. destruct (_ =? _) eqn:E2; intros H; bool_simp.
  - split; [lia|]. done.
  - split; [lia|]. split; [done|]. lia.
Qed.
