(* ===== verification/Commands.v ===== *)
(** * Node commands ([memory.go], [store.go])

    Signed commands to nodes: idempotent creation, compare-and-swap on
    revision, attempts and uncertainty, promotion to the uncertain state and
    the retry schedule of its recovery. *)

From S2P Require Import Prelude GoText Domain DomainWorkload DomainNode GoJSON Store.

(** ** Replays *)

Definition verifyNodeCommandReplay (existing : option NodeCommand) (requested : NodeCommand) : result unit :=
  match existing with
  | None => Err ErrNodeCommandConflict
  | Some existing =>
      reject (nc_NodeID existing !=? nc_NodeID requested) || (nc_IdempotencyKey existing !=? nc_IdempotencyKey requested)
          || (nc_Command existing !=? nc_Command requested)
        with ErrNodeCommandConflict;
      match marshal_map (nc_Args existing), marshal_map (nc_Args requested) with
      | Some existingArgs, Some requestedArgs =>
          reject existingArgs !=? requestedArgs with ErrNodeCommandConflict;
          Ok tt
      | _, _ => Err ErrNodeCommandConflict
      end
  end.

Definition verifyNodeCommandDelivery (existing : option NodeCommand) (requested : NodeCommand) : result unit :=
  let? _u := verifyNodeCommandReplay existing requested in
  reject (nc_Signature <$> existing) !=? Some (nc_Signature requested) with ErrNodeCommandConflict;
  Ok tt.

(** ** Handlers *)

Definition replayCommand (existing : option NodeCommand) (command : NodeCommand) (m : MemoryStore)
  : result (MemoryStore * (NodeCommand * bool)) :=
  let? _u := verifyNodeCommandReplay existing command in
  match existing with
  | Some existing => Ok (m, (existing, false))
  | None => Err ErrNodeCommandConflict
  end.

Definition CreateNodeCommand (command : NodeCommand) (m : MemoryStore) : result (MemoryStore * (NodeCommand * bool)) :=
  let key := key2 (nc_NodeID command) (nc_IdempotencyKey command) in
  let id := lookup_string (nodeCommandKeys m) key in
  if id !=? ""%string then replayCommand (nodeCommands m !! id) command m
  else match nodeCommands m !! nc_ID command with
       | Some existing => replayCommand (Some existing) command m
       | None =>
           let stored := if nc_Revision command =? 0 then command <| nc_Revision := 1 |> else command in
           Ok (m <| nodeCommands := <[nc_ID command := stored]> (nodeCommands m) |>
                 <| nodeCommandKeys := <[key := nc_ID command]> (nodeCommandKeys m) |>, (stored, true))
       end.

Definition UpdateNodeCommand (command : NodeCommand) (m : MemoryStore) : result (MemoryStore * NodeCommand) :=
  match nodeCommands m !! nc_ID command with
  | None => Err ErrNotFound
  | Some _ => Ok (m <| nodeCommands := <[nc_ID command := command]> (nodeCommands m) |>, command)
  end.

Definition CompareAndSwapNodeCommandRevision (command : NodeCommand) (expectedRevision expectedAttempts : Z)
    (expectedUncertain : bool) (expected : list NodeCommandStatus) (m : MemoryStore)
  : result (MemoryStore * NodeCommand) :=
  match nodeCommands m !! nc_ID command with
  | None => Err ErrNotFound
  | Some current =>
      let allowed := existsb (fun status => nc_Status current ==? status) expected in
      reject negb allowed || negb (nc_Revision current =? expectedRevision) || negb (nc_Attempts current =? expectedAttempts)
          || (nc_Uncertain current !=? expectedUncertain)
        with ErrNodeCommandConflict;
      let? _u := verifyNodeCommandDelivery (Some current) command in
      let stored := command <| nc_Revision := wrapU64 (nc_Revision current + 1) |> in
      Ok (m <| nodeCommands := <[nc_ID command := stored]> (nodeCommands m) |>, stored)
  end.

(** The row is read from the store [m0] under one lock and swapped in [m]
    under another; other handlers may run in between. *)
Definition CompareAndSwapNodeCommand (command : NodeCommand) (expectedAttempts : Z) (expected : list NodeCommandStatus)
    (m0 m : MemoryStore) : result (MemoryStore * NodeCommand) :=
  match nodeCommands m0 !! nc_ID command with
  | None => Err ErrNotFound
  | Some current =>
      CompareAndSwapNodeCommandRevision command (nc_Revision current) expectedAttempts (nc_Uncertain current) expected m
  end.

(** The body of the doubling loop, [n] times. *)
Fixpoint doubled (n : nat) (delay : Duration) : Duration :=
  match n with
  | O => delay
  | S n => doubled n (wrap64 (delay * 2))
  end.

Definition nodeCommandRecoveryBackoff (attempt : Z) : Duration :=
  let attempt := if attempt <? 1 then 1 else attempt in
  let attempt := if 9 <? attempt then 9 else attempt in
  let delay := doubled (Z.to_nat (attempt - 1)) (100 * millisecond) in
  if 5 * second <? delay then 5 * second else delay.

(** [now] and [now'] are the two readings of the clock; [cancelled] the error
    of the caller's context. *)
Definition AdvanceNodeCommandRecovery (cancelled : option error) (now now' : Time) (id : string) (m : MemoryStore)
  : result (MemoryStore * NodeCommand) :=
  match cancelled with
  | Some e => Err e
  | None =>
      match nodeCommands m !! id with
      | None => Err ErrNotFound
      | Some current =>
          if negb (nc_Uncertain current) || (nc_EvidenceKind current ==? "authoritative_observation"%string)
          then Ok (m, current)
          else
            let attempts := wrap64 (nc_RecoveryAttempts current + 1) in
            let updated := current <| nc_RecoveryAttempts := attempts |>
                                   <| nc_RecoveryNextAt := Some (now + nodeCommandRecoveryBackoff attempts) |>
                                   <| nc_UpdatedAt := now' |>
                                   <| nc_Revision := wrapU64 (nc_Revision current + 1) |> in
            Ok (m <| nodeCommands := <[id := updated]> (nodeCommands m) |>, updated)
      end
  end.

Definition PromoteNodeCommandUncertain (now : Time) (id nodeID result commandError : string) (m : MemoryStore)
  : Prelude.result (MemoryStore * NodeCommand) :=
  match nodeCommands m !! id with
  | None => Err ErrNotFound
  | Some current =>
      reject nc_NodeID current !=? nodeID with ErrNotFound;
      reject negb (nc_Uncertain current)
          && ((nc_Status current ==? NodeCommandSucceeded) || (nc_Status current ==? NodeCommandFailed))
          && (nc_EvidenceKind current ==? "authoritative_observation"%string)
        with ErrNodeCommandConflict;
      let updated := current <| nc_Status := NodeCommandSent |> <| nc_Uncertain := true |> <| nc_Result := result |>
                             <| nc_Error := commandError |> <| nc_UpdatedAt := now |>
                             <| nc_Revision := wrapU64 (nc_Revision current + 1) |> in
      Ok (m <| nodeCommands := <[id := updated]> (nodeCommands m) |>, updated)
  end.

Definition GetNodeCommand (id : string) (m : MemoryStore) : result NodeCommand :=
  match nodeCommands m !! id with
  | Some command => Ok command
  | None => Err ErrNotFound
  end.

Section lists.
Context {R : GoRange}.

Definition ListNodeCommandRecovery (nodeID reconcilesCommandID : string) (m : MemoryStore) : list NodeCommand :=
  sort_slice (fun a b => nc_CreatedAt a <? nc_CreatedAt b)
    (range_rows (fun c => negb ((nodeID !=? ""%string) && (nc_NodeID c !=? nodeID))
                          && negb ((reconcilesCommandID !=? ""%string) && (nc_ReconcilesCommandID c !=? reconcilesCommandID)))
      (nodeCommands m)).

Definition ListNodeCommands (nodeID : string) (limit : Z) (m : MemoryStore) : list NodeCommand :=
  let limit := if (limit <=? 0) || (1000 <? limit) then 100 else limit in
  truncate_list limit (sort_slice (fun a b => nc_CreatedAt b <? nc_CreatedAt a)
    (range_rows (fun c => (nodeID ==? ""%string) || (nc_NodeID c ==? nodeID)) (nodeCommands m))).
End lists.

(** ** The retry schedule *)

Lemma doubled_pow n d : 0 <= d -> d * 2 ^ Z.of_nat n <= MaxInt64 -> doubled n d = d * 2 ^ Z.of_nat n.
Proof.
  revert d. induction n as [|n IH]; intros d Hd Hb; [cbn; lia|].
  rewrite Nat2Z.inj_succ, Z.pow_succ_r in Hb |- * by lia.
  pose proof (Z.pow_pos_nonneg 2 (Z.of_nat n) ltac:(lia) ltac:(lia)).
  cbn [doubled]. assert (wrap64 (d * 2) = d * 2) as ->.
  { unfold wrap64, two64. unfold MaxInt64 in Hb. rewrite Z.mod_small; nia. }
  rewrite IH; lia.
Qed.

(** ** Steps of this component on the store

    All handlers but the plain update step the revision of the row they
    replace. *)

Inductive cmd_guarded (m m' : MemoryStore) : Prop :=
  | ms_create c x : CreateNodeCommand c m = Ok (m', x) -> cmd_guarded m m'
  | ms_cas c e a u st x : CompareAndSwapNodeCommandRevision c e a u st m = Ok (m', x) -> cmd_guarded m m'
  | ms_legacy m0 c a st x : CompareAndSwapNodeCommand c a st m0 m = Ok (m', x) -> cmd_guarded m m'
  | ms_advance cancelled now now' id x : AdvanceNodeCommandRecovery cancelled now now' id m = Ok (m', x) -> cmd_guarded m m'
  | ms_promote now id node r e x : PromoteNodeCommandUncertain now id node r e m = Ok (m', x) -> cmd_guarded m m'.

Inductive cmd_step (m m' : MemoryStore) : Prop :=
  | ms_guarded : cmd_guarded m m' -> cmd_step m m'
  | ms_update c x : UpdateNodeCommand c m = Ok (m', x) -> cmd_step m m'.

Inductive cmd_effect (m m' : MemoryStore) : Prop :=
  | ce_none : m' = m -> cmd_effect m m'
  | ce_create c key : nodeCommands m !! nc_ID c = None ->
      m' = m <| nodeCommands := <[nc_ID c := c]> (nodeCommands m) |> <| nodeCommandKeys := <[key := nc_ID c]> (nodeCommandKeys m) |> ->
      cmd_effect m m'
  | ce_revise k a b : nodeCommands m !! k = Some a -> nc_ID b = k \/ nc_ID b = nc_ID a ->
      nc_Revision b = wrapU64 (nc_Revision a + 1) ->
      m' = m <| nodeCommands := <[k := b]> (nodeCommands m) |> -> cmd_effect m m'.

Lemma cas_effect c e a u st m m' x : CompareAndSwapNodeCommandRevision c e a u st m = Ok (m', x) -> cmd_effect m m'.
Proof.
  unfold CompareAndSwapNodeCommandRevision. intros H. destruct (nodeCommands m !! nc_ID c) as [cur|] eqn:Hc; [|done].
  cbv zeta in H. destruct (_ || _) in H; [done|]. destruct (verifyNodeCommandDelivery _ _) in H; [|done]. injection H as <- _.
  eapply (ce_revise _ _ _ cur); [exact Hc| | |reflexivity]; [by left|reflexivity].
Qed.

Lemma cmd_guarded_effect m m' : cmd_guarded m m' -> cmd_effect m m'.
Proof.
  intros [c x H|c e a u st x H|m0 c a st x H|cancelled now now' id x H|now id node r e x H].
  - unfold CreateNodeCommand, replayCommand in H. cbv zeta in H.
    destruct (_ !=? _) in H; [repeat (branch H); injection H as <- _; by constructor|].
    destruct (nodeCommands m !! nc_ID c) eqn:Hc; [repeat (branch H); injection H as <- _; by constructor|].
    injection H as <- _.
    eapply (ce_create _ _ (if nc_Revision c =? 0 then c <| nc_Revision := 1 |> else c)); destruct (_ =? 0); [done..|reflexivity|reflexivity].
  - by eapply cas_effect.
  - unfold CompareAndSwapNodeCommand in H. branch H. by eapply cas_effect.
  - unfold AdvanceNodeCommandRecovery in H. destruct cancelled; [done|].
    destruct (nodeCommands m !! id) as [cur|] eqn:Hc; [|done]. destruct (_ || _) in H; injection H as <- _; [by constructor|].
    eapply (ce_revise _ _ id cur); [done| | |reflexivity]; [by right|reflexivity].
  - unfold PromoteNodeCommandUncertain in H. destruct (nodeCommands m !! id) as [cur|] eqn:Hc; [|done].
    destruct (_ !=? _) in H; [done|]. destruct (_ && _) in H; [done|]. injection H as <- _.
    eapply (ce_revise _ _ id cur); [done| | |reflexivity]; [by right|reflexivity].
Qed.

Lemma cmd_step_frame m m' : cmd_step m m' ->
  m' = m <| nodeCommands := nodeCommands m' |> <| nodeCommandKeys := nodeCommandKeys m' |>.
Proof.
  intros [[->|c key _ ->|k a b _ _ _ ->]%cmd_guarded_effect|c x H]; [by destruct m..|].
  unfold UpdateNodeCommand in H. branch H. injection H as <- _. by destruct m.
Qed.

Lemma cmd_step_indexed m m' : cmd_step m m' ->
  indexed nc_ID (nodeCommands m) (nodeCommandKeys m) -> indexed nc_ID (nodeCommands m') (nodeCommandKeys m').
Proof.
  intros [[->|c key _ ->|k a b Ha Hid _ ->]%cmd_guarded_effect|c x H] I; [done|by apply indexed_create|..].
  - assert (nc_ID b = k) as <- by (destruct Hid as [|E]; [done|rewrite E; by apply (ix_rows _ _ _ I)]).
    by apply (indexed_insert nc_ID).
  - unfold UpdateNodeCommand in H. branch H. injection H as <- _. by apply indexed_insert.
Qed.

Lemma cmd_guarded_revises m m' k a : cmd_guarded m m' -> nodeCommands m !! k = Some a ->
  exists b, nodeCommands m' !! k = Some b /\ (b = a \/ nc_Revision b = wrapU64 (nc_Revision a + 1)).
Proof.
  intros [->|c key Hn ->|k' a' b Ha' _ Hr ->]%cmd_guarded_effect Ha; [eauto|..]; cbn; rewrite lookup_insert; case_decide as E; eauto.
  - congruence.
  - subst. assert (a' = a) as -> by congruence. eauto.
Qed.
