(* ===== verification/Budget.v ===== *)
(** * Workloads and budget reservations ([memory.go], [store.go])

    The workload table with its revision compare-and-swap and the budget
    ledger: one reservation per workload, counted against its principal's
    limit, claimed by an ownership token and attempt, and settled or released
    exactly once. *)

From S2P Require Import Prelude GoText Domain DomainWorkload DomainNode Store.

(** ** Workloads *)

Definition workloadRequiresSettlementIntent (w : Workload) : bool :=
  if (w_BudgetReservationToken w ==? ""%string) || (w_BudgetReservationAttempt w =? 0) then false
  else match w_Status w with
       | WorkloadSucceeded | WorkloadFailed | WorkloadRejected | WorkloadCancelled => negb (w_BudgetSettlementPending w)
       | _ => false
       end.

(** The workload, and whether this call created it.  A replay returns the row
    the key points to, which the store always holds. *)
Definition CreateWorkload (w : Workload) (m : MemoryStore) : MemoryStore * (option Workload * bool) :=
  let w := w <| w_Revision := 1 |> in
  let id := req_ID (w_Request w) in
  let key := key2 (req_OwnerID (w_Request w)) (req_IdempotencyKey (w_Request w)) in
  let insert m := match workloads m !! id with
                  | Some existing => (m, (Some existing, false))
                  | None => (m <| workloads := <[id := w]> (workloads m) |>, (Some w, true))
                  end in
  if req_IdempotencyKey (w_Request w) !=? ""%string then
    match idempotency m !! key with
    | Some old => (m, (workloads m !! old, false))
    | None => insert (m <| idempotency := <[key := id]> (idempotency m) |>)
    end
  else insert m.

Definition UpdateWorkload (w : option Workload) (m : MemoryStore) : result (MemoryStore * Workload) :=
  match w with
  | None => Err ErrWorkloadConflict
  | Some w =>
      reject w_Revision w =? 0 with ErrWorkloadConflict;
      match workloads m !! req_ID (w_Request w) with
      | None => Err ErrNotFound
      | Some current =>
          reject negb (w_Revision current =? w_Revision w) with ErrWorkloadConflict;
          reject w_CancellationOwner current !=? w_CancellationOwner w with ErrWorkloadConflict;
          let updated := w <| w_Revision := wrapU64 (w_Revision current + 1) |> in
          Ok (m <| workloads := <[req_ID (w_Request w) := updated]> (workloads m) |>, updated)
      end
  end.

Definition CompareAndSwapWorkload (w : Workload) (expectedRevision : Z) (expectedStatus : WorkloadStatus)
    (expectedCancellationOwner : string) (m : MemoryStore) : result (MemoryStore * Workload) :=
  match workloads m !! req_ID (w_Request w) with
  | None => Err ErrNotFound
  | Some current =>
      reject workloadRequiresSettlementIntent w
          && negb (w_BudgetSettlementPending current && (w_BudgetReservationToken current ==? w_BudgetReservationToken w)
                   && (w_BudgetSettlementAttempt current =? w_BudgetReservationAttempt w))
        with ErrWorkloadConflict;
      reject negb (w_Revision current =? expectedRevision) || (w_Status current !=? expectedStatus)
          || (w_CancellationOwner current !=? expectedCancellationOwner)
        with ErrWorkloadConflict;
      let updated := w <| w_Revision := wrapU64 (w_Revision current + 1) |> in
      Ok (m <| workloads := <[req_ID (w_Request w) := updated]> (workloads m) |>, updated)
  end.

Definition GetWorkload (id : string) (m : MemoryStore) : result Workload :=
  match workloads m !! id with
  | Some w => Ok w
  | None => Err ErrNotFound
  end.

Definition ListWorkloads {R : GoRange} (m : MemoryStore) : list Workload :=
  sort_slice (fun a b => w_CreatedAt a <? w_CreatedAt b) (range_rows (fun _ => true) (workloads m)).

(** ** Reservations *)

Definition defaultBudgetCurrency : string := "USD".

(** What a reservation counts against its principal. *)
Definition commits (principalID : string) (r : BudgetReservation) : Z :=
  if br_PrincipalID r !=? principalID then 0
  else match br_Status r with
       | BudgetReserved => br_ReservedCents r
       | BudgetSettled => br_ActualCents r
       | BudgetReleased => 0
       end.

(** Defaults of rows written before attempts and tokens existed. *)
Definition backfill (workloadID : string) (r : BudgetReservation) : BudgetReservation :=
  let r := if br_Revision r =? 0 then r <| br_Revision := 1 |> else r in
  let r := if br_Attempt r =? 0 then r <| br_Attempt := 1 |> else r in
  if br_OwnershipToken r ==? ""%string
  then r <| br_OwnershipToken := ("budget:" +:+ workloadID +:+ ":" +:+ Sprint (br_Attempt r))%string |> else r.

Definition claimDiffers (principalID workloadID : string) (amountCents limitCents : Z) (attemptToken : string)
    (r : BudgetReservation) : bool :=
  (br_Status r !=? BudgetReserved) || (br_WorkloadID r !=? workloadID) || (br_PrincipalID r !=? principalID)
  || (br_OwnershipToken r !=? attemptToken) || negb (br_ReservedCents r =? amountCents)
  || negb (br_LimitCents r =? limitCents) || (br_Currency r !=? defaultBudgetCurrency).

Section ledger.
Context {R : GoRange}.

(** The [int64] sum over the ledger, in [range] order. *)
Definition committed (principalID : string) (m : MemoryStore) : Z :=
  foldl (fun acc r => wrap64 (acc + commits principalID r)) 0 (map snd (go_range (budgets m))).

Definition overLimit (principalID : string) (amountCents limitCents : Z) (m : MemoryStore) : bool :=
  (0 <? limitCents) && (limitCents <? wrap64 (committed principalID m + amountCents)).

(** A fresh claim on the workload's row. *)
Definition newReservation (now : Time) (principalID workloadID : string) (amountCents limitCents : Z)
    (attemptToken : string) (m : MemoryStore) : BudgetReservation :=
  let existing := budgets m !! workloadID in
  let attempt := match existing with Some r => wrapU64 (br_Attempt r + 1) | None => 1 end in
  let created := match existing with Some r => br_CreatedAt r | None => now end in
  mkBudgetReservation workloadID principalID 1 attempt attemptToken amountCents limitCents defaultBudgetCurrency 0
    BudgetReserved created now.

(** The active reservation of a workload. *)
Definition activeReservation (workloadID : string) (m : MemoryStore) : option BudgetReservation :=
  match budgets m !! workloadID with
  | Some r => if br_Status r !=? BudgetReleased then Some r else None
  | None => None
  end.

(** The reservation, whether the claim holds it, and whether this call made it.
    A conflict also hands the caller the row it conflicts with, which is not
    part of the result here. *)
Definition ReserveBudgetClaim (now : Time) (principalID workloadID : string) (amountCents limitCents : Z)
    (attemptToken : string) (m : MemoryStore) : MemoryStore * result (option BudgetReservation * bool * bool) :=
  if blank attemptToken then (m, Err ErrWorkloadConflict)
  else match activeReservation workloadID m with
       | Some r =>
           let r := backfill workloadID r in
           let m := m <| budgets := <[workloadID := r]> (budgets m) |> in
           if claimDiffers principalID workloadID amountCents limitCents attemptToken r
           then (m, Err ErrWorkloadConflict) else (m, Ok (Some r, true, false))
       | None =>
           if overLimit principalID amountCents limitCents m then (m, Ok (None, false, false))
           else
             let r := newReservation now principalID workloadID amountCents limitCents attemptToken m in
             (m <| budgets := <[workloadID := r]> (budgets m) |>, Ok (Some r, true, true))
       end.

Definition ReserveBudget (now : Time) (principalID workloadID : string) (amountCents limitCents : Z) (m : MemoryStore)
  : MemoryStore * result (option BudgetReservation * bool) :=
  let '(m, r) := ReserveBudgetClaim now principalID workloadID amountCents limitCents
                   ("budget:" +:+ workloadID +:+ ":legacy")%string m in
  (m, let? x := r in Ok x.1).

(** The workload with the claim published on it. *)
Definition linkBudget (now : Time) (r : BudgetReservation) (w : Workload) : Workload :=
  w <| w_BudgetReservationToken := br_OwnershipToken r |> <| w_BudgetReservationAttempt := br_Attempt r |>
    <| w_BudgetReservationCents := br_ReservedCents r |> <| w_BudgetReservationLimitCents := br_LimitCents r |>
    <| w_BudgetReservationCurrency := br_Currency r |> <| w_Revision := wrapU64 (w_Revision w + 1) |>
    <| w_UpdatedAt := now |>.

Definition linkConflict (attemptToken : string) (amountCents limitCents : Z) (w : Workload) : bool :=
  (w_BudgetReservationToken w !=? ""%string)
  && ((w_BudgetReservationToken w !=? attemptToken)
      || (negb (w_BudgetReservationCents w =? 0) && negb (w_BudgetReservationCents w =? amountCents))
      || (negb (w_BudgetReservationLimitCents w =? 0) && negb (w_BudgetReservationLimitCents w =? limitCents))
      || ((w_BudgetReservationCurrency w !=? ""%string) && (w_BudgetReservationCurrency w !=? defaultBudgetCurrency))).

(** The reservation, the workload, whether the claim holds the reservation and
    whether this call made it. *)
Definition ReserveAndLinkBudgetClaim (now : Time) (principalID workloadID : string) (amountCents limitCents : Z)
    (attemptToken : string) (expectedRevision : Z) (expectedStatus : WorkloadStatus) (expectedCancellationOwner : string)
    (m : MemoryStore) : MemoryStore * result (option BudgetReservation * Workload * bool * bool) :=
  if blank attemptToken then (m, Err ErrWorkloadConflict)
  else match workloads m !! workloadID with
       | None => (m, Err ErrWorkloadConflict)
       | Some w =>
           if negb (w_Revision w =? expectedRevision) || (w_Status w !=? expectedStatus)
              || (w_CancellationOwner w !=? expectedCancellationOwner)
              || ((req_PrincipalID (w_Request w) !=? ""%string) && (req_PrincipalID (w_Request w) !=? principalID))
              || linkConflict attemptToken amountCents limitCents w
           then (m, Err ErrWorkloadConflict)
           else match activeReservation workloadID m with
                | Some r =>
                    let r := backfill workloadID r in
                    let m := m <| budgets := <[workloadID := r]> (budgets m) |> in
                    if claimDiffers principalID workloadID amountCents limitCents attemptToken r
                       || (negb (w_BudgetReservationAttempt w =? 0) && negb (w_BudgetReservationAttempt w =? br_Attempt r))
                    then (m, Err ErrWorkloadConflict)
                    else
                      let updated := linkBudget now r w in
                      (m <| workloads := <[workloadID := updated]> (workloads m) |>, Ok (Some r, updated, true, false))
                | None =>
                    if overLimit principalID amountCents limitCents m then (m, Ok (None, w, false, false))
                    else
                      let r := newReservation now principalID workloadID amountCents limitCents attemptToken m in
                      let updated := linkBudget now r w in
                      (m <| budgets := <[workloadID := r]> (budgets m) |>
                         <| workloads := <[workloadID := updated]> (workloads m) |>, Ok (Some r, updated, true, true))
                end
       end.

Definition ListBudgetReservations (principalID : string) (m : MemoryStore) : list BudgetReservation :=
  sort_slice (fun a b => br_CreatedAt b <? br_CreatedAt a)
    (range_rows (fun r => (principalID ==? ""%string) || (br_PrincipalID r ==? principalID)) (budgets m)).
End ledger.

(** ** Settlement and release *)

Definition SettleBudget (workloadID : string) (actualCents : Z) (m : MemoryStore) : result BudgetReservation :=
  Err (ErrorsNew "budget settlement requires ownership token").

Definition ReleaseBudget (workloadID : string) (m : MemoryStore) : result MemoryStore :=
  Err (ErrorsNew "budget release requires ownership token").

Definition notOwner (ownershipToken : string) (attempt : Z) (r : BudgetReservation) : bool :=
  (ownershipToken ==? ""%string) || (br_OwnershipToken r !=? ownershipToken) || (attempt =? 0)
  || negb (br_Attempt r =? attempt).

Definition SettleBudgetClaim (now : Time) (workloadID ownershipToken : string) (attempt actualCents : Z) (m : MemoryStore)
  : result (MemoryStore * BudgetReservation) :=
  match budgets m !! workloadID with
  | None => Err ErrNotFound
  | Some r =>
      reject notOwner ownershipToken attempt r with ErrWorkloadConflict;
      let actualCents := if actualCents <? 0 then 0 else actualCents in
      if br_Status r ==? BudgetSettled then
        if br_ActualCents r =? actualCents then Ok (m, r) else Err ErrWorkloadConflict
      else
        reject br_Status r !=? BudgetReserved with ErrWorkloadConflict;
        let r := r <| br_ActualCents := actualCents |> <| br_Status := BudgetSettled |>
                   <| br_Revision := wrapU64 (br_Revision r + 1) |> <| br_UpdatedAt := now |> in
        Ok (m <| budgets := <[workloadID := r]> (budgets m) |>, r)
  end.

Definition ReleaseBudgetClaim (now : Time) (workloadID ownershipToken : string) (attempt : Z) (m : MemoryStore)
  : result MemoryStore :=
  match budgets m !! workloadID with
  | None => Ok m
  | Some r =>
      reject notOwner ownershipToken attempt r with ErrWorkloadConflict;
      if br_Status r ==? BudgetReleased then Ok m else
      reject br_Status r !=? BudgetReserved with ErrWorkloadConflict;
      let r := r <| br_Revision := wrapU64 (br_Revision r + 1) |> <| br_Status := BudgetReleased |>
                 <| br_UpdatedAt := now |> in
      Ok (m <| budgets := <[workloadID := r]> (budgets m) |>)
  end.

(** ** The ledger as a sum *)

(** What a principal has committed, as an exact integer. *)
Definition ledger (principalID : string) (m : MemoryStore) : Z :=
  foldr (fun r acc => commits principalID r + acc) 0 (map snd (map_to_list (budgets m))).

Lemma wrap64_add a b : wrap64 (wrap64 a + b) = wrap64 (a + b).
Proof.
  unfold wrap64, two64. f_equal.
  replace ((a + 9223372036854775808) `mod` 18446744073709551616 - 9223372036854775808 + b + 9223372036854775808)
    with ((a + 9223372036854775808) `mod` 18446744073709551616 + b) by lia.
  rewrite Zplus_mod_idemp_l. f_equal. lia.
Qed.

Lemma committed_fold p l acc : foldl (fun acc r => wrap64 (acc + commits p r)) (wrap64 acc) l
  = wrap64 (acc + foldr (fun r acc => commits p r + acc) 0 l).
Proof.
  revert acc. induction l as [|r l IH]; intros acc; simpl; [by rewrite Z.add_0_r|].
  rewrite wrap64_add, IH. f_equal. lia.
Qed.

Lemma sum_perm {A} (f : A -> Z) l l' : l ≡ₚ l' -> foldr (fun r acc => f r + acc) 0 l = foldr (fun r acc => f r + acc) 0 l'.
Proof. induction 1; simpl; lia. Qed.

(** The order of [range] does not matter: the sum is the exact one, wrapped. *)
Lemma committed_ledger {R : GoRange} p m : committed p m = wrap64 (ledger p m).
Proof.
  unfold committed, ledger. change 0 with (wrap64 0) at 1. rewrite committed_fold, Z.add_0_l. f_equal.
  apply (sum_perm (commits p)). by rewrite go_range_perm.
Qed.

Lemma ledger_insert p m m' id r : budgets m' = <[id := r]> (budgets m) ->
  ledger p m' = ledger p m + commits p r - match budgets m !! id with Some r0 => commits p r0 | None => 0 end.
Proof.
  intros E. unfold ledger. rewrite E. rewrite <- insert_delete_eq.
  rewrite (sum_perm (commits p) _ (r :: map snd (map_to_list (delete id (budgets m)))))
    by (rewrite map_to_list_insert by apply lookup_delete_eq; reflexivity).
  destruct (budgets m !! id) as [r0|] eqn:H0; simpl.
  - rewrite <- (insert_delete_id (budgets m) id r0) at 2 by done.
    rewrite (sum_perm (commits p) (map snd (map_to_list (<[id := r0]> _))) (r0 :: map snd (map_to_list (delete id (budgets m)))))
      by (rewrite map_to_list_insert by apply lookup_delete_eq; reflexivity).
    simpl. lia.
  - rewrite delete_id by done. lia.
Qed.

(** ** Effects of the handlers *)

(** How a reservation changes. *)
Inductive br_step (id : string) (a : BudgetReservation) : BudgetReservation -> Prop :=
  | bs_same : br_step id a a
  | bs_backfill : br_Status a <> BudgetReleased -> br_step id a (backfill id a)
  | bs_settle actual now : br_Status a = BudgetReserved -> 0 <= actual ->
      br_step id a (a <| br_ActualCents := actual |> <| br_Status := BudgetSettled |>
                      <| br_Revision := wrapU64 (br_Revision a + 1) |> <| br_UpdatedAt := now |>)
  | bs_release now : br_Status a = BudgetReserved ->
      br_step id a (a <| br_Revision := wrapU64 (br_Revision a + 1) |> <| br_Status := BudgetReleased |>
                      <| br_UpdatedAt := now |>)
  | bs_renew b : br_Status a = BudgetReleased -> br_Status b = BudgetReserved -> br_Attempt b = wrapU64 (br_Attempt a + 1) ->
      br_step id a b.

(** The reservation table and the workload table after a step. *)
Definition budgets_evolve (m m' : MemoryStore) : Prop :=
  forall id a, budgets m !! id = Some a -> exists b, budgets m' !! id = Some b /\ br_step id a b.

Definition workloads_evolve (m m' : MemoryStore) : Prop :=
  forall id a, workloads m !! id = Some a -> exists b, workloads m' !! id = Some b /\
    (b = a \/ w_Revision b = wrapU64 (w_Revision a + 1)).

Record wl_inv (m : MemoryStore) : Prop := {
  wi_keyed : forall id w, workloads m !! id = Some w -> req_ID (w_Request w) = id;
  wi_idempotency : forall key id, idempotency m !! key = Some id -> is_Some (workloads m !! id);
}.

Lemma wl_inv_new : wl_inv NewMemoryStore.
Proof. split; intros k x H; cbn in H; by rewrite lookup_empty in H. Qed.

Lemma budgets_same m m' : budgets m' = budgets m -> budgets_evolve m m'.
Proof. intros E id a H. rewrite E. exists a. split; [done|constructor]. Qed.

Lemma budgets_insert m m' id b : budgets m' = <[id := b]> (budgets m) ->
  (forall a, budgets m !! id = Some a -> br_step id a b) -> budgets_evolve m m'.
Proof.
  intros E Hs id' a H. rewrite E. destruct (decide (id = id')) as [<-|]; [exists b|exists a];
    [rewrite lookup_insert_eq; auto|rewrite lookup_insert_ne by done; split; [done|constructor]].
Qed.

Lemma workloads_same m m' : workloads m' = workloads m -> workloads_evolve m m'.
Proof. intros E id a H. rewrite E. eauto. Qed.

Lemma workloads_insert m m' id b : workloads m' = <[id := b]> (workloads m) ->
  (forall a, workloads m !! id = Some a -> b = a \/ w_Revision b = wrapU64 (w_Revision a + 1)) -> workloads_evolve m m'.
Proof.
  intros E Hs id' a H. rewrite E. destruct (decide (id = id')) as [<-|]; [exists b|exists a];
    [rewrite lookup_insert_eq; auto|rewrite lookup_insert_ne by done; auto].
Qed.

Lemma activeReservation_spec id m : match activeReservation id m with
  | Some r => budgets m !! id = Some r /\ br_Status r <> BudgetReleased
  | None => forall r, budgets m !! id = Some r -> br_Status r = BudgetReleased
  end.
Proof.
  unfold activeReservation. destruct (budgets m !! id) as [r|]; [|done]. case_bool_decide as E; cbn [negb]; [|done].
  by intros r' [= <-].
Qed.

Inductive bud_step (m m' : MemoryStore) : Prop :=
  | us_create w x : CreateWorkload w m = (m', x) -> bud_step m m'
  | us_update w x : UpdateWorkload w m = Ok (m', x) -> bud_step m m'
  | us_cas w e st o x : CompareAndSwapWorkload w e st o m = Ok (m', x) -> bud_step m m'
  | us_reserve (R : GoRange) now p id amount limit token x :
      ReserveBudgetClaim now p id amount limit token m = (m', x) -> bud_step m m'
  | us_link (R : GoRange) now p id amount limit token e st o x :
      ReserveAndLinkBudgetClaim now p id amount limit token e st o m = (m', x) -> bud_step m m'
  | us_settle now id token attempt actual x : SettleBudgetClaim now id token attempt actual m = Ok (m', x) -> bud_step m m'
  | us_release now id token attempt : ReleaseBudgetClaim now id token attempt m = Ok m' -> bud_step m m'.

(** What each handler does to the three tables. *)
Inductive bud_effect (m m' : MemoryStore) : Prop :=
  | be_none : m' = m -> bud_effect m m'
  | be_create key w : idempotency m !! key = None -> m' = m <| idempotency := <[key := req_ID (w_Request w)]> (idempotency m) |> ->
      is_Some (workloads m !! req_ID (w_Request w)) -> bud_effect m m'
  | be_insert idem w : workloads m !! req_ID (w_Request w) = None ->
      (idem = idempotency m \/ exists key, idempotency m !! key = None /\ idem = <[key := req_ID (w_Request w)]> (idempotency m)) ->
      m' = m <| idempotency := idem |> <| workloads := <[req_ID (w_Request w) := w]> (workloads m) |> -> bud_effect m m'
  | be_replace a b : workloads m !! req_ID (w_Request b) = Some a -> w_Revision b = wrapU64 (w_Revision a + 1) ->
      m' = m <| workloads := <[req_ID (w_Request b) := b]> (workloads m) |> -> bud_effect m m'
  | be_budget id b : (forall a, budgets m !! id = Some a -> br_step id a b) ->
      m' = m <| budgets := <[id := b]> (budgets m) |> -> bud_effect m m'
  | be_link id b w : (forall a, budgets m !! id = Some a -> br_step id a b) -> workloads m !! id = Some w ->
      (exists now, m' = m <| budgets := <[id := b]> (budgets m) |> <| workloads := <[id := linkBudget now b w]> (workloads m) |>) ->
      bud_effect m m'.

(** A renewed row is the next attempt of a released one. *)
Lemma newReservation_step {R : GoRange} now p id amount limit token m :
  activeReservation id m = None ->
  forall a, budgets m !! id = Some a -> br_step id a (newReservation now p id amount limit token m).
Proof.
  intros Ha a E. pose proof (activeReservation_spec id m) as Hs. rewrite Ha in Hs.
  apply bs_renew; [by apply Hs|done|]. unfold newReservation. by rewrite E.
Qed.

Lemma backfill_step id m r : activeReservation id m = Some r ->
  forall a, budgets m !! id = Some a -> br_step id a (backfill id r).
Proof.
  intros Ha a E. pose proof (activeReservation_spec id m) as Hs. rewrite Ha in Hs. destruct Hs as [E' Hr].
  assert (a = r) as -> by congruence. by apply bs_backfill.
Qed.

Lemma CreateWorkload_effect w m m' x : CreateWorkload w m = (m', x) -> bud_effect m m'.
Proof.
  unfold CreateWorkload. cbv zeta. intros H. pose (w1 := w <| w_Revision := 1 |>).
  destruct (req_IdempotencyKey _ !=? _) in H.
  - destruct (idempotency m !! _) eqn:Hk in H; [injection H as <- _; by apply be_none|].
    destruct (workloads _ !! req_ID _) as [w0|] eqn:E in H; injection H as <- _.
    + by apply (be_create _ _ (key2 (req_OwnerID (w_Request w1)) (req_IdempotencyKey (w_Request w1))) w1).
    + apply (be_insert _ _ (<[key2 (req_OwnerID (w_Request w1)) (req_IdempotencyKey (w_Request w1)) := req_ID (w_Request w1)]>
               (idempotency m)) w1); [exact E|right; by eexists|reflexivity].
  - destruct (workloads m !! req_ID _) as [w0|] eqn:E in H; injection H as <- _; [by apply be_none|].
    apply (be_insert _ _ (idempotency m) w1); [exact E|by left|]. by destruct m.
Qed.

Lemma UpdateWorkload_effect w m m' x : UpdateWorkload w m = Ok (m', x) -> bud_effect m m'.
Proof.
  unfold UpdateWorkload. intros H. destruct w as [w|]; [|done]. destruct (_ =? 0) in H; [done|].
  destruct (workloads m !! _) as [a|] eqn:E in H; [|done]. do 2 (destruct (negb _) in H; [done|]).
  injection H as <- _. by apply (be_replace _ _ a (w <| w_Revision := wrapU64 (w_Revision a + 1) |>)).
Qed.

Lemma CompareAndSwapWorkload_spec w e st o m m' x : CompareAndSwapWorkload w e st o m = Ok (m', x) ->
  exists a, workloads m !! req_ID (w_Request w) = Some a /\ w_Revision a = e /\ w_Status a = st /\
    w_CancellationOwner a = o /\ x = w <| w_Revision := wrapU64 (e + 1) |> /\
    m' = m <| workloads := <[req_ID (w_Request w) := x]> (workloads m) |>.
Proof.
  unfold CompareAndSwapWorkload. intros H. destruct (workloads m !! _) as [a|] eqn:E in H; [|done].
  destruct (_ && _) in H; [done|]. destruct (_ || _) eqn:Ec in H; [done|]. bool_simp. injection H as <- <-. subst.
  exists a. repeat split; auto.
Qed.

Lemma CompareAndSwapWorkload_effect w e st o m m' x : CompareAndSwapWorkload w e st o m = Ok (m', x) -> bud_effect m m'.
Proof.
  intros (a & E & <- & _ & _ & Hx & ->)%CompareAndSwapWorkload_spec.
  apply (be_replace _ _ a x); [..|rewrite Hx]; [by rewrite Hx| |reflexivity]. by rewrite Hx.
Qed.

Lemma ReserveBudgetClaim_effect {R : GoRange} now p id amount limit token m m' x :
  ReserveBudgetClaim now p id amount limit token m = (m', x) -> bud_effect m m'.
Proof.
  unfold ReserveBudgetClaim. intros H. destruct (blank token); [injection H as <- _; by apply be_none|].
  destruct (activeReservation id m) as [r|] eqn:Ha.
  - apply (be_budget _ _ id (backfill id r)); [by apply backfill_step|].
    cbv zeta in H. by destruct (claimDiffers _ _ _ _ _ _); injection H as <- _.
  - destruct (overLimit _ _ _ _); [injection H as <- _; by apply be_none|]. injection H as <- _.
    eapply be_budget; [by apply newReservation_step|reflexivity].
Qed.

Lemma ReserveAndLink_effect {R : GoRange} now p id amount limit token e st o m m' x :
  ReserveAndLinkBudgetClaim now p id amount limit token e st o m = (m', x) -> bud_effect m m'.
Proof.
  unfold ReserveAndLinkBudgetClaim. intros H. destruct (blank token); [injection H as <- _; by apply be_none|].
  destruct (workloads m !! id) as [w|] eqn:E; [|injection H as <- _; by apply be_none].
  destruct (_ || linkConflict _ _ _ _) in H; [injection H as <- _; by apply be_none|].
  destruct (activeReservation id m) as [r|] eqn:Ha; cbv zeta in H.
  - pose proof (backfill_step id m r Ha) as Hb. destruct (_ || _) in H; injection H as <- _.
    + by apply (be_budget _ _ id (backfill id r)).
    + apply (be_link _ _ id (backfill id r) w); eauto.
  - destruct (overLimit _ _ _ _); injection H as <- _; [by apply be_none|].
    eapply be_link; [by apply newReservation_step|exact E|by eexists].
Qed.

Lemma SettleBudgetClaim_effect now id token attempt actual m m' x :
  SettleBudgetClaim now id token attempt actual m = Ok (m', x) -> bud_effect m m'.
Proof.
  unfold SettleBudgetClaim. intros H. destruct (budgets m !! id) as [r|] eqn:E; [|done]. destruct (notOwner _ _ _); [done|].
  pose (ac := if actual <? 0 then 0 else actual). assert (0 <= ac) by (subst ac; destruct (actual <? 0) eqn:?; lia).
  cbv zeta in H. destruct (_ ==? _) in H; [destruct (_ =? _) in H; [injection H as <- _; by apply be_none|done]|].
  destruct (_ !=? _) eqn:Hs in H; [done|]. bool_simp. injection H as <- _.
  eapply (be_budget _ _ id); [|reflexivity]. intros a Ea. replace a with r by congruence. by apply (bs_settle id r ac now).
Qed.

Lemma ReleaseBudgetClaim_effect now id token attempt m m' :
  ReleaseBudgetClaim now id token attempt m = Ok m' -> bud_effect m m'.
Proof.
  unfold ReleaseBudgetClaim. intros H. destruct (budgets m !! id) as [r|] eqn:E; [|injection H as <-; by apply be_none].
  destruct (notOwner _ _ _); [done|]. destruct (_ ==? _) in H; [injection H as <-; by apply be_none|].
  destruct (_ !=? _) eqn:Hs in H; [done|]. bool_simp. injection H as <-.
  eapply (be_budget _ _ id); [|reflexivity]. intros a Ea. replace a with r by congruence. by apply (bs_release id r now).
Qed.

Lemma bud_step_effect m m' : bud_step m m' -> bud_effect m m'.
Proof.
  intros [* H|* H|* H|* H|* H|* H|* H]; eauto using CreateWorkload_effect, UpdateWorkload_effect,
    CompareAndSwapWorkload_effect, ReserveBudgetClaim_effect, ReserveAndLink_effect, SettleBudgetClaim_effect,
    ReleaseBudgetClaim_effect.
Qed.

Lemma bud_step_frame m m' : bud_step m m' ->
  m' = m <| workloads := workloads m' |> <| idempotency := idempotency m' |> <| budgets := budgets m' |>.
Proof.
  intros H%bud_step_effect. destruct m.
  by destruct H as [->|k w _ -> _|i w _ _ ->|a b _ _ ->|id b _ ->|id b w _ _ (now & ->)].
Qed.

Lemma linkBudget_row now r w : w_Request (linkBudget now r w) = w_Request w /\
  w_Revision (linkBudget now r w) = wrapU64 (w_Revision w + 1).
Proof. done. Qed.

Lemma bud_effect_inv m m' : bud_effect m m' -> wl_inv m -> wl_inv m'.
Proof.
  intros H Hinv. destruct H as [->|k w _ -> Hw|i w Hw Hi ->|a b Ha _ ->|id b _ ->|id b w _ Hw (now & ->)]; [done|..];
    destruct Hinv as [H1 H2]; split; cbn [workloads idempotency set_field]; try done.
  - intros k' id [[<- <-]|[_ E]]%lookup_insert_Some; [done|by eapply H2].
  - intros id w' [[<- <-]|[_ E]]%lookup_insert_Some; [done|by apply H1].
  - intros k id E. cbn in E |- *. apply lookup_insert_is_Some'. destruct Hi as [->|(k0 & _ & ->)]; [right; by eapply H2|].
    apply lookup_insert_Some in E as [[_ <-]|[_ E]]; [by left|right; by eapply H2].
  - intros id w' [[<- <-]|[_ E]]%lookup_insert_Some; [done|by apply H1].
  - intros k id E. apply lookup_insert_is_Some'. right. by eapply H2.
  - intros id' w' [[<- <-]|[_ E]]%lookup_insert_Some; [exact (H1 _ _ Hw)|by apply H1].
  - intros k id' E. apply lookup_insert_is_Some'. right. by eapply H2.
Qed.

Lemma bud_effect_budgets m m' : bud_effect m m' -> budgets_evolve m m'.
Proof.
  intros [->|k w _ -> _|i w _ _ ->|a b _ _ ->|id b Hb ->|id b w Hb _ (now & ->)];
    [by apply budgets_same..|by apply (budgets_insert _ _ id b)|by apply (budgets_insert _ _ id b)].
Qed.

Lemma bud_effect_workloads m m' : bud_effect m m' -> workloads_evolve m m'.
Proof.
  intros [->|k w _ -> _|i w Hw _ ->|a b Ha Hr ->|id b _ ->|id b w _ Hw (now & ->)]; try by apply workloads_same.
  - apply (workloads_insert _ _ (req_ID (w_Request w)) w); [done|]. intros a. by rewrite Hw.
  - apply (workloads_insert _ _ (req_ID (w_Request b)) b); [done|]. intros a0 E. right. by simplify_eq/=.
  - apply (workloads_insert _ _ id (linkBudget now b w)); [done|]. intros a E. right. by simplify_eq/=.
Qed.

(** An idempotency key keeps the workload it was used for. *)
Definition keys_kept (m m' : MemoryStore) : Prop :=
  forall key id, idempotency m !! key = Some id -> idempotency m' !! key = Some id.

#[export] Instance keys_kept_preorder : PreOrder keys_kept.
Proof. split; [by intros m key id|]. intros m m1 m2 H1 H2 key id H. by apply H2, H1. Qed.

Lemma keys_same m m' : idempotency m' = idempotency m -> keys_kept m m'.
Proof. intros E key id. by rewrite E. Qed.

Lemma bud_effect_keys m m' : bud_effect m m' -> keys_kept m m'.
Proof.
  intros [->|k w Hk -> _|i w _ [->|(k & Hk & ->)] ->|a b _ _ ->|id b _ ->|id b w _ _ (now & ->)]; try by apply keys_same.
  - intros key id H. cbn. rewrite lookup_insert_ne; [done|congruence].
  - intros key id H. cbn. rewrite lookup_insert_ne; [done|congruence].
Qed.

(** A settled reservation keeps its principal and its actual cost. *)
Definition settled_as (p : string) (cents : Z) (r : BudgetReservation) : Prop :=
  br_Status r = BudgetSettled /\ br_PrincipalID r = p /\ br_ActualCents r = cents.

Lemma settled_step p cents id a b : br_step id a b -> settled_as p cents a -> settled_as p cents b.
Proof.
  intros [|_|? ? Hs _|? Hs|? Hs _ _] (H1 & H2 & H3); try (by rewrite H1 in Hs); [done|].
  unfold backfill, settled_as. cbv zeta. by repeat match goal with |- context[if ?c then _ else _] => destruct c end.
Qed.
