(* ===== verification/Records.v ===== *)
(** * The remaining tables of the store ([memory.go], [node_enrollment.go])

    Measured capacities, working sets, policy overrides, browser sessions,
    node enrolments, nodes, engines, performance profiles, jobs, prompt
    mappings, audit events, notifications, approvals, learning samples,
    interference profiles, transition plans and incidents.  Runtime profiles
    are not modelled: their clone re-encodes JSON numbers as binary floating
    point. *)

From S2P Require Import Prelude GoText SHA256 Domain DomainWorkload DomainNode Store.

(** Lists cap their size: out of range means one hundred. *)
Definition list_limit (limit : Z) : Z := if (limit <=? 0) || (1000 <? limit) then 100 else limit.

(** ** Model capacities *)

Definition FootprintBytes (c : ModelCapacity) : Z :=
  if (mc_ModelBytes c <? 0) || (mc_ProfileBytes c <? 0) then -1
  else if wrap64 (MaxInt64 - mc_ProfileBytes c) <? mc_ModelBytes c then -1
  else wrap64 (mc_ModelBytes c + mc_ProfileBytes c).

Definition modelCapacityKey (targetID model profileID : string) : string := key2 (key2 targetID model) profileID.

Definition modelCapacityID (targetID model profileID : string) : string :=
  ("capacity-" +:+ hex_encode (Sum256 (modelCapacityKey targetID model profileID)))%string.

Definition UpsertModelCapacity (now : Time) (capacity : option ModelCapacity) (m : MemoryStore)
  : result (MemoryStore * ModelCapacity) :=
  match capacity with
  | None => Err (ErrorsNew "model capacity requires target and model")
  | Some capacity =>
      reject (mc_TargetID capacity ==? ""%string) || (mc_Model capacity ==? ""%string)
        with ErrorsNew "model capacity requires target and model";
      reject (FootprintBytes capacity <? 0) || (mc_VRAMReserveBytes capacity <? 0) || (mc_RuntimeHardCapBytes capacity <? 0)
          || (mc_RAMBytes capacity <? 0) || (mc_RAMReserveBytes capacity <? 0) || (mc_VRAMTotalBytes capacity <? 0)
          || (mc_RAMTotalBytes capacity <? 0)
        with ErrorsNew "model capacity bytes may not be negative or overflow";
      let key := modelCapacityKey (mc_TargetID capacity) (mc_Model capacity) (mc_ProfileID capacity) in
      let revision := match modelCapacities m !! key with
                      | Some previous => wrapU64 (mc_Revision previous + 1)
                      | None => if mc_Revision capacity =? 0 then 1 else mc_Revision capacity
                      end in
      let updated := if mc_UpdatedAt capacity =? 0 then now else mc_UpdatedAt capacity in
      let observed := if mc_ObservedAt capacity =? 0 then updated else mc_ObservedAt capacity in
      let stored := capacity <| mc_Revision := revision |> <| mc_UpdatedAt := updated |> <| mc_ObservedAt := observed |>
                             <| mc_ID := modelCapacityID (mc_TargetID capacity) (mc_Model capacity) (mc_ProfileID capacity) |> in
      Ok (m <| modelCapacities := <[key := stored]> (modelCapacities m) |>, stored)
  end.

Definition GetModelCapacity (targetID model profileID : string) (m : MemoryStore) : result ModelCapacity :=
  match modelCapacities m !! modelCapacityKey targetID model profileID with
  | Some capacity => Ok capacity
  | None => Err ErrNotFound
  end.

(** ** Working sets *)

Definition workingSetKey (ownerID sessionID phaseID : string) : string := key2 (key2 ownerID sessionID) phaseID.

Definition UpsertWorkingSet (ws : WorkingSet) (m : MemoryStore) : MemoryStore * WorkingSet :=
  let key := workingSetKey (wset_OwnerID ws) (wset_SessionID ws) (wset_PhaseID ws) in
  let stored := match workingSets m !! key with
                | Some existing => ws <| wset_CreatedAt := wset_CreatedAt existing |>
                | None => ws
                end in
  (m <| workingSets := <[key := stored]> (workingSets m) |>, stored).

Definition ReleaseWorkingSet (ownerID sessionID phaseID : string) (releasedAt : Time) (m : MemoryStore)
  : result (MemoryStore * WorkingSet) :=
  let key := workingSetKey ownerID sessionID phaseID in
  match workingSets m !! key with
  | None => Err ErrNotFound
  | Some ws =>
      let copy := ws <| wset_ReleasedAt := Some releasedAt |> <| wset_UpdatedAt := releasedAt |> in
      Ok (m <| workingSets := <[key := copy]> (workingSets m) |>, copy)
  end.

(** ** Policy overrides and browser sessions *)

Definition UpsertTargetPolicyOverride (policy : TargetPolicyOverride) (m : MemoryStore) : MemoryStore * TargetPolicyOverride :=
  (m <| targetPolicyOverrides := <[tpo_TargetID policy := policy]> (targetPolicyOverrides m) |>, policy).

Definition CreateBrowserSession (session : BrowserSession) (m : MemoryStore) : result MemoryStore :=
  match browserSessions m !! bs_IDHash session with
  | Some _ => Err (ErrorsNew "browser session already exists")
  | None => Ok (m <| browserSessions := <[bs_IDHash session := session]> (browserSessions m) |>)
  end.

Definition GetBrowserSession (idHash : string) (m : MemoryStore) : result BrowserSession :=
  match browserSessions m !! idHash with
  | Some session => Ok session
  | None => Err ErrNotFound
  end.

Definition DeleteBrowserSession (idHash : string) (m : MemoryStore) : MemoryStore :=
  m <| browserSessions := delete idHash (browserSessions m) |>.

(** ** Nodes, engines and performance profiles *)

Definition UpsertNode (now : Time) (n : Node) (m : MemoryStore) : MemoryStore * Node :=
  let registered := match nodes m !! node_ID n with Some existing => node_RegisteredAt existing | None => now end in
  let stored := n <| node_RegisteredAt := registered |> <| node_UpdatedAt := now |> in
  (m <| nodes := <[node_ID n := stored]> (nodes m) |>, stored).

Definition GetNode (id : string) (m : MemoryStore) : result Node :=
  match nodes m !! id with
  | Some n => Ok n
  | None => Err ErrNotFound
  end.

(** [fn] is the caller's function on the two fields it is handed. *)
Definition UpdateObserved (now : Time) (id : string) (fn : Observed * list Accelerator -> Observed * list Accelerator)
    (m : MemoryStore) : result MemoryStore :=
  match nodes m !! id with
  | None => Err ErrNotFound
  | Some n =>
      let '(o, accels) := fn (node_Observed n, node_Accelerators n) in
      let n := n <| node_Observed := o |> <| node_Accelerators := accels |> <| node_UpdatedAt := now |> in
      Ok (m <| nodes := <[id := n]> (nodes m) |>)
  end.

Definition UpdateDesired (now : Time) (id : string) (fn : Desired * string -> Desired * string) (m : MemoryStore)
  : result MemoryStore :=
  match nodes m !! id with
  | None => Err ErrNotFound
  | Some n =>
      let '(d, scheduling) := fn (node_Desired n, node_SchedulingState n) in
      let n := n <| node_Desired := d |> <| node_SchedulingState := scheduling |> <| node_UpdatedAt := now |> in
      Ok (m <| nodes := <[id := n]> (nodes m) |>)
  end.

Definition DeleteNode (id : string) (m : MemoryStore) : result MemoryStore :=
  match nodes m !! id with
  | None => Err ErrNotFound
  | Some _ => Ok (m <| nodes := delete id (nodes m) |>)
  end.

Definition UpsertEngine (e : EngineInstance) (m : MemoryStore) : MemoryStore * EngineInstance :=
  (m <| engines := <[ei_ID e := e]> (engines m) |>, e).

Definition DeleteEngine (id : string) (m : MemoryStore) : result MemoryStore :=
  match engines m !! id with
  | None => Err ErrNotFound
  | Some _ => Ok (m <| engines := delete id (engines m) |>)
  end.

Definition SaveProfile (nodeID : string) (p : PerformanceProfile) (m : MemoryStore) : MemoryStore * PerformanceProfile :=
  (m <| profiles := <[nodeID := default [] (profiles m !! nodeID) ++ [p]]> (profiles m) |>, p).

Definition ListProfilesForNode (nodeID : string) (m : MemoryStore) : list PerformanceProfile :=
  default [] (profiles m !! nodeID).

(** ** Jobs and work items *)

Definition UpsertJob (j : Job) (m : MemoryStore) : MemoryStore * Job := (m <| jobs := <[job_ID j := j]> (jobs m) |>, j).

Definition GetJob (id : string) (m : MemoryStore) : result Job :=
  match jobs m !! id with
  | Some j => Ok j
  | None => Err ErrNotFound
  end.

Definition UpsertWorkItem (wi : WorkItem) (m : MemoryStore) : MemoryStore * WorkItem :=
  let byItem := default ∅ (workItems m !! wi_JobID wi) in
  let byVersion := default ∅ (byItem !! wi_ItemID wi) in
  (m <| workItems := <[wi_JobID wi := <[wi_ItemID wi := <[wi_OperationVersion wi := wi]> byVersion]> byItem]> (workItems m) |>, wi).

Definition GetWorkItem (jobID itemID operationVersion : string) (m : MemoryStore) : result WorkItem :=
  match workItems m !! jobID with
  | None => Err ErrNotFound
  | Some byItem =>
      match byItem !! itemID with
      | None => Err ErrNotFound
      | Some byVersion =>
          match byVersion !! operationVersion with
          | None => Err ErrNotFound
          | Some wi => Ok wi
          end
      end
  end.

(** ** Prompt mappings and audit events *)

Definition orElse (value fallback : string) : string := if value ==? ""%string then fallback else value.

Definition SavePromptMapping (mapping : PromptMapping) (m : MemoryStore) : MemoryStore :=
  let cp := match promptMappings m !! pm_PublicPromptID mapping with
            | Some existing =>
                mapping <| pm_WorkloadID := orElse (pm_WorkloadID mapping) (pm_WorkloadID existing) |>
                        <| pm_TargetID := orElse (pm_TargetID mapping) (pm_TargetID existing) |>
                        <| pm_BackendPromptID := orElse (pm_BackendPromptID mapping) (pm_BackendPromptID existing) |>
                        <| pm_ClientID := orElse (pm_ClientID mapping) (pm_ClientID existing) |>
            | None => mapping
            end in
  m <| promptMappings := <[pm_PublicPromptID mapping := cp]> (promptMappings m) |>.

Definition GetPromptMapping (publicPromptID : string) (m : MemoryStore) : result PromptMapping :=
  match promptMappings m !! publicPromptID with
  | Some mapping => Ok mapping
  | None => Err ErrNotFound
  end.

Definition AppendAuditEvent (event : AuditEvent) (m : MemoryStore) : MemoryStore :=
  if existsb (fun existing => ae_ID existing ==? ae_ID event) (auditEvents m) then m
  else m <| auditEvents := auditEvents m ++ [event] |>.

Definition ListAuditEvents (ownerID : string) (limit : Z) (m : MemoryStore) : list AuditEvent :=
  firstn (Z.to_nat (list_limit limit))
    (filter (fun e => negb ((ownerID !=? ""%string) && (ae_OwnerID e !=? ownerID)) = true) (List.rev (auditEvents m))).

(** ** Notifications *)

(** A replay returns the delivery its key or id names. *)
Definition CreateNotification (delivery : NotificationDelivery) (m : MemoryStore)
  : MemoryStore * (option NotificationDelivery * bool) :=
  let id := lookup_string (notificationKeys m) (nd_IdempotencyKey delivery) in
  if id !=? ""%string then (m, (notifications m !! id, false))
  else match notifications m !! nd_ID delivery with
       | Some existing => (m, (Some existing, false))
       | None =>
           (m <| notifications := <[nd_ID delivery := delivery]> (notifications m) |>
              <| notificationKeys := <[nd_IdempotencyKey delivery := nd_ID delivery]> (notificationKeys m) |>,
            (Some delivery, true))
       end.

Definition UpdateNotification (delivery : NotificationDelivery) (m : MemoryStore)
  : result (MemoryStore * NotificationDelivery) :=
  match notifications m !! nd_ID delivery with
  | None => Err ErrNotFound
  | Some _ => Ok (m <| notifications := <[nd_ID delivery := delivery]> (notifications m) |>, delivery)
  end.

(** ** Approvals, samples, interference profiles *)

Definition transformationApprovalKey (workloadID planHash : string) : string := (workloadID +:+ "::" +:+ planHash)%string.

Definition CreateTransformationApproval (approval : TransformationApproval) (m : MemoryStore)
  : MemoryStore * (TransformationApproval * bool) :=
  let key := transformationApprovalKey (ta_WorkloadID approval) (ta_PlanHash approval) in
  match transformApprovals m !! key with
  | Some existing => (m, (existing, false))
  | None => (m <| transformApprovals := <[key := approval]> (transformApprovals m) |>, (approval, true))
  end.

Definition GetTransformationApproval (workloadID planHash : string) (m : MemoryStore) : result TransformationApproval :=
  match transformApprovals m !! transformationApprovalKey workloadID planHash with
  | Some approval => Ok approval
  | None => Err ErrNotFound
  end.

Definition SaveSchedulerLearningSample (sample : SchedulerLearningSample) (m : MemoryStore)
  : MemoryStore * SchedulerLearningSample :=
  let sample := if ls_ID sample =? 0 then sample <| ls_ID := Z.of_nat (length (learningSamples m)) + 1 |> else sample in
  (m <| learningSamples := learningSamples m ++ [sample] |>, sample).

Definition ListSchedulerLearningSamples (acceleratorID : string) (limit : Z) (m : MemoryStore) : list SchedulerLearningSample :=
  firstn (Z.to_nat (list_limit limit))
    (filter (fun s => (acceleratorID ==? ""%string) || (ls_AcceleratorID s ==? acceleratorID) = true)
      (List.rev (learningSamples m))).

Definition UpsertInterferenceProfile (profile : InterferenceProfile) (m : MemoryStore)
  : result (MemoryStore * InterferenceProfile) :=
  reject match interferenceProfiles m !! ip_Key profile with
         | Some existing => ip_Version profile <=? ip_Version existing
         | None => false
         end
    with ErrInterferenceProfileConflict;
  Ok (m <| interferenceProfiles := <[ip_Key profile := profile]> (interferenceProfiles m) |>, profile).

Definition GetInterferenceProfile (key : string) (m : MemoryStore) : result InterferenceProfile :=
  match interferenceProfiles m !! key with
  | Some profile => Ok profile
  | None => Err ErrNotFound
  end.

(** ** Transition plans and incidents *)

Definition CreateTransitionPlan (plan : TransitionPlan) (m : MemoryStore) : result (MemoryStore * TransitionPlan) :=
  match transitionPlans m !! tp_ID plan with
  | Some _ => Err (ErrorsNew "store: transition plan already exists")
  | None => Ok (m <| transitionPlans := <[tp_ID plan := plan]> (transitionPlans m) |>, plan)
  end.

Definition UpdateTransitionPlan (plan : TransitionPlan) (m : MemoryStore) : result (MemoryStore * TransitionPlan) :=
  match transitionPlans m !! tp_ID plan with
  | None => Err ErrNotFound
  | Some _ => Ok (m <| transitionPlans := <[tp_ID plan := plan]> (transitionPlans m) |>, plan)
  end.

Definition CreateIncident (incident : Incident) (m : MemoryStore) : result (MemoryStore * Incident) :=
  match incidents m !! inc_ID incident with
  | Some _ => Err (ErrorsNew "store: incident already exists")
  | None => Ok (m <| incidents := <[inc_ID incident := incident]> (incidents m) |>, incident)
  end.

Definition UpdateIncident (incident : Incident) (m : MemoryStore) : result (MemoryStore * Incident) :=
  match incidents m !! inc_ID incident with
  | None => Err ErrNotFound
  | Some _ => Ok (m <| incidents := <[inc_ID incident := incident]> (incidents m) |>, incident)
  end.

Definition GetIncident (id : string) (m : MemoryStore) : result Incident :=
  match incidents m !! id with
  | Some incident => Ok incident
  | None => Err ErrNotFound
  end.

(** ** Listings and enrolment, which range over a table *)

Section ranges.
Context {R : GoRange}.

Definition ListModelCapacities (targetID model : string) (m : MemoryStore) : list ModelCapacity :=
  sort_slice (fun a b =>
      if mc_TargetID a !=? mc_TargetID b then String.ltb (mc_TargetID a) (mc_TargetID b)
      else if mc_Model a !=? mc_Model b then String.ltb (mc_Model a) (mc_Model b)
      else String.ltb (mc_ProfileID a) (mc_ProfileID b))
    (range_rows (fun c => negb (((targetID !=? ""%string) && (mc_TargetID c !=? targetID))
                                || ((model !=? ""%string) && (mc_Model c !=? model)))) (modelCapacities m)).

Definition ListWorkingSets (ownerID sessionID : string) (includeReleased : bool) (m : MemoryStore) : list WorkingSet :=
  sort_slice (fun a b => if wset_SessionID a ==? wset_SessionID b then String.ltb (wset_PhaseID a) (wset_PhaseID b)
                         else String.ltb (wset_SessionID a) (wset_SessionID b))
    (range_rows (fun w => negb (((ownerID !=? ""%string) && (wset_OwnerID w !=? ownerID))
                                || ((sessionID !=? ""%string) && (wset_SessionID w !=? sessionID))
                                || (negb includeReleased && bool_decide (is_Some (wset_ReleasedAt w))))) (workingSets m)).

Definition ListTargetPolicyOverrides (m : MemoryStore) : list TargetPolicyOverride :=
  sort_slice (fun a b => String.ltb (tpo_TargetID a) (tpo_TargetID b)) (range_rows (fun _ => true) (targetPolicyOverrides m)).

Definition ListNodes (m : MemoryStore) : list Node := range_rows (fun _ => true) (nodes m).

Definition ListEnginesForNode (nodeID : string) (m : MemoryStore) : list EngineInstance :=
  range_rows (fun e => ei_NodeID e ==? nodeID) (engines m).

Definition ListAllProfiles (m : MemoryStore) : list PerformanceProfile := concat (range_rows (fun _ => true) (profiles m)).

Definition ListJobs (m : MemoryStore) : list Job := range_rows (fun _ => true) (jobs m).

Definition ListWorkItemsForJob (jobID : string) (m : MemoryStore) : list WorkItem :=
  concat (map (range_rows (fun _ => true)) (range_rows (fun _ => true) (default ∅ (workItems m !! jobID)))).

Definition ListPendingNotifications (now : Time) (limit : Z) (m : MemoryStore) : list NotificationDelivery :=
  truncate_list (list_limit limit) (sort_slice (fun a b => nd_NextAttemptAt a <? nd_NextAttemptAt b)
    (range_rows (fun d => bool_decide (nd_DeliveredAt d = None) && bool_decide (nd_FailedAt d = None)
                          && negb (now <? nd_NextAttemptAt d)) (notifications m))).

Definition ListNotifications (ownerID : string) (limit : Z) (m : MemoryStore) : list NotificationDelivery :=
  truncate_list (list_limit limit) (sort_slice (fun a b => nd_CreatedAt b <? nd_CreatedAt a)
    (range_rows (fun d => (ownerID ==? ""%string) || (nd_OwnerID d ==? ownerID)) (notifications m))).

Definition ListTransformationApprovals (workloadID : string) (m : MemoryStore) : list TransformationApproval :=
  sort_slice (fun a b => ta_CreatedAt b <? ta_CreatedAt a)
    (range_rows (fun a => (workloadID ==? ""%string) || (ta_WorkloadID a ==? workloadID)) (transformApprovals m)).

Definition ListInterferenceProfiles (m : MemoryStore) : list InterferenceProfile :=
  sort_slice (fun a b => String.ltb (ip_Key a) (ip_Key b)) (range_rows (fun _ => true) (interferenceProfiles m)).

Definition ListTransitionPlans (workloadID : string) (limit : Z) (m : MemoryStore) : list TransitionPlan :=
  truncate_list (list_limit limit) (sort_slice (fun a b => tp_CreatedAt b <? tp_CreatedAt a)
    (range_rows (fun p => (workloadID ==? ""%string) || (tp_WorkloadID p ==? workloadID)
                          || (tp_VictimWorkloadID p ==? workloadID)) (transitionPlans m))).

Definition ListIncidents (ownerID : string) (m : MemoryStore) : list Incident :=
  sort_slice (fun a b => inc_CreatedAt b <? inc_CreatedAt a)
    (range_rows (fun i => (ownerID ==? ""%string) || (inc_OwnerID i ==? ownerID)) (incidents m)).

Definition CreateNodeEnrollment (value : NodeEnrollment) (m : MemoryStore) : result MemoryStore :=
  match nodeEnrollments m !! ne_NodeID value with
  | Some _ => Err ErrAlreadyExists
  | None =>
      match range_find (fun _ existing => ne_TokenHash existing ==? ne_TokenHash value) (nodeEnrollments m) with
      | Some _ => Err ErrAlreadyExists
      | None => Ok (m <| nodeEnrollments := <[ne_NodeID value := value]> (nodeEnrollments m) |>)
      end
  end.

Definition GetNodeEnrollmentByHash (hash : string) (m : MemoryStore) : result NodeEnrollment :=
  match range_find (fun _ value => ne_TokenHash value ==? hash) (nodeEnrollments m) with
  | Some (_, value) => Ok value
  | None => Err ErrNotFound
  end.

Definition ListNodeEnrollments (m : MemoryStore) : list NodeEnrollment :=
  sort_slice (fun a b => String.ltb (ne_NodeID a) (ne_NodeID b)) (range_rows (fun _ => true) (nodeEnrollments m)).
End ranges.

Definition GetNodeEnrollment (nodeID : string) (m : MemoryStore) : result NodeEnrollment :=
  match nodeEnrollments m !! nodeID with
  | Some value => Ok value
  | None => Err ErrNotFound
  end.

Definition RevokeNodeEnrollment (nodeID : string) (m : MemoryStore) : result MemoryStore :=
  match nodeEnrollments m !! nodeID with
  | None => Err ErrNotFound
  | Some value => Ok (m <| nodeEnrollments := <[nodeID := value <| ne_Status := "revoked"%string |>]> (nodeEnrollments m) |>)
  end.

(** ** Steps of these tables on the store *)

Inductive rec_step (m m' : MemoryStore) : Prop :=
  | cs_capacity now c x : UpsertModelCapacity now c m = Ok (m', x) -> rec_step m m'
  | cs_working_set w x : UpsertWorkingSet w m = (m', x) -> rec_step m m'
  | cs_release_set o s p t x : ReleaseWorkingSet o s p t m = Ok (m', x) -> rec_step m m'
  | cs_policy p x : UpsertTargetPolicyOverride p m = (m', x) -> rec_step m m'
  | cs_session s : CreateBrowserSession s m = Ok m' -> rec_step m m'
  | cs_end_session h : m' = DeleteBrowserSession h m -> rec_step m m'
  | cs_node now n x : UpsertNode now n m = (m', x) -> rec_step m m'
  | cs_observed now id fn : UpdateObserved now id fn m = Ok m' -> rec_step m m'
  | cs_desired now id fn : UpdateDesired now id fn m = Ok m' -> rec_step m m'
  | cs_delete_node id : DeleteNode id m = Ok m' -> rec_step m m'
  | cs_engine e x : UpsertEngine e m = (m', x) -> rec_step m m'
  | cs_delete_engine id : DeleteEngine id m = Ok m' -> rec_step m m'
  | cs_profile n p x : SaveProfile n p m = (m', x) -> rec_step m m'
  | cs_job j x : UpsertJob j m = (m', x) -> rec_step m m'
  | cs_item wi x : UpsertWorkItem wi m = (m', x) -> rec_step m m'
  | cs_mapping p : m' = SavePromptMapping p m -> rec_step m m'
  | cs_audit e : m' = AppendAuditEvent e m -> rec_step m m'
  | cs_notify d x : CreateNotification d m = (m', x) -> rec_step m m'
  | cs_update_notify d x : UpdateNotification d m = Ok (m', x) -> rec_step m m'
  | cs_approve a x : CreateTransformationApproval a m = (m', x) -> rec_step m m'
  | cs_sample s x : SaveSchedulerLearningSample s m = (m', x) -> rec_step m m'
  | cs_interference p x : UpsertInterferenceProfile p m = Ok (m', x) -> rec_step m m'
  | cs_plan p x : CreateTransitionPlan p m = Ok (m', x) -> rec_step m m'
  | cs_update_plan p x : UpdateTransitionPlan p m = Ok (m', x) -> rec_step m m'
  | cs_incident i x : CreateIncident i m = Ok (m', x) -> rec_step m m'
  | cs_update_incident i x : UpdateIncident i m = Ok (m', x) -> rec_step m m'
  | cs_enroll (R : GoRange) v : CreateNodeEnrollment v m = Ok m' -> rec_step m m'
  | cs_revoke id : RevokeNodeEnrollment id m = Ok m' -> rec_step m m'.

(** The tables the other components own. *)
Definition core (m : MemoryStore) :=
  ((workloads m, idempotency m, budgets m), (leases m, leaseFences m, leaseCleanupIntents m),
   (residencies m, transitions m, transitionKeys m), (nodeCommands m, nodeCommandKeys m),
   (llmCheckpointOps m, llmCheckpointKeys m, llmDisplacementOps m, llmDisplacementKeys m)).

(** The tables the theorems below speak about. *)
Definition ledger_tables (m : MemoryStore) := (nodeEnrollments m, auditEvents m, interferenceProfiles m).

(** Invert a handler applied in a step. *)
Ltac handler H :=
  cbv beta delta [UpsertModelCapacity UpsertWorkingSet ReleaseWorkingSet UpsertTargetPolicyOverride CreateBrowserSession
    DeleteBrowserSession UpsertNode UpdateObserved UpdateDesired DeleteNode UpsertEngine DeleteEngine SaveProfile UpsertJob
    UpsertWorkItem SavePromptMapping AppendAuditEvent CreateNotification UpdateNotification CreateTransformationApproval
    SaveSchedulerLearningSample UpsertInterferenceProfile CreateTransitionPlan UpdateTransitionPlan CreateIncident
    UpdateIncident CreateNodeEnrollment RevokeNodeEnrollment] in H;
  cbv zeta in H;
  repeat (branch H); first [injection H as <- _ | injection H as <- | subst].

Lemma rec_step_frame m m' : rec_step m m' -> core m' = core m.
Proof. intros [* H|* H|* H|* H|* H|* H|* H|* H|* H|* H|* H|* H|* H|* H|* H|* H|* H|* H|* H|* H|* H|* H|* H|* H|* H|* H|* H|* H]; handler H; reflexivity. Qed.

Lemma rec_step_indexed m m' : rec_step m m' ->
  indexed nd_ID (notifications m) (notificationKeys m) -> indexed nd_ID (notifications m') (notificationKeys m').
Proof.
  intros [* H|* H|* H|* H|* H|* H|* H|* H|* H|* H|* H|* H|* H|* H|* H|* H|* H|* H|* H|* H|* H|* H|* H|* H|* H|* H|* H|* H] I;
    handler H; first [exact I|by apply indexed_create|by apply indexed_insert].
Qed.

(** ** What never goes back *)

(** Enrolments are never removed, keep their token and stay revoked once
    revoked; audit events are only appended; interference profiles only move to
    later versions. *)
Record rec_evolves (m m' : MemoryStore) : Prop := {
  rv_enrolled : forall k e, nodeEnrollments m !! k = Some e ->
    exists e', nodeEnrollments m' !! k = Some e' /\ ne_TokenHash e' = ne_TokenHash e /\ ne_NodeID e' = ne_NodeID e /\
      (ne_Status e = "revoked"%string -> ne_Status e' = "revoked"%string);
  rv_audit : auditEvents m `prefix_of` auditEvents m';
  rv_interference : forall k p, interferenceProfiles m !! k = Some p ->
    exists p', interferenceProfiles m' !! k = Some p' /\ ip_Version p <= ip_Version p';
}.

Record rec_inv (m : MemoryStore) : Prop := {
  ri_keyed : forall k e, nodeEnrollments m !! k = Some e -> ne_NodeID e = k;
  ri_tokens : forall k k' e e', nodeEnrollments m !! k = Some e -> nodeEnrollments m !! k' = Some e' ->
    ne_TokenHash e = ne_TokenHash e' -> k = k';
  ri_audit : NoDup (map ae_ID (auditEvents m));
}.

Lemma rec_inv_new : rec_inv NewMemoryStore.
Proof. split; [intros k e H|intros k k' e e' H|constructor]; cbn in H; by rewrite lookup_empty in H. Qed.

Lemma rec_evolves_same m m' : ledger_tables m' = ledger_tables m -> rec_evolves m m'.
Proof. intros [= He Ha Hi]. split; [rewrite He; eauto 10|by rewrite Ha|rewrite Hi; intros k p Hp; exists p; split; [done|lia]]. Qed.

Lemma rec_inv_same m m' : ledger_tables m' = ledger_tables m -> rec_inv m -> rec_inv m'.
Proof. intros [= He Ha Hi] [H1 H2 H3]. split; rewrite ?He, ?Ha; done. Qed.

#[export] Instance rec_evolves_preorder : PreOrder rec_evolves.
Proof.
  split.
  - intros m. by apply rec_evolves_same.
  - intros a b c [E1 A1 I1] [E2 A2 I2]. split.
    + intros k e H. destruct (E1 k e H) as (e1 & H1 & T1 & N1 & S1). destruct (E2 k e1 H1) as (e2 & H2 & T2 & N2 & S2).
      exists e2. split; [done|]. split; [congruence|]. split; [congruence|auto].
    + by etrans.
    + intros k p H. destruct (I1 k p H) as (p1 & H1 & L1). destruct (I2 k p1 H1) as (p2 & H2 & L2).
      exists p2. split; [done|lia].
Qed.

(** Only three handlers touch these tables. *)
Inductive rec_effect (m m' : MemoryStore) : Prop :=
  | fe_same : ledger_tables m' = ledger_tables m -> rec_effect m m'
  | fe_enroll v : nodeEnrollments m !! ne_NodeID v = None ->
      (forall k e, nodeEnrollments m !! k = Some e -> ne_TokenHash e <> ne_TokenHash v) ->
      ledger_tables m' = (<[ne_NodeID v := v]> (nodeEnrollments m), auditEvents m, interferenceProfiles m) -> rec_effect m m'
  | fe_revoke k v : nodeEnrollments m !! k = Some v ->
      ledger_tables m' = (<[k := v <| ne_Status := "revoked"%string |>]> (nodeEnrollments m), auditEvents m, interferenceProfiles m) ->
      rec_effect m m'
  | fe_audit e : ae_ID e ∉ map ae_ID (auditEvents m) ->
      ledger_tables m' = (nodeEnrollments m, auditEvents m ++ [e], interferenceProfiles m) -> rec_effect m m'
  | fe_interference p : (forall p0, interferenceProfiles m !! ip_Key p = Some p0 -> ip_Version p0 < ip_Version p) ->
      ledger_tables m' = (nodeEnrollments m, auditEvents m, <[ip_Key p := p]> (interferenceProfiles m)) -> rec_effect m m'.

Lemma rec_step_effect m m' : rec_step m m' -> rec_effect m m'.
Proof.
  intros [* H|* H|* H|* H|* H|* H|* H|* H|* H|* H|* H|* H|* H|* H|* H|* H|e H|* H|* H|* H|* H|p x H|* H|* H|* H|* H|R v H|id H];
    try (handler H; by apply fe_same).
  - unfold AppendAuditEvent in H. destruct (existsb _ _) eqn:E in H; subst; [by apply fe_same|].
    apply (fe_audit _ _ e); [|reflexivity]. intros (e' & Hid & Hin)%list_elem_of_fmap.
    pose proof (proj1 (existsb_false _ _) E e' Hin) as Hf. apply bool_decide_eq_false in Hf. by rewrite Hid in Hf.
  - unfold UpsertInterferenceProfile in H. destruct (interferenceProfiles m !! ip_Key p) as [p0|] eqn:Hp.
    + destruct (_ <=? _) eqn:E in H; [done|]. injection H as <- _. apply (fe_interference _ _ p); [|reflexivity].
      intros p1 Hp1. bool_simp. replace p1 with p0 by congruence. done.
    + injection H as <- _. apply (fe_interference _ _ p); [|reflexivity]. intros p1. by rewrite Hp.
  - unfold CreateNodeEnrollment in H. destruct (nodeEnrollments m !! ne_NodeID v) eqn:Hv; [done|].
    destruct (range_find _ _) eqn:Hf in H; [done|]. injection H as <-. apply (fe_enroll _ _ v); [done| |reflexivity].
    intros k e Hk. pose proof (proj1 (range_find_None _ _) Hf k e Hk) as E. by apply bool_decide_eq_false in E.
  - unfold RevokeNodeEnrollment in H. destruct (nodeEnrollments m !! id) as [v|] eqn:Hv; [|done].
    injection H as <-. by apply (fe_revoke _ _ id v).
Qed.

Lemma rec_effect_inv m m' : rec_effect m m' -> rec_inv m -> rec_inv m'.
Proof.
  intros [Hs|v Hn Hf [= He Ha _]|k v Hk [= He Ha _]|e Hn [= He Ha _]|p _ [= He Ha _]] Hinv; [by eapply rec_inv_same|..];
    destruct Hinv as [H1 H2 H3]; split; rewrite ?He, ?Ha; try done.
  - intros k e [[<- <-]|[_ Hk]]%lookup_insert_Some; [done|by apply H1].
  - intros k k' e e' [[<- <-]|[_ Hk]]%lookup_insert_Some [[<- <-]|[_ Hk']]%lookup_insert_Some E; [done|..].
    + by destruct (Hf k' e' Hk').
    + by destruct (Hf k e Hk).
    + eauto.
  - intros k' e [[<- <-]|[_ Hk']]%lookup_insert_Some; [by apply (H1 k v)|by apply H1].
  - intros k1 k2 e1 e2 [[<- <-]|[_ Hk1]]%lookup_insert_Some [[<- <-]|[_ Hk2]]%lookup_insert_Some E; [done|..].
    + by apply (H2 k k2 v e2).
    + by apply (H2 k1 k e1 v).
    + eauto.
  - rewrite map_app. apply NoDup_app. split; [done|]. split; [|by apply NoDup_singleton].
    intros x Hx ->%list_elem_of_singleton. done.
Qed.

Lemma rec_effect_evolves m m' : rec_effect m m' -> rec_evolves m m'.
Proof.
  intros [Hs|v Hn Hf [= He Ha Hi]|k v Hk [= He Ha Hi]|e Hn [= He Ha Hi]|p Hp [= He Ha Hi]]; [by apply rec_evolves_same|..];
    split; rewrite ?He, ?Ha, ?Hi; eauto 10 using prefix_app_r; try (intros k0 p0 H0; exists p0; split; [done|lia]).
  - intros k e Hk. exists e. rewrite lookup_insert_ne; [done|congruence].
  - intros k' e Hk'. destruct (decide (k = k')) as [<-|]; [|exists e; by rewrite lookup_insert_ne].
    exists (v <| ne_Status := "revoked"%string |>). rewrite lookup_insert_eq. replace e with v by congruence. done.
  - intros k p0 Hk. destruct (decide (ip_Key p = k)) as [<-|]; [exists p|exists p0];
      [rewrite lookup_insert_eq|rewrite lookup_insert_ne by done]; (split; [done|]); [specialize (Hp p0 Hk)|]; lia.
Qed.
