(* ===== verification/Cas.v ===== *)
(** * Optimistic concurrency ([memory.go])

    Six handlers replace a row only if it still has the revision the caller
    read, and step that revision.  The interface [CasTable] states this once,
    and the instances discharge its law for the handlers of [memory.go];
    [LostUpdates.v] proves against it that no update is lost. *)

From S2P Require Import Prelude GoText Domain DomainWorkload DomainNode Store Checkpoint Displacement Residency Commands Budget.

(** A request names a row and carries the revision it was prepared from. *)
Class CasTable (Row Req : Type) := {
  cas_lookup : MemoryStore -> string -> option Row;
  cas_revision : Row -> Z;
  cas_key : Req -> string;
  cas_expected : Req -> Z;
  cas_run : Req -> MemoryStore -> result (MemoryStore * Row);
}.

Class CasLaw (Row Req : Type) `{T : CasTable Row Req} : Prop :=
  cas_law : forall q m m' r, cas_run q m = Ok (m', r) ->
    exists a, cas_lookup m (cas_key q) = Some a /\ cas_revision a = cas_expected q /\
      cas_lookup m' (cas_key q) = Some r /\ cas_revision r = wrapU64 (cas_revision a + 1).

(** ** Requests *)

Record checkpoint_cas := CheckpointCas {
  cc_range : GoRange; cc_now : Time; cc_op : LLMCheckpointOperation; cc_expected : Z }.
Record displacement_cas := DisplacementCas { dc_now : Time; dc_op : LLMDisplacementOperation; dc_expected : Z }.
Record workload_cas := WorkloadCas { wc_row : Workload; wc_expected : Z; wc_status : WorkloadStatus; wc_owner : string }.
Record residency_cas := ResidencyCas { rc_cancelled : option error; rc_row : ModelResidency; rc_expected : Z }.
Record transition_cas := TransitionCas {
  tc_row : ResidencyTransition; tc_expected : Z; tc_status : ResidencyTransitionStatus; tc_fence : Z }.
Record command_cas := CommandCas {
  nq_row : NodeCommand; nq_expected : Z; nq_attempts : Z; nq_uncertain : bool; nq_statuses : list NodeCommandStatus }.

(** ** Instances *)

#[export] Instance checkpoint_table : CasTable LLMCheckpointOperation checkpoint_cas := {|
  cas_lookup m id := llmCheckpointOps m !! id; cas_revision := ckpt_Revision;
  cas_key q := ckpt_ID (cc_op q); cas_expected := cc_expected;
  cas_run q := UpdateLLMCheckpointOperation (R := cc_range q) (cc_now q) (Some (cc_op q)) (cc_expected q) |}.

#[export] Instance displacement_table : CasTable LLMDisplacementOperation displacement_cas := {|
  cas_lookup m id := llmDisplacementOps m !! id; cas_revision := disp_Revision;
  cas_key q := disp_ID (dc_op q); cas_expected := dc_expected;
  cas_run q := UpdateLLMDisplacementOperation (dc_now q) (Some (dc_op q)) (dc_expected q) |}.

#[export] Instance workload_table : CasTable Workload workload_cas := {|
  cas_lookup m id := workloads m !! id; cas_revision := w_Revision;
  cas_key q := req_ID (w_Request (wc_row q)); cas_expected := wc_expected;
  cas_run q := CompareAndSwapWorkload (wc_row q) (wc_expected q) (wc_status q) (wc_owner q) |}.

#[export] Instance residency_table : CasTable ModelResidency residency_cas := {|
  cas_lookup m key := residencies m !! key; cas_revision := mr_Revision;
  cas_key q := residencyKey (mr_TargetID (rc_row q)) (mr_Model (rc_row q)); cas_expected := rc_expected;
  cas_run q := CompareAndSwapModelResidency (rc_cancelled q) (rc_row q) (rc_expected q) |}.

#[export] Instance transition_table : CasTable ResidencyTransition transition_cas := {|
  cas_lookup m id := transitions m !! id; cas_revision := rt_Revision;
  cas_key q := rt_ID (tc_row q); cas_expected := tc_expected;
  cas_run q := CompareAndSwapResidencyTransition (tc_row q) (tc_expected q) (tc_status q) (tc_fence q) |}.

#[export] Instance command_table : CasTable NodeCommand command_cas := {|
  cas_lookup m id := nodeCommands m !! id; cas_revision := nc_Revision;
  cas_key q := nc_ID (nq_row q); cas_expected := nq_expected;
  cas_run q := CompareAndSwapNodeCommandRevision (nq_row q) (nq_expected q) (nq_attempts q) (nq_uncertain q) (nq_statuses q) |}.

Ltac cas_unfold :=
  cbn [cas_lookup cas_revision cas_key cas_expected cas_run checkpoint_table displacement_table workload_table
       residency_table transition_table command_table] in *.

#[export] Instance checkpoint_law : CasLaw LLMCheckpointOperation checkpoint_cas.
Proof.
  intros q m m' r H. cas_unfold. assert (ckpt_ID r = ckpt_ID (cc_op q)) as Hid.
  { unfold UpdateLLMCheckpointOperation in H. cbv zeta in H.
    destruct (ckpt_ConversationID (cc_op q) ==? _) in H; repeat (branch H); by injection H as _ <-. }
  apply UpdateLLMCheckpointOperation_spec in H as (cur & Hc & He & Hs & _ & -> & _). rewrite Hid in *.
  exists cur. split; [done|]. split; [done|]. split; [apply lookup_insert_eq|apply (rs_revision _ _ Hs)].
Qed.

#[export] Instance displacement_law : CasLaw LLMDisplacementOperation displacement_cas.
Proof.
  intros q m m' r H. cas_unfold. pose proof H as H0.
  apply UpdateLLMDisplacementOperation_spec in H0 as (n & old & [= <-] & Hl & He & (v & c & u & ->) & _ & Hs & ->).
  exists old. split; [exact Hl|]. split; [done|]. split; [apply lookup_insert_eq|].
  unfold UpdateLLMDisplacementOperation in H. repeat (branch H). simplify_eq/=. done.
Qed.

#[export] Instance workload_law : CasLaw Workload workload_cas.
Proof.
  intros q m m' r H. cas_unfold. apply CompareAndSwapWorkload_spec in H as (a & Ha & He & _ & _ & -> & ->).
  exists a. rewrite <- He. repeat split; [done|]. apply lookup_insert_eq.
Qed.

#[export] Instance residency_law : CasLaw ModelResidency residency_cas.
Proof.
  intros q m m' r H. cas_unfold. unfold CompareAndSwapModelResidency in H. destruct (rc_cancelled q) in H; [done|].
  cbv zeta in H. destruct (residencies m !! _) as [a|] eqn:Ha in H; [|done]. destruct (negb _) eqn:He in H; [done|].
  branch H. injection H as <- <-. bool_simp. exists a. split; [done|]. split; [done|].
  split; [apply lookup_insert_eq|]. cbn. congruence.
Qed.

#[export] Instance transition_law : CasLaw ResidencyTransition transition_cas.
Proof.
  intros q m m' r H. cas_unfold. unfold CompareAndSwapResidencyTransition in H.
  destruct (transitions m !! _) as [a|] eqn:Ha in H; [|done]. do 2 (destruct (validateResidencyTransitionStoredOrigin _) in H; [|done]).
  destruct (_ || _) eqn:He in H; [done|]. destruct (verifyResidencyTransitionReplay _ _) in H; [|done]. injection H as <- <-. bool_simp. exists a. split; [done|]. split; [done|].
  split; [apply lookup_insert_eq|]. cbn. congruence.
Qed.

#[export] Instance command_law : CasLaw NodeCommand command_cas.
Proof.
  intros q m m' r H. cas_unfold. unfold CompareAndSwapNodeCommandRevision in H.
  destruct (nodeCommands m !! _) as [a|] eqn:Ha in H; [|done]. cbv zeta in H. destruct (_ || _) eqn:He in H; [done|].
  destruct (verifyNodeCommandDelivery _ _) in H; [|done]. injection H as <- <-. bool_simp. exists a. split; [done|]. split; [done|].
  split; [apply lookup_insert_eq|reflexivity].
Qed.

(** ** Against the interface *)

Section cas.
Context {Row Req : Type} `{L : CasLaw Row Req}.

(** Successful updates of one row, one after the other. *)
Fixpoint cas_runs (key : string) (qs : list Req) (m : MemoryStore) : option MemoryStore :=
  match qs with
  | [] => Some m
  | q :: qs => if cas_key q ==? key then
                 match cas_run q m with Ok (m', _) => cas_runs key qs m' | Err _ => None end
               else None
  end.

Lemma wrapU64_moves a n : 0 < n < two64 -> wrapU64 (a + n) <> a.
Proof.
  intros Hn E. assert (0 <= a < two64) as Ha by (rewrite <- E; apply Z.mod_pos_bound; done).
  unfold wrapU64 in E. assert (two64 = 18446744073709551616) as E2 by done.
  destruct (Z_lt_le_dec (a + n) two64); [rewrite Z.mod_small in E; lia|].
  rewrite <- (Z_mod_plus_full (a + n) (-1)) in E. rewrite Z.mod_small in E; lia.
Qed.
End cas.
