(* ===== verification/StoreMachine.v ===== *)
(** * The controller store as a state machine

    Every handler of [memory.go] that changes the store is a step; a run is any
    interleaving of them.  The invariants of the components hold together in
    every reachable store, and between two stores of a run every row only moves
    along the relation of its component. *)

From S2P Require Import Prelude GoText Domain DomainWorkload DomainNode Store.
From S2P Require Import Checkpoint Displacement DisplacementInv Leases Residency Commands Budget Records.

Inductive store_step (m m' : MemoryStore) : Prop :=
  | st_checkpoint : ckpt_step m m' -> store_step m m'
  | st_displacement : disp_step m m' -> store_step m m'
  | st_lease : lease_step m m' -> store_step m m'
  | st_residency : res_step m m' -> store_step m m'
  | st_command : cmd_step m m' -> store_step m m'
  | st_budget : bud_step m m' -> store_step m m'
  | st_record : rec_step m m' -> store_step m m'.

Definition store_reachable (m : MemoryStore) : Prop := rtc store_step NewMemoryStore m.

Record store_inv (m : MemoryStore) : Prop := {
  si_checkpoints : ckpt_inv (llmCheckpointOps m) (llmCheckpointKeys m);
  si_displacements : disp_inv (llmDisplacementOps m) (llmDisplacementKeys m);
  si_leases : lease_inv m;
  si_workloads : wl_inv m;
  si_records : rec_inv m;
  si_residencies : forall k r, residencies m !! k = Some r -> residencyKey (mr_TargetID r) (mr_Model r) = k;
  si_transitions : indexed rt_ID (transitions m) (transitionKeys m);
  si_commands : indexed nc_ID (nodeCommands m) (nodeCommandKeys m);
  si_notifications : indexed nd_ID (notifications m) (notificationKeys m);
}.

Lemma store_inv_new : store_inv NewMemoryStore.
Proof.
  split; [apply ckpt_inv_empty|apply disp_inv_empty|apply lease_inv_new|apply wl_inv_new|apply rec_inv_new| |apply indexed_empty..].
  intros k r H. cbn in H. by rewrite lookup_empty in H.
Qed.

(** ** Rows that only move along a relation *)

Definition table_moves {A} (P : A -> A -> Prop) (t t' : gmap string A) : Prop :=
  forall k a, t !! k = Some a -> exists b, t' !! k = Some b /\ rtc P a b.

#[export] Instance table_moves_preorder {A} (P : A -> A -> Prop) : PreOrder (table_moves P).
Proof.
  split; [intros t k a H; exists a; split; [done|reflexivity]|].
  intros t t1 t2 H1 H2 k a H. destruct (H1 k a H) as (b & Hb & Pb). destruct (H2 k b Hb) as (c & Hc & Pc).
  exists c. split; [done|by etrans].
Qed.

Lemma table_moves_same {A} (P : A -> A -> Prop) t t' : t' = t -> table_moves P t t'.
Proof. intros ->. reflexivity. Qed.

Lemma table_moves_step {A} (P : A -> A -> Prop) (t t' : gmap string A) :
  (forall k a, t !! k = Some a -> exists b, t' !! k = Some b /\ (b = a \/ P a b)) -> table_moves P t t'.
Proof. intros H k a Ha. destruct (H k a Ha) as (b & Hb & [->|Hp]); eexists; (split; [exact Hb|]); [reflexivity|by apply rtc_once]. Qed.

Definition revised (a b : Workload) : Prop := w_Revision b = wrapU64 (w_Revision a + 1).
Definition reserved (a b : BudgetReservation) : Prop := exists id, br_step id a b.

(** A transition allocated under a lease keeps what it was allocated for. *)
Definition leased_kept (m m' : MemoryStore) : Prop :=
  forall k a, transitions m !! k = Some a -> rt_LeaseOriginAllocated a = true ->
    exists b, transitions m' !! k = Some b /\ rt_canonical b = rt_canonical a /\ rt_origin b = rt_origin a.

#[export] Instance leased_kept_preorder : PreOrder leased_kept.
Proof.
  split; [intros m k a H _; by exists a|]. intros m m1 m2 H1 H2 k a Ha Hl. destruct (H1 k a Ha Hl) as (b & Hb & Cb & Ob).
  destruct (H2 k b Hb) as (c & Hc & Cc & Oc); [injection Ob as _ _ _ E; congruence|]. exists c. repeat split; congruence.
Qed.

Record store_evolves (m m' : MemoryStore) : Prop := {
  se_checkpoints : table_moves row_step (llmCheckpointOps m) (llmCheckpointOps m');
  se_displacements : table_moves drow_step (llmDisplacementOps m) (llmDisplacementOps m');
  se_fences : forall acc, fence m acc <= fence m' acc;
  se_tokens : tokens_move m m';
  se_residencies : table_moves mr_step (residencies m) (residencies m');
  se_leased : leased_kept m m';
  se_workloads : table_moves revised (workloads m) (workloads m');
  se_keys : keys_kept m m';
  se_budgets : table_moves reserved (budgets m) (budgets m');
  se_records : rec_evolves m m';
}.

#[export] Instance store_evolves_preorder : PreOrder store_evolves.
Proof.
  split; [intros m; split; try reflexivity; by apply tokens_same|].
  intros m m1 m2 [? ? F1 T1] [? ? F2 T2]. split; try by etrans.
  - intros acc. specialize (F1 acc). specialize (F2 acc). lia.
  - intros acc l2 H2. specialize (F1 acc). destruct (T2 acc l2 H2) as [|(l1 & H1 & <- & <-)]; [left; lia|by apply T1].
Qed.

(** ** Steps *)

(** Steps that leave a table as it is. *)
Lemma evolves_core m m' : core m' = core m -> rec_evolves m m' -> store_evolves m m'.
Proof.
  intros [= Hw Hi Hb Hl Hf Hc Hr Ht Hk Hn Hnk Hco Hck Hdo Hdk] Hrec.
  split; try done; try (by apply table_moves_same); try (by apply tokens_same); try by apply keys_same.
  - intros acc. unfold fence. by rewrite Hf.
  - intros k a Ha _. rewrite Ht. by exists a.
Qed.

(** Steps that leave the record tables as they are keep [rec_inv] and evolve. *)
Lemma records_same m m' : ledger_tables m' = ledger_tables m -> (rec_inv m -> rec_inv m') /\ rec_evolves m m'.
Proof. intros E. split; [by apply rec_inv_same|by apply rec_evolves_same]. Qed.

Lemma lease_inv_same m m' : leases m' = leases m -> leaseFences m' = leaseFences m -> lease_inv m -> lease_inv m'.
Proof.
  intros El Ef [H1 H2 H3]. split.
  - intros a. unfold fence. rewrite Ef. apply H1.
  - intros a l. unfold fence. rewrite El, Ef. apply H2.
  - intros a l. rewrite El. apply H3.
Qed.

Lemma wl_inv_same m m' : workloads m' = workloads m -> idempotency m' = idempotency m -> wl_inv m -> wl_inv m'.
Proof. intros Ew Ei [H1 H2]. split; rewrite ?Ew, ?Ei; done. Qed.

(** The part of the store a component does not own. *)
Ltac untouched F :=
  first [ rewrite F; reflexivity
        | rewrite F; assumption
        | by apply table_moves_same; rewrite F
        | by apply tokens_same; rewrite F
        | by apply keys_same; rewrite F
        | by intros ?; unfold fence; rewrite F
        | by intros ? ? ? _; rewrite F; eexists ].

Lemma checkpoint_step_inv m m' : ckpt_step m m' -> store_inv m -> store_inv m' /\ store_evolves m m'.
Proof.
  intros H [I1 I2 I3 I4 I5 I6 I7 I8 I9]. pose proof (ckpt_step_frame _ _ H) as F. destruct (records_same m m') as [R1 R2]; [untouched F|].
  destruct (ckpt_step_table _ _ H) as [->|Ht]; [split; [by split|reflexivity]|]. split; split; auto; try untouched F.
  - by apply (ckpt_table_step_inv _ _ _ _ Ht).
  - apply (lease_inv_same m); auto; untouched F.
  - apply (wl_inv_same m); auto; untouched F.
  - apply table_moves_step. intros k a. by apply (ckpt_table_step_row _ _ _ _ _ _ Ht).
Qed.

Lemma displacement_step_inv m m' : disp_step m m' -> store_inv m -> store_inv m' /\ store_evolves m m'.
Proof.
  intros H [I1 I2 I3 I4 I5 I6 I7 I8 I9]. pose proof (disp_step_frame _ _ H) as F. destruct (records_same m m') as [R1 R2]; [untouched F|].
  split; split; auto; try untouched F.
  - apply (disp_step_inv _ _ H); [apply I3|exact I2].
  - apply (lease_inv_same m); auto; untouched F.
  - apply (wl_inv_same m); auto; untouched F.
  - apply table_moves_step. intros k a. by apply (disp_step_row _ _ _ _ H).
Qed.

Lemma lease_step_inv m m' : lease_step m m' -> store_inv m -> store_inv m' /\ store_evolves m m'.
Proof.
  intros H [I1 I2 I3 I4 I5 I6 I7 I8 I9]. pose proof (lease_step_frame _ _ H) as F. destruct (records_same m m') as [R1 R2]; [untouched F|].
  assert (He : lease_effect m m') by (apply lease_step_effect; [intros a; apply I3|done]).
  assert (Hk : llmCheckpointKeys m' = llmCheckpointKeys m) by untouched F.
  assert (Hc : ckpt_inv (llmCheckpointOps m') (llmCheckpointKeys m') /\
               table_moves row_step (llmCheckpointOps m) (llmCheckpointOps m')).
  { rewrite Hk. destruct (lease_effect_ckpt _ _ He I1) as [E|Ht]; [rewrite E; split; [done|reflexivity]|].
    split; [by apply (ckpt_table_step_inv _ _ _ _ Ht)|]. apply table_moves_step. intros k a.
    by apply (ckpt_table_step_row _ _ _ _ _ _ Ht). }
  destruct Hc as [Hc1 Hc2]. split; split; auto; try untouched F.
  - by apply (lease_effect_inv _ _ He).
  - apply (wl_inv_same m); auto; untouched F.
  - intros acc. by apply lease_effect_fence.
  - by apply lease_effect_tokens.
Qed.

Lemma residency_step_inv m m' : res_step m m' -> store_inv m -> store_inv m' /\ store_evolves m m'.
Proof.
  intros H [I1 I2 I3 I4 I5 I6 I7 I8 I9]. pose proof (res_step_frame _ _ H) as F. destruct (records_same m m') as [R1 R2]; [untouched F|].
  pose proof (res_step_effect _ _ H) as He. split; split; auto; try untouched F.
  - apply (lease_inv_same m); auto; untouched F.
  - apply (wl_inv_same m); auto; untouched F.
  - by apply (res_step_keyed _ _ H).
  - by apply (res_step_indexed _ _ H).
  - apply table_moves_step. intros k a. by apply res_effect_residency.
  - intros k a. by apply res_effect_leased.
Qed.

Lemma command_step_inv m m' : cmd_step m m' -> store_inv m -> store_inv m' /\ store_evolves m m'.
Proof.
  intros H [I1 I2 I3 I4 I5 I6 I7 I8 I9]. pose proof (cmd_step_frame _ _ H) as F. destruct (records_same m m') as [R1 R2]; [untouched F|].
  split; split; auto; try untouched F.
  - apply (lease_inv_same m); auto; untouched F.
  - apply (wl_inv_same m); auto; untouched F.
  - by apply (cmd_step_indexed _ _ H).
Qed.

Lemma budget_step_inv m m' : bud_step m m' -> store_inv m -> store_inv m' /\ store_evolves m m'.
Proof.
  intros H [I1 I2 I3 I4 I5 I6 I7 I8 I9]. pose proof (bud_step_frame _ _ H) as F. destruct (records_same m m') as [R1 R2]; [untouched F|].
  pose proof (bud_step_effect _ _ H) as He. split; split; auto; try untouched F.
  - apply (lease_inv_same m); auto; untouched F.
  - by apply (bud_effect_inv _ _ He).
  - apply table_moves_step. intros k a. by apply bud_effect_workloads.
  - by apply bud_effect_keys.
  - apply table_moves_step. intros k a Ha. destruct (bud_effect_budgets _ _ He k a Ha) as (b & Hb & Hs).
    exists b. split; [done|right; by exists k].
Qed.

Lemma record_step_inv m m' : rec_step m m' -> store_inv m -> store_inv m' /\ store_evolves m m'.
Proof.
  intros H [I1 I2 I3 I4 I5 I6 I7 I8 I9]. pose proof (rec_step_frame _ _ H) as F. pose proof (rec_step_effect _ _ H) as He.
  split; [|by apply evolves_core; [|apply rec_effect_evolves]].
  injection F as Hw Hi Hb Hl Hf Hc Hr Ht Hk Hn Hnk Hco Hck Hdo Hdk. split.
  - by rewrite Hco, Hck.
  - by rewrite Hdo, Hdk.
  - by apply (lease_inv_same m).
  - by apply (wl_inv_same m).
  - by apply (rec_effect_inv _ _ He).
  - by rewrite Hr.
  - by rewrite Ht, Hk.
  - by rewrite Hn, Hnk.
  - by apply (rec_step_indexed _ _ H).
Qed.

Lemma store_step_inv m m' : store_step m m' -> store_inv m -> store_inv m' /\ store_evolves m m'.
Proof.
  intros [H|H|H|H|H|H|H]; eauto using checkpoint_step_inv, displacement_step_inv, lease_step_inv, residency_step_inv,
    command_step_inv, budget_step_inv, record_step_inv.
Qed.

(** A step moves a checkpoint row at most once. *)
Lemma store_step_checkpoint m m' k a : store_step m m' -> store_inv m -> llmCheckpointOps m !! k = Some a ->
  exists b, llmCheckpointOps m' !! k = Some b /\ (b = a \/ row_step a b).
Proof.
  intros Hs I Ha.
  assert (Hsame : llmCheckpointOps m' = llmCheckpointOps m -> exists b, llmCheckpointOps m' !! k = Some b /\ (b = a \/ row_step a b))
    by (intros ->; eauto).
  destruct Hs as [H|H|H|H|H|H|H].
  - destruct (ckpt_step_table _ _ H) as [->|Ht]; [eauto|by apply (ckpt_table_step_row _ _ _ _ _ _ Ht)].
  - apply Hsame. by rewrite (disp_step_frame _ _ H).
  - assert (He : lease_effect m m') by (apply lease_step_effect; [intros x; apply (si_leases _ I)|done]).
    destruct (lease_effect_ckpt _ _ He (si_checkpoints _ I)) as [E|Ht]; [by apply Hsame|].
    by apply (ckpt_table_step_row _ _ _ _ _ _ Ht).
  - apply Hsame. by rewrite (res_step_frame _ _ H).
  - apply Hsame. by rewrite (cmd_step_frame _ _ H).
  - apply Hsame. by rewrite (bud_step_frame _ _ H).
  - apply Hsame. by injection (rec_step_frame _ _ H).
Qed.

(** ** Runs *)

Lemma run_inv m m' : rtc store_step m m' -> store_inv m -> store_inv m' /\ store_evolves m m'.
Proof.
  induction 1 as [m|m m1 m' Hs _ IH]; intros I; [split; [done|reflexivity]|].
  destruct (store_step_inv _ _ Hs I) as [I1 E1]. destruct (IH I1) as [I2 E2]. split; [done|by etrans].
Qed.

Lemma reachable_inv m : store_reachable m -> store_inv m.
Proof. intros H. by apply (run_inv _ _ H store_inv_new). Qed.

Lemma reachable_evolves m m' : store_reachable m -> rtc store_step m m' -> store_evolves m m'.
Proof. intros H R. by apply (run_inv _ _ R (reachable_inv _ H)). Qed.

Lemma reachable_run m m' : store_reachable m -> rtc store_step m m' -> store_reachable m'.
Proof. unfold store_reachable. intros H R. by etrans. Qed.

(** The lemmas about single steps and runs, for automation. *)
Create HintDb store.
#[export] Hint Resolve st_checkpoint st_displacement st_lease st_residency st_command st_budget st_record : store.
#[export] Hint Resolve cs_create cs_update ls_renew ls_release us_create us_update us_cas : store.
#[export] Hint Resolve reachable_inv reachable_run : store.
