(* ===== verification/LostUpdates.v ===== *)
(** * Runs without lost updates ([memory.go])

    The compare-and-swaps of [Cas.v] inside whole runs of the store.  The
    interface [CasHistory] says that a kind of step replaces a row only with
    the next revision; where it holds, a request prepared from a row that has
    changed since is refused, whatever handlers ran in between.

    Two plain updates break it: [UpdateNodeCommand] and
    [UpdateResidencyTransition] store the revision of the caller.  The steps
    without them are [guarded_step].  [UpsertModelResidency] may skip
    revisions; [low_step] keeps them away from the end of [uint64]. *)

From S2P Require Import Prelude GoText Domain DomainWorkload DomainNode Store.
From S2P Require Import Checkpoint Displacement DisplacementInv Leases Residency Commands Budget Records Cas StoreMachine.

(** ** Steps *)

Inductive guarded_step (m m' : MemoryStore) : Prop :=
  | gd_checkpoint : ckpt_step m m' -> guarded_step m m'
  | gd_displacement : disp_step m m' -> guarded_step m m'
  | gd_lease : lease_step m m' -> guarded_step m m'
  | gd_residency : res_guarded m m' -> guarded_step m m'
  | gd_command : cmd_guarded m m' -> guarded_step m m'
  | gd_budget : bud_step m m' -> guarded_step m m'
  | gd_record : rec_step m m' -> guarded_step m m'.

Lemma guarded_store m m' : guarded_step m m' -> store_step m m'.
Proof.
  intros [H|H|H|H|H|H|H]; [by apply st_checkpoint|by apply st_displacement|by apply st_lease|by apply st_residency, rs_guarded|
    by apply st_command, ms_guarded|by apply st_budget|by apply st_record].
Qed.

Definition low_step (m m' : MemoryStore) : Prop :=
  store_step m m' /\ forall k r, residencies m !! k = Some r -> mr_Revision r < two64 - 1.

(** Fewer steps than there are revisions. *)
Definition short_run (step : relation MemoryStore) (m m' : MemoryStore) : Prop :=
  exists n, Z.of_nat n < two64 /\ nsteps step n m m'.

(** ** The interface *)

Class CasHistory (Row Req : Type) `{CasTable Row Req} (step : relation MemoryStore) : Prop :=
  cas_history : forall m m' key a, store_inv m -> step m m' -> cas_lookup m key = Some a ->
    store_inv m' /\ exists b, cas_lookup m' key = Some b /\ (b = a \/ cas_revision b = wrapU64 (cas_revision a + 1)).

(** Along [run] no update is lost: when the row has changed, a request
    prepared from what it was is refused. *)
Definition no_lost_update (Row Req : Type) `{CasTable Row Req} (run : relation MemoryStore) : Prop :=
  forall m m' key a b q, store_reachable m -> run m m' -> cas_lookup m key = Some a -> cas_lookup m' key = Some b -> b <> a ->
    cas_key q = key -> cas_expected q = cas_revision a -> exists e, cas_run q m' = Err e.

Section against_interface.
Context {Row Req : Type} `{L : CasLaw Row Req}.

(** A row of another revision refuses the request. *)
Lemma cas_refused m key b q : cas_lookup m key = Some b -> cas_key q = key -> cas_expected q <> cas_revision b ->
  exists e, cas_run q m = Err e.
Proof.
  intros Hb Hk He. destruct (cas_run q m) as [[m' r]|e] eqn:E; [|eauto].
  destruct (cas_law _ _ _ _ E) as (b' & Hb' & Hr & _). rewrite Hk in Hb'. congruence.
Qed.

Context (step : relation MemoryStore) `{!CasHistory Row Req step}.

Lemma history_revision n m m' key a : store_inv m -> nsteps step n m m' -> cas_lookup m key = Some a ->
  exists b j, cas_lookup m' key = Some b /\ (j <= n)%nat /\
    (b = a \/ (0 < j)%nat /\ cas_revision b = wrapU64 (cas_revision a + Z.of_nat j)).
Proof.
  intros I Hn. revert a I. induction Hn as [m|n m m1 m' Hs _ IH]; intros a I Ha; [exists a, 0%nat; auto|].
  destruct (cas_history _ _ _ _ I Hs Ha) as (I1 & a1 & Ha1 & H1). destruct (IH a1 I1 Ha1) as (b & j & Hb & Hj & H2).
  destruct H1 as [->|H1]; [exists b, j; split_and!; [done|lia|done]|].
  destruct H2 as [->|[_ H2]]; [exists a1, 1%nat|exists b, (S j)]; (split_and!; [done|lia|right; split; [lia|]]).
  - rewrite H1. f_equal.
  - rewrite H2, H1. unfold wrapU64. rewrite Zplus_mod_idemp_l. f_equal. lia.
Qed.

Lemma history_no_lost_update : no_lost_update Row Req (short_run step).
Proof.
  intros m m' key a b q Hm (n & Hn & Hr) Ha Hb Hne Hk He. apply (cas_refused m' key b q Hb Hk). rewrite He. intros E.
  destruct (history_revision n m m' key a (reachable_inv _ Hm) Hr Ha) as (b' & j & Hb' & Hj & H).
  assert (b' = b) as -> by congruence. destruct H as [|[H0 H]]; [done|].
  apply (wrapU64_moves (cas_revision a) (Z.of_nat j)); [lia|congruence].
Qed.
End against_interface.

(** ** Instances *)

(** Only the steps of one component touch the table. *)
Lemma step_workload m m' k a : store_step m m' -> store_inv m -> workloads m !! k = Some a ->
  exists b, workloads m' !! k = Some b /\ (b = a \/ revised a b).
Proof.
  intros Hs I Ha.
  assert (Hsame : workloads m' = workloads m -> exists b, workloads m' !! k = Some b /\ (b = a \/ revised a b)) by (intros ->; eauto).
  destruct Hs as [H|H|H|H|H|H|H].
  - apply Hsame. by rewrite (ckpt_step_frame _ _ H).
  - apply Hsame. by rewrite (disp_step_frame _ _ H).
  - apply Hsame. by rewrite (lease_step_frame _ _ H).
  - apply Hsame. by rewrite (res_step_frame _ _ H).
  - apply Hsame. by rewrite (cmd_step_frame _ _ H).
  - by apply (bud_effect_workloads _ _ (bud_step_effect _ _ H)).
  - apply Hsame. by injection (rec_step_frame _ _ H).
Qed.

#[export] Instance checkpoint_history : CasHistory LLMCheckpointOperation checkpoint_cas store_step.
Proof.
  intros m m' key a I Hs Ha. split; [by apply (store_step_inv _ _ Hs)|]. cas_unfold.
  destruct (store_step_checkpoint _ _ _ _ Hs I Ha) as (b & Hb & [H|H]); exists b; split; auto. right. apply H.
Qed.

#[export] Instance workload_history : CasHistory Workload workload_cas store_step.
Proof. intros m m' key a I Hs Ha. split; [by apply (store_step_inv _ _ Hs)|]. by apply (step_workload m m'). Qed.

#[export] Instance transition_history : CasHistory ResidencyTransition transition_cas guarded_step.
Proof.
  intros m m' key a I Hs Ha. split; [by apply (store_step_inv _ _ (guarded_store _ _ Hs))|]. cas_unfold.
  assert (Hsame : transitions m' = transitions m ->
    exists b, transitions m' !! key = Some b /\ (b = a \/ rt_Revision b = wrapU64 (rt_Revision a + 1))) by (intros ->; eauto).
  destruct Hs as [H|H|H|H|H|H|H].
  - apply Hsame. by rewrite (ckpt_step_frame _ _ H).
  - apply Hsame. by rewrite (disp_step_frame _ _ H).
  - apply Hsame. by rewrite (lease_step_frame _ _ H).
  - by apply (res_guarded_revises _ _ _ _ H).
  - apply Hsame. by rewrite (cmd_step_frame _ _ (ms_guarded _ _ H)).
  - apply Hsame. by rewrite (bud_step_frame _ _ H).
  - apply Hsame. by injection (rec_step_frame _ _ H).
Qed.

#[export] Instance command_history : CasHistory NodeCommand command_cas guarded_step.
Proof.
  intros m m' key a I Hs Ha. split; [by apply (store_step_inv _ _ (guarded_store _ _ Hs))|]. cas_unfold.
  assert (Hsame : nodeCommands m' = nodeCommands m ->
    exists b, nodeCommands m' !! key = Some b /\ (b = a \/ nc_Revision b = wrapU64 (nc_Revision a + 1))) by (intros ->; eauto).
  destruct Hs as [H|H|H|H|H|H|H].
  - apply Hsame. by rewrite (ckpt_step_frame _ _ H).
  - apply Hsame. by rewrite (disp_step_frame _ _ H).
  - apply Hsame. by rewrite (lease_step_frame _ _ H).
  - apply Hsame. by rewrite (res_step_frame _ _ (rs_guarded _ _ H)).
  - by apply (cmd_guarded_revises _ _ _ _ H).
  - apply Hsame. by rewrite (bud_step_frame _ _ H).
  - apply Hsame. by injection (rec_step_frame _ _ H).
Qed.

(** ** Displacements and residencies

    A displacement has at most eighteen revisions, so no bound on the run is
    needed; residency revisions only grow below the end of [uint64]. *)

Lemma displacement_no_lost_update : no_lost_update LLMDisplacementOperation displacement_cas (rtc store_step).
Proof.
  intros m m' key a b q Hm Hr Ha Hb Hne Hk He. apply (cas_refused m' key b q Hb Hk). rewrite He. cas_unfold.
  destruct (se_displacements _ _ (reachable_evolves _ _ Hm Hr) key a Ha) as (b' & Hb' & Hs).
  assert (b' = b) as -> by congruence. assert (a = b \/ disp_Revision a < disp_Revision b) as [|]; [|congruence|lia].
  clear -Hs. induction Hs as [a|a a1 b Hs _ IH]; [by left|]. right. pose proof (ds_revision _ _ Hs). destruct IH as [<-|]; lia.
Qed.

Lemma low_step_row m m' k a : store_inv m -> low_step m m' -> residencies m !! k = Some a ->
  exists b, residencies m' !! k = Some b /\ (b = a \/ mr_Revision a < mr_Revision b).
Proof.
  intros I [Hs Hlow] Ha. specialize (Hlow k a Ha).
  assert (Hsame : residencies m' = residencies m ->
    exists b, residencies m' !! k = Some b /\ (b = a \/ mr_Revision a < mr_Revision b)) by (intros ->; eauto).
  destruct Hs as [H|H|H|H|H|H|H].
  - apply Hsame. by rewrite (ckpt_step_frame _ _ H).
  - apply Hsame. by rewrite (disp_step_frame _ _ H).
  - apply Hsame. by rewrite (lease_step_frame _ _ H).
  - destruct (res_effect_residency _ _ _ _ (res_step_effect _ _ H) Ha) as (b & Hb & [E|[_ [E|E]]]); exists b; split; auto.
    right. rewrite E. unfold wrapU64. destruct (Z_lt_le_dec (mr_Revision a) 0).
    + pose proof (Z.mod_pos_bound (mr_Revision a + 1) two64 ltac:(done)). lia.
    + rewrite Z.mod_small; lia.
  - apply Hsame. by rewrite (cmd_step_frame _ _ H).
  - apply Hsame. by rewrite (bud_step_frame _ _ H).
  - apply Hsame. by injection (rec_step_frame _ _ H).
Qed.

Lemma residency_no_lost_update : no_lost_update ModelResidency residency_cas (rtc low_step).
Proof.
  intros m m' key a b q Hm Hr Ha Hb Hne Hk He. apply (cas_refused m' key b q Hb Hk). rewrite He. cas_unfold.
  assert (b = a \/ mr_Revision a < mr_Revision b) as [|]; [|congruence|lia]. clear Hne He.
  apply reachable_inv in Hm. revert a Hm Ha. induction Hr as [m|m m1 m' Hs _ IH]; intros a I Ha; [left; congruence|].
  destruct (low_step_row _ _ _ _ I Hs Ha) as (a1 & Ha1 & H1).
  destruct (IH Hb a1) as [H2|H2]; [by apply (store_step_inv _ _ (proj1 Hs))|done|..]; destruct H1 as [->|]; subst; auto; right; lia.
Qed.
