(* ===== verification/Samples.v ===== *)
(** * Example stores

    Go's zero values of the larger structs, and a small world built from them:
    two planned workloads on one accelerator, a checkpoint journal row and a
    displacement.  The concrete instances of the theorems are taken from it. *)

From S2P Require Import Prelude GoText Domain DomainWorkload DomainNode Store.
From S2P Require Import Checkpoint Displacement DisplacementInv Leases Residency Commands Budget Records StoreMachine.

(** ** Zero values *)

Class GoZero (A : Type) := zero : A.
#[export] Instance zero_string : GoZero string := ""%string.
#[export] Instance zero_int : GoZero Z := 0.
#[export] Instance zero_bool : GoZero bool := false.
#[export] Instance zero_float : GoZero float64 := SpecFloat.S754_zero false.
#[export] Instance zero_slice A : GoZero (list A) := [].
#[export] Instance zero_pointer A : GoZero (option A) := None.
#[export] Instance zero_map A : GoZero (gmap string A) := (∅ : gmap string A).
#[export] Instance zero_workload_status : GoZero WorkloadStatus := WorkloadQueued.
#[export] Instance zero_transition_status : GoZero ResidencyTransitionStatus := ResidencyTransitionPlanned.
#[export] Instance zero_command_status : GoZero NodeCommandStatus := NodeCommandQueued.
#[export] Instance zero_CapabilityRequirements : GoZero CapabilityRequirements := mkCapabilityRequirements zero.
#[export] Instance zero_ProfilePreferences : GoZero ProfilePreferences := mkProfilePreferences zero zero zero.
#[export] Instance zero_ParallelismPolicy : GoZero ParallelismPolicy := mkParallelismPolicy zero.
#[export] Instance zero_NotificationPreferences : GoZero NotificationPreferences := mkNotificationPreferences zero
  zero zero zero.
#[export] Instance zero_WorkloadBounds : GoZero WorkloadBounds := mkWorkloadBounds zero zero zero zero zero zero.
#[export] Instance zero_WorkloadRequest : GoZero WorkloadRequest := mkWorkloadRequest zero zero zero zero zero zero
  zero zero zero zero zero zero zero zero zero zero zero zero zero zero zero zero zero zero zero zero zero zero
  zero zero zero zero zero zero zero zero zero zero zero zero zero zero zero zero zero zero.
#[export] Instance zero_AdmissionDecision : GoZero AdmissionDecision := mkAdmissionDecision zero zero zero zero
  zero zero zero zero zero zero zero zero zero zero zero zero zero zero zero zero zero zero zero.
#[export] Instance zero_ExecutionPlan : GoZero ExecutionPlan := mkExecutionPlan zero zero zero zero zero zero zero
  zero zero zero zero zero zero zero zero zero zero zero zero zero zero zero zero zero zero zero zero zero zero
  zero zero.
#[export] Instance zero_Workload : GoZero Workload := mkWorkload zero zero zero zero zero zero zero zero zero zero
  zero zero zero zero zero zero zero zero zero zero zero zero zero zero zero zero zero zero zero zero zero zero
  zero zero zero zero zero.
#[export] Instance zero_LLMCheckpointOperation : GoZero LLMCheckpointOperation := mkLLMCheckpointOperation zero
  zero zero zero zero zero zero zero zero zero zero zero zero zero zero zero zero zero zero zero zero zero zero
  zero zero zero zero zero zero zero zero zero zero zero zero zero zero zero zero zero zero zero zero zero zero
  zero zero zero zero zero zero zero zero.
#[export] Instance zero_LLMDisplacementModelBinding : GoZero LLMDisplacementModelBinding := mkLLMDisplacementModelBinding
  zero zero zero zero zero zero zero zero zero zero zero zero zero zero zero zero zero zero.
#[export] Instance zero_LLMDisplacementOperation : GoZero LLMDisplacementOperation := mkLLMDisplacementOperation
  zero zero zero zero zero zero zero zero zero zero zero zero zero zero zero zero zero zero zero zero zero zero
  zero zero zero zero zero zero zero zero zero zero zero zero.
#[export] Instance zero_ModelResidency : GoZero ModelResidency := mkModelResidency zero zero zero zero zero zero
  zero zero zero zero zero zero zero zero zero zero zero zero zero zero zero zero zero zero.
#[export] Instance zero_ResidencyTransition : GoZero ResidencyTransition := mkResidencyTransition zero zero zero
  zero zero zero zero zero zero zero zero zero zero zero zero zero zero zero zero zero zero zero zero zero zero
  zero zero zero zero zero zero.
#[export] Instance zero_NodeCommand : GoZero NodeCommand := mkNodeCommand zero zero zero zero zero zero zero zero
  zero zero zero zero zero zero zero zero zero zero zero zero zero zero zero.

(** ** A world *)

Definition noon : Time := 63113904000 * second.
Definition minute : Duration := 60 * second.
#[export] Instance sample_range : GoRange := by_key.

Definition sample_plan (id : string) : ExecutionPlan :=
  (zero : ExecutionPlan) <| plan_ID := ("plan-" +:+ id)%string |> <| plan_WorkloadID := id |>
    <| plan_PlanHash := ("hash-" +:+ id)%string |> <| plan_TargetID := "target"%string |>
    <| plan_AcceleratorID := "gpu0"%string |>.

Definition sample_workload (id owner : string) : Workload :=
  (zero : Workload) <| w_Request := (zero : WorkloadRequest) <| req_ID := id |> <| req_OwnerID := owner |>
                                      <| req_PrincipalID := owner |> <| req_IdempotencyKey := ("key-" +:+ id)%string |> |>
    <| w_Plan := Some (sample_plan id) |> <| w_ProgressNode := "node"%string |> <| w_CreatedAt := noon |>.

Definition sample_binding (id : string) : LLMDisplacementModelBinding :=
  mkLLMDisplacementModelBinding "target" "node" "gpu0" "model" ["alias"%string] "alias" "local" "localhash"
    ("plan-" +:+ id)%string ("hash-" +:+ id)%string "artifact" "digest" "runtime" "profile" "context" "checkpoint" "ckdigest"
    "proof".

Definition sample_displacement : LLMDisplacementOperation :=
  (zero : LLMDisplacementOperation) <| disp_ID := "disp"%string |> <| disp_IdempotencyKey := "dk"%string |>
    <| disp_OwnerID := "ops"%string |> <| disp_VictimWorkloadID := "victim"%string |>
    <| disp_VictimOwnerID := "alice"%string |> <| disp_VictimWorkloadRevision := 1 |>
    <| disp_UrgentWorkloadID := "urgent"%string |> <| disp_UrgentOwnerID := "bob"%string |>
    <| disp_UrgentWorkloadRevision := 1 |> <| disp_AcceleratorID := "gpu0"%string |> <| disp_NodeID := "node"%string |>
    <| disp_OriginalLease := Some (mkAcceleratorLease "gpu0" "victim" 1 (noon + minute)) |> <| disp_Fence := 1 |>
    <| disp_VictimBinding := sample_binding "victim" |> <| disp_UrgentBinding := sample_binding "urgent" |>
    <| disp_ProofBinding := "proof"%string |>.

Definition sample_checkpoint (id : string) (slot : Z) : LLMCheckpointOperation :=
  (zero : LLMCheckpointOperation) <| ckpt_ID := id |> <| ckpt_IdempotencyKey := ("ck-" +:+ id)%string |>
    <| ckpt_OwnerID := "ops"%string |> <| ckpt_WorkloadID := "victim"%string |> <| ckpt_NodeID := "node"%string |>
    <| ckpt_AcceleratorID := "gpu0"%string |> <| ckpt_TargetID := "target"%string |> <| ckpt_Model := "model"%string |>
    <| ckpt_SlotID := slot |> <| ckpt_Generation := 1 |> <| ckpt_Fence := 1 |> <| ckpt_RuntimeIdentity := "runtime"%string |>
    <| ckpt_ModelFingerprint := "mf"%string |> <| ckpt_ProfileFingerprint := "pf"%string |>
    <| ckpt_ContextFingerprint := "cf"%string |> <| ckpt_WorkloadRevision := 1 |> <| ckpt_Phase := "planned"%string |>.

Definition ok_store {A} (r : result (MemoryStore * A)) : MemoryStore :=
  match r with Ok (m, _) => m | Err _ => NewMemoryStore end.

Definition with_victim : MemoryStore := fst (CreateWorkload (sample_workload "victim" "alice") NewMemoryStore).
Definition with_urgent : MemoryStore := fst (CreateWorkload (sample_workload "urgent" "bob") with_victim).
Definition with_lease : MemoryStore := fst (acquireAcceleratorLease noon "gpu0" "victim" "" minute with_urgent).
Definition with_displacement : MemoryStore :=
  ok_store (CreateLLMDisplacementOperation noon (Some sample_displacement) with_lease).
Definition with_checkpoint : MemoryStore :=
  ok_store (CreateLLMCheckpointOperation noon (Some (sample_checkpoint "c1" 0)) NewMemoryStore).

Lemma create_step w m : store_step m (fst (CreateWorkload w m)).
Proof. apply st_budget. eapply us_create, surjective_pairing. Qed.

Lemma with_urgent_reachable : store_reachable with_urgent.
Proof. apply (rtc_l _ _ with_victim); [apply create_step|]. apply rtc_once, create_step. Qed.

Lemma with_lease_step : store_step with_urgent with_lease.
Proof.
  apply st_lease. eapply (ls_acquire _ _ sample_range noon "gpu0" "victim" "" minute);
    [vm_compute; split; congruence..|vm_compute; reflexivity|]. apply surjective_pairing.
Qed.

Lemma with_lease_reachable : store_reachable with_lease.
Proof. eapply rtc_r; [apply with_urgent_reachable|apply with_lease_step]. Qed.

Lemma ok_store_spec {A} (r : result (MemoryStore * A)) : is_ok r = true -> exists x, r = Ok (ok_store r, x).
Proof. destruct r as [[m x]|]; [eauto|done]. Qed.

Lemma with_displacement_step : disp_step with_lease with_displacement.
Proof.
  destruct (ok_store_spec (CreateLLMDisplacementOperation noon (Some sample_displacement) with_lease)) as [x H];
    [vm_compute; reflexivity|].
  eapply (ds_create_step _ _ sample_range noon); [|..|exact H]; [vm_compute; congruence|intros o [= <-]; vm_compute; reflexivity].
Qed.

Lemma with_displacement_reachable : store_reachable with_displacement.
Proof. eapply rtc_r; [apply with_lease_reachable|]. apply st_displacement, with_displacement_step. Qed.

Lemma with_checkpoint_reachable : store_reachable with_checkpoint.
Proof.
  destruct (ok_store_spec (CreateLLMCheckpointOperation noon (Some (sample_checkpoint "c1" 0)) NewMemoryStore)) as [x H];
    [vm_compute; reflexivity|].
  apply rtc_once, st_checkpoint. eapply cs_create. exact H.
Qed.
