(* ===== verification/CheckpointProps.v ===== *)
(** * Checkpoint custody: theorems

    What the checkpoint journal guarantees in every store the controller can
    reach, whatever the other handlers do in between. *)

From S2P Require Import Prelude GoText Domain DomainWorkload DomainNode Store.
From S2P Require Import Checkpoint Displacement Leases StoreMachine Samples.

(** ** Along a run *)

Lemma rows_rtc_identity a b : rtc row_step a b ->
  ckpt_identity b = ckpt_identity a /\ ckpt_CreatedAt b = ckpt_CreatedAt a /\ rtc edge (ckpt_Phase a) (ckpt_Phase b).
Proof.
  induction 1 as [a|a a1 b [H1 H2 _ H3] _ (I1 & I2 & I3)]; [done|]. split; [congruence|]. split; [congruence|].
  destruct H3 as [E|He]; [by rewrite <- E|by eapply rtc_l].
Qed.

Lemma edges_ordinal p q : rtc edge p q -> llmCheckpointPhaseOrdinal p <= llmCheckpointPhaseOrdinal q.
Proof. induction 1 as [|p p1 q H%edge_ordinal _ IH]; lia. Qed.

Lemma edges_stuck p q : rtc edge p q -> (forall q', ~ edge p q') -> q = p.
Proof. intros H Hn. inversion H as [|? p1 ? He]; [done|by destruct (Hn _ He)]. Qed.

Lemma checkpoint_rows m m' k a : store_reachable m -> rtc store_step m m' -> llmCheckpointOps m !! k = Some a ->
  exists b, llmCheckpointOps m' !! k = Some b /\ rtc row_step a b.
Proof. intros Hm Hr Ha. by apply (se_checkpoints _ _ (reachable_evolves _ _ Hm Hr)). Qed.

(** Phases the graph enters from a single phase. *)
Definition entered_from : list (string * string) :=
  [("assigned", "planned"); ("started", "assigned"); ("paused", "started"); ("saved", "paused"); ("released", "stopped");
   ("restore_planned", "released"); ("restore_assigned", "restore_planned"); ("reloaded", "restore_assigned");
   ("restored", "reloaded"); ("resumed", "restored"); ("continued", "resumed"); ("reused", "continued")]%string.

Lemma entered_from_edge p q x : (q, x) ∈ entered_from -> edge p q -> p = x.
Proof.
  intros Hq He. apply (edge_forall (fun p q => forallb (fun y => negb (y.1 ==? q) || (y.2 ==? p)) entered_from)) in He;
    [|vm_compute; reflexivity].
  rewrite forallb_forall in He. apply list_elem_of_In in Hq. specialize (He _ Hq). cbn [fst snd] in He.
  rewrite bool_decide_true in He by done. by apply bool_decide_eq_true in He.
Qed.

(** ** Properties *)

(** C10. Two operations never hold one slot: in every reachable store two rows
    of the same target and accelerator with the same assigned slot, both in a
    phase that holds it, are the same row. *)
Theorem checkpoint_slot_exclusive m k k' a b : store_reachable m ->
  llmCheckpointOps m !! k = Some a -> llmCheckpointOps m !! k' = Some b ->
  ckpt_TargetID a = ckpt_TargetID b -> ckpt_AcceleratorID a = ckpt_AcceleratorID b ->
  ckpt_SlotID a = ckpt_SlotID b -> 0 <= ckpt_SlotID a ->
  llmCheckpointHoldsSlot (ckpt_Phase a) = true -> llmCheckpointHoldsSlot (ckpt_Phase b) = true -> k = k'.
Proof. intros Hm Ha Hb Ht Hacc Hs H0 H1 H2. by apply (ci_slots _ _ (si_checkpoints _ (reachable_inv _ Hm)) k k' a b). Qed.

(** C11. The journal of an operation is append-only: whatever runs, its row
    keeps its identity and creation time, its phase moves along the transition
    graph and never to a lower ordinal, and a final phase never changes. *)
Theorem checkpoint_journal m m' k a : store_reachable m -> rtc store_step m m' -> llmCheckpointOps m !! k = Some a ->
  exists b, GetLLMCheckpointOperation k m' = Ok b /\ ckpt_identity b = ckpt_identity a /\
    ckpt_CreatedAt b = ckpt_CreatedAt a /\ rtc edge (ckpt_Phase a) (ckpt_Phase b) /\
    llmCheckpointPhaseOrdinal (ckpt_Phase a) <= llmCheckpointPhaseOrdinal (ckpt_Phase b) /\
    (llmCheckpointPhaseIsFinal (ckpt_Phase a) = true -> ckpt_Phase b = ckpt_Phase a).
Proof.
  intros Hm Hr Ha. destruct (checkpoint_rows _ _ _ _ Hm Hr Ha) as (b & Hb & (H1 & H2 & H3)%rows_rtc_identity).
  exists b. split; [unfold GetLLMCheckpointOperation; by rewrite Hb|]. do 3 (split; [done|]).
  split; [by apply edges_ordinal|]. intros Hf. apply edges_stuck; [done|]. intros q He%edge_not_final. congruence.
Qed.

(** No phase is skipped: when a row moved between two stores of a run into
    a phase the graph enters from one phase only, it was in that phase at some
    store in between; so nothing is saved before it was paused, released before
    it was stopped, or restored before it was reloaded. *)
Theorem checkpoint_phase_entry m m' k a b q x : store_reachable m -> rtc store_step m m' ->
  llmCheckpointOps m !! k = Some a -> llmCheckpointOps m' !! k = Some b ->
  ckpt_Phase b = q -> ckpt_Phase a <> q -> (q, x) ∈ entered_from ->
  exists m1 c, rtc store_step m m1 /\ rtc store_step m1 m' /\ llmCheckpointOps m1 !! k = Some c /\ ckpt_Phase c = x.
Proof.
  intros Hm Hr Ha Hb Hq Hne Hx. revert b Hb Hq.
  revert m' Hr. refine (rtc_ind_r _ m _ _); [intros b Hb Hq; congruence|]. intros m1 m2 Hr Hs IH b Hb Hq.
  pose proof (reachable_run _ _ Hm Hr) as Hm1.
  destruct (checkpoint_rows _ _ _ _ Hm Hr Ha) as (c & Hc & _).
  destruct (decide (ckpt_Phase c = q)) as [Hcq|Hcq].
  { destruct (IH c Hc Hcq) as (m3 & d & R1 & R2 & Hd & Pd). exists m3, d. split; [done|]. split; [by eapply rtc_r|done]. }
  destruct (store_step_checkpoint _ _ k c Hs (reachable_inv _ Hm1) Hc) as (b' & Hb' & Hp).
  assert (b' = b) as -> by congruence. destruct Hp as [->|[_ _ _ [E|He]]]; [congruence..|].
  exists m1, c. split; [done|]. split; [by apply rtc_once|]. split; [done|]. rewrite Hq in He. by apply (entered_from_edge _ q).
Qed.

(** ** Durable creates *)

(** The clock only sets the times of a prepared row. *)
Lemma prepare_clock now now' op p : prepareLLMCheckpointCreate now op = Ok p ->
  exists p', prepareLLMCheckpointCreate now' op = Ok p' /\ ckpt_identity p' = ckpt_identity p /\ ckpt_SlotID p' = ckpt_SlotID p.
Proof.
  unfold prepareLLMCheckpointCreate. destruct op as [op|]; [|done]. cbv zeta. intros H.
  destruct (if _ ==? _ then _ else _) as [[]|] in H |- *; [|done].
  destruct (validateLLMCheckpointRequiredIdentity _) as [[]|] in H |- *; [|done]. injection H as <-. eexists. by split.
Qed.

Lemma create_row {R : GoRange} now op m m' row created : ckpt_inv (llmCheckpointOps m) (llmCheckpointKeys m) ->
  CreateLLMCheckpointOperation now op m = Ok (m', (row, created)) ->
  llmCheckpointOps m' !! ckpt_ID row = Some row /\
  exists p, prepareLLMCheckpointCreate now op = Ok p /\ ckpt_identity row = ckpt_identity p /\ ckpt_SlotID row = ckpt_SlotID p.
Proof.
  intros I H. apply CreateLLMCheckpointOperation_spec in H as (op0 & p & -> & Hp & _ & H). destruct created.
  - destruct H as (-> & _ & E & _). rewrite E, lookup_insert_eq. eauto.
  - destruct H as (-> & Hs & k & Hk). unfold sameLLMCheckpointIdentity in Hs. rewrite identityEqual_spec in Hs.
    destruct Hs as [Hs1 Hs2]. destruct (ci_keyed _ _ I k row Hk) as [-> _]. eauto 6.
Qed.

Lemma replay_row {R : GoRange} now op m p b : prepareLLMCheckpointCreate now op = Ok p ->
  llmCheckpointOps m !! ckpt_ID p = Some b -> ckpt_identity b = ckpt_identity p ->
  CreateLLMCheckpointOperation now op m
  = if ckpt_SlotID b =? ckpt_SlotID p then Ok (m, (b, false)) else Err ErrLLMCheckpointConflict.
Proof.
  intros Hp Hb Hi. unfold CreateLLMCheckpointOperation. rewrite Hp, Hb.
  destruct (sameLLMCheckpointIdentity b p) eqn:E; unfold sameLLMCheckpointIdentity in E.
  - apply identityEqual_spec in E as [_ Hs]. by rewrite Hs, Z.eqb_refl.
  - destruct (ckpt_SlotID b =? ckpt_SlotID p) eqn:Es; [|done]. apply Z.eqb_eq in Es.
    by rewrite (proj2 (identityEqual_spec b p true)) in E.
Qed.

Lemma lookup_by_key m k b : ckpt_inv (llmCheckpointOps m) (llmCheckpointKeys m) -> llmCheckpointOps m !! k = Some b ->
  GetLLMCheckpointOperationByIdempotency (ckpt_OwnerID b) (ckpt_IdempotencyKey b) m = Ok b.
Proof.
  intros I Hb. unfold GetLLMCheckpointOperationByIdempotency, lookup_string.
  rewrite (ci_indexed _ _ I _ _ Hb). cbv zeta. cbn [default from_option id]. destruct (ci_keyed _ _ I _ _ Hb) as [_ Hk].
  rewrite bool_decide_false by done. by rewrite Hb.
Qed.

(** C12. A create is durable and idempotent: after it succeeded, in every later
    store both lookups return the operation with the identity it was created
    with, and sending the create again changes nothing and returns that row
    for as long as the row still has the slot the request names; once the slot
    was reassigned the replay is refused. *)
Theorem checkpoint_create_durable (R : GoRange) now now' op m m' m'' row created :
  store_reachable m -> CreateLLMCheckpointOperation now op m = Ok (m', (row, created)) -> rtc store_step m' m'' ->
  exists b, GetLLMCheckpointOperation (ckpt_ID row) m'' = Ok b /\
    GetLLMCheckpointOperationByIdempotency (ckpt_OwnerID row) (ckpt_IdempotencyKey row) m'' = Ok b /\
    ckpt_identity b = ckpt_identity row /\
    CreateLLMCheckpointOperation now' op m''
    = if ckpt_SlotID b =? ckpt_SlotID row then Ok (m'', (b, false)) else Err ErrLLMCheckpointConflict.
Proof.
  intros Hm Hc Hr. assert (Hm' : store_reachable m') by (eapply rtc_r; [exact Hm|]; apply st_checkpoint; by eapply cs_create).
  destruct (create_row _ _ _ _ _ _ (si_checkpoints _ (reachable_inv _ Hm)) Hc) as (Hrow & p & Hp & Hip & Hsp).
  destruct (checkpoint_rows _ _ _ _ Hm' Hr Hrow) as (b & Hb & (Hi & _ & _)%rows_rtc_identity).
  destruct (prepare_clock now now' op p Hp) as (p' & Hp' & Hi' & Hs'). exists b.
  split; [unfold GetLLMCheckpointOperation; by rewrite Hb|]. split; [|split; [done|]].
  - pose proof (lookup_by_key m'' _ b (si_checkpoints _ (reachable_inv _ (reachable_run _ _ Hm' Hr))) Hb) as H.
    injection Hi as _ E1 E2. by rewrite <- E1, <- E2.
  - rewrite (replay_row now' op m'' p' b Hp'); [by rewrite Hs', Hsp| |congruence].
    rewrite (identity_ID p' row) by congruence. exact Hb.
Qed.

(** ** A root that cannot move *)

Definition capitalised : LLMCheckpointOperation := (sample_checkpoint "c1" 0) <| ckpt_Phase := "Planned"%string |>.
Definition with_capitalised : MemoryStore := ok_store (CreateLLMCheckpointOperation noon (Some capitalised) NewMemoryStore).

Lemma capitalised_created : exists row, CreateLLMCheckpointOperation noon (Some capitalised) NewMemoryStore
  = Ok (with_capitalised, (row, true)) /\ llmCheckpointOps with_capitalised !! "c1"%string = Some row /\
    ckpt_Phase row = "Planned"%string.
Proof. eexists. split; [vm_compute; reflexivity|]. split; [vm_compute; reflexivity|]. vm_compute. reflexivity. Qed.

Lemma planned_stuck q : ~ edge "Planned" q.
Proof.
  intros H%edge_source. assert (bool_decide ("Planned"%string ∈ openPhases) = false) as E by (vm_compute; reflexivity).
  by apply bool_decide_eq_false in E.
Qed.

(** A root is accepted with its phase compared after trimming and lower
    casing, but the transition graph compares phases as they are spelled: a
    create with phase [Planned] succeeds, no handler can ever move that row to
    another phase, and its slot stays taken in every later store. *)
Theorem unnormalised_root_stuck : exists row,
  CreateLLMCheckpointOperation noon (Some capitalised) NewMemoryStore = Ok (with_capitalised, (row, true)) /\
  forall m', rtc store_step with_capitalised m' ->
    exists b, llmCheckpointOps m' !! "c1"%string = Some b /\ ckpt_Phase b = "Planned"%string /\
      llmCheckpointHoldsSlot (ckpt_Phase b) = true.
Proof.
  destruct capitalised_created as (row & Hc & Hrow & Hp). exists row. split; [exact Hc|]. intros m' Hr.
  assert (Hm : store_reachable with_capitalised) by (apply rtc_once, st_checkpoint; eapply cs_create; exact Hc).
  destruct (checkpoint_rows _ _ _ _ Hm Hr Hrow) as (b & Hb & (_ & _ & H)%rows_rtc_identity). exists b.
  rewrite Hp in H. assert (ckpt_Phase b = "Planned"%string) as E by (apply edges_stuck; [exact H|apply planned_stuck]).
  split; [exact Hb|]. split; [exact E|]. rewrite E. vm_compute. reflexivity.
Qed.

(** ** Instances *)

Definition sample_row : LLMCheckpointOperation :=
  default zero (llmCheckpointOps with_checkpoint !! "c1"%string).
Definition assigned_row : LLMCheckpointOperation :=
  sample_row <| ckpt_Phase := "assigned"%string |> <| ckpt_PhaseOrdinal := 1 |>.
Definition with_assigned : MemoryStore :=
  ok_store (UpdateLLMCheckpointOperation noon (Some assigned_row) 1 with_checkpoint).

Lemma with_assigned_run : rtc store_step with_checkpoint with_assigned.
Proof.
  destruct (ok_store_spec (UpdateLLMCheckpointOperation noon (Some assigned_row) 1 with_checkpoint)) as [x H];
    [vm_compute; reflexivity|].
  apply rtc_once, st_checkpoint. eapply cs_update. exact H.
Qed.

Lemma sample_row_stored : llmCheckpointOps with_checkpoint !! "c1"%string = Some sample_row.
Proof. vm_compute. reflexivity. Qed.

(** Beside [c1] on slot 0, a second operation on slot 1 of the same target. *)
Definition with_two_slots : MemoryStore :=
  ok_store (CreateLLMCheckpointOperation noon (Some (sample_checkpoint "c2" 1)) with_checkpoint).

Lemma with_two_slots_reachable : store_reachable with_two_slots.
Proof.
  destruct (ok_store_spec (CreateLLMCheckpointOperation noon (Some (sample_checkpoint "c2" 1)) with_checkpoint)) as [x H];
    [vm_compute; reflexivity|].
  eapply rtc_r; [apply with_checkpoint_reachable|]. apply st_checkpoint. eapply cs_create. exact H.
Qed.

Lemma checkpoint_slot_exclusive_witness :
  llmCheckpointOps with_two_slots !! "c1"%string = Some sample_row /\ is_Some (llmCheckpointOps with_two_slots !! "c2"%string) /\
  forall k b, llmCheckpointOps with_two_slots !! k = Some b -> ckpt_TargetID b = "target"%string ->
    ckpt_AcceleratorID b = "gpu0"%string -> ckpt_SlotID b = 0 -> llmCheckpointHoldsSlot (ckpt_Phase b) = true -> "c1"%string = k.
Proof.
  assert (llmCheckpointOps with_two_slots !! "c1"%string = Some sample_row) as H1 by (vm_compute; reflexivity).
  split; [exact H1|]. split; [eexists; vm_compute; reflexivity|]. intros k b Hb Ht Ha Hs Hh.
  apply (checkpoint_slot_exclusive with_two_slots "c1" k sample_row b with_two_slots_reachable H1 Hb);
    [symmetry; exact Ht|symmetry; exact Ha|symmetry; exact Hs|vm_compute; congruence|vm_compute; reflexivity|exact Hh].
Defined.

Lemma checkpoint_journal_witness : exists b, GetLLMCheckpointOperation "c1" with_assigned = Ok b /\
  ckpt_identity b = ckpt_identity sample_row /\ ckpt_CreatedAt b = ckpt_CreatedAt sample_row /\
  rtc edge (ckpt_Phase sample_row) (ckpt_Phase b) /\
  llmCheckpointPhaseOrdinal (ckpt_Phase sample_row) <= llmCheckpointPhaseOrdinal (ckpt_Phase b) /\
  (llmCheckpointPhaseIsFinal (ckpt_Phase sample_row) = true -> ckpt_Phase b = ckpt_Phase sample_row).
Proof. exact (checkpoint_journal _ _ "c1" sample_row with_checkpoint_reachable with_assigned_run sample_row_stored). Defined.

Lemma checkpoint_phase_entry_witness : exists m1 c, rtc store_step with_checkpoint m1 /\ rtc store_step m1 with_assigned /\
  llmCheckpointOps m1 !! "c1"%string = Some c /\ ckpt_Phase c = "planned"%string.
Proof.
  apply (checkpoint_phase_entry with_checkpoint with_assigned "c1" sample_row (assigned_row <| ckpt_Revision := 2 |>) "assigned" "planned"
    with_checkpoint_reachable with_assigned_run sample_row_stored);
    [vm_compute; reflexivity|reflexivity|vm_compute; congruence|left].
Defined.

Lemma checkpoint_create_durable_witness : exists b,
  GetLLMCheckpointOperation "c1" with_assigned = Ok b /\
  GetLLMCheckpointOperationByIdempotency "ops" "ck-c1" with_assigned = Ok b /\ ckpt_identity b = ckpt_identity sample_row /\
  CreateLLMCheckpointOperation (noon + minute) (Some (sample_checkpoint "c1" 0)) with_assigned
  = if ckpt_SlotID b =? ckpt_SlotID sample_row then Ok (with_assigned, (b, false)) else Err ErrLLMCheckpointConflict.
Proof.
  apply (checkpoint_create_durable sample_range noon (noon + minute) (Some (sample_checkpoint "c1" 0)) NewMemoryStore
    with_checkpoint with_assigned sample_row true); [apply rtc_refl|vm_compute; reflexivity|apply with_assigned_run].
Defined.
