(* ===== verification/DisplacementProps.v ===== *)
(** * Displacements: theorems

    Evidence before effect, exclusive custody of the accelerator, an
    append-only history of bounded length, and the identity of a journal row. *)

From S2P Require Import Prelude GoText Domain DomainWorkload DomainNode GoJSON Store.
From S2P Require Import Checkpoint Displacement DisplacementInv Leases Budget Cas StoreMachine Samples.

Lemma displacement_rows m m' k a : store_reachable m -> rtc store_step m m' -> llmDisplacementOps m !! k = Some a ->
  exists b, llmDisplacementOps m' !! k = Some b /\ rtc drow_step a b.
Proof. intros Hm Hr Ha. by apply (se_displacements _ _ (reachable_evolves _ _ Hm Hr)). Qed.

Lemma reachable_row m k a : store_reachable m -> llmDisplacementOps m !! k = Some a ->
  valid a /\ utf8_row a = true /\ printable a = true /\ disp_ID a = k.
Proof.
  intros Hm Ha. pose proof (si_displacements _ (reachable_inv _ Hm)) as I. destruct (di_text _ _ I _ _ Ha).
  destruct (di_keyed _ _ I _ _ Ha). split; [by apply (di_valid _ _ I k)|done].
Qed.

(** ** Evidence *)

Lemma observed_before op i j si sj : valid op -> (i <= j)%nat -> displacementSteps !! i = Some si ->
  displacementSteps !! j = Some sj -> hasDisplacementResult op sj = true -> hasDisplacementResult op si = true.
Proof. intros Hv Hij Hi Hj. rewrite (observed_iff _ _ _ Hv Hi), (observed_iff _ _ _ Hv Hj). lia. Qed.

Lemma completed_observed op : valid op -> disp_Phase op = "completed"%string ->
  (forall s, s ∈ displacementSteps -> hasDisplacementResult op s = true) /\
  exists r, r ∈ disp_ObservedResults op /\ dor_Step r = "settlement"%string /\ dor_Digest r = disp_ObservedProof op.
Proof.
  intros Hv Hp. assert (results op = 8) as H8.
  { destruct (valid_journal _ Hv) as [i Hi Hle|_ _ Hr _|Hc]; [|done|].
    - rewrite Hp in Hi. exfalso. do 17 (destruct i as [|i]; [discriminate Hi|]). lia.
    - rewrite Hp in Hc. discriminate Hc. }
  assert (Hall : forall s, s ∈ displacementSteps -> hasDisplacementResult op s = true).
  { intros s [j Hj]%list_elem_of_lookup. apply (observed_iff _ _ _ Hv Hj).
    apply lookup_lt_Some in Hj. unfold results in H8. cbn in Hj. lia. }
  split; [exact Hall|]. destruct (proj1 (existsb_true _ _) (Hall "settlement"%string ltac:(set_solver))) as (r & Hr & Es).
  apply bool_decide_eq_true in Es. exists r. split; [done|]. split; [done|].
  destruct (valid_inv _ Hv) as (_ & _ & _ & _ & _ & _ & _ & Hc). unfold checkCompletion in Hc. cbv zeta in Hc.
  rewrite (bool_decide_true (disp_Phase op = "completed"%string)) in Hc by done. cbn [andb negb] in Hc. rewrite andb_false_r in Hc.
  destruct (negb (_ && _)) in Hc; [done|]. destruct (existsb _ _) eqn:E in Hc; [done|].
  pose proof (proj1 (existsb_false _ _) E r Hr) as Hd. cbv beta in Hd.
  rewrite (bool_decide_true (dor_Step r = "settlement"%string)) in Hd by done. cbn [andb] in Hd. by bool_simp.
Qed.

Lemma flags_agree op : valid op ->
  disp_SafeBoundaryObserved op = hasDisplacementResult op "pause" /\
  disp_SnapshotObserved op = hasDisplacementResult op "snapshot" /\
  disp_VictimStopObserved op = hasDisplacementResult op "victim_stop" /\
  disp_UrgentLoadObserved op = hasDisplacementResult op "urgent_load" /\
  disp_UrgentStopObserved op = hasDisplacementResult op "urgent_stop" /\
  disp_VictimReloadObserved op = hasDisplacementResult op "victim_reload".
Proof. intros (_ & _ & _ & _ & H & _)%valid_inv. unfold flagsDisagree in H. bool_simp. repeat split; assumption. Qed.

(** ** History *)

Lemma drow_rtc a b : rtc drow_step a b ->
  identity_text b = identity_text a /\ disp_CommandIntents a `prefix_of` disp_CommandIntents b /\
  disp_ObservedResults a `prefix_of` disp_ObservedResults b /\ disp_Revision a <= disp_Revision b /\
  disp_CreatedAt b = disp_CreatedAt a.
Proof.
  induction 1 as [a|a a1 b H _ (I1 & I2 & I3 & I4 & I5)]; [done|]. destruct H as [_ _ H1 _ H2 H3 _ H4 H5].
  repeat split; [congruence|by etrans|by etrans|lia|congruence].
Qed.

Lemma drow_settled a b : rtc drow_step a b ->
  disp_Phase a = "completed"%string \/ reconciliationPhase (disp_Phase a) = true -> b = a.
Proof.
  intros H Ha. inversion H as [|? a1 ? Hs]; [done|]. pose proof (ds_phase _ _ Hs) as Ht. destruct Ha as [Ha|Ha].
  - by apply transitionAllowed_open in Ht.
  - by rewrite (reconciliation_final _ _ Ha) in Ht.
Qed.

(** ** Length *)

Lemma update_revision now op e m m' r : UpdateLLMDisplacementOperation now (Some op) e m = Ok (m', r) ->
  exists a, llmDisplacementOps m !! disp_ID op = Some a /\ 1 <= disp_Revision a /\ disp_Revision r = disp_Revision a + 1 /\
    disp_Revision r <= 18 /\ llmDisplacementOps m' !! disp_ID op = Some r.
Proof.
  unfold UpdateLLMDisplacementOperation. intros H. destruct (llmDisplacementOps m !! disp_ID op) as [a|] eqn:Ha; [|done].
  destruct (validateDisplacementUpdate a op e) as [[]|] eqn:Hv in H; [|done]. injection H as <- <-.
  apply validateDisplacementUpdate_spec in Hv as (Ho & Hn & Hrn & Hro & _).
  apply valid_revision in Ho. apply valid_revision in Hn. cbn in Hn |- *.
  rewrite Hrn, <- Hro in Hn. rewrite wrapU64_small in Hn |- * by (unfold two64; lia).
  exists a. split; [done|]. split; [lia|]. split; [done|]. split; [lia|]. apply lookup_insert_eq.
Qed.

Lemma update_chain key qs m m' a : cas_runs (Row := LLMDisplacementOperation) (Req := displacement_cas) key qs m = Some m' ->
  llmDisplacementOps m !! key = Some a -> 1 <= disp_Revision a <= 18 -> Z.of_nat (length qs) <= 18 - disp_Revision a.
Proof.
  revert m a. induction qs as [|q qs IH]; intros m a H Ha Hr; [cbn; lia|]. cbn [cas_runs] in H.
  case_bool_decide as Hk; [|done]. destruct (cas_run q m) as [[m1 r]|] eqn:E; [|done].
  apply update_revision in E as (a0 & E0 & H1 & Er & H18 & E1). cbn in Hk. rewrite Hk in E0, E1.
  assert (a0 = a) as -> by congruence. specialize (IH m1 r H E1). cbn [length]. lia.
Qed.

(** ** Properties *)

(** C13. Evidence comes before effect.  In every reachable store the steps of a
    displacement are observed in order, so the urgent model is only loaded
    after the victim was paused, snapshotted and stopped, and the victim is
    only reloaded after the urgent model was stopped; a completed row has all
    eight results and its proof is the digest of the settlement; every result
    answers the command sealed for its step, under the row's proof binding and
    with the digest of its own envelope. *)
Theorem displacement_evidence m k a : store_reachable m -> llmDisplacementOps m !! k = Some a ->
  (disp_UrgentLoadObserved a = true ->
     disp_SafeBoundaryObserved a = true /\ disp_SnapshotObserved a = true /\ disp_VictimStopObserved a = true) /\
  (disp_VictimReloadObserved a = true -> disp_UrgentStopObserved a = true) /\
  (disp_Phase a = "completed"%string ->
     (forall s, s ∈ displacementSteps -> hasDisplacementResult a s = true) /\
     exists r, r ∈ disp_ObservedResults a /\ dor_Step r = "settlement"%string /\ dor_Digest r = disp_ObservedProof a) /\
  (forall i r, disp_ObservedResults a !! i = Some r ->
     displacementSteps !! i = Some (dor_Step r) /\ dci_CommandID <$> disp_CommandIntents a !! i = Some (dor_CommandID r) /\
     dor_EnvelopeDigest r = observedResultEnvelopeDigest r /\ dor_ProofBinding r = disp_ProofBinding a).
Proof.
  intros Hm Ha. destruct (reachable_row _ _ _ Hm Ha) as [Hv _].
  destruct (flags_agree a Hv) as (-> & -> & -> & -> & -> & ->).
  assert (Hb : forall i j si sj, (i <= j)%nat -> displacementSteps !! i = Some si -> displacementSteps !! j = Some sj ->
    hasDisplacementResult a sj = true -> hasDisplacementResult a si = true) by (intros; by eapply (observed_before a i j)).
  split; [intros H; repeat split; [apply (Hb 0%nat 3%nat _ "urgent_load"%string)|apply (Hb 1%nat 3%nat _ "urgent_load"%string)|
    apply (Hb 2%nat 3%nat _ "urgent_load"%string)]; (done || lia)|].
  split; [intros H; apply (Hb 4%nat 5%nat _ "victim_reload"%string); (done || lia)|].
  split; [by apply completed_observed|]. intros i r Hr.
  destruct (valid_inv _ Hv) as (_ & (cs & _ & Hcr) & _ & Hp & _).
  destruct (checkResults_spec _ _ _ _ _ Hcr i r Hr) as (H1 & H2 & H3). repeat split; [done..|].
  apply Hp. by eapply list_elem_of_lookup_2.
Qed.

(** C14. One displacement per accelerator: in every reachable store two rows on
    the same accelerator that have not completed are the same row. *)
Theorem displacement_custody_exclusive m k k' a b : store_reachable m ->
  llmDisplacementOps m !! k = Some a -> llmDisplacementOps m !! k' = Some b ->
  disp_AcceleratorID a = disp_AcceleratorID b ->
  disp_Phase a <> "completed"%string -> disp_Phase b <> "completed"%string -> k = k'.
Proof. intros Hm Ha Hb Hacc H1 H2. by apply (di_custody _ _ (si_displacements _ (reachable_inv _ Hm)) k k' a b). Qed.

(** C15. The history of a displacement is append-only: in every later store its
    row has the identity it was created with, extends the earlier intents and
    results and has no lower revision; a completed row and a row set aside for
    reconciliation never change again. *)
Theorem displacement_history m m' k a : store_reachable m -> rtc store_step m m' -> llmDisplacementOps m !! k = Some a ->
  exists b, GetLLMDisplacementOperation k m' = Ok b /\ cleared b = cleared a /\
    disp_CommandIntents a `prefix_of` disp_CommandIntents b /\ disp_ObservedResults a `prefix_of` disp_ObservedResults b /\
    disp_Revision a <= disp_Revision b /\
    (disp_Phase a = "completed"%string \/ reconciliationPhase (disp_Phase a) = true -> b = a).
Proof.
  intros Hm Hr Ha. destruct (displacement_rows _ _ _ _ Hm Hr Ha) as (b & Hb & Hs). exists b.
  destruct (drow_rtc _ _ Hs) as (H1 & H2 & H3 & H4 & _).
  destruct (reachable_row _ _ _ (reachable_run _ _ Hm Hr) Hb) as (_ & Ub & Pb & _).
  destruct (reachable_row _ _ _ Hm Ha) as (_ & Ua & _ & _).
  split; [unfold GetLLMDisplacementOperation; by rewrite Hb|]. split; [by apply identity_text_inj|].
  do 3 (split; [done|]). by apply drow_settled.
Qed.

(** C16. A displacement terminates: no row accepts more than seventeen updates,
    whatever the updates are and whatever store they start from. *)
Theorem displacement_terminates key qs m m' :
  cas_runs (Row := LLMDisplacementOperation) (Req := displacement_cas) key qs m = Some m' -> (length qs <= 17)%nat.
Proof.
  intros H. destruct qs as [|q qs]; [cbn; lia|]. pose proof H as H0. cbn [cas_runs] in H.
  case_bool_decide as Hk; [|done]. destruct (cas_run q m) as [[m1 r]|] eqn:E; [|done].
  apply update_revision in E as (a & Ha & H1 & Er & H18 & _). cbn in Hk. rewrite Hk in Ha.
  pose proof (update_chain key (q :: qs) m m' a H0 Ha ltac:(lia)). lia.
Qed.

Lemma custody_refused {R : GoRange} now acc w recovery ttl m k b : llmDisplacementOps m !! k = Some b ->
  disp_AcceleratorID b = acc -> custody b -> exists lease, acquireAcceleratorLease now acc w recovery ttl m = (m, (lease, false)).
Proof.
  intros Hb Hacc Hc. destruct (acquireAcceleratorLease now acc w recovery ttl m) as [m' [lease ok]] eqn:E.
  apply acquire_cases in E. destruct ok; [|exists lease; destruct E as [-> _]; done].
  destruct E as [[Hu _] _]. specialize (Hu _ _ Hb Hacc). by rewrite (retainsCustody_custody _ Hc) in Hu.
Qed.

(** C17. A displacement keeps its accelerator: as long as its row has not
    completed no lease on the accelerator is granted, to any workload and also
    not for a recovery; a row set aside for reconciliation withholds the
    accelerator in every later store. *)
Theorem displacement_blocks_leases m m' k a b : store_reachable m -> rtc store_step m m' ->
  llmDisplacementOps m !! k = Some a -> llmDisplacementOps m' !! k = Some b ->
  disp_Phase b <> "completed"%string \/ reconciliationPhase (disp_Phase a) = true ->
  forall (R : GoRange) now w recovery ttl, exists lease,
    acquireAcceleratorLease now (disp_AcceleratorID a) w recovery ttl m' = (m', (lease, false)).
Proof.
  intros Hm Hr Ha Hb Hp R now w recovery ttl.
  destruct (displacement_rows _ _ _ _ Hm Hr Ha) as (b' & Hb' & Hs). assert (b' = b) as -> by congruence.
  destruct (reachable_row _ _ _ (reachable_run _ _ Hm Hr) Hb) as (_ & Ub & Pb & _).
  destruct (reachable_row _ _ _ Hm Ha) as (_ & Ua & _ & _). destruct (drow_rtc _ _ Hs) as (Ht & _).
  assert (cleared b = cleared a) as Hcl by (by apply identity_text_inj). destruct (cleared_device _ _ Hcl) as [Hacc _].
  apply (custody_refused _ _ _ _ _ _ k b); [done|done|]. destruct Hp as [Hp|Hp]; [exact Hp|].
  rewrite (drow_settled _ _ Hs (or_intror Hp)). intros E. by rewrite E in Hp.
Qed.

(** Comparing the JSON texts of two rows is comparing their identities:
    on rows whose strings are valid UTF-8 and whose lease expires in a year
    JSON can print, [displacementIdentityEqual] holds exactly when the rows
    agree in every field but the mutable ones it clears. *)
Theorem displacement_identity a b : utf8_row a = true -> utf8_row b = true -> printable a = true ->
  displacementIdentityEqual a b = true <-> cleared a = cleared b.
Proof.
  intros Ua Ub Pa. unfold displacementIdentityEqual. rewrite bool_decide_eq_true.
  split; [by apply identity_text_inj|apply cleared_text].
Qed.

(** ** Instances *)

Definition sample_disp_row : LLMDisplacementOperation := default zero (llmDisplacementOps with_displacement !! "disp"%string).

Lemma sample_disp_stored : llmDisplacementOps with_displacement !! "disp"%string = Some sample_disp_row.
Proof. vm_compute. reflexivity. Qed.

Definition sealed_row : LLMDisplacementOperation :=
  sample_disp_row <| disp_Phase := "pause_intent_sealed"%string |>
    <| disp_CommandIntents := [mkLLMDisplacementCommandIntent "pause" "cmd" "digest" "sig"] |>.
Definition with_sealed : MemoryStore :=
  ok_store (UpdateLLMDisplacementOperation noon (Some sealed_row) 1 with_displacement).

Lemma with_sealed_run : rtc store_step with_displacement with_sealed.
Proof.
  destruct (ok_store_spec (UpdateLLMDisplacementOperation noon (Some sealed_row) 1 with_displacement)) as [x H];
    [vm_compute; reflexivity|].
  apply rtc_once, st_displacement. eapply ds_update_step; [|exact H]. intros o [= <-]. vm_compute. reflexivity.
Qed.

(** The row's successor in phase [i], with the intent or the result that phase
    appends, and the updates of the first phases. *)
Definition advance (i : nat) (row : LLMDisplacementOperation) : LLMDisplacementOperation :=
  let step := default ""%string (displacementSteps !! ((i - 1) / 2)%nat) in
  let row := row <| disp_Phase := default ""%string (displacementPhases !! i) |> <| disp_Revision := Z.of_nat i |> in
  let row := if (i =? 17)%nat then row <| disp_ObservedProof := "digest"%string |>
    else if Nat.odd i then
      row <| disp_CommandIntents := disp_CommandIntents row ++ [mkLLMDisplacementCommandIntent step ("cmd-" +:+ step)%string "digest" "sig"] |>
    else
      let r := mkLLMDisplacementObservedResult step ("cmd-" +:+ step)%string ("res-" +:+ step)%string "digest" "proof" "key" "sig" "" in
      row <| disp_ObservedResults := disp_ObservedResults row ++ [r <| dor_EnvelopeDigest := observedResultEnvelopeDigest r |>] |> in
  let seen := hasDisplacementResult row in
  row <| disp_SafeBoundaryObserved := seen "pause"%string |> <| disp_SnapshotObserved := seen "snapshot"%string |>
      <| disp_SnapshotIdentity := if seen "snapshot"%string then "res-snapshot"%string else ""%string |>
      <| disp_VictimStopObserved := seen "victim_stop"%string |> <| disp_UrgentLoadObserved := seen "urgent_load"%string |>
      <| disp_UrgentStopObserved := seen "urgent_stop"%string |> <| disp_VictimReloadObserved := seen "victim_reload"%string |>
      <| disp_KVRestoreObserved := seen "kv_restore"%string |> <| disp_LeaseSettled := seen "settlement"%string |>
      <| disp_SnapshotCustodySettled := seen "settlement"%string |>.

Fixpoint journey (i n : nat) (row : LLMDisplacementOperation) : list displacement_cas :=
  match n with
  | O => []
  | S n => let next := advance i row in DisplacementCas noon next (Z.of_nat i) :: journey (S i) n next
  end.

Lemma cas_runs_steps qs m m' : cas_runs (Row := LLMDisplacementOperation) "disp" qs m = Some m' ->
  forallb (fun q => utf8_row (dc_op q)) qs = true -> rtc store_step m m'.
Proof.
  revert m. induction qs as [|q qs IH]; intros m H Hu; [injection H as <-; apply rtc_refl|]. cbn [cas_runs] in H.
  apply andb_true_iff in Hu as [Hq Hu]. destruct (_ ==? _) in H; [|done]. destruct (cas_run q m) as [[m1 r]|] eqn:E; [|done].
  eapply rtc_l; [|by apply IH]. apply st_displacement. eapply ds_update_step; [|exact E]. by intros o [= <-].
Qed.

Definition snapshot_journey : list displacement_cas := journey 1 4 sample_disp_row.

Lemma snapshot_reached : exists m a, cas_runs (Row := LLMDisplacementOperation) "disp" snapshot_journey with_displacement = Some m /\
  llmDisplacementOps m !! "disp"%string = Some a /\ disp_Phase a = "snapshot_captured"%string.
Proof.
  assert (match cas_runs (Row := LLMDisplacementOperation) "disp" snapshot_journey with_displacement with
          | Some m => (disp_Phase <$> llmDisplacementOps m !! "disp"%string) ==? Some "snapshot_captured"%string
          | None => false
          end = true) as H by (vm_compute; reflexivity).
  revert H. generalize (cas_runs (Row := LLMDisplacementOperation) "disp" snapshot_journey with_displacement).
  intros [m|] H; [|done]. apply bool_decide_eq_true, fmap_Some in H as (a & Ha & Hp). by exists m, a.
Qed.

Lemma displacement_evidence_witness : exists m a, llmDisplacementOps m !! "disp"%string = Some a /\
  disp_Phase a = "snapshot_captured"%string /\ (disp_Phase a = "completed"%string ->
     (forall s, s ∈ displacementSteps -> hasDisplacementResult a s = true) /\
     exists r, r ∈ disp_ObservedResults a /\ dor_Step r = "settlement"%string /\ dor_Digest r = disp_ObservedProof a) /\
  (forall i r, disp_ObservedResults a !! i = Some r ->
     displacementSteps !! i = Some (dor_Step r) /\ dci_CommandID <$> disp_CommandIntents a !! i = Some (dor_CommandID r) /\
     dor_EnvelopeDigest r = observedResultEnvelopeDigest r /\ dor_ProofBinding r = disp_ProofBinding a).
Proof.
  destruct snapshot_reached as (m & a & Hr & Ha & Hp). exists m, a. split; [exact Ha|]. split; [exact Hp|].
  assert (store_reachable m) as Hm.
  { eapply reachable_run; [apply with_displacement_reachable|]. apply (cas_runs_steps snapshot_journey); [exact Hr|].
    vm_compute. reflexivity. }
  exact (proj2 (proj2 (displacement_evidence m "disp" a Hm Ha))).
Defined.

(** Beside [disp] on [gpu0], a second displacement on [gpu1]. *)
Definition second_workload (id owner : string) : Workload :=
  (sample_workload id owner) <| w_Plan := Some ((sample_plan id) <| plan_AcceleratorID := "gpu1"%string |>) |>.

Definition second_displacement : LLMDisplacementOperation :=
  sample_displacement <| disp_ID := "disp1"%string |> <| disp_IdempotencyKey := "dk1"%string |>
    <| disp_VictimWorkloadID := "victim1"%string |> <| disp_UrgentWorkloadID := "urgent1"%string |>
    <| disp_AcceleratorID := "gpu1"%string |>
    <| disp_OriginalLease := Some (mkAcceleratorLease "gpu1" "victim1" 1 (noon + minute)) |>
    <| disp_VictimBinding := (sample_binding "victim1") <| dmb_AcceleratorID := "gpu1"%string |> |>
    <| disp_UrgentBinding := (sample_binding "urgent1") <| dmb_AcceleratorID := "gpu1"%string |> |>.

Definition with_workloads1 : MemoryStore :=
  fst (CreateWorkload (second_workload "urgent1" "bob") (fst (CreateWorkload (second_workload "victim1" "alice") with_displacement))).
Definition with_lease1 : MemoryStore := fst (acquireAcceleratorLease noon "gpu1" "victim1" "" minute with_workloads1).
Definition with_two_accelerators : MemoryStore :=
  ok_store (CreateLLMDisplacementOperation noon (Some second_displacement) with_lease1).

Lemma with_two_accelerators_reachable : store_reachable with_two_accelerators.
Proof.
  apply (rtc_r _ with_lease1).
  { apply (rtc_r _ with_workloads1).
    - eapply rtc_r; [|apply create_step]. eapply rtc_r; [apply with_displacement_reachable|apply create_step].
    - apply st_lease. eapply (ls_acquire _ _ sample_range noon "gpu1" "victim1" "" minute);
        [vm_compute; split; congruence..|vm_compute; reflexivity|]. apply surjective_pairing. }
  destruct (ok_store_spec (CreateLLMDisplacementOperation noon (Some second_displacement) with_lease1)) as [x H];
    [vm_compute; reflexivity|].
  apply st_displacement. eapply (ds_create_step _ _ sample_range noon); [|..|exact H];
    [vm_compute; congruence|intros o [= <-]; vm_compute; reflexivity].
Qed.

Lemma displacement_custody_exclusive_witness :
  llmDisplacementOps with_two_accelerators !! "disp"%string = Some sample_disp_row /\
  is_Some (llmDisplacementOps with_two_accelerators !! "disp1"%string) /\
  forall k b, llmDisplacementOps with_two_accelerators !! k = Some b -> disp_AcceleratorID b = "gpu0"%string ->
    disp_Phase b <> "completed"%string -> "disp"%string = k.
Proof.
  assert (llmDisplacementOps with_two_accelerators !! "disp"%string = Some sample_disp_row) as H1 by (vm_compute; reflexivity).
  split; [exact H1|]. split; [eexists; vm_compute; reflexivity|]. intros k b Hb Ha Hp.
  apply (displacement_custody_exclusive with_two_accelerators "disp" k sample_disp_row b with_two_accelerators_reachable H1 Hb);
    [symmetry; exact Ha|vm_compute; congruence|exact Hp].
Defined.

Lemma displacement_history_witness : exists b, GetLLMDisplacementOperation "disp" with_sealed = Ok b /\
  cleared b = cleared sample_disp_row /\ disp_CommandIntents sample_disp_row `prefix_of` disp_CommandIntents b /\
  disp_ObservedResults sample_disp_row `prefix_of` disp_ObservedResults b /\ disp_Revision sample_disp_row <= disp_Revision b /\
  (disp_Phase sample_disp_row = "completed"%string \/ reconciliationPhase (disp_Phase sample_disp_row) = true ->
   b = sample_disp_row).
Proof. exact (displacement_history _ _ "disp" sample_disp_row with_displacement_reachable with_sealed_run sample_disp_stored). Defined.

Lemma displacement_terminates_witness : (length snapshot_journey <= 17)%nat.
Proof.
  destruct snapshot_reached as (m & a & Hr & _).
  exact (displacement_terminates "disp" snapshot_journey with_displacement m Hr).
Defined.

Lemma displacement_blocks_leases_witness : exists lease,
  acquireAcceleratorLease (noon + 2 * minute) "gpu0" "urgent" "" minute with_sealed = (with_sealed, (lease, false)).
Proof.
  apply (displacement_blocks_leases with_displacement with_sealed "disp" sample_disp_row (sealed_row <| disp_Revision := 2 |>)
    with_displacement_reachable with_sealed_run sample_disp_stored); [vm_compute; reflexivity|left; vm_compute; congruence].
Defined.

Lemma displacement_identity_witness :
  displacementIdentityEqual sample_disp_row sealed_row = true <-> cleared sample_disp_row = cleared sealed_row.
Proof. apply (displacement_identity sample_disp_row sealed_row); vm_compute; reflexivity. Defined.
