(* ===== verification/LeaseProps.v ===== *)
(** * Accelerator leases: theorems

    When a lease is granted, why a stale fencing token can do no harm, and the
    refinement of the handlers to an abstract lock service. *)

From S2P Require Import Prelude GoText Domain DomainWorkload DomainNode Store.
From S2P Require Import Checkpoint Displacement DisplacementInv Leases Residency Commands Budget Records StoreMachine Samples.

(** ** An abstract lock service with fencing tokens *)

Module LockSpec.

Record lock := Lock { holder : string; token : Z; until : Time }.

(** The locks held, and the highest token ever issued for each resource. *)
Record state := State { held : gmap string lock; issued : gmap string Z }.

Definition high (s : state) (r : string) : Z := default 0 (issued s !! r).

Inductive call :=
  | Acquire (now : Time) (r h : string) (ttl : Duration)
  | Renew (now : Time) (r h : string) (t : Z) (ttl : Duration)
  | Release (r h : string) (t : Z).

(** [Some t] grants under token [t]; [None] refuses. *)
Inductive response := Granted (t : Z) | Done | Refused.

Definition owns (s : state) (r h : string) (t : Z) (l : lock) : Prop :=
  held s !! r = Some l /\ holder l = h /\ token l = t.

(** A lock is only taken when nobody holds it at the time of the call, under a
    token above every earlier one; only its owner renews or releases it; a
    refused call changes nothing. *)
Inductive behaves (s : state) : call -> response -> state -> Prop :=
  | b_grant now r h ttl t :
      (forall l, held s !! r = Some l -> until l <= now) -> high s r < t ->
      behaves s (Acquire now r h ttl) (Granted t) (State (<[r := Lock h t (now + ttl)]> (held s)) (<[r := t]> (issued s)))
  | b_renew now r h t ttl l : owns s r h t l ->
      behaves s (Renew now r h t ttl) Done (State (<[r := Lock h t (now + ttl)]> (held s)) (issued s))
  | b_release r h t l : owns s r h t l -> behaves s (Release r h t) Done (State (delete r (held s)) (issued s))
  | b_absent r h t : held s !! r = None -> behaves s (Release r h t) Done s
  | b_refuse_acquire now r h ttl : behaves s (Acquire now r h ttl) Refused s
  | b_refuse_renew now r h t ttl : (forall l, ~ owns s r h t l) -> behaves s (Renew now r h t ttl) Refused s
  | b_refuse_release r h t : (forall l, ~ owns s r h t l) -> behaves s (Release r h t) Refused s.

End LockSpec.

Definition lock_of (l : AcceleratorLease) : LockSpec.lock :=
  LockSpec.Lock (lease_WorkloadID l) (lease_FencingToken l) (lease_ExpiresAt l).

Definition lock_view (m : MemoryStore) : LockSpec.state := LockSpec.State (lock_of <$> leases m) (leaseFences m).

(** The store's answer to a call; [recovery] names the checkpoint operation the
    caller of an acquire recovers, if any. *)
Definition lock_exec {R : GoRange} (recovery : string) (c : LockSpec.call) (m : MemoryStore)
  : MemoryStore * LockSpec.response :=
  match c with
  | LockSpec.Acquire now r h ttl =>
      let '(m', (lease, ok)) := acquireAcceleratorLease now r h recovery ttl m in
      (m', if ok then LockSpec.Granted (lease_FencingToken lease) else LockSpec.Refused)
  | LockSpec.Renew now r h t ttl =>
      match RenewAcceleratorLease now r h t ttl m with Ok m' => (m', LockSpec.Done) | Err _ => (m, LockSpec.Refused) end
  | LockSpec.Release r h t =>
      match ReleaseAcceleratorLease r h t m with Ok m' => (m', LockSpec.Done) | Err _ => (m, LockSpec.Refused) end
  end.

(** Tokens left before the 64-bit counter of a resource is used up. *)
Definition tokens_left {R : GoRange} (recovery : string) (c : LockSpec.call) (m : MemoryStore) : Prop :=
  match c with
  | LockSpec.Acquire now r h ttl =>
      fenceBase r (range_find (fun _ => recoveryMatch r h recovery) (llmCheckpointOps m)) m < MaxInt64
  | _ => True
  end.

Lemma owns_lease m r h t l : LockSpec.owns (lock_view m) r h t l ->
  exists lease, leases m !! r = Some lease /\ lease_WorkloadID lease = h /\ lease_FencingToken lease = t.
Proof.
  intros (H & Hh & Ht). cbn in H. apply lookup_fmap_Some in H as (lease & <- & Hl). by exists lease.
Qed.

Lemma lease_mismatch m r h t lease : leases m !! r = Some lease ->
  (lease_WorkloadID lease !=? h) || negb (lease_FencingToken lease =? t) = true ->
  forall l, ~ LockSpec.owns (lock_view m) r h t l.
Proof.
  intros Hl Hm l (lease' & Hl' & <- & <-)%owns_lease. assert (lease' = lease) as -> by congruence.
  by rewrite bool_decide_true, Z.eqb_refl in Hm.
Qed.

Lemma renew_behaves {R : GoRange} rec now r h t ttl m m' resp : lock_exec rec (LockSpec.Renew now r h t ttl) m = (m', resp) ->
  LockSpec.behaves (lock_view m) (LockSpec.Renew now r h t ttl) resp (lock_view m').
Proof.
  cbn [lock_exec]. unfold RenewAcceleratorLease. intros H. destruct (leases m !! r) as [lease|] eqn:Hl.
  - destruct (_ || _) eqn:E in H; injection H as <- <-; [apply LockSpec.b_refuse_renew; by eapply lease_mismatch|].
    bool_simp. subst. unfold lock_view at 2. cbn [leases leaseFences set_field]. rewrite fmap_insert.
    apply (LockSpec.b_renew (lock_view m) now r (lease_WorkloadID lease) (lease_FencingToken lease) ttl (lock_of lease)). split; [|done]. cbn. rewrite lookup_fmap, Hl. reflexivity.
  - injection H as <- <-. apply LockSpec.b_refuse_renew. intros l (lease & Hl' & _)%owns_lease. congruence.
Qed.

Lemma release_behaves {R : GoRange} rec r h t m m' resp : lock_exec rec (LockSpec.Release r h t) m = (m', resp) ->
  LockSpec.behaves (lock_view m) (LockSpec.Release r h t) resp (lock_view m').
Proof.
  cbn [lock_exec]. unfold ReleaseAcceleratorLease. intros H. destruct (leases m !! r) as [lease|] eqn:Hl.
  - destruct (_ || _) eqn:E in H; injection H as <- <-; [apply LockSpec.b_refuse_release; by eapply lease_mismatch|].
    bool_simp. subst. unfold lock_view at 2. cbn [leases leaseFences set_field]. rewrite fmap_delete.
    apply (LockSpec.b_release (lock_view m) r _ _ (lock_of lease)). split; [|done]. cbn. rewrite lookup_fmap, Hl. reflexivity.
  - injection H as <- <-. apply LockSpec.b_absent. cbn. by rewrite lookup_fmap, Hl.
Qed.

Lemma acquire_behaves {R : GoRange} rec now r h ttl m m' resp : lease_inv m ->
  tokens_left rec (LockSpec.Acquire now r h ttl) m -> lock_exec rec (LockSpec.Acquire now r h ttl) m = (m', resp) ->
  LockSpec.behaves (lock_view m) (LockSpec.Acquire now r h ttl) resp (lock_view m').
Proof.
  intros I Ht H. cbn [lock_exec tokens_left] in *. destruct (acquireAcceleratorLease now r h rec ttl m) as [m1 [lease ok]] eqn:E.
  injection H as <- <-. apply acquire_cases in E. cbv zeta in E. destruct ok; [|destruct E as [-> _]; constructor].
  destruct E as ((_ & _ & Hlive) & -> & ->). set (op := range_find _ _) in *. unfold lock_view at 2.
  rewrite granted_leases, granted_fences, fmap_insert. cbn [lease_FencingToken].
  pose proof (fenceBase_bound r op m (proj1 (li_fence _ I r))) as Hb.
  pose proof (proj1 (li_fence _ I r)) as H0. rewrite wrap64_small by (unfold MaxInt64 in *; lia).
  apply (LockSpec.b_grant (lock_view m)).
  - cbn. intros l (lease & <- & Hl)%lookup_fmap_Some. by apply Hlive.
  - change (LockSpec.high (lock_view m) r) with (fence m r). lia.
Qed.

Lemma frame_view m m' : leases m' = leases m -> leaseFences m' = leaseFences m -> lock_view m' = lock_view m.
Proof. intros E1 E2. unfold lock_view. by rewrite E1, E2. Qed.

(** ** Tokens along a run *)

Lemma token_bound m acc l : store_reachable m -> leases m !! acc = Some l -> 0 < lease_FencingToken l <= fence m acc.
Proof. intros Hm Hl. apply (li_token _ (si_leases _ (reachable_inv _ Hm)) acc l Hl). Qed.

Lemma later_token m m' acc t l' : store_reachable m -> rtc store_step m m' -> t <= fence m acc ->
  (forall l, leases m !! acc = Some l -> t < lease_FencingToken l) -> leases m' !! acc = Some l' -> t < lease_FencingToken l'.
Proof.
  intros Hm Hr Ht Hl Hl'. destruct (se_tokens _ _ (reachable_evolves _ _ Hm Hr) acc l' Hl') as [H|(l & H & <- & _)]; [lia|].
  by apply Hl.
Qed.

(** ** Properties *)

(** C18. A lease is granted exactly when nothing stands in its way: no open
    displacement and no cleanup custody of another checkpoint on the
    accelerator, and no lease that is still live at the time of the call.  A
    grant stores the lease with the next token and, for a recovery, moves the
    checkpoint row under it; a refusal changes nothing. *)
Theorem acquire_decides (R : GoRange) now acc w recovery ttl m :
  let op := range_find (fun _ => recoveryMatch acc w recovery) (llmCheckpointOps m) in
  exists m' lease ok, acquireAcceleratorLease now acc w recovery ttl m = (m', (lease, ok)) /\
    (ok = true <-> unblocked now acc (fst <$> op) m) /\
    (ok = true -> lease = mkAcceleratorLease acc w (wrap64 (fenceBase acc op m + 1)) (now + ttl) /\
                  m' = granted now acc recovery lease op m) /\
    (ok = false -> m' = m).
Proof.
  intros op. destruct (acquireAcceleratorLease now acc w recovery ttl m) as [m' [lease ok]] eqn:E.
  exists m', lease, ok. split; [done|]. apply acquire_cases in E. cbv zeta in E. fold op in E. destruct ok.
  - destruct E as (Hu & Hl & Hm). split; [by split|done].
  - destruct E as (Hm & Hu). split; [split; [done|intros H; by destruct (Hu H)]|done].
Qed.

(** C19. A stale fencing token can do no harm: once the lease of an accelerator
    no longer carries the token it had, no later store carries that token or a
    smaller one again, renewing under it is refused and releasing under it is
    refused or finds nothing to release. *)
Theorem stale_token_harmless m m1 m2 acc l : store_reachable m -> leases m !! acc = Some l -> rtc store_step m m1 ->
  (forall l1, leases m1 !! acc = Some l1 -> lease_FencingToken l1 <> lease_FencingToken l) -> rtc store_step m1 m2 ->
  (forall l2, leases m2 !! acc = Some l2 -> lease_FencingToken l < lease_FencingToken l2) /\
  (forall now w ttl, RenewAcceleratorLease now acc w (lease_FencingToken l) ttl m2 = Err ErrNotFound) /\
  (forall w m3, ReleaseAcceleratorLease acc w (lease_FencingToken l) m2 = Ok m3 -> m3 = m2).
Proof.
  intros Hm Hl Hr1 Hgone Hr2. pose proof (token_bound _ _ _ Hm Hl) as Ht.
  pose proof (se_fences _ _ (reachable_evolves _ _ Hm Hr1) acc) as Hf.
  assert (H2 : forall l2, leases m2 !! acc = Some l2 -> lease_FencingToken l < lease_FencingToken l2).
  { intros l2. apply (later_token m1 m2 acc); [by eapply reachable_run|done|lia|]. intros l1 H1.
    destruct (se_tokens _ _ (reachable_evolves _ _ Hm Hr1) acc l1 H1) as [H|(l0 & H & E & _)]; [lia|].
    destruct (Hgone l1 H1). congruence. }
  split; [exact H2|]. unfold RenewAcceleratorLease, ReleaseAcceleratorLease.
  destruct (leases m2 !! acc) as [l2|]; [|split; [done|intros w m3 [= <-]; done]]. specialize (H2 l2 eq_refl).
  assert ((lease_FencingToken l2 =? lease_FencingToken l) = false) as E by lia. rewrite E. split.
  - intros now w ttl. by rewrite orb_true_r.
  - intros w m3. by rewrite orb_true_r.
Qed.

(** C20. The lease handlers refine the lock service: seen as locks and issued
    tokens, an acquire, renew or release of a reachable store behaves as the
    service specifies as long as the token counter has not run out, and the
    handlers of every other component leave the locks as they are. *)
Theorem leases_refine_locks (R : GoRange) m : store_reachable m ->
  (forall recovery c m' resp, tokens_left recovery c m -> lock_exec recovery c m = (m', resp) ->
     LockSpec.behaves (lock_view m) c resp (lock_view m')) /\
  (forall m', ckpt_step m m' \/ disp_step m m' \/ res_step m m' \/ cmd_step m m' \/ bud_step m m' \/ rec_step m m' ->
     lock_view m' = lock_view m).
Proof.
  intros Hm. pose proof (si_leases _ (reachable_inv _ Hm)) as I. split.
  - intros recovery [now r h ttl|now r h t ttl|r h t] m' resp Ht H;
      [by eapply acquire_behaves|by eapply renew_behaves|by eapply release_behaves].
  - intros m' [H|[H|[H|[H|[H|H]]]]]; apply frame_view;
      try (by rewrite (ckpt_step_frame _ _ H)); try (by rewrite (disp_step_frame _ _ H)); try (by rewrite (res_step_frame _ _ H));
      try (by rewrite (cmd_step_frame _ _ H)); try (by rewrite (bud_step_frame _ _ H)); by injection (rec_step_frame _ _ H).
Qed.

(** ** Instances *)

Definition sample_lease : AcceleratorLease := mkAcceleratorLease "gpu0" "victim" 1 (noon + minute).
Definition with_released : MemoryStore :=
  match ReleaseAcceleratorLease "gpu0" "victim" 1 with_lease with Ok m => m | Err _ => with_lease end.

Lemma with_released_run : rtc store_step with_lease with_released.
Proof. apply rtc_once, st_lease. apply (ls_release _ _ "gpu0" "victim" 1). vm_compute. reflexivity. Qed.

Lemma stale_token_harmless_witness :
  (forall l2, leases with_released !! "gpu0"%string = Some l2 -> 1 < lease_FencingToken l2) /\
  (forall now w ttl, RenewAcceleratorLease now "gpu0" w 1 ttl with_released = Err ErrNotFound) /\
  (forall w m3, ReleaseAcceleratorLease "gpu0" w 1 with_released = Ok m3 -> m3 = with_released).
Proof.
  apply (stale_token_harmless with_lease with_released with_released "gpu0" sample_lease with_lease_reachable);
    [vm_compute; reflexivity|apply with_released_run| |apply rtc_refl].
  assert (leases with_released !! "gpu0"%string = None) as -> by (vm_compute; reflexivity). done.
Defined.

Lemma leases_refine_locks_witness : LockSpec.behaves (lock_view with_released) (LockSpec.Acquire noon "gpu0" "urgent" minute)
  (LockSpec.Granted 2) (lock_view (fst (lock_exec "" (LockSpec.Acquire noon "gpu0" "urgent" minute) with_released))).
Proof.
  apply (proj1 (leases_refine_locks sample_range with_released (reachable_run _ _ with_lease_reachable with_released_run)) "");
    [vm_compute; reflexivity|]. vm_compute. reflexivity.
Defined.
