(* ===== verification/LedgerProps.v ===== *)
(** * Residency, commands, workloads and budgets: theorems

    Generations and fenced transitions of model residency, the absence of lost
    updates, the retry schedule, the budget ledger and the append-only
    records. *)

From S2P Require Import Prelude GoText Domain DomainWorkload DomainNode GoJSON Store.
From S2P Require Import Checkpoint Displacement DisplacementInv Leases Residency Commands Budget Records Cas StoreMachine LostUpdates Samples.

(** ** Residency *)

Lemma residency_rtc a b : rtc mr_step a b -> mr_TargetGeneration a <= mr_TargetGeneration b /\
  (mr_TargetGeneration a = mr_TargetGeneration b -> mr_ExecutionFingerprint a = mr_ExecutionFingerprint b).
Proof.
  induction 1 as [a|a a1 b [(H1 & _ & H2)%compatible_generation _] _ [I1 I2]]; [split; [lia|done]|].
  split; [lia|]. intros E. rewrite H2 by lia. apply I2. lia.
Qed.

(** C21. Residency never goes back to an older generation: in every later store
    the row of a target and model is still there with the same or a newer
    target generation, and within a generation its execution fingerprint is
    fixed. *)
Theorem residency_generations m m' target model a : store_reachable m -> rtc store_step m m' ->
  GetModelResidency target model m = Ok a ->
  exists b, GetModelResidency target model m' = Ok b /\ mr_TargetGeneration a <= mr_TargetGeneration b /\
    (mr_TargetGeneration a = mr_TargetGeneration b -> mr_ExecutionFingerprint a = mr_ExecutionFingerprint b).
Proof.
  intros Hm Hr. unfold GetModelResidency. destruct (residencies m !! _) as [a'|] eqn:Ha; [|done]. intros [= ->].
  destruct (se_residencies _ _ (reachable_evolves _ _ Hm Hr) _ a Ha) as (b & Hb & Hs). exists b.
  rewrite Hb. split; [done|]. by apply residency_rtc.
Qed.

Lemma lease_request_spec t l resource : validateResidencyTransitionLeaseOriginRequest (Some t) (Some l) = Ok resource ->
  resource = lease_AcceleratorID l /\ rt_FencingToken t = lease_FencingToken l.
Proof.
  unfold validateResidencyTransitionLeaseOriginRequest. intros H. do 2 (destruct (_ || _) in H; [done|]).
  destruct (residencyTransitionHasLeaseOrigin t); [done|]. destruct (_ || _) eqn:E in H; [done|]. cbv zeta in H.
  destruct (_ !=? _) eqn:Er in H; [done|]. destruct (_ ==? _) in H; [done|]. injection H as <-. by bool_simp.
Qed.

Lemma live_lease_spec cur l now : validateCurrentResidencyLeaseOrigin cur (Some l) now = Ok tt ->
  exists c, cur = Some c /\ lease_WorkloadID c = lease_WorkloadID l /\ lease_FencingToken c = lease_FencingToken l /\
    now < lease_ExpiresAt c.
Proof.
  unfold validateCurrentResidencyLeaseOrigin. intros H. destruct cur as [c|]; [|done]. destruct (_ || _) eqn:E in H; [done|].
  bool_simp. by exists c.
Qed.

Lemma allocate_lease_spec {R : GoRange} now t l m m' a :
  AllocateResidencyTransitionWithLease now (Some t) (Some l) m = Ok (m', (a, true)) ->
  validateCurrentResidencyLeaseOrigin (leases m !! lease_AcceleratorID l) (Some l) now = Ok tt /\
  rt_origin a = (lease_AcceleratorID l, lease_WorkloadID l, lease_FencingToken l, true) /\
  of_model (rt_TargetID t) (rt_Model t) a /\ highwater (rt_TargetID t) (rt_Model t) m < rt_FencingToken a /\
  lease_FencingToken l <= rt_FencingToken a /\ transitions m' !! rt_ID a = Some a.
Proof.
  unfold AllocateResidencyTransitionWithLease. intros H.
  destruct (validateResidencyTransitionLeaseOriginRequest _ _) as [res|] eqn:Hq in H; [|done].
  apply lease_request_spec in Hq as [-> Hf]. destruct (validateCurrentResidencyLeaseOrigin _ _ _) as [[]|] eqn:Hc in H; [|done].
  cbv zeta in H. destruct (_ !=? _) in H.
  { destruct (transitions m !! lookup_string _ _) in H; [|done]. destruct (transitions m !! rt_ID t) in H; [destruct (_ !=? _) in H; [done|]|];
      by destruct (verifyResidencyTransitionLeaseReplay _ _ _) in H. }
  destruct (transitions m !! rt_ID t) in H; [by destruct (verifyResidencyTransitionLeaseReplay _ _ _) in H|].
  destruct (allocateFence t m) as [a0|] eqn:Ha; [|done]. injection H as <- <-.
  apply allocateFence_spec in Ha as (H1 & H2 & H3 & H4 & H5). rewrite Hf in H5. do 5 (split; [done|]).
  apply lookup_insert_eq.
Qed.

(** A transition allocated under a lease is fenced: the lease it names was
    held and live at the time of the call, its token is above that of every
    stored transition of the same target and model and not below the lease's,
    and in every later store it still has the request and the lease it was
    allocated with. *)
Theorem leased_allocation_fenced (R : GoRange) now t l m m' a : store_reachable m ->
  AllocateResidencyTransitionWithLease now (Some t) (Some l) m = Ok (m', (a, true)) ->
  (exists cur, leases m !! lease_AcceleratorID l = Some cur /\ lease_WorkloadID cur = lease_WorkloadID l /\
     lease_FencingToken cur = lease_FencingToken l /\ now < lease_ExpiresAt cur) /\
  (forall k b, transitions m !! k = Some b -> rt_TargetID b = rt_TargetID t -> rt_Model b = rt_Model t ->
     rt_FencingToken b < rt_FencingToken a) /\
  lease_FencingToken l <= rt_FencingToken a /\
  (forall m'', rtc store_step m' m'' -> exists b, transitions m'' !! rt_ID a = Some b /\ rt_canonical b = rt_canonical a /\
     rt_origin b = (lease_AcceleratorID l, lease_WorkloadID l, lease_FencingToken l, true)).
Proof.
  intros Hm H. destruct (allocate_lease_spec _ _ _ _ _ _ H) as (Hc & Ho & _ & Hh & Hf & Ha).
  split; [by apply live_lease_spec|]. split; [|split; [done|]].
  - intros k b Hb Ht Hmo. destruct (highwater_spec (rt_TargetID t) (rt_Model t) m) as (_ & Hw & _).
    specialize (Hw k b Hb (conj Ht Hmo)). lia.
  - intros m'' Hr. assert (store_reachable m') as Hm'.
    { eapply rtc_r; [exact Hm|]. apply st_residency. by eapply rs_guarded, rs_allocate_lease. }
    destruct (se_leased _ _ (reachable_evolves _ _ Hm' Hr) (rt_ID a) a Ha) as (b & Hb & Hcb & Hob); [by injection Ho|].
    exists b. rewrite Hob. done.
Qed.

(** ** Lost updates *)

(** C22. No update is lost.  When a row has changed since a request was
    prepared from it, the compare-and-swap of that request is refused, whatever
    handlers ran in between: for checkpoints and workloads in runs of fewer than
    2^64 steps of any handlers; for displacements in any run; for model
    residencies in any run in which no residency row reaches the last revision
    of [uint64]; for residency transitions and node commands in runs of fewer
    than 2^64 steps of all handlers but the plain updates
    [UpdateResidencyTransition] and [UpdateNodeCommand]. *)
Theorem updates_never_lost :
  no_lost_update LLMCheckpointOperation checkpoint_cas (short_run store_step) /\
  no_lost_update LLMDisplacementOperation displacement_cas (rtc store_step) /\
  no_lost_update Workload workload_cas (short_run store_step) /\
  no_lost_update ModelResidency residency_cas (rtc low_step) /\
  no_lost_update ResidencyTransition transition_cas (short_run guarded_step) /\
  no_lost_update NodeCommand command_cas (short_run guarded_step).
Proof.
  split_and!; auto using displacement_no_lost_update, residency_no_lost_update; apply history_no_lost_update; apply _.
Qed.

(** Two requests for one node command, both prepared from its first revision. *)
Definition queued_command : NodeCommand :=
  (zero : NodeCommand) <| nc_ID := "cmd"%string |> <| nc_NodeID := "node"%string |> <| nc_IdempotencyKey := "nk"%string |>
    <| nc_Command := "drain"%string |>.
Definition first_cas : command_cas :=
  CommandCas (queued_command <| nc_Status := NodeCommandSent |>) 1 0 false [NodeCommandQueued].
Definition second_cas : command_cas :=
  CommandCas (queued_command <| nc_Status := NodeCommandFailed |>) 1 0 false [NodeCommandQueued; NodeCommandSent].
Definition with_command : MemoryStore := ok_store (CreateNodeCommand queued_command NewMemoryStore).
Definition with_first : MemoryStore := ok_store (cas_run first_cas with_command).

Lemma with_command_reachable : store_reachable with_command.
Proof.
  destruct (ok_store_spec (CreateNodeCommand queued_command NewMemoryStore)) as [x H]; [vm_compute; reflexivity|].
  apply rtc_once, st_command, ms_guarded. eapply ms_create. exact H.
Qed.

Lemma with_first_step : guarded_step with_command with_first.
Proof.
  destruct (ok_store_spec (cas_run first_cas with_command)) as [x H]; [vm_compute; reflexivity|].
  apply gd_command. eapply ms_cas. exact H.
Qed.

(** Either request is accepted alone; after the first the second is refused. *)
Lemma updates_never_lost_witness :
  is_ok (cas_run first_cas with_command) = true /\ is_ok (cas_run second_cas with_command) = true /\
  exists e, cas_run second_cas with_first = Err e.
Proof.
  split; [vm_compute; reflexivity|]. split; [vm_compute; reflexivity|].
  destruct updates_never_lost as (_ & _ & _ & _ & _ & H).
  apply (H with_command with_first "cmd"%string (queued_command <| nc_Revision := 1 |>)
    (queued_command <| nc_Status := NodeCommandSent |> <| nc_Revision := 2 |>) second_cas with_command_reachable);
    [|vm_compute; reflexivity|vm_compute; reflexivity|discriminate|reflexivity|reflexivity].
  exists 1%nat. split; [reflexivity|]. apply nsteps_once, with_first_step.
Defined.

(** The plain update does not keep this: it stores the revision the caller
    read, and a request that was refused before is accepted after it. *)
Theorem plain_update_reopens : exists m c m' x y, store_reachable m /\ UpdateNodeCommand c m = Ok (m', x) /\
  is_ok (cas_run second_cas m) = false /\ cas_run second_cas m' = Ok y.
Proof.
  set (c := queued_command <| nc_Revision := 1 |>).
  destruct (ok_store_spec (UpdateNodeCommand c with_first)) as [x Hx]; [vm_compute; reflexivity|].
  destruct (ok_store_spec (cas_run second_cas (ok_store (UpdateNodeCommand c with_first)))) as [y Hy]; [vm_compute; reflexivity|].
  exists with_first, c, (ok_store (UpdateNodeCommand c with_first)), x. eexists. split; [|split; [exact Hx|]].
  - eapply rtc_r; [apply with_command_reachable|apply guarded_store, with_first_step].
  - split; [vm_compute; reflexivity|exact Hy].
Qed.

(** ** The retry schedule *)

(** Recovery of an uncertain command backs off exponentially: the delay
    before attempt [n] is a tenth of a second doubled with every attempt after
    the first and capped at five seconds, for every [n] an [int] can hold. *)
Theorem backoff_schedule n :
  nodeCommandRecoveryBackoff n = Z.min (5 * second) (100 * millisecond * 2 ^ (Z.max 1 n - 1)).
Proof.
  unfold nodeCommandRecoveryBackoff. cbv zeta.
  assert (E : (if n <? 1 then 1 else n) = Z.max 1 n) by (destruct (n <? 1) eqn:?; lia). rewrite E. clear E.
  assert (H1 : 1 <= Z.max 1 n) by lia. revert H1. generalize (Z.max 1 n). clear n. intros n H1.
  assert (5 * second = 5000000000 /\ 100 * millisecond = 100000000) as [-> ->] by (split; reflexivity).
  destruct (9 <? n) eqn:E9.
  - apply Z.ltb_lt in E9. assert (2 ^ 9 <= 2 ^ (n - 1)) by (apply Z.pow_le_mono_r; lia).
    change (doubled (Z.to_nat (9 - 1)) 100000000) with 25600000000. change (2 ^ 9) with 512 in H.
    change (if 5000000000 <? 25600000000 then 5000000000 else 25600000000) with 5000000000. lia.
  - apply Z.ltb_ge in E9. assert (2 ^ (n - 1) <= 2 ^ 8) by (apply Z.pow_le_mono_r; lia).
    assert (0 < 2 ^ (n - 1)) by (apply Z.pow_pos_nonneg; lia). rewrite doubled_pow; rewrite ?Z2Nat.id by lia;
      [|lia|unfold MaxInt64; lia]. destruct (_ <? _) eqn:E; lia.
Qed.

(** ** The budget ledger *)

Lemma overLimit_ledger {R : GoRange} p amount limit m : is_int64 (ledger p m + amount) -> 0 < limit ->
  overLimit p amount limit m = false -> ledger p m + amount <= limit.
Proof.
  intros Hi Hl H. unfold overLimit in H. rewrite committed_ledger, wrap64_add, wrap64_small in H by exact Hi. lia.
Qed.

(** What a fresh claim does to the ledgers. *)
Lemma newReservation_ledger {R : GoRange} now p id amount limit token m m' q :
  activeReservation id m = None -> budgets m' = <[id := newReservation now p id amount limit token m]> (budgets m) ->
  ledger q m' = ledger q m + if q ==? p then amount else 0.
Proof.
  intros Ha Hb. rewrite (ledger_insert _ _ _ _ _ Hb). pose proof (activeReservation_spec id m) as Hs. rewrite Ha in Hs.
  assert (match budgets m !! id with Some r0 => commits q r0 | None => 0 end = 0) as ->.
  { destruct (budgets m !! id) as [r0|]; [|done]. unfold commits. rewrite (Hs r0 eq_refl). by destruct (_ !=? _). }
  unfold commits, newReservation. cbn. destruct (bool_decide_reflect (q = p)) as [->|Hn]; [rewrite bool_decide_true by done|
    rewrite bool_decide_false by done]; cbn; lia.
Qed.

(** C23. A budget is never exceeded: when a claim makes a new reservation under
    a positive limit, with or without linking it to its workload, what the
    principal has committed grows by exactly the amount and stays within the
    limit, and nobody else's commitment changes, as long as the sum itself is
    an [int64]. *)
Theorem budget_limit_respected (R : GoRange) now p id amount limit token m m' r :
  (ReserveBudgetClaim now p id amount limit token m = (m', Ok (Some r, true, true)) \/
   exists e st o w, ReserveAndLinkBudgetClaim now p id amount limit token e st o m = (m', Ok (Some r, w, true, true))) ->
  0 < limit -> is_int64 (ledger p m + amount) ->
  budgets m' !! id = Some r /\ br_Status r = BudgetReserved /\ br_ReservedCents r = amount /\
  ledger p m' = ledger p m + amount /\ ledger p m' <= limit /\ (forall q, q <> p -> ledger q m' = ledger q m).
Proof.
  intros H Hl Hi.
  assert (H0 : activeReservation id m = None /\ overLimit p amount limit m = false /\
    r = newReservation now p id amount limit token m /\ budgets m' = <[id := r]> (budgets m)).
  { destruct H as [H|(e & st & o & w & H)]; [unfold ReserveBudgetClaim in H|unfold ReserveAndLinkBudgetClaim in H];
      (destruct (blank token); [done|]).
    - destruct (activeReservation id m); [by destruct (claimDiffers _ _ _ _ _ _) in H|].
      destruct (overLimit p amount limit m); [done|]. injection H as <- <-. done.
    - destruct (workloads m !! id); [|done]. destruct (_ || linkConflict _ _ _ _) in H; [done|].
      destruct (activeReservation id m); [by destruct (claimDiffers _ _ _ _ _ _ || _) in H|].
      destruct (overLimit p amount limit m); [done|]. injection H as <- <- _. done. }
  destruct H0 as (Ha & Ho & -> & Hb). split; [rewrite Hb; apply lookup_insert_eq|]. do 2 (split; [done|]).
  rewrite (newReservation_ledger _ _ _ _ _ _ _ _ p Ha Hb), bool_decide_true by done. split; [done|].
  split; [by eapply overLimit_ledger|]. intros q Hq. rewrite (newReservation_ledger _ _ _ _ _ _ _ _ q Ha Hb).
  rewrite bool_decide_false by done. lia.
Qed.

Lemma settled_rtc p cents a b : rtc reserved a b -> settled_as p cents a -> settled_as p cents b.
Proof. induction 1 as [|a a1 b [id H] _ IH]; [done|]. intros Ha. apply IH. by eapply settled_step. Qed.

(** A settlement is final: a settled reservation stays settled for the
    same principal at the same cost in every later store, where settling it
    again changes nothing and answers with that cost, and releasing it is
    refused. *)
Theorem settlement_final m m' id r : store_reachable m -> rtc store_step m m' ->
  budgets m !! id = Some r -> br_Status r = BudgetSettled ->
  (exists b, budgets m' !! id = Some b /\ br_Status b = BudgetSettled /\ br_PrincipalID b = br_PrincipalID r /\
     br_ActualCents b = br_ActualCents r) /\
  (forall now token attempt actual m2 x, SettleBudgetClaim now id token attempt actual m' = Ok (m2, x) ->
     m2 = m' /\ br_ActualCents x = br_ActualCents r) /\
  (forall now token attempt, ReleaseBudgetClaim now id token attempt m' = Err ErrWorkloadConflict).
Proof.
  intros Hm Hr Hb Hs. destruct (se_budgets _ _ (reachable_evolves _ _ Hm Hr) id r Hb) as (b & Hb' & Hrt).
  destruct (settled_rtc (br_PrincipalID r) (br_ActualCents r) _ _ Hrt) as (H1 & H2 & H3); [done|].
  split; [by exists b|]. unfold SettleBudgetClaim, ReleaseBudgetClaim. rewrite Hb', H1. split.
  - intros now token attempt actual m2 x. destruct (notOwner _ _ _); [done|]. cbv zeta.
    rewrite bool_decide_true by done. destruct (_ =? _) in |- *; [|done]. by intros [= <- <-].
  - intros now token attempt. destruct (notOwner _ _ _); [done|]. by rewrite !bool_decide_false.
Qed.

(** ** Workloads *)

Lemma create_bound w m : wl_inv m -> req_IdempotencyKey (w_Request w) <> ""%string ->
  let key := key2 (req_OwnerID (w_Request w)) (req_IdempotencyKey (w_Request w)) in
  let '(m', (o, _)) := CreateWorkload w m in
  exists id a, idempotency m' !! key = Some id /\ workloads m' !! id = Some a /\ o = Some a /\ req_ID (w_Request a) = id.
Proof.
  intros I Hk key. unfold CreateWorkload. cbv zeta. rewrite bool_decide_false by exact Hk. cbn [negb].
  destruct (idempotency m !! _) as [old|] eqn:E.
  - destruct (wi_idempotency _ I _ _ E) as [a Ha]. rewrite Ha. exists old, a. repeat split; [exact E|done|].
    by apply (wi_keyed _ I).
  - destruct (workloads _ !! _) as [a|] eqn:Ew.
    + exists (req_ID (w_Request w)), a. repeat split; [apply lookup_insert_eq|exact Ew|]. exact (wi_keyed _ I _ _ Ew).
    + exists (req_ID (w_Request w)), (w <| w_Revision := 1 |>). repeat split; apply lookup_insert_eq.
Qed.

(** C24. Submitting a workload is idempotent: a submission under an idempotency
    key returns a workload, and in every later store a submission of the same
    owner under the same key, whatever else it says, changes nothing and
    returns that workload as it then is. *)
Theorem workload_idempotent w w' m m' m'' o created : store_reachable m ->
  CreateWorkload w m = (m', (o, created)) -> rtc store_step m' m'' ->
  req_IdempotencyKey (w_Request w) <> ""%string ->
  req_OwnerID (w_Request w') = req_OwnerID (w_Request w) ->
  req_IdempotencyKey (w_Request w') = req_IdempotencyKey (w_Request w) ->
  exists a b, o = Some a /\ GetWorkload (req_ID (w_Request a)) m'' = Ok b /\ req_ID (w_Request b) = req_ID (w_Request a) /\
    CreateWorkload w' m'' = (m'', (Some b, false)).
Proof.
  intros Hm Hc Hr Hk Ho Hk'. pose proof (create_bound w m (si_workloads _ (reachable_inv _ Hm)) Hk) as H. cbv zeta in H.
  rewrite Hc in H. destruct H as (id & a & Hi & Ha & -> & Hid).
  assert (Hm' : store_reachable m') by (eapply rtc_r; [exact Hm|]; apply st_budget; by eapply us_create).
  pose proof (reachable_evolves _ _ Hm' Hr) as He. destruct (se_workloads _ _ He id a Ha) as (b & Hb & _).
  exists a, b. split; [done|]. rewrite Hid. unfold GetWorkload. rewrite Hb. split; [done|].
  split; [by apply (wi_keyed _ (si_workloads _ (reachable_inv _ (reachable_run _ _ Hm' Hr))))|].
  unfold CreateWorkload. cbv zeta. cbn [w_Request set_field]. rewrite Ho, Hk'. rewrite bool_decide_false by exact Hk.
  rewrite (se_keys _ _ He _ _ Hi). cbn [negb]. by rewrite Hb.
Qed.

(** ** Enrolments *)

Lemma enrolment_by_hash {R : GoRange} m id e : rec_inv m -> nodeEnrollments m !! id = Some e ->
  GetNodeEnrollmentByHash (ne_TokenHash e) m = Ok e.
Proof.
  intros I He. unfold GetNodeEnrollmentByHash. destruct (range_find _ _) as [[k e']|] eqn:E.
  - apply range_find_Some in E as [Hk Ht]. apply bool_decide_eq_true in Ht.
    assert (k = id) as -> by by apply (ri_tokens _ I k id e' e). congruence.
  - pose proof (proj1 (range_find_None _ _) E id e He) as H. by apply bool_decide_eq_false in H.
Qed.

(** Revocation is permanent and cannot be evaded: after an enrolment was
    revoked, in every later store and for every order in which the table is
    searched the node's token still finds that node's row and the row is
    revoked; enrolling another node under the token stays refused. *)
Theorem revocation_permanent (R : GoRange) id e m m' m'' : store_reachable m -> nodeEnrollments m !! id = Some e ->
  RevokeNodeEnrollment id m = Ok m' -> rtc store_step m' m'' ->
  (exists e', GetNodeEnrollmentByHash (ne_TokenHash e) m'' = Ok e' /\ GetNodeEnrollment id m'' = Ok e' /\
     ne_NodeID e' = id /\ ne_Status e' = "revoked"%string) /\
  (forall v, ne_TokenHash v = ne_TokenHash e -> CreateNodeEnrollment v m'' = Err ErrAlreadyExists).
Proof.
  intros Hm He Hrev Hr. assert (Hm' : store_reachable m') by (eapply rtc_r; [exact Hm|]; apply st_record; by eapply cs_revoke).
  unfold RevokeNodeEnrollment in Hrev. rewrite He in Hrev. injection Hrev as <-.
  pose proof (reachable_inv _ (reachable_run _ _ Hm' Hr)) as I. apply si_records in I.
  destruct (rv_enrolled _ _ (se_records _ _ (reachable_evolves _ _ Hm' Hr)) id (e <| ne_Status := "revoked"%string |>))
    as (e' & He' & Ht & _ & Hs); [apply lookup_insert_eq|]. cbn in Ht. specialize (Hs eq_refl). split.
  - exists e'. rewrite <- Ht. split; [by eapply enrolment_by_hash|]. unfold GetNodeEnrollment. rewrite He'.
    split; [done|]. split; [by apply (ri_keyed _ I)|done].
  - intros v Hv. unfold CreateNodeEnrollment. destruct (nodeEnrollments m'' !! ne_NodeID v); [done|].
    destruct (range_find _ _) as [p|] eqn:E; [done|]. pose proof (proj1 (range_find_None _ _) E id e' He') as H.
    apply bool_decide_eq_false in H. congruence.
Qed.

(** ** Tables *)

(** C25. Every reachable store is well formed.  Checkpoints, displacements,
    workloads, residencies, transitions, node commands, notifications and
    enrolments are stored under their own key.  For checkpoints and
    displacements the idempotency index and the rows agree in both directions;
    an index entry of workloads, transitions, node commands and notifications
    points to a stored row.  A lease is stored under its accelerator with a
    positive token not above the accelerator's fence, fences are [int64], and
    audit events have distinct ids. *)
Theorem store_well_formed m : store_reachable m ->
  (forall k a, llmCheckpointOps m !! k = Some a -> ckpt_ID a = k /\
     llmCheckpointKeys m !! key2 (ckpt_OwnerID a) (ckpt_IdempotencyKey a) = Some k) /\
  (forall key k, llmCheckpointKeys m !! key = Some k -> exists a, llmCheckpointOps m !! k = Some a /\
     key2 (ckpt_OwnerID a) (ckpt_IdempotencyKey a) = key) /\
  (forall k a, llmDisplacementOps m !! k = Some a -> disp_ID a = k /\ validateLLMDisplacementIdentity a = Ok tt /\
     llmDisplacementKeys m !! key2 (disp_OwnerID a) (disp_IdempotencyKey a) = Some k) /\
  (forall key k, llmDisplacementKeys m !! key = Some k -> exists a, llmDisplacementOps m !! k = Some a /\
     key2 (disp_OwnerID a) (disp_IdempotencyKey a) = key) /\
  indexed (fun w => req_ID (w_Request w)) (workloads m) (idempotency m) /\
  (forall k r, residencies m !! k = Some r -> residencyKey (mr_TargetID r) (mr_Model r) = k) /\
  indexed rt_ID (transitions m) (transitionKeys m) /\
  indexed nc_ID (nodeCommands m) (nodeCommandKeys m) /\
  indexed nd_ID (notifications m) (notificationKeys m) /\
  (forall acc l, leases m !! acc = Some l -> lease_AcceleratorID l = acc /\
     0 < lease_FencingToken l <= default 0 (leaseFences m !! acc)) /\
  (forall acc, is_int64 (default 0 (leaseFences m !! acc))) /\
  (forall k e, nodeEnrollments m !! k = Some e -> ne_NodeID e = k) /\
  NoDup (map ae_ID (auditEvents m)).
Proof.
  intros [C D L [W1 W2] Rc Rs T N O]%reachable_inv. split_and!; try done.
  - intros k a Ha. split; [by apply (ci_keyed _ _ C)|by apply (ci_indexed _ _ C)].
  - apply (ci_index _ _ C).
  - intros k a Ha. split; [by apply (di_keyed _ _ D)|]. split; [by apply (di_valid _ _ D k)|by apply (di_indexed _ _ D)].
  - apply (di_index _ _ D).
  - apply (li_token _ L).
  - intros acc. pose proof (li_fence _ L acc) as H. unfold fence in H. unfold is_int64, MaxInt64 in *. lia.
  - apply (ri_keyed _ Rc).
  - apply (ri_audit _ Rc).
Qed.

(** An entry of the workload index may point to a row with another key: a
    request that names a stored workload by its id leaves its key behind. *)
Theorem workload_index_foreign : exists m key k w, store_reachable m /\ idempotency m !! key = Some k /\
  workloads m !! k = Some w /\ key2 (req_OwnerID (w_Request w)) (req_IdempotencyKey (w_Request w)) <> key.
Proof.
  set (w := (sample_workload "victim" "mallory") <| w_Plan := None |>).
  exists (fst (CreateWorkload w with_urgent)), (key2 "mallory" "key-victim"), "victim"%string,
    ((sample_workload "victim" "alice") <| w_Revision := 1 |>).
  split; [eapply rtc_r; [apply with_urgent_reachable|apply create_step]|].
  split; [vm_compute; reflexivity|]. split; [vm_compute; reflexivity|]. vm_compute. congruence.
Qed.

(** ** Instances *)

Definition sample_residency (generation : Z) : ModelResidency :=
  (zero : ModelResidency) <| mr_TargetID := "target"%string |> <| mr_Model := "model"%string |> <| mr_Revision := 1 |>
    <| mr_TargetGeneration := generation |> <| mr_ExecutionFingerprint := "fp"%string |>.
Definition with_residency : MemoryStore := ok_store (UpsertModelResidency (sample_residency 1) NewMemoryStore).
Definition with_newer : MemoryStore := ok_store (CompareAndSwapModelResidency None (sample_residency 2) 1 with_residency).

Lemma with_residency_reachable : store_reachable with_residency.
Proof.
  destruct (ok_store_spec (UpsertModelResidency (sample_residency 1) NewMemoryStore)) as [x H]; [vm_compute; reflexivity|].
  apply rtc_once, st_residency. eapply rs_guarded, rs_upsert. exact H.
Qed.

Lemma with_newer_run : rtc store_step with_residency with_newer.
Proof.
  destruct (ok_store_spec (CompareAndSwapModelResidency None (sample_residency 2) 1 with_residency)) as [x H];
    [vm_compute; reflexivity|].
  apply rtc_once, st_residency. eapply rs_guarded, rs_cas. exact H.
Qed.

Lemma residency_generations_witness : exists b, GetModelResidency "target" "model" with_newer = Ok b /\
  1 <= mr_TargetGeneration b /\ (1 = mr_TargetGeneration b -> "fp"%string = mr_ExecutionFingerprint b).
Proof.
  apply (residency_generations with_residency with_newer "target" "model" (sample_residency 1) with_residency_reachable with_newer_run).
  vm_compute. reflexivity.
Defined.

Definition sample_transition : ResidencyTransition :=
  (zero : ResidencyTransition) <| rt_ID := "rt"%string |> <| rt_IdempotencyKey := "rk"%string |> <| rt_TargetID := "target"%string |>
    <| rt_Model := "model"%string |> <| rt_AcceleratorID := "gpu0"%string |> <| rt_FencingToken := 1 |>.
Definition held_lease : AcceleratorLease := mkAcceleratorLease "gpu0" "victim" 1 (noon + minute).
Definition with_transition : MemoryStore :=
  ok_store (AllocateResidencyTransitionWithLease noon (Some sample_transition) (Some held_lease) with_lease).
Definition allocated_transition : ResidencyTransition := default zero (transitions with_transition !! "rt"%string).

Lemma leased_allocation_fenced_witness : exists cur, leases with_lease !! "gpu0"%string = Some cur /\
  lease_WorkloadID cur = "victim"%string /\ lease_FencingToken cur = 1 /\ noon < lease_ExpiresAt cur.
Proof.
  apply (leased_allocation_fenced sample_range noon sample_transition held_lease with_lease with_transition allocated_transition
    with_lease_reachable).
  vm_compute. reflexivity.
Defined.

Definition with_reserved : MemoryStore := fst (ReserveBudgetClaim noon "alice" "victim" 30 100 "token" with_lease).
Definition sample_reservation : BudgetReservation := newReservation noon "alice" "victim" 30 100 "token" with_lease.
Definition with_settled : MemoryStore := ok_store (SettleBudgetClaim noon "victim" "token" 1 25 with_reserved).

Lemma budget_limit_respected_witness : ledger "alice" with_reserved <= 100.
Proof.
  apply (budget_limit_respected sample_range noon "alice" "victim" 30 100 "token" with_lease with_reserved sample_reservation);
    [left; vm_compute; reflexivity|reflexivity|vm_compute; split; congruence].
Defined.

Lemma with_reserved_reachable : store_reachable with_reserved.
Proof.
  eapply rtc_r; [apply with_lease_reachable|]. apply st_budget. eapply us_reserve. apply surjective_pairing.
Qed.

Lemma with_settled_reachable : store_reachable with_settled.
Proof.
  destruct (ok_store_spec (SettleBudgetClaim noon "victim" "token" 1 25 with_reserved)) as [x H]; [vm_compute; reflexivity|].
  eapply rtc_r; [apply with_reserved_reachable|]. apply st_budget. eapply us_settle. exact H.
Qed.

Definition settled_reservation : BudgetReservation :=
  sample_reservation <| br_ActualCents := 25 |> <| br_Status := BudgetSettled |> <| br_Revision := 2 |>.

Lemma settlement_final_witness : ReleaseBudgetClaim noon "victim" "token" 1 with_settled = Err ErrWorkloadConflict.
Proof.
  apply (settlement_final with_settled with_settled "victim" settled_reservation with_settled_reachable);
    [apply rtc_refl|vm_compute; reflexivity|reflexivity].
Defined.

Lemma workload_idempotent_witness : exists a b, Some a = Some ((sample_workload "urgent" "bob") <| w_Revision := 1 |>) /\
  GetWorkload "urgent" with_lease = Ok b /\
  CreateWorkload (sample_workload "urgent" "bob") with_lease = (with_lease, (Some b, false)).
Proof.
  destruct (workload_idempotent (sample_workload "urgent" "bob") (sample_workload "urgent" "bob") with_victim with_urgent with_lease
    (Some ((sample_workload "urgent" "bob") <| w_Revision := 1 |>)) true) as (a & b & Ha & Hb & _ & Hc);
    [apply rtc_once, create_step|vm_compute; reflexivity| |vm_compute; congruence|reflexivity|reflexivity|].
  - apply rtc_once. apply with_lease_step.
  - exists a, b. injection Ha as <-. by repeat split.
Defined.

Definition sample_enrolment : NodeEnrollment := mkNodeEnrollment "node" "node" "hash" "active" noon noon.
Definition with_enrolment : MemoryStore :=
  match CreateNodeEnrollment sample_enrolment NewMemoryStore with Ok m => m | Err _ => NewMemoryStore end.
Definition with_revoked : MemoryStore :=
  match RevokeNodeEnrollment "node" with_enrolment with Ok m => m | Err _ => NewMemoryStore end.

Lemma revocation_permanent_witness :
  CreateNodeEnrollment (mkNodeEnrollment "other" "other" "hash" "active" noon noon) with_revoked = Err ErrAlreadyExists.
Proof.
  apply (revocation_permanent sample_range "node" sample_enrolment with_enrolment with_revoked with_revoked);
    [|vm_compute; reflexivity|vm_compute; reflexivity|apply rtc_refl|reflexivity].
  apply rtc_once, st_record. apply (cs_enroll _ _ sample_range sample_enrolment). vm_compute. reflexivity.
Defined.

Lemma store_well_formed_witness : is_Some (workloads with_urgent !! "urgent"%string) /\
  (exists a, llmDisplacementOps with_displacement !! "disp"%string = Some a /\
     key2 (disp_OwnerID a) (disp_IdempotencyKey a) = key2 "ops" "dk") /\
  is_Some (nodeCommands with_command !! "cmd"%string).
Proof.
  split.
  { destruct (store_well_formed with_urgent with_urgent_reachable) as (_ & _ & _ & _ & W & _).
    apply (ix_keys _ _ _ W (key2 "bob" "key-urgent")). vm_compute. reflexivity. }
  split.
  { destruct (store_well_formed with_displacement with_displacement_reachable) as (_ & _ & _ & D & _).
    apply (D (key2 "ops" "dk") "disp"%string). vm_compute. reflexivity. }
  destruct (store_well_formed with_command with_command_reachable) as (_ & _ & _ & _ & _ & _ & _ & N & _).
  apply (ix_keys _ _ _ N (key2 "node" "nk")). vm_compute. reflexivity.
Defined.
