(* ===== verification/WorkloadManager.v ===== *)
(** * State of the workload manager

    The targets, placements, reservations and caches of [workloads/manager.go]
    and [workloads/adapter.go] that admission, placement and release work on.
    Records hold the fields those functions read or write.  A pointer to a
    reservation is a number; the reservations it may point to are kept in
    [reservationHeap], so that two holders of a pointer see one another's
    updates. *)

From Stdlib Require Import Floats.SpecFloat.
From S2P Require Import Prelude GoText Domain DomainWorkload DomainNode Store.

(** ** Targets *)

Record ModelPool := mkModelPool {
  mp_PoolTokens : Z;
  mp_Slots : Z;
  mp_MaxRequestTokens : Z;
}.

Record RuntimeCapacityProfile := mkRuntimeCapacityProfile {
  rcp_ID : string;
  rcp_ContextLimit : Z;
  rcp_Slots : Z;
}.

Record Target := mkTarget {
  tgt_ID : string;
  tgt_NodeID : string;
  tgt_Adapter : string;
  tgt_RuntimeProtocol : string;
  tgt_AcceleratorID : string;
  tgt_ContextLimit : Z;
  tgt_Slots : Z;
  tgt_CapabilityVersion : string;
  tgt_CapabilityRevision : string;
  tgt_Capacity : CapacityBudget;
  tgt_ModelFingerprint : string;
  tgt_CapacitySource : string;
  tgt_CapacityVerified : bool;
  tgt_Cloud : bool;
  tgt_WorkloadClass : string;
  tgt_StandaloneVRAMMB : Z;
  tgt_AcceleratorVRAMMB : Z;
  tgt_VRAMReserveMB : Z;
  tgt_SharingEnabled : bool;
  tgt_GuardedExploration : bool;
  tgt_PredictedSlowdown : float64;
  tgt_MaxSlowdown : float64;
  tgt_SafetyCritical : bool;
  tgt_RuntimeProfiles : list RuntimeCapacityProfile;
  tgt_ActiveRuntimeProfile : string;
  tgt_ModelPools : gmap string ModelPool;
  tgt_CompanionAcceleratorIDs : list string;
}.
#[export] Instance eta_Target : Eta Target := fun r => mkTarget (tgt_ID r) (tgt_NodeID r) (tgt_Adapter r)
  (tgt_RuntimeProtocol r) (tgt_AcceleratorID r) (tgt_ContextLimit r) (tgt_Slots r) (tgt_CapabilityVersion r)
  (tgt_CapabilityRevision r) (tgt_Capacity r) (tgt_ModelFingerprint r) (tgt_CapacitySource r) (tgt_CapacityVerified r)
  (tgt_Cloud r) (tgt_WorkloadClass r) (tgt_StandaloneVRAMMB r) (tgt_AcceleratorVRAMMB r) (tgt_VRAMReserveMB r)
  (tgt_SharingEnabled r) (tgt_GuardedExploration r) (tgt_PredictedSlowdown r) (tgt_MaxSlowdown r) (tgt_SafetyCritical r)
  (tgt_RuntimeProfiles r) (tgt_ActiveRuntimeProfile r) (tgt_ModelPools r) (tgt_CompanionAcceleratorIDs r).

(** The zero of [float64], and the constants of the sharing policy. *)
Definition float_zero : float64 := S754_zero false.
Definition float_half : float64 := S754_finite false 4503599627370496 (-53).
Definition float_1_25 : float64 := S754_finite false 5629499534213120 (-52).

(** [Target{}], what a lookup of an unknown target returns. *)
Definition noTarget : Target := mkTarget "" "" "" "" "" 0 0 "" "" (mkCapacityBudget 0 0 0 0 0 0 0) "" "" false false ""
  0 0 0 false false float_zero float_zero false [] "" ∅ [].

(** ** Placements and reservations *)

Record activePlacement := mkActivePlacement {
  pl_workloadID : string;
  pl_targetID : string;
  pl_acceleratorID : string;
  pl_workloadClass : string;
  pl_runtimeVersion : string;
  pl_fingerprint : string;
  pl_disruption : string;
  pl_vramMB : Z;
  pl_capacityVRAMMB : Z;
  pl_reserveVRAMMB : Z;
  pl_sharingEnabled : bool;
  pl_guardedExploration : bool;
  pl_predictedSlowdown : float64;
  pl_maxSlowdown : float64;
  pl_safetyCritical : bool;
  pl_sharedObserved : bool;
  pl_model : string;
  pl_contextTokens : Z;
  pl_targetGeneration : Z;
  pl_profileID : string;
  pl_runtimeIdentity : string;
  pl_requestIncrementBytes : Z;
  pl_requestIncrementVerified : bool;
}.
#[export] Instance eta_activePlacement : Eta activePlacement := fun r => mkActivePlacement (pl_workloadID r) (pl_targetID r)
  (pl_acceleratorID r) (pl_workloadClass r) (pl_runtimeVersion r) (pl_fingerprint r) (pl_disruption r) (pl_vramMB r)
  (pl_capacityVRAMMB r) (pl_reserveVRAMMB r) (pl_sharingEnabled r) (pl_guardedExploration r) (pl_predictedSlowdown r)
  (pl_maxSlowdown r) (pl_safetyCritical r) (pl_sharedObserved r) (pl_model r) (pl_contextTokens r) (pl_targetGeneration r)
  (pl_profileID r) (pl_runtimeIdentity r) (pl_requestIncrementBytes r) (pl_requestIncrementVerified r).

Record targetReservation := mkTargetReservation {
  tr_targetID : string;
  tr_workloadID : string;
  tr_targetGeneration : Z;
  tr_lease : option AcceleratorLease;
  tr_shared : bool;
  tr_predictedVRAMMB : Z;
  tr_reserveVRAMMB : Z;
  tr_capacityVRAMMB : Z;
  tr_maxSlowdown : float64;
  tr_exploration : bool;
  tr_profileKey : string;
  tr_workloadClasses : list string;
  tr_runtimeVersion : string;
  tr_exactProfileKey : string;
  tr_releaseRequested : bool;
  tr_releaseInFlight : bool;
  tr_released : bool;
  tr_cleanupIntent : option AcceleratorLeaseCleanupIntent;
  tr_backendStopPending : bool;
  tr_backendStopConfirmed : bool;
}.
#[export] Instance eta_targetReservation : Eta targetReservation := fun r => mkTargetReservation (tr_targetID r)
  (tr_workloadID r) (tr_targetGeneration r) (tr_lease r) (tr_shared r) (tr_predictedVRAMMB r) (tr_reserveVRAMMB r)
  (tr_capacityVRAMMB r) (tr_maxSlowdown r) (tr_exploration r) (tr_profileKey r) (tr_workloadClasses r) (tr_runtimeVersion r)
  (tr_exactProfileKey r) (tr_releaseRequested r) (tr_releaseInFlight r) (tr_released r) (tr_cleanupIntent r)
  (tr_backendStopPending r) (tr_backendStopConfirmed r).

Record companionHold := mkCompanionHold {
  ch_leases : list AcceleratorLease;
  ch_lastNeeded : Time;
}.

(** ** The manager *)

Record Manager := mkManager {
  mgr_store : MemoryStore;
  leaseTTL : Duration;
  targets : gmap string Target;
  targetGenerations : gmap string Z;
  targetActive : gmap string Z;
  targetLeases : gmap string AcceleratorLease;
  activePlacements : gmap string activePlacement;
  targetReleasedAt : gmap string Time;
  capacityReleases : Z;
  reservations : gmap string nat;
  reservationHeap : gmap nat targetReservation;
  nextReservation : nat;
  companions : gmap string companionHold;
  interferenceProfiles : gmap string InterferenceProfile;
  modelCapacityPolicies : gmap string Z;
  defaultMaxAcceleratorsPerModel : Z;
  (** the transition a target waits for, and whether its result was projected *)
  runtimeProfileTransitionTarget : gmap string string;
  runtimeProfileTransitions : gmap string bool;
  runtimeProfileBlockedTargets : gmap string string;
  runtimeProfileBlockedNodes : gmap string string;
  runtimeProfileBlockedCards : gmap string string;
}.
#[export] Instance eta_Manager : Eta Manager := fun r => mkManager (mgr_store r) (leaseTTL r) (targets r)
  (targetGenerations r) (targetActive r) (targetLeases r) (activePlacements r) (targetReleasedAt r) (capacityReleases r)
  (reservations r) (reservationHeap r) (nextReservation r) (companions r) (interferenceProfiles r)
  (modelCapacityPolicies r) (defaultMaxAcceleratorsPerModel r) (runtimeProfileTransitionTarget r)
  (runtimeProfileTransitions r) (runtimeProfileBlockedTargets r) (runtimeProfileBlockedNodes r)
  (runtimeProfileBlockedCards r).

(** A manager that knows no target: leases of half a minute by default, one
    accelerator per model. *)
Definition NewManager (s : MemoryStore) (ttl : Duration) : Manager :=
  mkManager s (if ttl <=? 0 then 30 * second else ttl) ∅ ∅ ∅ ∅ ∅ ∅ 0 ∅ ∅ 0 ∅ ∅ ∅ 1 ∅ ∅ ∅ ∅ ∅.

Definition targetByID (targetID : string) (m : Manager) : Target := default noTarget (targets m !! targetID).
Definition targetGeneration (targetID : string) (m : Manager) : Z := default 0 (targetGenerations m !! targetID).
Definition targetActiveCount (targetID : string) (m : Manager) : Z := default 0 (targetActive m !! targetID).

(** The model's own context pool, if the target has one. *)
Definition modelPool (target : Target) (model : string) : option ModelPool :=
  match tgt_ModelPools target !! model with
  | Some pool => if (model !=? ""%string) && (0 <? mp_PoolTokens pool) && (0 <? mp_Slots pool) && (0 <? mp_MaxRequestTokens pool)
                 then Some pool else None
  | None => None
  end.

(** The slots a request for [requested] competes for; also used by the memory
    check. *)
Definition slotLimit (target : Target) (requested : string) : Z :=
  let slots := match modelPool target requested with Some pool => mp_Slots pool | None => tgt_Slots target end in
  if slots <=? 0 then 1 else slots.

Definition residencyCapacityIdentity (target : Target) : string :=
  join "|"%char (tgt_ID target) (join "|"%char (tgt_Adapter target) (join "|"%char (tgt_RuntimeProtocol target)
    (join "|"%char (tgt_CapabilityVersion target) (tgt_ModelFingerprint target)))).

(** [errors.Is(err, store.ErrNotFound)]. *)
Definition isNotFound {A} (r : result A) : bool :=
  match r with Err ErrNotFound => true | _ => false end.

(** [fmt.Errorf("...: %w", err)]. *)
Definition Errorf_w (prefix : string) (e : error) : error :=
  match e with ErrorsNew msg => ErrorsNew (prefix +:+ ": " +:+ msg) | e => e end.
