(* ===== verification/Admission.v ===== *)
(** * Byte accounting of resident models

    The memory check of [workloads/residency.go]: may a target's runtime load,
    or keep serving, a model on its accelerator?  The check reads the targets
    and active placements of the workload manager and the measured capacities
    and residencies of the store, counts every distinct allocation once, adds
    the measured increments of the requests in flight and a reserve, and
    compares the sum with the limits of the target.

    A [range] visits a map in an arbitrary order ([GoRange]). *)

From S2P Require Import Prelude GoText Domain DomainWorkload DomainNode Store Residency Records WorkloadManager.

(** ** Clock *)

(** The clock is read anew for every measurement that is validated; the
    readings are named by what they validate. *)
Record Readings := mkReadings {
  at_request : Time;
  at_row : ModelResidency -> Time;
  at_envelope : ModelCapacity -> Time;
  at_placement : activePlacement -> Time;
}.

(** ** Measurements *)

Definition modelCapacityMaxAge : Duration := 24 * 3600 * second.

(** The target has memory of one kind only, system memory. *)
Definition unifiedTarget (target : Target) : bool :=
  (cb_VRAMTotalBytes (tgt_Capacity target) <=? 0) && (cb_VRAMHardCapBytes (tgt_Capacity target) <=? 0)
  && (0 <? cb_RAMTotalBytes (tgt_Capacity target)).

Definition validateCapacityBinding (capacity : option ModelCapacity) (target : Target) (now : Time) : result unit :=
  match capacity with
  | None => Err ErrNotFound
  | Some capacity =>
      reject negb (mc_Verified capacity) || (FootprintBytes capacity <=? 0) || (mc_CapacitySource capacity ==? ""%string)
          || negb (HasPrefix (mc_CapacitySource capacity) "runtime:") || (mc_AcceleratorID capacity ==? ""%string)
          || (mc_ModelFingerprint capacity ==? ""%string) || (mc_RuntimeIdentity capacity ==? ""%string)
          || (mc_CapabilityVersion capacity ==? ""%string) || (mc_CapabilityRevision capacity ==? ""%string)
        with ErrorsNew ("capacity measurement is not an authoritative positive observation for target " +:+ tgt_ID target);
      reject (mc_ProfileID capacity !=? tgt_ActiveRuntimeProfile target) || (mc_AcceleratorID capacity !=? tgt_AcceleratorID target)
          || (mc_ModelFingerprint capacity !=? tgt_ModelFingerprint target)
          || (mc_RuntimeIdentity capacity !=? residencyCapacityIdentity target)
          || (mc_CapabilityVersion capacity !=? tgt_CapabilityVersion target)
          || (mc_CapabilityRevision capacity !=? tgt_CapabilityRevision target)
        with ErrorsNew ("capacity measurement identity drifted for target " +:+ tgt_ID target);
      let expectedUnified := unifiedTarget target in
      let expectedHardCap := if (cb_VRAMHardCapBytes (tgt_Capacity target) <=? 0) && expectedUnified
                             then cb_RAMHardCapBytes (tgt_Capacity target) else cb_VRAMHardCapBytes (tgt_Capacity target) in
      reject negb (mc_VRAMTotalBytes capacity =? cb_VRAMTotalBytes (tgt_Capacity target))
          || negb (mc_RAMTotalBytes capacity =? cb_RAMTotalBytes (tgt_Capacity target))
          || negb (mc_VRAMReserveBytes capacity =? cb_VRAMReserveBytes (tgt_Capacity target))
          || negb (mc_RAMReserveBytes capacity =? cb_RAMReserveBytes (tgt_Capacity target))
          || negb (mc_RuntimeHardCapBytes capacity =? expectedHardCap) || (mc_UnifiedMemory capacity !=? expectedUnified)
        with ErrorsNew ("capacity measurement envelope drifted for target " +:+ tgt_ID target);
      reject (mc_ObservedAt capacity =? 0) || (modelCapacityMaxAge <? now - mc_ObservedAt capacity)
          || (now + 300 * second <? mc_ObservedAt capacity)
        with ErrorsNew ("capacity measurement is stale for target " +:+ tgt_ID target);
      Ok tt
  end.

Definition capacityForModel (now : Time) (target : Target) (model : string) (m : Manager) : result ModelCapacity :=
  let? capacity := GetModelCapacity (tgt_ID target) model (tgt_ActiveRuntimeProfile target) (mgr_store m) in
  let? _ := validateCapacityBinding (Some capacity) target now in
  Ok capacity.

(** The single initialised allocation a capacity row stands for. *)
Definition modelCapacityAllocationKey (capacity : option ModelCapacity) : string :=
  match capacity with
  | None => ""
  | Some capacity =>
      join NUL (mc_TargetID capacity) (join NUL (mc_Model capacity) (join NUL (mc_ProfileID capacity)
        (join NUL (mc_RuntimeIdentity capacity) (mc_ModelFingerprint capacity))))
  end.

(** ** Bytes *)

Definition bytesPerMiB : Z := 1024 * 1024.

Definition checkedMiBToBytes (value : Z) (field : string) : result Z :=
  reject value <? 0 with ErrorsNew (field +:+ " must be non-negative");
  reject MaxInt64 / bytesPerMiB <? value with ErrorsNew (field +:+ " overflows int64 bytes");
  Ok (wrap64 (value * bytesPerMiB)).

Definition addCapacityBytes (left right : Z) : result Z :=
  reject (left <? 0) || (right <? 0) || (MaxInt64 - left <? right) with ErrorsNew "capacity byte total overflows int64";
  Ok (wrap64 (left + right)).

Section ranges.
Context {R : GoRange}.

Definition validateTargetMiBFields (target : Target) : result unit :=
  match range_find (fun field value => negb (is_ok (checkedMiBToBytes value field)))
          ({[ "standalone_vram_mb" := tgt_StandaloneVRAMMB target; "accelerator_vram_mb" := tgt_AcceleratorVRAMMB target;
              "vram_reserve_mb" := tgt_VRAMReserveMB target ]} : gmap string Z) with
  | Some (field, value) => let? _ := checkedMiBToBytes value field in Ok tt
  | None => Ok tt
  end.

Definition validateCapacityByteFields (target : Target) : result unit :=
  let capacity := tgt_Capacity target in
  match range_find (fun _ value => value <? 0)
          ({[ "vram_total_bytes" := cb_VRAMTotalBytes capacity; "vram_reserve_bytes" := cb_VRAMReserveBytes capacity;
              "vram_hard_cap_bytes" := cb_VRAMHardCapBytes capacity; "ram_total_bytes" := cb_RAMTotalBytes capacity;
              "ram_reserve_bytes" := cb_RAMReserveBytes capacity; "ram_hard_cap_bytes" := cb_RAMHardCapBytes capacity ]}
           : gmap string Z) with
  | Some (name, _) => Err (ErrorsNew (name +:+ " must be non-negative"))
  | None => Ok tt
  end.

(** Total, reserve and hard cap of the target's VRAM. *)
Definition targetCapacityBytes (target : Target) : result (Z * Z * Z) :=
  let? _ := validateCapacityByteFields target in
  let? _ := validateTargetMiBFields target in
  let total := cb_VRAMTotalBytes (tgt_Capacity target) in
  let reserve := cb_VRAMReserveBytes (tgt_Capacity target) in
  let hardCap := cb_VRAMHardCapBytes (tgt_Capacity target) in
  let? total := (if (total <=? 0) && (0 <? tgt_AcceleratorVRAMMB target)
                 then checkedMiBToBytes (tgt_AcceleratorVRAMMB target) "accelerator_vram_mb" else Ok total) in
  let? reserve := (if (reserve <=? 0) && (0 <? tgt_VRAMReserveMB target)
                   then checkedMiBToBytes (tgt_VRAMReserveMB target) "vram_reserve_mb" else Ok reserve) in
  let hardCap := if hardCap <=? 0 then total else hardCap in
  let hardCap := if (0 <? total) && (total <? hardCap) then total else hardCap in
  Ok (total, reserve, hardCap).

Definition validateActivePlacementBytes (acceleratorID : string) (m : Manager) : result unit :=
  if acceleratorID ==? ""%string then Ok tt
  else
    match range_find (fun _ placement =>
              (pl_acceleratorID placement ==? acceleratorID)
              && (negb (is_ok (checkedMiBToBytes (pl_vramMB placement) "active placement vram_mb"))
                  || (pl_requestIncrementBytes placement <? 0)
                  || (negb (pl_requestIncrementVerified placement) && negb (pl_requestIncrementBytes placement =? 0))))
            (activePlacements m) with
    | Some (_, placement) =>
        let? _ := checkedMiBToBytes (pl_vramMB placement) "active placement vram_mb" in
        Err (ErrorsNew "active request increment is invalid")
    | None => Ok tt
    end.

(** ** Slots and placements *)

Definition checkExclusiveUnmeasuredPlacement (target : Target) (excludeWorkloadID : string) (m : Manager) : result unit :=
  match range_find (fun _ placement =>
            negb ((pl_workloadID placement ==? excludeWorkloadID) || (pl_targetID placement ==? tgt_ID target))
            && (pl_acceleratorID placement ==? tgt_AcceleratorID target)) (activePlacements m) with
  | Some (_, placement) => Err (ErrorsNew ("unmeasured model cannot share accelerator " +:+ tgt_AcceleratorID target
                                           +:+ " with active target " +:+ pl_targetID placement))
  | None => Ok tt
  end.

(** Slots in use on the target, not counting the workload that asks. *)
Definition activeSlots (target : Target) (excludeWorkloadID : string) (m : Manager) : Z :=
  let active := default 0 (targetActive m !! tgt_ID target) in
  match range_find (fun _ placement => (pl_targetID placement ==? tgt_ID target)
                                       && (pl_workloadID placement ==? excludeWorkloadID)) (activePlacements m) with
  | Some _ => wrap64 (active - 1)
  | None => active
  end.

(** The slots of the initialised profile pool that covers the request, and the
    pool's identity; zero when the bound is not verified. *)
Definition verifiedProfileSlotBound (placement : activePlacement) (m : Manager) : Z * string :=
  if (pl_targetID placement ==? ""%string) || (pl_model placement ==? ""%string) || (pl_targetGeneration placement =? 0)
     || (pl_profileID placement ==? ""%string) || (pl_contextTokens placement <=? 0)
  then (0, ""%string)
  else
    let target := targetByID (pl_targetID placement) m in
    if (tgt_ID target ==? ""%string) || (tgt_AcceleratorID target !=? pl_acceleratorID placement)
       || (tgt_ActiveRuntimeProfile target !=? pl_profileID placement)
       || (residencyCapacityIdentity target !=? pl_runtimeIdentity placement) || (tgt_ContextLimit target <=? 0)
       || (tgt_ContextLimit target <? pl_contextTokens placement) || (tgt_Slots target <=? 0)
       || negb (tgt_CapacityVerified target) || (tgt_CapacitySource target !=? "runtime:/slots"%string)
       || negb (targetGeneration (tgt_ID target) m =? pl_targetGeneration placement)
    then (0, ""%string)
    else
      let profileMatches := List.length (List.filter (fun profile =>
            (rcp_ID profile ==? pl_profileID placement) && (rcp_Slots profile =? tgt_Slots target)
            && (rcp_ContextLimit profile =? tgt_ContextLimit target) && (0 <? rcp_Slots profile)
            && (0 <? rcp_ContextLimit profile)) (tgt_RuntimeProfiles target)) in
      if negb (profileMatches =? 1)%nat then (0, ""%string)
      else (tgt_Slots target, join "|"%char (join "|"%char (pl_profileID placement) (Sprint (tgt_ContextLimit target)))
                                       (Sprint (tgt_Slots target))).

Definition verifiedProfileCoversRequest (placement : activePlacement) (capacity : option ModelCapacity)
    (footprintCharged : bool) (m : Manager) : bool :=
  (0 <? (verifiedProfileSlotBound placement m).1) && footprintCharged
  && match capacity with
     | Some capacity => (mc_ProfileID capacity ==? pl_profileID placement) && (0 <? mc_ProfileBytes capacity)
     | None => false
     end.

(** Two measurements describe the same physical accelerator. *)
Definition sameEnvelope (a b : ModelCapacity) : bool :=
  (mc_VRAMTotalBytes a =? mc_VRAMTotalBytes b) && (mc_RAMTotalBytes a =? mc_RAMTotalBytes b)
  && (mc_VRAMReserveBytes a =? mc_VRAMReserveBytes b) && (mc_RAMReserveBytes a =? mc_RAMReserveBytes b)
  && (mc_RuntimeHardCapBytes a =? mc_RuntimeHardCapBytes b) && (mc_UnifiedMemory a ==? mc_UnifiedMemory b).

(** A measurement of this accelerator, made under its target's active profile. *)
Definition envelopeRow (target : Target) (m : Manager) (capacity : ModelCapacity) : bool :=
  (mc_AcceleratorID capacity ==? tgt_AcceleratorID target)
  && negb ((tgt_ID (targetByID (mc_TargetID capacity) m) ==? ""%string)
           || (mc_ProfileID capacity !=? tgt_ActiveRuntimeProfile (targetByID (mc_TargetID capacity) m))).

Fixpoint agreeingEnvelopes (rd : Readings) (target : Target) (m : Manager) (canonical : option ModelCapacity)
    (capacities : list ModelCapacity) : result unit :=
  match capacities with
  | [] => Ok tt
  | capacity :: rest =>
      if negb (envelopeRow target m capacity) then agreeingEnvelopes rd target m canonical rest
      else
        match validateCapacityBinding (Some capacity) (targetByID (mc_TargetID capacity) m) (at_envelope rd capacity), canonical with
        | Err e, _ => Err (Errorf_w ("capacity envelope for " +:+ mc_TargetID capacity +:+ "/" +:+ mc_Model capacity +:+ " is invalid") e)
        | Ok _, None => agreeingEnvelopes rd target m (Some capacity) rest
        | Ok _, Some first =>
            reject negb (sameEnvelope capacity first)
              with ErrorsNew ("physical accelerator " +:+ tgt_AcceleratorID target +:+ " has conflicting measured capacity envelopes");
            agreeingEnvelopes rd target m canonical rest
        end
  end.

Definition validatePhysicalAcceleratorEnvelope (rd : Readings) (target : Target) (m : Manager) : result unit :=
  reject tgt_AcceleratorID target ==? ""%string
    with ErrorsNew ("capacity measurement is missing physical accelerator identity for target " +:+ tgt_ID target);
  agreeingEnvelopes rd target m None (ListModelCapacities "" "" (mgr_store m)).

(** ** The tally *)

(** What an allocation was charged so far. *)
Record modelContribution := mkModelContribution { vram : Z; ram : Z }.

Record tally := mkTally {
  usedVRAM : Z;
  usedRAM : Z;
  countedAllocations : gmap string modelContribution;
  effectiveHardCap : Z;
  enforceVRAM : bool;
}.
#[export] Instance eta_tally : Eta tally := fun r => mkTally (usedVRAM r) (usedRAM r) (countedAllocations r)
  (effectiveHardCap r) (enforceVRAM r).

(** One measured allocation: its key, its footprint in either memory, and the
    hard cap of the runtime that holds it. *)
Record charge := mkCharge {
  ch_key : string;
  ch_vram : Z;
  ch_ram : Z;
  ch_hardCap : Z;
}.

(** The footprint of a capacity row on [onTarget]; [unifiedMemory] says whether
    the target that is checked accounts system memory. *)
Definition measuredCharge (unifiedMemory : bool) (onTarget : Target) (capacity : ModelCapacity) : charge :=
  let footprint := FootprintBytes capacity in
  let onUnified := unifiedTarget onTarget in
  {| ch_key := modelCapacityAllocationKey (Some capacity);
     ch_vram := if negb unifiedMemory || negb onUnified then footprint else 0;
     ch_ram := if (mc_RAMBytes capacity =? 0) && onUnified then footprint else mc_RAMBytes capacity;
     ch_hardCap := mc_RuntimeHardCapBytes capacity |}.

(** An allocation is charged by what it exceeds its earlier charge, so
    requests that share it are charged once. *)
Definition chargeAllocation (c : charge) (t : tally) : result tally :=
  let prior := default (mkModelContribution 0 0) (countedAllocations t !! ch_key c) in
  let? v := (if vram prior <? ch_vram c then addCapacityBytes (usedVRAM t) (wrap64 (ch_vram c - vram prior)) else Ok (usedVRAM t)) in
  let? r := (if ram prior <? ch_ram c then addCapacityBytes (usedRAM t) (wrap64 (ch_ram c - ram prior)) else Ok (usedRAM t)) in
  let prior := mkModelContribution (if vram prior <? ch_vram c then ch_vram c else vram prior)
                                   (if ram prior <? ch_ram c then ch_ram c else ram prior) in
  Ok {| usedVRAM := v; usedRAM := r; countedAllocations := <[ch_key c := prior]> (countedAllocations t);
        effectiveHardCap := if (0 <? ch_hardCap c) && (ch_hardCap c <? effectiveHardCap t) then ch_hardCap c else effectiveHardCap t;
        enforceVRAM := if 0 <? ch_hardCap c then true else enforceVRAM t |}.

(** The target of a hot residency that occupies this accelerator. *)
Definition hotRowTarget (target : Target) (m : Manager) (row : ModelResidency) : option Target :=
  if mr_ObservedTier row !=? "hot_vram"%string then None
  else if (mr_AcceleratorID row !=? ""%string) && (mr_AcceleratorID row !=? tgt_AcceleratorID target) then None
  else if mr_TargetID row !=? tgt_ID target then
    let rowTarget := targetByID (mr_TargetID row) m in
    if (tgt_ID rowTarget ==? ""%string) || (tgt_AcceleratorID rowTarget !=? tgt_AcceleratorID target) then None
    else Some rowTarget
  else Some target.

Definition residentCharge (rd : Readings) (target : Target) (unifiedMemory : bool) (m : Manager) (rowTarget : Target)
    (row : ModelResidency) : result charge :=
  match capacityForModel (at_row rd row) rowTarget (mr_Model row) m with
  | Err _ => Err (ErrorsNew ("capacity measurement missing for resident model " +:+ mr_Model row))
  | Ok capacity =>
      reject FootprintBytes capacity <=? 0 with ErrorsNew ("capacity measurement invalid for resident model " +:+ mr_Model row);
      Ok (measuredCharge unifiedMemory rowTarget capacity)
  end.

Fixpoint chargeRows (rd : Readings) (target : Target) (unifiedMemory : bool) (m : Manager) (rows : list ModelResidency)
    (t : tally) : result tally :=
  match rows with
  | [] => Ok t
  | row :: rest =>
      match hotRowTarget target m row with
      | None => chargeRows rd target unifiedMemory m rest t
      | Some rowTarget =>
          let? c := residentCharge rd target unifiedMemory m rowTarget row in
          let? t := chargeAllocation c t in
          chargeRows rd target unifiedMemory m rest t
      end
  end.

(** The requested model, charged as the target that is checked accounts it. *)
Definition requestedCharge (unifiedMemory : bool) (capacity : ModelCapacity) : charge :=
  let requestedBytes := FootprintBytes capacity in
  {| ch_key := modelCapacityAllocationKey (Some capacity);
     ch_vram := if negb unifiedMemory then requestedBytes else 0;
     ch_ram := if (mc_RAMBytes capacity =? 0) && unifiedMemory then requestedBytes else mc_RAMBytes capacity;
     ch_hardCap := mc_RuntimeHardCapBytes capacity |}.

(** ** Requests in flight *)

Record pool := mkPool { poolUsers : Z; poolSlots : Z; poolIdentity : string }.

Definition stalePlacement (target : Target) (m : Manager) (placement : activePlacement) : bool :=
  let activeTarget := targetByID (pl_targetID placement) m in
  (tgt_ID activeTarget ==? ""%string) || tgt_Cloud activeTarget || (tgt_AcceleratorID activeTarget !=? tgt_AcceleratorID target)
  || (pl_acceleratorID placement !=? tgt_AcceleratorID target) || (pl_targetGeneration placement =? 0)
  || negb (targetGeneration (tgt_ID activeTarget) m =? pl_targetGeneration placement)
  || (tgt_ActiveRuntimeProfile activeTarget !=? pl_profileID placement)
  || (residencyCapacityIdentity activeTarget !=? pl_runtimeIdentity placement).

Definition placementCapacity (rd : Readings) (target : Target) (m : Manager) (placement : activePlacement)
  : result ModelCapacity :=
  let activeTarget := targetByID (pl_targetID placement) m in
  reject stalePlacement target m placement
    with ErrorsNew ("active physical allocation binding is stale for workload " +:+ pl_workloadID placement);
  match capacityForModel (at_placement rd placement) activeTarget (pl_model placement) m with
  | Err e => Err (Errorf_w ("capacity measurement missing for active allocation " +:+ tgt_ID activeTarget +:+ "/" +:+ pl_model placement) e)
  | Ok activeCapacity =>
      reject FootprintBytes activeCapacity <=? 0
        with ErrorsNew ("capacity measurement invalid for active allocation " +:+ tgt_ID activeTarget +:+ "/" +:+ pl_model placement);
      Ok activeCapacity
  end.

Definition joinPool (placement : activePlacement) (m : Manager) (p : pool) : result pool :=
  let '(profileSlots, profileIdentity) := verifiedProfileSlotBound placement m in
  if 0 <? profileSlots then
    reject (poolIdentity p !=? ""%string) && (poolIdentity p !=? profileIdentity)
      with ErrorsNew "active requests disagree on the initialized physical profile pool";
    Ok (mkPool (wrap64 (poolUsers p + 1)) profileSlots profileIdentity)
  else Ok p.

(** The increment of a request, unless its profile's pool already covers it. *)
Definition chargeIncrement (unifiedMemory : bool) (activeCapacity : ModelCapacity) (m : Manager) (placement : activePlacement)
    (t : tally) : result tally :=
  let prior := default (mkModelContribution 0 0)
                 (countedAllocations t !! modelCapacityAllocationKey (Some activeCapacity)) in
  let footprintCharged := (0 <? vram prior) || (0 <? ram prior) in
  if negb (pl_requestIncrementVerified placement) then
    reject negb (verifiedProfileCoversRequest placement (Some activeCapacity) footprintCharged m)
        || ((verifiedProfileSlotBound placement m).1 <=? 0)
      with ErrorsNew ("request increment is unknown and no verified initialized profile/slot/context bound covers workload "
                      +:+ pl_workloadID placement);
    Ok t
  else
    reject pl_requestIncrementBytes placement <? 0 with ErrorsNew "active request increment is negative";
    if unifiedMemory then
      let? used := addCapacityBytes (usedRAM t) (pl_requestIncrementBytes placement) in Ok (t <| usedRAM := used |>)
    else
      let? used := addCapacityBytes (usedVRAM t) (pl_requestIncrementBytes placement) in Ok (t <| usedVRAM := used |>).

Definition chargePlacement (rd : Readings) (target : Target) (unifiedMemory : bool) (m : Manager)
    (placement : activePlacement) (t : tally) (p : pool) : result (tally * pool) :=
  if pl_model placement ==? ""%string then Ok (t, p)
  else
    let? activeCapacity := placementCapacity rd target m placement in
    let? t := chargeAllocation (measuredCharge unifiedMemory (targetByID (pl_targetID placement) m) activeCapacity) t in
    let? p := joinPool placement m p in
    let? t := chargeIncrement unifiedMemory activeCapacity m placement t in
    Ok (t, p).

Fixpoint chargePlacements (rd : Readings) (target : Target) (unifiedMemory : bool) (m : Manager)
    (placements : list activePlacement) (t : tally) (p : pool) : result (tally * pool) :=
  match placements with
  | [] => Ok (t, p)
  | placement :: rest =>
      let? tp := chargePlacement rd target unifiedMemory m placement t p in
      chargePlacements rd target unifiedMemory m rest tp.1 tp.2
  end.

(** ** The check *)

(** The sums against the limits of the target. *)
Definition withinLimits (target : Target) (total reserve : Z) (t : tally) : result unit :=
  let? withReserve := addCapacityBytes (usedVRAM t) reserve in
  reject enforceVRAM t && ((effectiveHardCap t <? withReserve) || ((0 <? total) && (total <? withReserve)))
    with ErrorsNew ("measured resident capacity " +:+ Sprint withReserve +:+ " bytes exceeds target budget "
                    +:+ Sprint (effectiveHardCap t) +:+ " bytes");
  if 0 <? cb_RAMTotalBytes (tgt_Capacity target) then
    let ramLimit := if (cb_RAMHardCapBytes (tgt_Capacity target) <=? 0)
                       || (cb_RAMTotalBytes (tgt_Capacity target) <? cb_RAMHardCapBytes (tgt_Capacity target))
                    then cb_RAMTotalBytes (tgt_Capacity target) else cb_RAMHardCapBytes (tgt_Capacity target) in
    let? withRAMReserve := addCapacityBytes (usedRAM t) (cb_RAMReserveBytes (tgt_Capacity target)) in
    reject ramLimit <? withRAMReserve
      with ErrorsNew ("measured unified-memory capacity " +:+ Sprint withRAMReserve +:+ " bytes exceeds target budget "
                      +:+ Sprint ramLimit +:+ " bytes");
    Ok tt
  else Ok tt.

Definition hasVRAMBudget (total hardCap : Z) : bool := (0 <? total) || (0 <? hardCap).
Definition hasRAMBudget (target : Target) : bool :=
  (0 <? cb_RAMTotalBytes (tgt_Capacity target)) || (0 <? cb_RAMHardCapBytes (tgt_Capacity target)).

(** A model on a local accelerator. *)
Definition physicalRequest (target : Target) (requested : string) : bool :=
  negb (tgt_Cloud target) && (tgt_AcceleratorID target !=? ""%string) && (requested !=? ""%string).

(** The byte-wise check of a request that has a budget or a measurement. *)
Definition checkMeasuredPlacement (rd : Readings) (target : Target) (requested : string) (total reserve hardCap : Z)
    (requestedCapacity : result ModelCapacity) (m : Manager) : result unit :=
  let limit := if hardCap <=? 0 then total else hardCap in
  let limit := if limit <=? 0 then MaxInt64 else limit in
  let rows := ListModelResidencies (mgr_store m) in
  let? _ := validatePhysicalAcceleratorEnvelope rd target m in
  let unifiedMemory := negb (hasVRAMBudget total hardCap) && hasRAMBudget target in
  let? t := chargeRows rd target unifiedMemory m rows (mkTally 0 0 ∅ limit (hasVRAMBudget total hardCap)) in
  match requestedCapacity with
  | Err _ => Err (ErrorsNew ("capacity measurement missing for requested model " +:+ requested))
  | Ok requestedCapacity =>
      reject FootprintBytes requestedCapacity <=? 0
        with ErrorsNew ("capacity measurement invalid for requested model " +:+ requested);
      let? t := chargeAllocation (requestedCharge unifiedMemory requestedCapacity) t in
      let placements := filter (fun placement => pl_acceleratorID placement = tgt_AcceleratorID target)
                               (go_range (activePlacements m)).*2 in
      let? tp := chargePlacements rd target unifiedMemory m placements t (mkPool 0 0 "") in
      reject poolSlots tp.2 <? poolUsers tp.2
        with ErrorsNew ("active request count " +:+ Sprint (poolUsers tp.2) +:+ " exceeds verified physical profile slot cap "
                        +:+ Sprint (poolSlots tp.2));
      withinLimits target total reserve tp.1
  end.

Definition checkResidentCapacityExcluding (rd : Readings) (target : Target) (requested excludeWorkloadID : string) (m : Manager)
  : result unit :=
  let? bytes := targetCapacityBytes target in
  let '(total, reserve, hardCap) := bytes in
  let? _ := validateActivePlacementBytes (tgt_AcceleratorID target) m in
  reject slotLimit target requested <=? activeSlots target excludeWorkloadID m
    with ErrorsNew ("runtime slot/profile cap " +:+ Sprint (slotLimit target requested) +:+ " reached");
  let requestedCapacity := capacityForModel (at_request rd) target requested m in
  if isNotFound requestedCapacity && physicalRequest target requested
     && (List.length (ListModelCapacities (tgt_ID target) requested (mgr_store m)) =? 0)%nat
  then checkExclusiveUnmeasuredPlacement target excludeWorkloadID m
  else if negb (hasVRAMBudget total hardCap) && negb (hasRAMBudget target)
          && match requestedCapacity with Err _ => true | Ok capacity => mc_RuntimeHardCapBytes capacity <=? 0 end
  then if physicalRequest target requested
       then Err (ErrorsNew "physical model request has no enforceable measured capacity budget")
       else Ok tt
  else checkMeasuredPlacement rd target requested total reserve hardCap requestedCapacity m.

Definition checkResidentCapacity (rd : Readings) (target : Target) (requested : string) (m : Manager) : result unit :=
  checkResidentCapacityExcluding rd target requested "" m.

Definition checkResidentCapacityForWorkload (rd : Readings) (target : Target) (requested workloadID : string) (m : Manager)
  : result unit :=
  checkResidentCapacityExcluding rd target requested workloadID m.

End ranges.
