(* ===== verification/AdmissionLoad.v ===== *)
(** * What the byte accounting computes

    A reference for the tally of [Admission]: the bytes of a list of charges
    are the sum, over their distinct allocations, of the largest footprint
    charged for each.  The reference does not depend on the order of the list.
    The loops of the check succeed exactly when every row they visit is
    measured and the reference sums fit [int64], and then hold those sums. *)

From S2P Require Import Prelude GoText Domain DomainWorkload DomainNode Store Residency Records WorkloadManager Admission.

(** ** Printed numbers *)

Lemma Sprint_inj a b : Sprint a = Sprint b -> a = b.
Proof. apply (inj pretty). Qed.

Lemma Sprint_nochar z : nochar "|"%char (Sprint z) = true.
Proof.
  assert (forall x : N, nochar "|"%char (pretty x) = true) as H.
  { intros x. apply pretty_N_nochar. intros d. unfold pretty_N_char. by repeat case_match. }
  destruct z as [|p|p]; [done|apply (H (N.pos p))|]. change (nochar "|"%char ("-" +:+ pretty (N.pos p)) = true). apply H.
Qed.

(** ** Distinct allocations *)

Definition charge_keys (cs : list charge) : list string := remove_dups (ch_key <$> cs).

(** The largest footprint charged for one allocation. *)
Definition peak (f : charge -> Z) (k : string) (cs : list charge) : Z :=
  foldr (fun c acc => if decide (ch_key c = k) then Z.max (f c) acc else acc) 0 cs.

Definition sum_peaks (f : charge -> Z) (cs : list charge) (ks : list string) : Z :=
  foldr (fun k acc => peak f k cs + acc) 0 ks.

(** The bytes of the distinct allocations. *)
Definition load (f : charge -> Z) (cs : list charge) : Z := sum_peaks f cs (charge_keys cs).

Lemma peak_nonneg f k cs : 0 <= peak f k cs.
Proof. induction cs as [|c cs IH]; simpl; [lia|]. case_decide; lia. Qed.

Lemma peak_fresh f k cs : k ∉ ch_key <$> cs -> peak f k cs = 0.
Proof.
  induction cs as [|c cs IH]; [done|]. rewrite fmap_cons, not_elem_of_cons. intros [Hc Hk]. simpl.
  rewrite decide_False by congruence. by apply IH.
Qed.

Lemma peak_ge f c cs : c ∈ cs -> f c <= peak f (ch_key c) cs.
Proof.
  induction 1 as [c cs|c d cs _ IH]; simpl; [rewrite decide_True by done; lia|]. case_decide; lia.
Qed.

#[export] Instance peak_proper f k : Proper ((≡ₚ) ==> (=)) (peak f k).
Proof.
  intros cs ds H. unfold peak. apply (foldr_permutation_proper (=) _ 0); [|done].
  intros a b z. repeat case_decide; lia.
Qed.

#[export] Instance sum_peaks_proper f : Proper ((≡ₚ) ==> (≡ₚ) ==> (=)) (sum_peaks f).
Proof.
  intros cs ds Hc ks ls Hk. unfold sum_peaks. transitivity (foldr (fun k acc => peak f k cs + acc) 0 ls).
  - apply (foldr_permutation_proper (=) _ 0); [|done]. lia.
  - induction ls as [|k ls IH] in Hc |- *; simpl; [done|]. by rewrite Hc, IH.
Qed.

#[export] Instance charge_keys_proper : Proper ((≡ₚ) ==> (≡ₚ)) charge_keys.
Proof.
  intros cs ds H. apply NoDup_Permutation; [apply NoDup_remove_dups..|].
  intros k. unfold charge_keys. by rewrite !elem_of_remove_dups, H.
Qed.

#[export] Instance load_proper f : Proper ((≡ₚ) ==> (=)) (load f).
Proof. intros cs ds H. unfold load. by rewrite H. Qed.

Lemma sum_peaks_app f cs ks ls : sum_peaks f cs (ks ++ ls) = sum_peaks f cs ks + sum_peaks f cs ls.
Proof. induction ks as [|k ks IH]; [done|]. unfold sum_peaks in *. cbn. lia. Qed.

Lemma sum_peaks_nonneg f cs ks : 0 <= sum_peaks f cs ks.
Proof. induction ks as [|k ks IH]; [done|]. pose proof (peak_nonneg f k cs). unfold sum_peaks in *. cbn. lia. Qed.

Lemma sum_peaks_other f c cs ks : ch_key c ∉ ks -> sum_peaks f (c :: cs) ks = sum_peaks f cs ks.
Proof.
  induction ks as [|k ks IH]; [done|]. rewrite not_elem_of_cons. intros [Hk Hn]. simpl.
  rewrite decide_False by done. by rewrite IH.
Qed.

Lemma sum_peaks_same f c cs ks :
  NoDup ks -> ch_key c ∈ ks ->
  sum_peaks f (c :: cs) ks = sum_peaks f cs ks + Z.max 0 (f c - peak f (ch_key c) cs).
Proof.
  induction 1 as [|k ks Hk Hn IH]; [by intros ?%elem_of_nil|].
  intros [Hc|Hin]%elem_of_cons; simpl.
  - subst k. rewrite decide_True, sum_peaks_other by done. pose proof (peak_nonneg f (ch_key c) cs). lia.
  - rewrite decide_False by (intros <-; done). rewrite IH by done. lia.
Qed.

(** Charging one more allocation costs what it exceeds the earlier charges. *)
Lemma load_cons f c cs : load f (c :: cs) = load f cs + Z.max 0 (f c - peak f (ch_key c) cs).
Proof.
  unfold load, charge_keys. rewrite fmap_cons. simpl. case_decide as Hin.
  - apply sum_peaks_same; [apply NoDup_remove_dups|by apply elem_of_remove_dups].
  - rewrite peak_fresh by done. simpl. rewrite decide_True, peak_fresh by done.
    rewrite sum_peaks_other by (by rewrite elem_of_remove_dups). lia.
Qed.

Lemma load_nonneg f cs : 0 <= load f cs.
Proof. induction cs as [|c cs IH]; [done|]. rewrite load_cons. lia. Qed.

Lemma load_app_le f ds cs : load f cs <= load f (ds ++ cs).
Proof. induction ds as [|d ds IH]; simpl; [done|]. rewrite load_cons. lia. Qed.

(** Fewer allocations weigh no more. *)
Lemma load_submseteq f cs ds : cs ⊆+ ds -> load f cs <= load f ds.
Proof. intros [es ->]%submseteq_Permutation. rewrite (Permutation_app_comm cs es). apply load_app_le. Qed.

(** Any duplicate-free part of the allocations weighs no more than the load. *)
Lemma load_part f cs (A : Type) (key : A -> string) (w : A -> Z) (l : list A) :
  NoDup (key <$> l) -> (forall a, a ∈ l -> exists c, c ∈ cs /\ ch_key c = key a /\ w a <= f c) ->
  foldr (fun a acc => w a + acc) 0 l <= load f cs.
Proof.
  intros Hn Hin. transitivity (sum_peaks f cs (key <$> l)).
  - clear Hn. induction l as [|a l IH]; [done|]. rewrite fmap_cons. cbn [foldr sum_peaks].
    destruct (Hin a ltac:(left)) as (c & Hc & <- & Hw). pose proof (peak_ge f c cs Hc).
    specialize (IH ltac:(intros b Hb; apply Hin; by right)). unfold sum_peaks in IH. lia.
  - unfold load. assert (key <$> l ⊆+ charge_keys cs) as [ks ->]%submseteq_Permutation.
    2:{ rewrite sum_peaks_app. pose proof (sum_peaks_nonneg f cs ks). lia. }
    apply NoDup_submseteq; [done|]. intros k (a & -> & Ha)%list_elem_of_fmap.
    destruct (Hin a Ha) as (c & Hc & <- & _). apply elem_of_remove_dups, list_elem_of_fmap. eauto.
Qed.

(** ** One charge *)

Definition charge_wf (c : charge) : Prop := ch_vram c <= MaxInt64 /\ ch_ram c <= MaxInt64.

(** The sums an [int64] can hold; [iv] and [ir] are the request increments. *)
Definition sums_fit (cs : list charge) (iv ir : Z) : Prop :=
  load ch_vram cs + iv <= MaxInt64 /\ load ch_ram cs + ir <= MaxInt64.

#[export] Instance sums_fit_proper : Proper ((≡ₚ) ==> (=) ==> (=) ==> iff) sums_fit.
Proof. intros cs ds H iv _ <- ir _ <-. unfold sums_fit. by rewrite H. Qed.

Lemma sums_fit_part ds cs iv ir iv' ir' :
  iv <= iv' -> ir <= ir' -> sums_fit (ds ++ cs) iv' ir' -> sums_fit cs iv ir.
Proof.
  intros Hv Hr [Fv Fr]. pose proof (load_app_le ch_vram ds cs). pose proof (load_app_le ch_ram ds cs).
  unfold sums_fit. lia.
Qed.

(** The tally [t] of the charges [cs], the increments and the target's own
    limit [limit]. *)
Record tallied (limit : Z) (budget : bool) (cs : list charge) (iv ir : Z) (t : tally) : Prop := {
  ta_vram : usedVRAM t = load ch_vram cs + iv;
  ta_ram : usedRAM t = load ch_ram cs + ir;
  ta_counted : forall k, default (mkModelContribution 0 0) (countedAllocations t !! k)
                         = mkModelContribution (peak ch_vram k cs) (peak ch_ram k cs);
  ta_cap : forall v, v <= effectiveHardCap t <-> v <= limit /\ forall c, c ∈ cs -> 0 < ch_hardCap c -> v <= ch_hardCap c;
  ta_enforce : enforceVRAM t = true <-> budget = true \/ exists c, c ∈ cs /\ 0 < ch_hardCap c;
  ta_fit : sums_fit cs iv ir;
  ta_incs : 0 <= iv /\ 0 <= ir;
}.

Lemma tallied_perm limit budget cs ds iv ir t :
  cs ≡ₚ ds -> tallied limit budget cs iv ir t -> tallied limit budget ds iv ir t.
Proof.
  intros H [Hv Hr Hc Hl He Hf Hi]. split; [by rewrite <- H..| | | | |done].
  - intros k. by rewrite <- H.
  - intros v. setoid_rewrite <- H. apply Hl.
  - setoid_rewrite <- H. apply He.
  - by rewrite <- H.
Qed.

#[export] Instance tallied_proper limit budget :
  Proper ((≡ₚ) ==> (=) ==> (=) ==> (=) ==> iff) (tallied limit budget).
Proof. intros cs ds H iv _ <- ir _ <- t _ <-. split; by apply tallied_perm. Qed.

Lemma addCapacityBytes_spec l r :
  0 <= l <= MaxInt64 -> 0 <= r ->
  match addCapacityBytes l r with Ok s => s = l + r /\ l + r <= MaxInt64 | Err _ => MaxInt64 < l + r end.
Proof.
  unfold addCapacityBytes. intros Hl Hr. destruct (_ || _ || _) eqn:E.
  - rewrite !orb_true_iff, !Z.ltb_lt in E. lia.
  - bool_simp. rewrite wrap64_small by (unfold MaxInt64 in *; lia). lia.
Qed.

(** What a charge adds to a sum: nothing, or the excess over the earlier ones. *)
Lemma charge_sum f c cs (used i : Z) :
  used = load f cs + i -> 0 <= i -> used <= MaxInt64 -> f c <= MaxInt64 ->
  match (if peak f (ch_key c) cs <? f c then addCapacityBytes used (wrap64 (f c - peak f (ch_key c) cs)) else Ok used) with
  | Ok s => s = load f (c :: cs) + i /\ load f (c :: cs) + i <= MaxInt64
  | Err _ => MaxInt64 < load f (c :: cs) + i
  end.
Proof.
  intros -> Hi Hm Hc. pose proof (load_nonneg f cs). pose proof (peak_nonneg f (ch_key c) cs). rewrite load_cons.
  destruct (_ <? _) eqn:E; bool_simp; [|lia].
  rewrite wrap64_small by (unfold MaxInt64 in *; lia).
  pose proof (addCapacityBytes_spec (load f cs + i) (f c - peak f (ch_key c) cs)) as H'.
  destruct (addCapacityBytes _ _); lia.
Qed.

Lemma peak_cons f c cs k :
  peak f k (c :: cs) = if decide (ch_key c = k) then (if peak f k cs <? f c then f c else peak f k cs) else peak f k cs.
Proof. simpl. case_decide; [|done]. destruct (_ <? _) eqn:E; bool_simp; lia. Qed.

Lemma chargeAllocation_spec limit budget cs iv ir t c :
  tallied limit budget cs iv ir t -> charge_wf c ->
  match chargeAllocation c t with
  | Ok t' => tallied limit budget (c :: cs) iv ir t'
  | Err _ => ~ sums_fit (c :: cs) iv ir
  end.
Proof.
  intros [Hv Hr Hc Hl He [Fv Fr] [Iv Ir]] [Wv Wr]. unfold chargeAllocation. rewrite Hc. cbn [vram ram].
  pose proof (charge_sum ch_vram c cs (usedVRAM t) iv Hv Iv) as Sv.
  pose proof (charge_sum ch_ram c cs (usedRAM t) ir Hr Ir) as Sr.
  destruct (if peak ch_vram _ _ <? _ then _ else _) as [v|]; [|unfold sums_fit; lia].
  destruct (if peak ch_ram _ _ <? _ then _ else _) as [r|]; [|unfold sums_fit; lia].
  split; cbn [usedVRAM usedRAM countedAllocations effectiveHardCap enforceVRAM]; [lia|lia| | | |unfold sums_fit; lia|done].
  - intros k. rewrite !peak_cons. case_decide as E; [subst k; by rewrite lookup_insert_eq|].
    by rewrite lookup_insert_ne.
  - intros x. setoid_rewrite elem_of_cons.
    destruct ((0 <? _) && _) eqn:E; [|apply andb_false_iff in E as [E|E]]; bool_simp; specialize (Hl x).
    + split; [|naive_solver]. intros Hx. split; [apply Hl; lia|]. intros d [->|Hd] Hp; [done|]. apply Hl; [lia|done..].
    + rewrite Hl. split; [|naive_solver]. intros [? H]. split; [done|]. intros d [->|Hd] Hp; [lia|auto].
    + split; [|naive_solver]. intros Hx. split; [by apply Hl|]. intros d [->|Hd] Hp; [lia|]. by apply Hl.
  - setoid_rewrite elem_of_cons. destruct (0 <? _) eqn:E; bool_simp.
    + split; [|done]. intros _. right. exists c. auto.
    + rewrite He. split; [naive_solver|]. intros [?|(d & [->|?] & ?)]; [by left|lia|eauto].
Qed.

#[export] Instance omap_perm {A B} (f : A -> option B) : Proper ((≡ₚ) ==> (≡ₚ)) (omap f).
Proof.
  induction 1 as [|x l l' H IH|x y l|l l' l'' H1 IH1 H2 IH2]; cbn; [done| | |by etransitivity].
  - destruct (f x); [by apply perm_skip|done].
  - destruct (f x), (f y); try done. apply perm_swap.
Qed.

(** ** Measured footprints *)

(** The bytes of the store's capacity rows are [int64] values, and their
    system memory is not negative, as [UpsertModelCapacity] requires. *)
Definition capacity_wf (c : ModelCapacity) : Prop :=
  is_int64 (mc_ModelBytes c) /\ is_int64 (mc_ProfileBytes c) /\ 0 <= mc_RAMBytes c <= MaxInt64.

Definition manager_wf (m : Manager) : Prop :=
  (forall k c, modelCapacities (mgr_store m) !! k = Some c -> capacity_wf c)
  /\ Z.of_nat (size (activePlacements m)) <= MaxInt64.

Lemma FootprintBytes_bound c : capacity_wf c -> FootprintBytes c <= MaxInt64.
Proof.
  intros (Hm & Hp & _). unfold is_int64, FootprintBytes in *. destruct (_ || _) eqn:E; [unfold MaxInt64; lia|].
  bool_simp. rewrite (wrap64_small (MaxInt64 - _)) by (unfold MaxInt64 in *; lia).
  destruct (_ <? _) eqn:E'; [unfold MaxInt64; lia|]. bool_simp. rewrite wrap64_small by (unfold MaxInt64 in *; lia). lia.
Qed.

Lemma capacityForModel_row now target model m c :
  capacityForModel now target model m = Ok c ->
  modelCapacities (mgr_store m) !! modelCapacityKey (tgt_ID target) model (tgt_ActiveRuntimeProfile target) = Some c
  /\ 0 < FootprintBytes c /\ mc_ProfileID c = tgt_ActiveRuntimeProfile target
  /\ mc_AcceleratorID c = tgt_AcceleratorID target.
Proof.
  unfold capacityForModel, GetModelCapacity. destruct (_ !! _) as [c'|] eqn:E; [|done].
  destruct (validateCapacityBinding _ _ _) as [[]|] eqn:Eb; [|done]. intros [= ->].
  unfold validateCapacityBinding in Eb. repeat branch Eb. bool_simp. done.
Qed.

Lemma capacityForModel_wf now target model m c :
  manager_wf m -> capacityForModel now target model m = Ok c -> capacity_wf c.
Proof. intros [W _] (Hc & _)%capacityForModel_row. by apply (W _ _ Hc). Qed.

Lemma measuredCharge_wf unified onTarget c :
  capacity_wf c -> charge_wf (measuredCharge unified onTarget c).
Proof.
  intros W. pose proof (FootprintBytes_bound c W). destruct W as (_ & _ & Hr).
  unfold charge_wf, measuredCharge. cbn. split; case_match; unfold MaxInt64 in *; lia.
Qed.

Lemma requestedCharge_wf unified c : capacity_wf c -> charge_wf (requestedCharge unified c).
Proof.
  intros W. pose proof (FootprintBytes_bound c W). destruct W as (_ & _ & Hr).
  unfold charge_wf, requestedCharge. cbn. split; case_match; unfold MaxInt64 in *; lia.
Qed.

(** ** The loops *)

Section loops.
Context (rd : Readings) (target : Target) (unified : bool) (m : Manager).
Context (limit : Z) (budget : bool).

(** A hot residency on the accelerator has a valid measurement. *)
Definition row_measured (row : ModelResidency) : Prop :=
  forall rowTarget, hotRowTarget target m row = Some rowTarget ->
  exists c, residentCharge rd target unified m rowTarget row = Ok c.

Definition row_charge (row : ModelResidency) : option charge :=
  match hotRowTarget target m row with
  | Some rowTarget => match residentCharge rd target unified m rowTarget row with Ok c => Some c | Err _ => None end
  | None => None
  end.

Lemma residentCharge_inv rowTarget row c :
  residentCharge rd target unified m rowTarget row = Ok c ->
  exists capacity, capacityForModel (at_row rd row) rowTarget (mr_Model row) m = Ok capacity
    /\ c = measuredCharge unified rowTarget capacity.
Proof.
  unfold residentCharge. destruct (capacityForModel _ _ _ _) as [capacity|]; [|done].
  case_match; [done|]. intros [= <-]. eauto.
Qed.

Lemma chargeRows_spec rows cs iv ir t :
  manager_wf m -> tallied limit budget cs iv ir t ->
  match chargeRows rd target unified m rows t with
  | Ok t' => Forall row_measured rows /\ tallied limit budget (omap row_charge rows ++ cs) iv ir t'
  | Err _ => ~ (Forall row_measured rows /\ sums_fit (omap row_charge rows ++ cs) iv ir)
  end.
Proof.
  intros W. revert cs t. induction rows as [|row rows IH]; intros cs t T; simpl; [auto|].
  destruct (hotRowTarget _ _ _) as [rt|] eqn:Er.
  2:{ assert (row_charge row = None) as -> by (unfold row_charge; by rewrite Er).
      assert (row_measured row) by (intros ? ?; congruence).
      specialize (IH cs t T). destruct (chargeRows _ _ _ _ _ _); rewrite Forall_cons; naive_solver. }
  destruct (residentCharge _ _ _ _ _ _) as [c|e] eqn:Ec.
  2:{ rewrite Forall_cons. intros [[H _] _]. destruct (H rt Er) as [c Hc]. congruence. }
  assert (row_charge row = Some c) as -> by (unfold row_charge; by rewrite Er, Ec).
  assert (row_measured row) as Hrow by (intros rt' ?; simplify_eq; eauto).
  assert (charge_wf c) as Wc.
  { apply residentCharge_inv in Ec as (capacity & Ec & ->). apply measuredCharge_wf. by eapply capacityForModel_wf. }
  pose proof (chargeAllocation_spec _ _ _ _ _ _ c T Wc) as Hs. simpl.
  assert (c :: omap row_charge rows ++ cs ≡ₚ omap row_charge rows ++ c :: cs) as Hp by apply Permutation_middle.
  destruct (chargeAllocation c t) as [t'|e].
  - specialize (IH _ _ Hs). destruct (chargeRows _ _ _ _ _ _) as [t''|e]; rewrite Forall_cons.
    + rewrite Hp. by destruct IH.
    + intros [[_ Hf] Hs']. apply IH. split; [done|]. by rewrite <- Hp.
  - rewrite Hp. intros [_ Hf]. apply Hs. by eapply sums_fit_part, Hf.
Qed.

(** The request needs no bytes beyond its verified increment, or beyond the
    slots of an initialised profile that is part of the footprint. *)
Definition covered (placement : activePlacement) (capacity : ModelCapacity) : Prop :=
  if pl_requestIncrementVerified placement then 0 <= pl_requestIncrementBytes placement
  else 0 < (verifiedProfileSlotBound placement m).1 /\ 0 < mc_ProfileBytes capacity.

Definition placement_measured (placement : activePlacement) : Prop :=
  pl_model placement = ""%string
  \/ exists capacity, placementCapacity rd target m placement = Ok capacity /\ covered placement capacity.

Definition placement_charge (placement : activePlacement) : option charge :=
  if pl_model placement ==? ""%string then None
  else match placementCapacity rd target m placement with
       | Ok capacity => Some (measuredCharge unified (targetByID (pl_targetID placement) m) capacity)
       | Err _ => None
       end.

Definition increment (placement : activePlacement) : Z :=
  if (pl_model placement !=? ""%string) && pl_requestIncrementVerified placement then pl_requestIncrementBytes placement else 0.
Definition increments (placements : list activePlacement) : Z := foldr (fun p acc => increment p + acc) 0 placements.

(** Increments are bytes of the memory the checked target accounts. *)
Definition in_vram (i : Z) : Z := if unified then 0 else i.
Definition in_ram (i : Z) : Z := if unified then i else 0.

(** Requests that share a verified profile pool. *)
Definition pooled (placement : activePlacement) : Prop := 0 < (verifiedProfileSlotBound placement m).1.
#[export] Instance pooled_dec placement : Decision (pooled placement) := _.

Definition pool_agree (qs : list activePlacement) : Prop :=
  forall a b, a ∈ qs -> b ∈ qs -> (verifiedProfileSlotBound a m).2 = (verifiedProfileSlotBound b m).2.

Definition pool_state (qs : list activePlacement) (p : pool) : Prop :=
  poolUsers p = Z.of_nat (length qs)
  /\ (forall q, q ∈ qs -> verifiedProfileSlotBound q m = (poolSlots p, poolIdentity p))
  /\ (qs = [] -> poolSlots p = 0 /\ poolIdentity p = ""%string).

Lemma verifiedProfileSlotBound_inv placement :
  pooled placement -> exists context,
  verifiedProfileSlotBound placement m
    = ((verifiedProfileSlotBound placement m).1,
       join "|"%char (join "|"%char (pl_profileID placement) (Sprint context)) (Sprint (verifiedProfileSlotBound placement m).1)).
Proof.
  unfold pooled, verifiedProfileSlotBound. case_match; [done|]. case_match; [done|]. case_match; [done|]. cbn. eauto.
Qed.

Lemma pool_identity_slots a b :
  pooled a -> pooled b -> (verifiedProfileSlotBound a m).2 = (verifiedProfileSlotBound b m).2 ->
  verifiedProfileSlotBound a m = verifiedProfileSlotBound b m.
Proof.
  intros Ha Hb He. destruct (verifiedProfileSlotBound_inv a Ha) as [ca Ea].
  destruct (verifiedProfileSlotBound_inv b Hb) as [cb Eb].
  destruct (verifiedProfileSlotBound a m) as [sa ia], (verifiedProfileSlotBound b m) as [sb ib].
  cbn in *. injection Ea as ->. injection Eb as ->. f_equal; [|done]. apply join_inj_r in He as [_ Hs]; [by apply Sprint_inj|apply Sprint_nochar..].
Qed.

Lemma joinPool_spec placement qs p :
  pool_state qs p -> Forall pooled qs -> Z.of_nat (length qs) < MaxInt64 ->
  match joinPool placement m p with
  | Ok p' => pool_state (filter pooled [placement] ++ qs) p'
  | Err _ => ~ pool_agree (filter pooled [placement] ++ qs)
  end.
Proof.
  intros (Hu & Hq & Hn) Hp Hl. unfold joinPool. cbn [filter list_filter].
  destruct (verifiedProfileSlotBound placement m) as [slots identity] eqn:Eb.
  destruct (0 <? slots) eqn:Es; bool_simp.
  2:{ rewrite decide_False by (unfold pooled; rewrite Eb; cbn; lia). done. }
  assert (pooled placement) as Hpl by (unfold pooled; by rewrite Eb).
  rewrite decide_True by done. destruct qs as [|q qs].
  - destruct (Hn eq_refl) as [_ ->]. rewrite Hu. cbn. split; [done|]. split; [|done]. by intros ? ->%list_elem_of_singleton.
  - assert (verifiedProfileSlotBound q m = (poolSlots p, poolIdentity p)) as Hqb by (apply Hq; left).
    destruct ((_ !=? _) && _) eqn:E; bool_simp; cbn [app].
    + intros Ha. specialize (Ha placement q ltac:(left) ltac:(right; left)). rewrite Eb, Hqb in Ha. by cbn in Ha.
    + apply Forall_cons in Hp as [Hpq _].
      assert (identity = poolIdentity p) as ->.
      { apply andb_false_iff in E as [E|E]; bool_simp; [|done]. exfalso.
        destruct (verifiedProfileSlotBound_inv q Hpq) as [c Hc]. rewrite Hqb, E in Hc.
        injection Hc as Hc. by destruct (pl_profileID q). }
      assert (verifiedProfileSlotBound placement m = verifiedProfileSlotBound q m) as Hs.
      { apply pool_identity_slots; [done|done|]. by rewrite Eb, Hqb. }
      rewrite Eb, Hqb in Hs. injection Hs as ->.
      split; [cbn [poolUsers]; rewrite wrap64_small, Hu by (unfold MaxInt64 in *; lia); cbn [length]; lia|].
      split; [|done]. intros r [->|Hr]%elem_of_cons; [done|by apply Hq].
Qed.

Lemma measuredCharge_positive onTarget capacity cs :
  capacity_wf capacity -> 0 < FootprintBytes capacity ->
  let c := measuredCharge unified onTarget capacity in
  (0 <? peak ch_vram (ch_key c) (c :: cs)) || (0 <? peak ch_ram (ch_key c) (c :: cs)) = true.
Proof.
  intros (_ & _ & Hr) Hf c. rewrite orb_true_iff, !Z.ltb_lt.
  pose proof (peak_ge ch_vram c (c :: cs) ltac:(left)) as Pv. pose proof (peak_ge ch_ram c (c :: cs) ltac:(left)) as Pr.
  assert (0 < ch_vram c \/ 0 < ch_ram c); [|lia].
  unfold c, measuredCharge. cbn. destruct unified, (unifiedTarget onTarget); cbn; [|lia..].
  right. rewrite andb_true_r. case_match; bool_simp; lia.
Qed.

(** Adding an increment to the sum it belongs to. *)
Lemma tallied_increment cs iv ir t i :
  tallied limit budget cs iv ir t -> 0 <= i ->
  match (if unified then let? used := addCapacityBytes (usedRAM t) i in Ok (t <| usedRAM := used |>)
         else let? used := addCapacityBytes (usedVRAM t) i in Ok (t <| usedVRAM := used |>)) with
  | Ok t' => tallied limit budget cs (iv + in_vram i) (ir + in_ram i) t'
  | Err _ => ~ sums_fit cs (iv + in_vram i) (ir + in_ram i)
  end.
Proof.
  intros [Hv Hr Hc Hl He [Fv Fr] [Iv Ir]] Hi. unfold in_vram, in_ram.
  pose proof (load_nonneg ch_vram cs). pose proof (load_nonneg ch_ram cs).
  destruct unified.
  - pose proof (addCapacityBytes_spec (usedRAM t) i) as Ha.
    destruct (addCapacityBytes _ _); [|unfold sums_fit; lia]. split; cbn; [lia|lia|exact Hc|exact Hl|exact He|split; lia|lia].
  - pose proof (addCapacityBytes_spec (usedVRAM t) i) as Ha.
    destruct (addCapacityBytes _ _); [|unfold sums_fit; lia]. split; cbn; [lia|lia|exact Hc|exact Hl|exact He|split; lia|lia].
Qed.

Lemma chargeIncrement_spec placement capacity cs iv ir t :
  tallied limit budget cs iv ir t -> pl_model placement <> ""%string -> mc_ProfileID capacity = pl_profileID placement ->
  (0 <? peak ch_vram (modelCapacityAllocationKey (Some capacity)) cs)
    || (0 <? peak ch_ram (modelCapacityAllocationKey (Some capacity)) cs) = true ->
  match chargeIncrement unified capacity m placement t with
  | Ok t' => covered placement capacity
             /\ tallied limit budget cs (iv + in_vram (increment placement)) (ir + in_ram (increment placement)) t'
  | Err _ => ~ (covered placement capacity
                /\ sums_fit cs (iv + in_vram (increment placement)) (ir + in_ram (increment placement)))
  end.
Proof.
  intros T Hm Hp Hf. unfold chargeIncrement. rewrite (ta_counted _ _ _ _ _ _ T). cbn [vram ram].
  unfold covered, increment. rewrite bool_decide_eq_false_2 by done. cbn [negb andb].
  destruct (pl_requestIncrementVerified placement); cbn [negb].
  - destruct (_ <? 0) eqn:E; bool_simp; [lia|]. pose proof (tallied_increment _ _ _ _ _ T E) as Hi.
    destruct unified, (addCapacityBytes _ _); tauto.
  - unfold verifiedProfileCoversRequest. rewrite Hf, Hp, bool_decide_eq_true_2 by done. cbn [andb]. rewrite andb_true_r.
    assert (iv + in_vram 0 = iv) as -> by (unfold in_vram; destruct unified; lia).
    assert (ir + in_ram 0 = ir) as -> by (unfold in_ram; destruct unified; lia).
    destruct (negb _ || _) eqn:E.
    + rewrite orb_true_iff, negb_true_iff, andb_false_iff, !Z.ltb_ge, Z.leb_le in E. lia.
    + bool_simp. auto.
Qed.

Lemma placementCapacity_inv placement capacity :
  placementCapacity rd target m placement = Ok capacity ->
  capacityForModel (at_placement rd placement) (targetByID (pl_targetID placement) m) (pl_model placement) m = Ok capacity
  /\ 0 < FootprintBytes capacity /\ mc_ProfileID capacity = pl_profileID placement.
Proof.
  unfold placementCapacity. destruct (stalePlacement _ _ _) eqn:Es; [done|].
  destruct (capacityForModel _ _ _ _) as [c|] eqn:Ec; [|done]. case_match; [done|]. intros [= ->].
  apply capacityForModel_row in Ec as (_ & Hf & Hp & _). split; [done|]. split; [done|].
  unfold stalePlacement in Es. bool_simp. congruence.
Qed.

Lemma chargePlacement_spec placement cs iv ir t qs p :
  manager_wf m -> tallied limit budget cs iv ir t ->
  pool_state qs p -> Forall pooled qs -> Z.of_nat (length qs) < MaxInt64 ->
  match chargePlacement rd target unified m placement t p with
  | Ok (t', p') => placement_measured placement
      /\ tallied limit budget (omap placement_charge [placement] ++ cs)
           (iv + in_vram (increment placement)) (ir + in_ram (increment placement)) t'
      /\ pool_state (filter pooled [placement] ++ qs) p'
  | Err _ => ~ (placement_measured placement /\ pool_agree (filter pooled [placement] ++ qs)
      /\ sums_fit (omap placement_charge [placement] ++ cs)
           (iv + in_vram (increment placement)) (ir + in_ram (increment placement)))
  end.
Proof.
  intros W T P Hq Hl. pose proof (joinPool_spec placement qs p P Hq Hl) as HP.
  unfold chargePlacement, placement_measured. cbn [omap list_omap]. unfold placement_charge.
  case_bool_decide as Em.
  { unfold increment. rewrite bool_decide_eq_true_2 by done. cbn [negb andb app].
    assert (iv + in_vram 0 = iv) as -> by (unfold in_vram; destruct unified; lia).
    assert (ir + in_ram 0 = ir) as -> by (unfold in_ram; destruct unified; lia).
    assert (filter pooled [placement] = []) as ->; [|auto].
    rewrite filter_cons_False; [done|]. unfold pooled, verifiedProfileSlotBound. rewrite Em.
    rewrite (bool_decide_eq_true_2 (""%string = ""%string)) by done. rewrite orb_true_r. cbn. lia. }
  destruct (placementCapacity _ _ _ _) as [capacity|] eqn:Ec; [|naive_solver].
  apply placementCapacity_inv in Ec as (Ec & Hf & Hp). pose proof (capacityForModel_wf _ _ _ _ _ W Ec) as Wc.
  set (c := measuredCharge unified _ capacity). cbn [app].
  pose proof (chargeAllocation_spec _ _ _ _ _ _ c T (measuredCharge_wf _ _ _ Wc)) as Hc.
  destruct (chargeAllocation c t) as [t'|].
  2:{ intros ([|(c' & [= <-] & Hcov)] & _ & Hs); [done|]. apply Hc. eapply (sums_fit_part []), Hs.
      1-2: unfold covered, increment, in_vram, in_ram in *; repeat case_match; lia. }
  destruct (joinPool placement m p) as [p'|]; [|naive_solver].
  pose proof (chargeIncrement_spec placement capacity _ _ _ _ Hc Em Hp
                (measuredCharge_positive _ _ _ Wc Hf)) as Hi.
  destruct (chargeIncrement _ _ _ _ _) as [t''|]; naive_solver.
Qed.

Lemma increment_nonneg placement : placement_measured placement -> 0 <= in_vram (increment placement) /\ 0 <= in_ram (increment placement).
Proof.
  unfold placement_measured, covered, increment, in_vram, in_ram. intros [->|(c & _ & H)].
  - rewrite bool_decide_eq_true_2 by done. cbn. destruct unified; lia.
  - case_bool_decide; destruct (pl_requestIncrementVerified placement), unified; cbn; lia.
Qed.

Lemma increments_cons placement rest :
  in_vram (increments (placement :: rest)) = in_vram (increment placement) + in_vram (increments rest)
  /\ in_ram (increments (placement :: rest)) = in_ram (increment placement) + in_ram (increments rest).
Proof. unfold in_vram, in_ram, increments. cbn [foldr]. destruct unified; lia. Qed.

Lemma increments_nonneg placements :
  Forall placement_measured placements -> 0 <= in_vram (increments placements) /\ 0 <= in_ram (increments placements).
Proof.
  induction 1 as [|p ps Hp Hps IH]; [unfold in_vram, in_ram; destruct unified; cbn; lia|].
  destruct (increments_cons p ps) as [-> ->]. apply increment_nonneg in Hp. lia.
Qed.

Lemma Forall_filter_same ps : Forall pooled (filter pooled ps).
Proof. apply Forall_forall. by intros q [? _]%list_elem_of_filter. Qed.

#[export] Instance increments_proper : Proper ((≡ₚ) ==> (=)) increments.
Proof. intros ps qs H. apply (foldr_permutation_proper (=) _ 0); [lia|done]. Qed.

Lemma pool_agree_incl qs qs' : (forall q, q ∈ qs -> q ∈ qs') -> pool_agree qs' -> pool_agree qs.
Proof. intros H Ha a b Hin Hb. apply Ha; auto. Qed.

Lemma pool_state_perm qs qs' p : qs ≡ₚ qs' -> pool_state qs p -> pool_state qs' p.
Proof.
  intros H (Hu & Hq & Hn). split; [by rewrite <- H|]. split; [intros q; rewrite <- H; apply Hq|].
  intros ->. apply Hn, Permutation_nil_r. done.
Qed.

#[export] Instance pool_state_proper : Proper ((≡ₚ) ==> (=) ==> iff) pool_state.
Proof. intros qs qs' H p _ <-. split; by apply pool_state_perm. Qed.

#[export] Instance pool_agree_proper : Proper ((≡ₚ) ==> iff) pool_agree.
Proof. intros qs qs' H. split; apply pool_agree_incl; intros q; by rewrite H. Qed.

Lemma chargePlacements_spec placements cs iv ir t qs p :
  manager_wf m -> tallied limit budget cs iv ir t ->
  pool_state qs p -> Forall pooled qs -> Z.of_nat (length qs + length placements) <= MaxInt64 ->
  match chargePlacements rd target unified m placements t p with
  | Ok (t', p') => Forall placement_measured placements
      /\ tallied limit budget (omap placement_charge placements ++ cs)
           (iv + in_vram (increments placements)) (ir + in_ram (increments placements)) t'
      /\ pool_state (filter pooled placements ++ qs) p'
  | Err _ => ~ (Forall placement_measured placements /\ pool_agree (filter pooled placements ++ qs)
      /\ sums_fit (omap placement_charge placements ++ cs)
           (iv + in_vram (increments placements)) (ir + in_ram (increments placements)))
  end.
Proof.
  intros W. revert cs iv ir t qs p. induction placements as [|pl rest IH]; intros cs iv ir t qs p T P Hq Hl.
  { cbn. unfold in_vram, in_ram. destruct unified; rewrite !Z.add_0_r; auto. }
  cbn [length] in Hl. pose proof (chargePlacement_spec pl cs iv ir t qs p W T P Hq ltac:(lia)) as Hs.
  cbn [chargePlacements]. destruct (increments_cons pl rest) as [-> ->]. rewrite !Z.add_assoc.
  assert (omap placement_charge (pl :: rest) ++ cs ≡ₚ omap placement_charge rest ++ (omap placement_charge [pl] ++ cs)) as Hc.
  { rewrite (app_assoc (omap _ rest)), (Permutation_app_comm (omap _ rest)). cbn. by destruct (placement_charge pl). }
  assert (filter pooled (pl :: rest) ++ qs ≡ₚ filter pooled rest ++ (filter pooled [pl] ++ qs)) as Hf.
  { rewrite (app_assoc (filter _ rest)), (Permutation_app_comm (filter _ rest)), <- filter_app. done. }
  destruct (chargePlacement _ _ _ _ _ _ _) as [[t' p']|].
  - destruct Hs as (Hm & T' & P').
    assert (Forall pooled (filter pooled [pl] ++ qs)) as HQ by (apply Forall_app; split; [apply Forall_filter_same|done]).
    assert (length (filter pooled [pl]) <= 1)%nat as HL by apply (length_filter pooled [pl]).
    specialize (IH _ _ _ t' (filter pooled [pl] ++ qs) p' T' P' HQ ltac:(rewrite length_app; lia)).
    cbn [fst snd]. destruct (chargePlacements _ _ _ _ _ _ _) as [[t'' p'']|]; rewrite Forall_cons.
    + rewrite Hc, Hf. by destruct IH as (? & ? & ?).
    + rewrite Hc, Hf. intros ([_ HF] & HA & HS). by apply IH.
  - rewrite Forall_cons, Hc. intros ([Hm HF] & HA & HS). apply Hs. split; [done|]. split.
    + eapply pool_agree_incl, HA. intros q. rewrite Hf. set_solver.
    + apply increments_nonneg in HF. eapply sums_fit_part, HS; lia.
Qed.

(** The loops visit lists that are ordered by a [range]; what they compute does
    not depend on that order. *)
Lemma chargeRows_perm rows rows' cs iv ir t :
  manager_wf m -> rows ≡ₚ rows' -> tallied limit budget cs iv ir t ->
  match chargeRows rd target unified m rows t with
  | Ok t' => Forall row_measured rows' /\ tallied limit budget (omap row_charge rows' ++ cs) iv ir t'
  | Err _ => ~ (Forall row_measured rows' /\ sums_fit (omap row_charge rows' ++ cs) iv ir)
  end.
Proof.
  intros W H T. pose proof (chargeRows_spec rows cs iv ir t W T) as Hs.
  assert (omap row_charge rows ++ cs ≡ₚ omap row_charge rows' ++ cs) as Hc by by rewrite H.
  destruct (chargeRows _ _ _ _ _ _).
  - destruct Hs as [Hm Ht]. split; [by rewrite <- H|]. by eapply tallied_perm.
  - intros [Hm Hf]. apply Hs. split; [by rewrite H|]. by rewrite Hc.
Qed.

Lemma chargePlacements_perm placements placements' cs iv ir t qs p :
  manager_wf m -> placements ≡ₚ placements' -> tallied limit budget cs iv ir t ->
  pool_state qs p -> Forall pooled qs -> Z.of_nat (length qs + length placements') <= MaxInt64 ->
  match chargePlacements rd target unified m placements t p with
  | Ok (t', p') => Forall placement_measured placements'
      /\ tallied limit budget (omap placement_charge placements' ++ cs)
           (iv + in_vram (increments placements')) (ir + in_ram (increments placements')) t'
      /\ pool_state (filter pooled placements' ++ qs) p'
  | Err _ => ~ (Forall placement_measured placements' /\ pool_agree (filter pooled placements' ++ qs)
      /\ sums_fit (omap placement_charge placements' ++ cs)
           (iv + in_vram (increments placements')) (ir + in_ram (increments placements')))
  end.
Proof.
  intros W H T P Hq Hl. rewrite <- H in Hl. pose proof (chargePlacements_spec placements cs iv ir t qs p W T P Hq Hl) as Hs.
  assert (omap placement_charge placements ++ cs ≡ₚ omap placement_charge placements' ++ cs) as Hc by by rewrite H.
  assert (filter pooled placements ++ qs ≡ₚ filter pooled placements' ++ qs) as Hf by by rewrite H.
  assert (increments placements' = increments placements) as -> by by rewrite H.
  destruct (chargePlacements _ _ _ _ _ _ _) as [[t' p']|].
  - destruct Hs as (Hm & Ht & Hp). split; [by rewrite <- H|]. split; [by eapply tallied_perm|by eapply pool_state_perm].
  - intros (Hm & Ha & Hs'). apply Hs. split; [by rewrite H|]. split; [by rewrite Hf|by rewrite Hc].
Qed.

End loops.
