(* ===== verification/AdmissionProps.v ===== *)
(** * Theorems about the byte accounting of resident models

    The check of [Admission] against a declarative condition, [admissible],
    that does not mention loops or the order in which maps are visited; that an
    admitted set of models fits the memory of its accelerator; and that
    releasing work or unloading models never makes a request inadmissible. *)

From S2P Require Import Prelude GoText Domain DomainWorkload DomainNode Store Residency Records WorkloadManager Admission AdmissionLoad Samples.

(** ** Limits of a target *)

Definition mib_valid (z : Z) : Prop := 0 <= z <= MaxInt64 / bytesPerMiB.

Definition fields_valid (target : Target) : Prop :=
  let b := tgt_Capacity target in
  0 <= cb_VRAMTotalBytes b /\ 0 <= cb_VRAMReserveBytes b /\ 0 <= cb_VRAMHardCapBytes b
  /\ 0 <= cb_RAMTotalBytes b /\ 0 <= cb_RAMReserveBytes b /\ 0 <= cb_RAMHardCapBytes b
  /\ mib_valid (tgt_StandaloneVRAMMB target) /\ mib_valid (tgt_AcceleratorVRAMMB target) /\ mib_valid (tgt_VRAMReserveMB target).

Definition bytes_or_mib (bytes mib : Z) : Z := if (bytes <=? 0) && (0 <? mib) then mib * bytesPerMiB else bytes.
Definition vramTotal (target : Target) : Z := bytes_or_mib (cb_VRAMTotalBytes (tgt_Capacity target)) (tgt_AcceleratorVRAMMB target).
Definition vramReserve (target : Target) : Z := bytes_or_mib (cb_VRAMReserveBytes (tgt_Capacity target)) (tgt_VRAMReserveMB target).
Definition vramHardCap (target : Target) : Z :=
  let cap := if cb_VRAMHardCapBytes (tgt_Capacity target) <=? 0 then vramTotal target
             else cb_VRAMHardCapBytes (tgt_Capacity target) in
  if (0 <? vramTotal target) && (vramTotal target <? cap) then vramTotal target else cap.

Lemma checkedMiBToBytes_spec v field :
  match checkedMiBToBytes v field with Ok b => mib_valid v /\ b = v * bytesPerMiB | Err _ => ~ mib_valid v end.
Proof.
  unfold checkedMiBToBytes, mib_valid. destruct (_ <? 0) eqn:E; bool_simp; [lia|].
  destruct (_ <? v) eqn:E'; bool_simp; [lia|]. split; [lia|]. apply wrap64_small.
  change (MaxInt64 / bytesPerMiB) with 8796093022207 in E'. unfold MaxInt64, bytesPerMiB. lia.
Qed.

Lemma checkedMiBToBytes_ok v field : is_ok (checkedMiBToBytes v field) = true <-> mib_valid v.
Proof. pose proof (checkedMiBToBytes_spec v field). destruct (checkedMiBToBytes v field); naive_solver. Qed.

Section ranges.
Context {R : GoRange}.

Lemma validateTargetMiBFields_spec target :
  validateTargetMiBFields target = Ok tt
  <-> mib_valid (tgt_StandaloneVRAMMB target) /\ mib_valid (tgt_AcceleratorVRAMMB target) /\ mib_valid (tgt_VRAMReserveMB target).
Proof.
  unfold validateTargetMiBFields. destruct (range_find _ _) as [[field v]|] eqn:E.
  - apply range_find_Some in E as [Hl Hv]. pose proof (checkedMiBToBytes_spec v field) as Hs.
    destruct (checkedMiBToBytes v field); [done|]. split; [done|]. intros (H1 & H2 & H3).
    rewrite !lookup_insert_Some, lookup_singleton_Some in Hl. naive_solver.
  - split; [intros _|done]. rewrite range_find_None in E.
    setoid_rewrite negb_false_iff in E. setoid_rewrite checkedMiBToBytes_ok in E.
    split; [|split]; [eapply (E "standalone_vram_mb"%string)|eapply (E "accelerator_vram_mb"%string)|eapply (E "vram_reserve_mb"%string)];
      reflexivity.
Qed.

Lemma validateCapacityByteFields_spec target :
  validateCapacityByteFields target = Ok tt
  <-> let b := tgt_Capacity target in
      0 <= cb_VRAMTotalBytes b /\ 0 <= cb_VRAMReserveBytes b /\ 0 <= cb_VRAMHardCapBytes b
      /\ 0 <= cb_RAMTotalBytes b /\ 0 <= cb_RAMReserveBytes b /\ 0 <= cb_RAMHardCapBytes b.
Proof.
  unfold validateCapacityByteFields. cbv zeta. destruct (range_find _ _) as [[field v]|] eqn:E.
  - apply range_find_Some in E as [Hl Hv]. apply Z.ltb_lt in Hv. split; [done|]. intros H.
    rewrite !lookup_insert_Some, lookup_singleton_Some in Hl. destruct_or?; destruct_and?; subst; lia.
  - split; [intros _|done]. rewrite range_find_None in E. setoid_rewrite Z.ltb_ge in E.
    split_and!; [eapply (E "vram_total_bytes"%string)|eapply (E "vram_reserve_bytes"%string)
      |eapply (E "vram_hard_cap_bytes"%string)|eapply (E "ram_total_bytes"%string)|eapply (E "ram_reserve_bytes"%string)
      |eapply (E "ram_hard_cap_bytes"%string)]; reflexivity.
Qed.

Lemma targetCapacityBytes_spec target :
  match targetCapacityBytes target with
  | Ok b => fields_valid target /\ b = (vramTotal target, vramReserve target, vramHardCap target)
  | Err _ => ~ fields_valid target
  end.
Proof.
  unfold targetCapacityBytes, fields_valid. pose proof (validateCapacityByteFields_spec target) as Hb. cbv zeta in *.
  pose proof (validateTargetMiBFields_spec target) as Hm.
  destruct (validateCapacityByteFields target) as [[]|]; [|naive_solver].
  destruct (validateTargetMiBFields target) as [[]|]; [|naive_solver].
  destruct Hb as [Hb _], Hm as [Hm _]. specialize (Hb eq_refl). specialize (Hm eq_refl).
  unfold vramHardCap, vramTotal, vramReserve, bytes_or_mib.
  pose proof (checkedMiBToBytes_spec (tgt_AcceleratorVRAMMB target) "accelerator_vram_mb") as Ht.
  pose proof (checkedMiBToBytes_spec (tgt_VRAMReserveMB target) "vram_reserve_mb") as Hr.
  destruct (checkedMiBToBytes _ "accelerator_vram_mb") as [t|]; [|naive_solver].
  destruct (checkedMiBToBytes _ "vram_reserve_mb") as [r|]; [|naive_solver].
  destruct Ht as [_ ->], Hr as [_ ->].
  destruct ((_ <=? 0) && (0 <? tgt_AcceleratorVRAMMB target)), ((_ <=? 0) && (0 <? tgt_VRAMReserveMB target)); tauto.
Qed.

Lemma limits_nonneg target : fields_valid target -> 0 <= vramTotal target /\ 0 <= vramReserve target /\ 0 <= vramHardCap target.
Proof.
  unfold fields_valid, mib_valid, vramHardCap, vramTotal, vramReserve, bytes_or_mib, bytesPerMiB. cbv zeta.
  intros H. repeat case_match; lia.
Qed.


(** ** Facts about the accelerator *)

Definition placement_bytes_valid (p : activePlacement) : Prop :=
  mib_valid (pl_vramMB p) /\ 0 <= pl_requestIncrementBytes p
  /\ (pl_requestIncrementVerified p = false -> pl_requestIncrementBytes p = 0).

Definition placements_valid (acceleratorID : string) (m : Manager) : Prop :=
  acceleratorID = ""%string \/ forall id p, activePlacements m !! id = Some p -> pl_acceleratorID p = acceleratorID -> placement_bytes_valid p.

Lemma validateActivePlacementBytes_spec acceleratorID m :
  validateActivePlacementBytes acceleratorID m = Ok tt <-> placements_valid acceleratorID m.
Proof.
  unfold validateActivePlacementBytes, placements_valid. case_bool_decide as Ea; [naive_solver|].
  destruct (range_find _ _) as [[id p]|] eqn:E.
  - apply range_find_Some in E as [Hl Hp]. bool_simp. split.
    { by destruct (checkedMiBToBytes _ _). }
    intros [?|Hv]; [done|]. destruct (Hv id p Hl) as (Hm & Hi & Hz); [done|]. exfalso.
    rewrite (proj2 (checkedMiBToBytes_ok _ _) Hm) in *. cbn [negb orb] in *.
    apply orb_true_iff in H0 as [H0|[Hv' Hn]%andb_true_iff]; bool_simp; [lia|]. by apply Hn, Hz.
  - split; [intros _; right|done]. intros id p Hl Hp. rewrite range_find_None in E. specialize (E id p Hl).
    rewrite bool_decide_eq_true_2 in E by done. cbn [andb] in E. bool_simp. unfold placement_bytes_valid.
    rewrite <- (checkedMiBToBytes_ok _ "active placement vram_mb"). split; [done|]. split; [done|].
    intros Hv. rewrite Hv in *. cbn in *. bool_simp. done.
Qed.

(** No other target has work on the accelerator. *)
Definition exclusive (target : Target) (exclude : string) (m : Manager) : Prop :=
  forall id p, activePlacements m !! id = Some p -> pl_acceleratorID p = tgt_AcceleratorID target ->
  pl_workloadID p = exclude \/ pl_targetID p = tgt_ID target.

Lemma checkExclusive_spec target exclude m :
  checkExclusiveUnmeasuredPlacement target exclude m = Ok tt <-> exclusive target exclude m.
Proof.
  unfold checkExclusiveUnmeasuredPlacement, exclusive. destruct (range_find _ _) as [[id p]|] eqn:E.
  - apply range_find_Some in E as [Hl Hp]. bool_simp. split; [done|]. intros H'. destruct (H' id p Hl); done.
  - split; [intros _|done]. intros id p Hl Ha. rewrite range_find_None in E. specialize (E id p Hl).
    rewrite (bool_decide_eq_true_2 (_ = tgt_AcceleratorID target)), andb_true_r, negb_false_iff, orb_true_iff,
      !bool_decide_eq_true in E by done. done.
Qed.

(** The workload that asks already holds a slot of the target. *)
Definition holds_slot (target : Target) (exclude : string) (m : Manager) : Prop :=
  exists id p, activePlacements m !! id = Some p /\ pl_targetID p = tgt_ID target /\ pl_workloadID p = exclude.

Definition slot_free (target : Target) (requested exclude : string) (m : Manager) : Prop :=
  let active := default 0 (targetActive m !! tgt_ID target) in
  (holds_slot target exclude m -> wrap64 (active - 1) < slotLimit target requested)
  /\ (~ holds_slot target exclude m -> active < slotLimit target requested).

Lemma activeSlots_spec target requested exclude m :
  activeSlots target exclude m < slotLimit target requested <-> slot_free target requested exclude m.
Proof.
  unfold activeSlots, slot_free. cbv zeta. destruct (range_find _ _) as [[id p]|] eqn:E.
  - apply range_find_Some in E as [Hl Hp]. bool_simp.
    assert (holds_slot target exclude m) by (exists id, p; auto). tauto.
  - assert (~ holds_slot target exclude m); [|tauto]. intros (id & p & Hl & Ht & Hw).
    rewrite range_find_None in E. specialize (E id p Hl). by rewrite !bool_decide_eq_true_2 in E.
Qed.

(** The measurements of one accelerator are valid and describe one envelope. *)
Definition envelope_agrees (rd : Readings) (target : Target) (m : Manager) : Prop :=
  (forall k c, modelCapacities (mgr_store m) !! k = Some c -> envelopeRow target m c = true ->
     validateCapacityBinding (Some c) (targetByID (mc_TargetID c) m) (at_envelope rd c) = Ok tt)
  /\ (forall k k' c c', modelCapacities (mgr_store m) !! k = Some c -> modelCapacities (mgr_store m) !! k' = Some c' ->
     envelopeRow target m c = true -> envelopeRow target m c' = true -> sameEnvelope c c' = true).

Definition envelope (c : ModelCapacity) : Z * Z * Z * Z * Z * bool :=
  (mc_VRAMTotalBytes c, mc_RAMTotalBytes c, mc_VRAMReserveBytes c, mc_RAMReserveBytes c, mc_RuntimeHardCapBytes c, mc_UnifiedMemory c).

Lemma sameEnvelope_spec a b : sameEnvelope a b = true <-> envelope a = envelope b.
Proof.
  unfold sameEnvelope, envelope. rewrite !andb_true_iff, !Z.eqb_eq, bool_decide_eq_true. split.
  - intros [[[[[-> ->] ->] ->] ->] ->]. done.
  - intros H. injection H. auto 10.
Qed.

Definition row_agrees (rd : Readings) (target : Target) (m : Manager) e (c : ModelCapacity) : Prop :=
  envelopeRow target m c = true ->
  validateCapacityBinding (Some c) (targetByID (mc_TargetID c) m) (at_envelope rd c) = Ok tt /\ envelope c = e.

Lemma agreeingEnvelopes_spec rd target m canonical l :
  agreeingEnvelopes rd target m canonical l = Ok tt <->
  exists e, (forall d, canonical = Some d -> envelope d = e) /\ Forall (row_agrees rd target m e) l.
Proof.
  revert canonical. induction l as [|a l IH]; intros canonical.
  { cbn. split; [intros _|done]. destruct canonical as [d|]; [|by exists (0, 0, 0, 0, 0, true)].
    exists (envelope d). naive_solver. }
  cbn [agreeingEnvelopes]. setoid_rewrite Forall_cons. unfold row_agrees at 1.
  destruct (envelopeRow target m a) eqn:Ea; cbn [negb]; [|rewrite IH; naive_solver].
  destruct (validateCapacityBinding _ _ _) as [[]|] eqn:Ev; [|naive_solver].
  destruct canonical as [d|]; [|rewrite IH; naive_solver].
  destruct (sameEnvelope a d) eqn:Es; cbn [negb].
  - apply sameEnvelope_spec in Es. rewrite IH. split; intros (e & Hd & H); exists e.
    + split; [done|]. split; [|done]. intros _. split; [done|]. rewrite Es. by apply Hd.
    + split; [done|]. by destruct H.
  - apply not_true_iff_false in Es. rewrite sameEnvelope_spec in Es. split; [done|].
    intros (e & Hd & Ha & _). destruct Es. destruct (Ha eq_refl) as [_ ->]. by rewrite (Hd d eq_refl).
Qed.

Lemma agree_pairwise rd target m l :
  (exists e, (forall d, None = Some d -> envelope d = e) /\ Forall (row_agrees rd target m e) l) <->
  (forall c, c ∈ l -> envelopeRow target m c = true ->
     validateCapacityBinding (Some c) (targetByID (mc_TargetID c) m) (at_envelope rd c) = Ok tt
     /\ forall d, d ∈ l -> envelopeRow target m d = true -> sameEnvelope c d = true).
Proof.
  setoid_rewrite sameEnvelope_spec. setoid_rewrite Forall_forall. unfold row_agrees. split.
  - intros (e & _ & H) c Hc Hr. destruct (H c Hc Hr) as [Hv <-]. split; [done|].
    intros d Hd Hr'. by destruct (H d Hd Hr').
  - intros H. destruct (decide (Exists (fun c => envelopeRow target m c = true) l)) as [(c & Hc & Hr)%Exists_exists|Hn].
    + exists (envelope c). split; [done|]. intros d Hd Hr'. destruct (H d Hd Hr') as [? Hs]. split; [done|auto].
    + exists (0, 0, 0, 0, 0, true). split; [done|]. intros c Hc Hr. destruct Hn. apply Exists_exists. eauto.
Qed.

Lemma validateEnvelope_spec rd target m :
  validatePhysicalAcceleratorEnvelope rd target m = Ok tt
  <-> tgt_AcceleratorID target <> ""%string /\ envelope_agrees rd target m.
Proof.
  unfold validatePhysicalAcceleratorEnvelope, envelope_agrees, ListModelCapacities. case_bool_decide as Ea; [naive_solver|].
  rewrite agreeingEnvelopes_spec, agree_pairwise. setoid_rewrite sort_slice_perm. setoid_rewrite range_rows_elem.
  split.
  - intros H. split; [done|]. split; [intros k c Hc Hr; eapply H; eauto|].
    intros k k' c c' Hc Hc' Hr Hr'. eapply H; eauto.
  - intros (_ & Hv & Hs) c [_ [k Hc]] Hr. split; [by eapply Hv|]. intros d [_ [k' Hd]] Hr'. by eapply Hs.
Qed.

End ranges.

(** ** The condition *)

(** The checked target accounts system memory. *)
Definition accounts_ram (target : Target) : bool :=
  negb (hasVRAMBudget (vramTotal target) (vramHardCap target)) && hasRAMBudget target.

(** The target's own limit on VRAM. *)
Definition vramLimit (target : Target) : Z := if vramHardCap target <=? 0 then MaxInt64 else vramHardCap target.

Definition ramLimit (target : Target) : Z :=
  let b := tgt_Capacity target in
  if (cb_RAMHardCapBytes b <=? 0) || (cb_RAMTotalBytes b <? cb_RAMHardCapBytes b) then cb_RAMTotalBytes b else cb_RAMHardCapBytes b.

Definition resident_rows (m : Manager) : list ModelResidency := (map_to_list (residencies (mgr_store m))).*2.
Definition placements_on (target : Target) (m : Manager) : list activePlacement :=
  filter (fun p => pl_acceleratorID p = tgt_AcceleratorID target) (map_to_list (activePlacements m)).*2.

(** Every allocation on the accelerator once the request runs: the hot models,
    the models of requests in flight, and the requested model. *)
Definition allocations (rd : Readings) (target : Target) (m : Manager) (capacity : ModelCapacity) : list charge :=
  let unified := accounts_ram target in
  omap (placement_charge rd target unified m) (placements_on target m)
  ++ requestedCharge unified capacity :: omap (row_charge rd target unified m) (resident_rows m).

Definition vram_in_use (rd : Readings) (target : Target) (m : Manager) (capacity : ModelCapacity) : Z :=
  load ch_vram (allocations rd target m capacity) + in_vram (accounts_ram target) (increments (placements_on target m)).
Definition ram_in_use (rd : Readings) (target : Target) (m : Manager) (capacity : ModelCapacity) : Z :=
  load ch_ram (allocations rd target m capacity) + in_ram (accounts_ram target) (increments (placements_on target m)).

(** The sums with their reserves respect every limit that applies. *)
Definition within_limits (rd : Readings) (target : Target) (m : Manager) (capacity : ModelCapacity) : Prop :=
  let v := vram_in_use rd target m capacity + vramReserve target in
  let r := ram_in_use rd target m capacity in
  let cs := allocations rd target m capacity in
  v <= MaxInt64 /\ r <= MaxInt64
  /\ (hasVRAMBudget (vramTotal target) (vramHardCap target) = true \/ (exists c, c ∈ cs /\ 0 < ch_hardCap c) ->
      v <= vramLimit target /\ (forall c, c ∈ cs -> 0 < ch_hardCap c -> v <= ch_hardCap c)
      /\ (0 < vramTotal target -> v <= vramTotal target))
  /\ (0 < cb_RAMTotalBytes (tgt_Capacity target) ->
      r + cb_RAMReserveBytes (tgt_Capacity target) <= ramLimit target).

(** Requests that share the slots of one profile name one pool and fit it. *)
Definition pool_fits (target : Target) (m : Manager) : Prop :=
  let users := filter (pooled m) (placements_on target m) in
  pool_agree m users
  /\ forall p, p ∈ users -> Z.of_nat (length users) <= (verifiedProfileSlotBound p m).1.

Record measured_fit (rd : Readings) (target : Target) (m : Manager) (capacity : ModelCapacity) : Prop := {
  mf_accelerator : tgt_AcceleratorID target <> ""%string;
  mf_envelope : envelope_agrees rd target m;
  mf_rows : Forall (row_measured rd target (accounts_ram target) m) (resident_rows m);
  mf_placements : Forall (placement_measured rd target m) (placements_on target m);
  mf_pool : pool_fits target m;
  mf_limits : within_limits rd target m capacity;
}.

(** A local model without any measurement, under whatever profile. *)
Definition never_measured (rd : Readings) (target : Target) (requested : string) (m : Manager) : Prop :=
  physicalRequest target requested = true
  /\ capacityForModel (at_request rd) target requested m = Err ErrNotFound
  /\ forall k c, modelCapacities (mgr_store m) !! k = Some c -> mc_Model c = requested ->
       tgt_ID target <> ""%string /\ mc_TargetID c <> tgt_ID target.

(** Neither the target nor the measurement bounds the request. *)
Definition unbudgeted (rd : Readings) (target : Target) (requested : string) (m : Manager) : Prop :=
  hasVRAMBudget (vramTotal target) (vramHardCap target) = false /\ hasRAMBudget target = false
  /\ forall c, capacityForModel (at_request rd) target requested m = Ok c -> mc_RuntimeHardCapBytes c <= 0.

Definition admissible (rd : Readings) (target : Target) (requested exclude : string) (m : Manager) : Prop :=
  fields_valid target /\ placements_valid (tgt_AcceleratorID target) m /\ slot_free target requested exclude m
  /\ ((never_measured rd target requested m /\ exclusive target exclude m)
      \/ (~ never_measured rd target requested m /\ unbudgeted rd target requested m /\ physicalRequest target requested = false)
      \/ (~ never_measured rd target requested m /\ ~ unbudgeted rd target requested m
          /\ exists capacity, capacityForModel (at_request rd) target requested m = Ok capacity
                              /\ measured_fit rd target m capacity)).

(** Byte fields of a target are [int64] values. *)
Definition target_wf (target : Target) : Prop := cb_RAMTotalBytes (tgt_Capacity target) <= MaxInt64.

Lemma enforce_spec limit budget total cs iv ir t v :
  tallied limit budget cs iv ir t ->
  enforceVRAM t && ((effectiveHardCap t <? v) || (0 <? total) && (total <? v)) = false <->
  (budget = true \/ (exists c, c ∈ cs /\ 0 < ch_hardCap c) ->
   v <= limit /\ (forall c, c ∈ cs -> 0 < ch_hardCap c -> v <= ch_hardCap c) /\ (0 < total -> v <= total)).
Proof.
  intros T. rewrite <- (ta_enforce _ _ _ _ _ _ T), andb_false_iff, orb_false_iff, andb_false_iff, !Z.ltb_ge.
  assert (v <= effectiveHardCap t /\ (0 < total -> v <= total)
    <-> v <= limit /\ (forall c, c ∈ cs -> 0 < ch_hardCap c -> v <= ch_hardCap c) /\ (0 < total -> v <= total)) as <-.
  { rewrite (ta_cap _ _ _ _ _ _ T). tauto. }
  destruct (enforceVRAM t); [|naive_solver]. split; [intros [|[? [|]]]; [done|lia..]|].
  intros H. right. specialize (H eq_refl). lia.
Qed.

Lemma withinLimits_spec target cs iv ir t :
  fields_valid target -> target_wf target ->
  tallied (vramLimit target) (hasVRAMBudget (vramTotal target) (vramHardCap target)) cs iv ir t ->
  withinLimits target (vramTotal target) (vramReserve target) t = Ok tt <->
  let v := load ch_vram cs + iv + vramReserve target in
  let r := load ch_ram cs + ir in
  v <= MaxInt64
  /\ (hasVRAMBudget (vramTotal target) (vramHardCap target) = true \/ (exists c, c ∈ cs /\ 0 < ch_hardCap c) ->
      v <= vramLimit target /\ (forall c, c ∈ cs -> 0 < ch_hardCap c -> v <= ch_hardCap c)
      /\ (0 < vramTotal target -> v <= vramTotal target))
  /\ (0 < cb_RAMTotalBytes (tgt_Capacity target) -> r + cb_RAMReserveBytes (tgt_Capacity target) <= ramLimit target).
Proof.
  intros F W T. pose proof (ta_fit _ _ _ _ _ _ T) as [Fv Fr]. pose proof (ta_incs _ _ _ _ _ _ T) as [Iv Ir].
  cbv zeta. unfold withinLimits. rewrite (ta_vram _ _ _ _ _ _ T), (ta_ram _ _ _ _ _ _ T).
  pose proof (limits_nonneg target F) as (_ & Hres & _). pose proof (load_nonneg ch_vram cs). pose proof (load_nonneg ch_ram cs).
  pose proof (addCapacityBytes_spec (load ch_vram cs + iv) (vramReserve target)) as Ha.
  destruct (addCapacityBytes (_ + iv) _) as [v|]; [|split; [done|lia]]. destruct Ha as [-> Ha]; [lia..|].
  pose proof (enforce_spec _ _ (vramTotal target) _ _ _ _ (load ch_vram cs + iv + vramReserve target) T) as Henf.
  destruct (enforceVRAM t && _); [split; [done|]; intros (_ & Hlim & _); by apply Henf in Hlim|].
  pose proof (proj1 Henf eq_refl) as Hok. clear Henf.
  unfold fields_valid, target_wf in *. unfold ramLimit. cbv zeta in *.
  destruct (0 <? cb_RAMTotalBytes _) eqn:Et; bool_simp; [|split; [|done]; intros _; split; [done|split; [done|lia]]].
  pose proof (addCapacityBytes_spec (load ch_ram cs + ir) (cb_RAMReserveBytes (tgt_Capacity target))) as Hb.
  set (lim := if _ || _ then _ else _).
  assert (lim <= MaxInt64) as Hlim by (unfold lim; destruct (_ || _) eqn:Eo; bool_simp; lia).
  destruct (addCapacityBytes _ _) as [r|]; [|split; [done|]; intros (_ & _ & Hr); lia]. destruct Hb as [-> Hb]; [lia..|].
  destruct (lim <? _) eqn:El; bool_simp; [split; [done|]; intros (_ & _ & Hr); lia|]. done.
Qed.

(** ** The check decides the condition *)

Lemma filter_always {A} (l : list A) : filter (fun _ => true = true) l = l.
Proof. induction l as [|x l IH]; [done|]. by rewrite filter_cons_True, IH. Qed.

Lemma listed_rows {R : GoRange} m : ListModelResidencies (mgr_store m) ≡ₚ resident_rows m.
Proof.
  unfold ListModelResidencies, range_rows, resident_rows. rewrite sort_slice_perm, go_range_perm.
  by rewrite filter_always.
Qed.

Lemma listed_placements {R : GoRange} target m :
  filter (fun p => pl_acceleratorID p = tgt_AcceleratorID target) (go_range (activePlacements m)).*2 ≡ₚ placements_on target m.
Proof. unfold placements_on. by rewrite go_range_perm. Qed.

Lemma length_placements_on target m : (length (placements_on target m) <= size (activePlacements m))%nat.
Proof. unfold placements_on. rewrite length_filter, length_fmap, length_map_to_list. done. Qed.

Lemma tallied_init limit budget : tallied limit budget [] 0 0 (mkTally 0 0 ∅ limit budget).
Proof.
  split; try done.
  - intros v. cbn. split; [|by intros []]. intros Hv. split; [done|]. by intros c ?%elem_of_nil.
  - cbn. split; [by left|]. intros [?|(c & ?%elem_of_nil & _)]; done.
Qed.

Lemma effective_limit target :
  (let limit := if vramHardCap target <=? 0 then vramTotal target else vramHardCap target in
   if limit <=? 0 then MaxInt64 else limit) = vramLimit target.
Proof.
  cbv zeta. unfold vramLimit. destruct (vramHardCap target <=? 0) eqn:E; [|by rewrite E].
  destruct (vramTotal target <=? 0) eqn:Et; [done|]. bool_simp. exfalso. unfold vramHardCap in E. cbv zeta in E.
  repeat case_match; bool_simp; lia.
Qed.

Lemma placements_countable target m :
  manager_wf m -> Z.of_nat (length (@nil activePlacement) + length (placements_on target m)) <= MaxInt64.
Proof. intros [_ W]. pose proof (length_placements_on target m). cbn. lia. Qed.

Lemma pool_state_init m : pool_state m [] (mkPool 0 0 "").
Proof. split; [done|]. split; [by intros q ?%elem_of_nil|done]. Qed.

Lemma pool_state_fits m qs p :
  pool_state m qs p ->
  pool_agree m qs /\
  ((poolSlots p <? poolUsers p) = false <-> forall q, q ∈ qs -> Z.of_nat (length qs) <= (verifiedProfileSlotBound q m).1).
Proof.
  intros (Hu & Hq & Hn). split.
  { intros a b Ha Hb. by rewrite (Hq a Ha), (Hq b Hb). }
  rewrite Z.ltb_ge, Hu. split; [intros H q Hin; by rewrite (Hq q Hin)|]. intros H.
  destruct qs as [|q qs]; [destruct (Hn eq_refl) as [-> _]; done|].
  specialize (H q ltac:(left)). by rewrite (Hq q ltac:(left)) in H.
Qed.

Section decides.
Context {R : GoRange} (rd : Readings) (target : Target) (requested exclude : string) (m : Manager).
Context (F : fields_valid target) (W : target_wf target) (Wm : manager_wf m).

Lemma chargeAll_spec capacity :
  let unified := accounts_ram target in
  let vb := hasVRAMBudget (vramTotal target) (vramHardCap target) in
  let incs := increments (placements_on target m) in
  capacityForModel (at_request rd) target requested m = Ok capacity ->
  match (let? t := chargeRows rd target unified m (ListModelResidencies (mgr_store m)) (mkTally 0 0 ∅ (vramLimit target) vb) in
         let? t := chargeAllocation (requestedCharge unified capacity) t in
         chargePlacements rd target unified m
           (filter (fun p => pl_acceleratorID p = tgt_AcceleratorID target) (go_range (activePlacements m)).*2) t (mkPool 0 0 "")) with
  | Ok (t, p) => Forall (row_measured rd target unified m) (resident_rows m)
      /\ Forall (placement_measured rd target m) (placements_on target m)
      /\ tallied (vramLimit target) vb (allocations rd target m capacity) (in_vram unified incs) (in_ram unified incs) t
      /\ pool_state m (filter (pooled m) (placements_on target m)) p
  | Err _ => ~ (Forall (row_measured rd target unified m) (resident_rows m)
      /\ Forall (placement_measured rd target m) (placements_on target m)
      /\ pool_agree m (filter (pooled m) (placements_on target m))
      /\ sums_fit (allocations rd target m capacity) (in_vram unified incs) (in_ram unified incs))
  end.
Proof.
  intros unified vb incs Hrc. unfold allocations. fold unified.
  pose proof (chargeRows_perm rd target unified m (vramLimit target) vb _ _ [] 0 0 _ Wm (listed_rows m) (tallied_init _ _)) as Hrows.
  rewrite app_nil_r in Hrows. set (res := omap (row_charge rd target unified m) (resident_rows m)) in *.
  assert (Forall (placement_measured rd target m) (placements_on target m) ->
     sums_fit (omap (placement_charge rd target unified m) (placements_on target m) ++ requestedCharge unified capacity :: res)
       (in_vram unified incs) (in_ram unified incs) -> sums_fit (requestedCharge unified capacity :: res) 0 0) as Hpart.
  { intros Hps Hf. apply (increments_nonneg rd target unified m) in Hps. eapply sums_fit_part, Hf; apply Hps. }
  destruct (chargeRows _ _ _ _ _ _) as [t|].
  2:{ intros (Hm & Hp & _ & Hf). apply Hrows. split; [done|]. by eapply (sums_fit_part [_]), Hpart. }
  destruct Hrows as [Hrm Ht].
  pose proof (chargeAllocation_spec _ _ _ _ _ _ (requestedCharge unified capacity) Ht
    (requestedCharge_wf _ _ (capacityForModel_wf _ _ _ _ _ Wm Hrc))) as Hreq.
  destruct (chargeAllocation _ _) as [t'|]; [|naive_solver].
  pose proof (chargePlacements_perm rd target unified m _ _ _ _ _ 0 0 t' [] (mkPool 0 0 "") Wm (listed_placements target m) Hreq
    (pool_state_init m) ltac:(constructor) (placements_countable target m Wm)) as Hps.
  rewrite !app_nil_r in Hps. cbn [Z.add] in Hps.
  destruct (chargePlacements _ _ _ _ _ _ _) as [[t'' p]|]; [tauto|]. intros (_ & Hp & Ha & Hf). by apply Hps.
Qed.

Lemma within_limits_sums capacity :
  within_limits rd target m capacity ->
  sums_fit (allocations rd target m capacity) (in_vram (accounts_ram target) (increments (placements_on target m)))
    (in_ram (accounts_ram target) (increments (placements_on target m))).
Proof.
  intros (Hv & Hr & _). pose proof (limits_nonneg target F) as (_ & Hn & _).
  unfold vram_in_use, ram_in_use in *. split; lia.
Qed.

Lemma checkMeasuredPlacement_spec :
  let rc := capacityForModel (at_request rd) target requested m in
  checkMeasuredPlacement rd target requested (vramTotal target) (vramReserve target) (vramHardCap target) rc m = Ok tt
  <-> exists capacity, rc = Ok capacity /\ measured_fit rd target m capacity.
Proof.
  intros rc. unfold checkMeasuredPlacement. rewrite effective_limit. fold (accounts_ram target).
  pose proof (validateEnvelope_spec rd target m) as Henv.
  destruct (validatePhysicalAcceleratorEnvelope _ _ _) as [[]|].
  2:{ split; [done|]. intros (c & _ & [Ha He _ _ _ _]). by destruct (proj2 Henv (conj Ha He)). }
  destruct Henv as [[Hacc Henv] _]; [done|].
  destruct rc as [capacity|] eqn:Hrc; [|by split; [destruct (chargeRows _ _ _ _ _ _)|naive_solver]].
  pose proof (chargeAll_spec capacity Hrc) as Hall. cbv zeta in Hall.
  assert ((FootprintBytes capacity <=? 0) = false) as Hfp.
  { apply Z.leb_gt. by apply capacityForModel_row in Hrc as (_ & ? & _). }
  destruct (chargeRows _ _ _ _ _ _) as [t|].
  2:{ split; [done|]. intros (c & [= <-] & [_ _ ? ? [? _] ?%within_limits_sums]). by destruct Hall. }
  rewrite Hfp. destruct (chargeAllocation _ _) as [t'|].
  2:{ split; [done|]. intros (c & [= <-] & [_ _ ? ? [? _] ?%within_limits_sums]). by destruct Hall. }
  destruct (chargePlacements _ _ _ _ _ _ _) as [[t'' p]|].
  2:{ split; [done|]. intros (c & [= <-] & [_ _ ? ? [? _] ?%within_limits_sums]). by destruct Hall. }
  destruct Hall as (Hrows & Hps & Ht & Hp). cbn [fst snd].
  destruct (pool_state_fits _ _ _ Hp) as [Hagree Husers].
  pose proof (withinLimits_spec _ _ _ _ _ F W Ht) as Hlim. cbv zeta in Hlim. pose proof (ta_fit _ _ _ _ _ _ Ht) as [_ Hfr].
  destruct (poolSlots p <? poolUsers p).
  { split; [done|]. intros (c & [= <-] & [_ _ _ _ [_ Hu] _]). by apply Husers in Hu. }
  destruct Husers as [Husers _]. specialize (Husers eq_refl). rewrite Hlim. split.
  - intros (? & ? & ?). exists capacity. split; [done|]. by split.
  - intros (c & [= <-] & [_ _ _ _ _ (? & _ & ? & ?)]). by split_and!.
Qed.

Lemma never_measured_spec :
  isNotFound (capacityForModel (at_request rd) target requested m) && physicalRequest target requested
    && (List.length (ListModelCapacities (tgt_ID target) requested (mgr_store m)) =? 0)%nat = true
  <-> never_measured rd target requested m.
Proof.
  unfold never_measured. rewrite !andb_true_iff, Nat.eqb_eq.
  assert (isNotFound (capacityForModel (at_request rd) target requested m) = true
    <-> capacityForModel (at_request rd) target requested m = Err ErrNotFound) as ->.
  { destruct (capacityForModel _ _ _ _) as [|[]]; naive_solver. }
  assert (physicalRequest target requested = true ->
    List.length (ListModelCapacities (tgt_ID target) requested (mgr_store m)) = 0%nat
    <-> forall k c, modelCapacities (mgr_store m) !! k = Some c -> mc_Model c = requested ->
          tgt_ID target <> ""%string /\ mc_TargetID c <> tgt_ID target) as H; [|tauto].
  intros Hph. unfold physicalRequest in Hph. bool_simp.
  unfold ListModelCapacities. rewrite (Permutation_length (sort_slice_perm _ _)), length_zero_iff_nil.
  split.
  - intros Hnil k c Hc Hm. destruct (decide (tgt_ID target = ""%string \/ mc_TargetID c = tgt_ID target)) as [Ht|]; [|tauto].
    exfalso. eapply (not_elem_of_nil c). rewrite <- Hnil. apply range_rows_elem. split; [|eauto].
    rewrite Hm, (bool_decide_eq_true_2 (requested = requested)) by done. rewrite andb_false_r, orb_false_r.
    repeat case_bool_decide; naive_solver.
  - intros H'. destruct (range_rows _ _) as [|c l] eqn:E; [done|]. exfalso.
    assert (c ∈ c :: l) as Hin by left. rewrite <- E, range_rows_elem in Hin. destruct Hin as [Hp [k Hc]].
    rewrite negb_true_iff, orb_false_iff, !andb_false_iff in Hp. specialize (H' k c Hc).
    destruct Hp as [Ht [Hr|Hm]]; bool_simp; [done|]. destruct (H' Hm). destruct Ht; bool_simp; done.
Qed.

Lemma unbudgeted_spec :
  negb (hasVRAMBudget (vramTotal target) (vramHardCap target)) && negb (hasRAMBudget target)
    && match capacityForModel (at_request rd) target requested m with
       | Err _ => true | Ok capacity => mc_RuntimeHardCapBytes capacity <=? 0 end = true
  <-> unbudgeted rd target requested m.
Proof.
  unfold unbudgeted. rewrite !andb_true_iff, !negb_true_iff.
  destruct (capacityForModel _ _ _ _) as [c|]; [rewrite Z.leb_le|]; naive_solver.
Qed.

Lemma check_admissible :
  checkResidentCapacityExcluding rd target requested exclude m = Ok tt <-> admissible rd target requested exclude m.
Proof.
  unfold checkResidentCapacityExcluding, admissible. pose proof (targetCapacityBytes_spec target) as Hb.
  destruct (targetCapacityBytes target) as [b|]; [|done]. destruct Hb as [_ ->].
  pose proof (validateActivePlacementBytes_spec (tgt_AcceleratorID target) m) as Hp.
  destruct (validateActivePlacementBytes _ _) as [[]|]; [|naive_solver].
  rewrite <- (activeSlots_spec target requested exclude m).
  destruct (_ <=? _) eqn:Es; bool_simp; [split; [done|lia]|].
  pose proof never_measured_spec as Hn. pose proof unbudgeted_spec as Hu.
  destruct (isNotFound _ && _ && _).
  { rewrite checkExclusive_spec. naive_solver. }
  assert (~ never_measured rd target requested m) as Hn' by (by intros ?%Hn).
  destruct (negb _ && negb _ && _).
  - destruct Hu as [Hu _]. specialize (Hu eq_refl). destruct (physicalRequest target requested); naive_solver.
  - assert (~ unbudgeted rd target requested m) as Hu' by (by intros ?%Hu).
    rewrite checkMeasuredPlacement_spec. naive_solver.
Qed.

End decides.

Lemma check_decides {R : GoRange} rd target requested exclude m :
  target_wf target -> manager_wf m ->
  checkResidentCapacityExcluding rd target requested exclude m = Ok tt <-> admissible rd target requested exclude m.
Proof.
  intros W Wm. pose proof (targetCapacityBytes_spec target) as Hb.
  destruct (targetCapacityBytes target) as [b|] eqn:E; [destruct Hb as [F _]; by apply check_admissible|].
  unfold checkResidentCapacityExcluding, admissible. rewrite E. naive_solver.
Qed.

(** ** Releasing work *)

(** The hot residencies of the store. *)
Definition hot_rows (m : Manager) : gmap string ModelResidency :=
  filter (fun kr => mr_ObservedTier kr.2 = "hot_vram"%string) (residencies (mgr_store m)).

(** [m'] differs from [m] by finished requests and models that are no longer
    hot; the workload that asks keeps its slot. *)
Record eases (target : Target) (exclude : string) (m m' : Manager) : Prop := {
  ez_targets : targets m' = targets m;
  ez_generations : targetGenerations m' = targetGenerations m;
  ez_capacities : modelCapacities (mgr_store m') = modelCapacities (mgr_store m);
  ez_rows : hot_rows m' ⊆ hot_rows m;
  ez_placements : activePlacements m' ⊆ activePlacements m;
  ez_holds : holds_slot target exclude m -> holds_slot target exclude m';
  ez_active : 0 <= default 0 (targetActive m' !! tgt_ID target) <= default 0 (targetActive m !! tgt_ID target);
  ez_width : default 0 (targetActive m !! tgt_ID target) <= MaxInt64;
}.

(** What the check reads of one row or placement is the same in both. *)
Ltac same_facts :=
  intros [Et Eg Ec _ _ _ _ _]; intros;
  repeat match goal with H : Manager |- _ => destruct H | H : MemoryStore |- _ => destruct H end;
  cbn in Et, Eg, Ec; subst; reflexivity.

Section same_facts.
Context {target : Target} {exclude : string}.

Lemma ez_capacityForModel {m m'} : eases target exclude m m' -> forall now t model, capacityForModel now t model m' = capacityForModel now t model m.
Proof. same_facts. Qed.
Lemma ez_row_charge {m m'} : eases target exclude m m' -> forall rd unified row, row_charge rd target unified m' row = row_charge rd target unified m row.
Proof. same_facts. Qed.
Lemma ez_row_measured {m m'} : eases target exclude m m' -> forall rd unified row, row_measured rd target unified m' row = row_measured rd target unified m row.
Proof. same_facts. Qed.
Lemma ez_placement_charge {m m'} : eases target exclude m m' -> forall rd unified p, placement_charge rd target unified m' p = placement_charge rd target unified m p.
Proof. same_facts. Qed.
Lemma ez_placement_measured {m m'} : eases target exclude m m' -> forall rd p, placement_measured rd target m' p = placement_measured rd target m p.
Proof. same_facts. Qed.
Lemma ez_slot_bound {m m'} : eases target exclude m m' -> forall p, verifiedProfileSlotBound p m' = verifiedProfileSlotBound p m.
Proof. same_facts. Qed.
Lemma ez_envelope {m m'} : eases target exclude m m' -> forall rd, envelope_agrees rd target m' = envelope_agrees rd target m.
Proof. same_facts. Qed.
Lemma ez_never_measured {m m'} : eases target exclude m m' -> forall rd requested, never_measured rd target requested m' = never_measured rd target requested m.
Proof. same_facts. Qed.
Lemma ez_unbudgeted {m m'} : eases target exclude m m' -> forall rd requested, unbudgeted rd target requested m' = unbudgeted rd target requested m.
Proof. same_facts. Qed.

End same_facts.

Lemma filter_sub {A} (P : A -> Prop) `{forall x, Decision (P x)} l k : l ⊆+ k -> filter P l ⊆+ filter P k.
Proof. intros [r ->]%submseteq_Permutation. rewrite filter_app. by apply submseteq_inserts_r. Qed.

Lemma omap_sub {A B} (f : A -> option B) (l k : list A) : l ⊆+ k -> omap f l ⊆+ omap f k.
Proof. intros [r ->]%submseteq_Permutation. rewrite omap_app. by apply submseteq_inserts_r. Qed.

Lemma Forall_sub {A} (P : A -> Prop) l k : l ⊆+ k -> Forall P k -> Forall P l.
Proof. intros [r ->]%submseteq_Permutation. by intros [? _]%Forall_app. Qed.

Lemma omap_same {A B} (f g : A -> option B) (l : list A) : (forall x, f x = g x) -> omap f l = omap g l.
Proof. intros H. induction l as [|x l IH]; cbn; [done|]. by rewrite H, IH. Qed.

Lemma increments_app ps qs : increments (ps ++ qs) = increments ps + increments qs.
Proof. induction ps as [|p ps IH]; [done|]. unfold increments in *. cbn [app foldr]. lia. Qed.

(** Only hot rows are charged. *)
Lemma hotRowTarget_hot target m row rt :
  hotRowTarget target m row = Some rt -> mr_ObservedTier row = "hot_vram"%string.
Proof. unfold hotRowTarget. destruct (mr_ObservedTier row !=? _) eqn:E; [done|]. by bool_simp. Qed.

Lemma omap_hot rd target unified m (l : list (string * ModelResidency)) :
  omap (row_charge rd target unified m) l.*2
  = omap (row_charge rd target unified m) (filter (fun kr => mr_ObservedTier kr.2 = "hot_vram"%string) l).*2.
Proof.
  induction l as [|[k row] l IH]; [done|]. rewrite filter_cons. cbn [fmap list_fmap snd]. case_decide as Ht.
  - cbn. by rewrite <- IH.
  - cbn. assert (row_charge rd target unified m row = None) as ->; [|done].
    unfold row_charge. destruct (hotRowTarget target m row) eqn:Er; [|done]. by apply hotRowTarget_hot in Er.
Qed.

Section release.
Context (rd : Readings) (target : Target) (requested exclude : string) (m m' : Manager).
Context (E : eases target exclude m m').

Lemma ez_placements_on : placements_on target m' ⊆+ placements_on target m.
Proof. apply filter_sub, fmap_submseteq, map_to_list_submseteq, (ez_placements _ _ _ _ E). Qed.

Lemma ez_hot_row k row : residencies (mgr_store m') !! k = Some row -> mr_ObservedTier row = "hot_vram"%string ->
  residencies (mgr_store m) !! k = Some row.
Proof.
  intros Hk Ht. assert (hot_rows m' !! k = Some row) as Hh by by apply map_lookup_filter_Some.
  apply (lookup_weaken _ (hot_rows m)) in Hh; [|apply (ez_rows _ _ _ _ E)]. by apply map_lookup_filter_Some in Hh as [? _].
Qed.

Lemma ez_resident_charges unified :
  omap (row_charge rd target unified m') (resident_rows m') ⊆+ omap (row_charge rd target unified m) (resident_rows m).
Proof.
  rewrite (omap_same _ _ _ (ez_row_charge E rd unified)).
  unfold resident_rows. rewrite (omap_hot _ _ _ _ (map_to_list (residencies (mgr_store m')))), (omap_hot _ _ _ _ (map_to_list (residencies (mgr_store m)))).
  apply omap_sub, fmap_submseteq, NoDup_submseteq; [apply NoDup_filter, NoDup_map_to_list|].
  intros [k row] [Ht Hk%elem_of_map_to_list]%list_elem_of_filter. apply list_elem_of_filter. split; [done|].
  apply elem_of_map_to_list. by apply ez_hot_row.
Qed.

Lemma ez_rows_measured unified :
  Forall (row_measured rd target unified m) (resident_rows m) -> Forall (row_measured rd target unified m') (resident_rows m').
Proof.
  rewrite !Forall_forall. intros H row ((k & row') & -> & Hk%elem_of_map_to_list)%list_elem_of_fmap.
  rewrite (ez_row_measured E). intros rt Hrt. apply H; [|done]. apply list_elem_of_fmap. exists (k, row'). split; [done|].
  apply elem_of_map_to_list, ez_hot_row; [done|]. by eapply hotRowTarget_hot.
Qed.

Lemma ez_allocations capacity : allocations rd target m' capacity ⊆+ allocations rd target m capacity.
Proof.
  unfold allocations. apply submseteq_app; [|apply submseteq_skip, ez_resident_charges].
  rewrite (omap_same _ _ _ (ez_placement_charge E rd _)).
  apply omap_sub, ez_placements_on.
Qed.

Lemma ez_increments unified :
  Forall (placement_measured rd target m) (placements_on target m) ->
  in_vram unified (increments (placements_on target m')) <= in_vram unified (increments (placements_on target m))
  /\ in_ram unified (increments (placements_on target m')) <= in_ram unified (increments (placements_on target m)).
Proof.
  destruct (submseteq_Permutation _ _ ez_placements_on) as [r Hr]. rewrite Hr, increments_app, Forall_app. intros [_ H].
  apply (increments_nonneg rd target unified m) in H. unfold in_vram, in_ram in *. destruct unified; lia.
Qed.

Lemma ez_pool_fits : pool_fits target m -> pool_fits target m'.
Proof.
  unfold pool_fits. cbv zeta. assert (filter (pooled m') (placements_on target m') ⊆+ filter (pooled m) (placements_on target m)) as Hs.
  { rewrite (list_filter_iff (pooled m') (pooled m)) by (intros p; unfold pooled; by rewrite (ez_slot_bound E)).
    apply filter_sub, ez_placements_on. }
  pose proof (submseteq_length _ _ Hs) as Hl. intros [Ha Hu]. split.
  - intros a b Hin Hb. rewrite !(ez_slot_bound E). apply Ha; by eapply elem_of_submseteq.
  - intros p Hp. rewrite (ez_slot_bound E). eapply elem_of_submseteq in Hp; [|done]. specialize (Hu p Hp). lia.
Qed.

Lemma ez_within_limits capacity :
  Forall (placement_measured rd target m) (placements_on target m) ->
  within_limits rd target m capacity -> within_limits rd target m' capacity.
Proof.
  intros Hm (Hv & Hr & Hvl & Hrl). pose proof (ez_increments (accounts_ram target) Hm) as [Iv Ir].
  pose proof (load_submseteq ch_vram _ _ (ez_allocations capacity)) as Lv.
  pose proof (load_submseteq ch_ram _ _ (ez_allocations capacity)) as Lr.
  unfold within_limits, vram_in_use, ram_in_use in *. cbv zeta in *.
  assert (forall c, c ∈ allocations rd target m' capacity -> c ∈ allocations rd target m capacity) as Hin.
  { intros c Hc. eapply elem_of_submseteq; [done|apply ez_allocations]. }
  split; [lia|]. split; [lia|]. split; [|intros H; specialize (Hrl H); lia]. intros Hb.
  destruct Hvl as (H1 & H2 & H3); [destruct Hb as [?|(c & ? & ?)]; [by left|right; eauto]|].
  split; [lia|]. split; [|lia]. intros c Hc Hp. specialize (H2 c (Hin c Hc) Hp). lia.
Qed.

Lemma ez_measured_fit capacity : measured_fit rd target m capacity -> measured_fit rd target m' capacity.
Proof.
  intros [Ha He Hr Hp Hpool Hl]. split.
  - done.
  - by rewrite (ez_envelope E).
  - by apply ez_rows_measured.
  - eapply Forall_impl; [eapply Forall_sub, Hp; apply ez_placements_on|]. intros p. by rewrite (ez_placement_measured E).
  - by apply ez_pool_fits.
  - by apply ez_within_limits.
Qed.

Lemma ez_slot_free : slot_free target requested exclude m -> slot_free target requested exclude m'.
Proof.
  destruct E as [_ _ _ _ Hsub Hh Ha Hw]. unfold slot_free. cbv zeta. intros [Hy Hn].
  assert (holds_slot target exclude m' -> holds_slot target exclude m) as Hb.
  { intros (id & p & Hp & ?). exists id, p. split; [by eapply lookup_weaken|done]. }
  split; [|naive_solver lia]. intros H. specialize (Hy (Hb H)). rewrite wrap64_small in Hy |- * by (unfold MaxInt64 in *; lia). lia.
Qed.

Lemma ez_admissible : admissible rd target requested exclude m -> admissible rd target requested exclude m'.
Proof.
  unfold admissible. rewrite (ez_never_measured E), (ez_unbudgeted E), (ez_capacityForModel E).
  pose proof (ez_placements _ _ _ _ E) as Hsub. intros (F & P & S & H). split; [done|]. split.
  { destruct P as [?|P]; [by left|right]. intros id p Hp. apply (P id). by eapply lookup_weaken. }
  split; [by apply ez_slot_free|]. destruct H as [[Hn Hx]|[H|(Hn & Hu & c & Hc & Hf)]]; [left|by right; left|right; right].
  - split; [done|]. intros id p Hp. apply (Hx id). by eapply lookup_weaken.
  - split; [done|]. split; [done|]. exists c. split; [done|]. by apply ez_measured_fit.
Qed.

Lemma ez_manager_wf : manager_wf m -> manager_wf m'.
Proof.
  intros [Hc Hs]. split; [by rewrite (ez_capacities _ _ _ _ E)|].
  pose proof (map_subseteq_size _ _ (ez_placements _ _ _ _ E)). lia.
Qed.

End release.

(** ** Physical memory *)

(** A target and a model; [occupies] says that the model takes memory of the
    accelerator: it is requested, hot, or serves a request in flight. *)
Abbreviation occupant := (string * string)%type (only parsing).

Definition occupies (target : Target) (requested : string) (m : Manager) (o : occupant) : Prop :=
  o = (tgt_ID target, requested)
  \/ (exists k row, residencies (mgr_store m) !! k = Some row /\ o = (mr_TargetID row, mr_Model row)
        /\ is_Some (hotRowTarget target m row))
  \/ (exists id p, activePlacements m !! id = Some p /\ o = (pl_targetID p, pl_model p)
        /\ pl_acceleratorID p = tgt_AcceleratorID target /\ pl_model p <> ""%string).

(** The measured footprint of a model under its target's active profile. *)
Definition measured_row (m : Manager) (o : occupant) : option ModelCapacity :=
  modelCapacities (mgr_store m) !! modelCapacityKey o.1 o.2 (tgt_ActiveRuntimeProfile (targetByID o.1 m)).
Definition footprint (m : Manager) (o : occupant) : Z := from_option FootprintBytes 0 (measured_row m o).
Definition footprints (m : Manager) (os : list occupant) : Z := foldr (fun o acc => footprint m o + acc) 0 os.

(** Targets are filed under their identifiers and capacity rows under their
    own names, which are free of the separator of composite keys. *)
Record filed (m : Manager) : Prop := {
  fl_targets : forall id t, targets m !! id = Some t -> tgt_ID t = id /\ nochar NUL id = true;
  fl_capacities : forall k c, modelCapacities (mgr_store m) !! k = Some c ->
    k = modelCapacityKey (mc_TargetID c) (mc_Model c) (mc_ProfileID c)
    /\ nochar NUL (mc_TargetID c) = true /\ nochar NUL (mc_Model c) = true /\ nochar NUL (mc_ProfileID c) = true;
}.

Lemma allocation_key_inj a b :
  nochar NUL (mc_TargetID a) = true -> nochar NUL (mc_TargetID b) = true ->
  nochar NUL (mc_Model a) = true -> nochar NUL (mc_Model b) = true ->
  modelCapacityAllocationKey (Some a) = modelCapacityAllocationKey (Some b) ->
  (mc_TargetID a, mc_Model a) = (mc_TargetID b, mc_Model b).
Proof.
  intros Ta Tb Ma Mb. cbn. intros [-> H]%join_inj_l; [|done..]. by apply join_inj_l in H as [-> _].
Qed.

Section physical.
Context (rd : Readings) (target : Target) (requested : string) (m : Manager) (capacity : ModelCapacity).
Context (Hf : filed m) (Hcur : targetByID (tgt_ID target) m = target) (Hv : 0 < vramTotal target).
Context (Hreq : capacityForModel (at_request rd) target requested m = Ok capacity).
Context (Hfit : measured_fit rd target m capacity).

Lemma accounts_vram : accounts_ram target = false.
Proof. unfold accounts_ram, hasVRAMBudget. by rewrite (proj2 (Z.ltb_lt _ _) Hv). Qed.

(** The target is known to the manager. *)
Lemma known_target t : tgt_ID (targetByID t m) <> ""%string -> is_Some (targets m !! t).
Proof. unfold targetByID. by destruct (targets m !! t). Qed.

Lemma checked_target_known : is_Some (targets m !! tgt_ID target).
Proof.
  unfold targetByID in Hcur. destruct (targets m !! tgt_ID target); [done|]. cbn in Hcur. rewrite <- Hcur in Hv. by vm_compute in Hv.
Qed.

(** A validated measurement is the row of its occupant, and names it. *)
Lemma measured_row_of now t model c :
  capacityForModel now (targetByID t m) model m = Ok c -> is_Some (targets m !! t) ->
  measured_row m (t, model) = Some c /\ (t, model) = (mc_TargetID c, mc_Model c).
Proof.
  intros (Hc & _ & Hp & _)%capacityForModel_row [x Hx]. destruct (fl_targets _ Hf _ _ Hx) as [Hid Hn].
  assert (tgt_ID (targetByID t m) = t) as Ht by (unfold targetByID; by rewrite Hx). rewrite Ht in Hc. split; [done|].
  destruct (fl_capacities _ Hf _ _ Hc) as (Hk & Nt & _ & Np). unfold modelCapacityKey, key2 in Hk.
  rewrite Hp in Hk, Np. apply join_inj_r in Hk as [Hk _]; [|done..]. by apply join_inj_l in Hk as [-> ->].
Qed.

Lemma hotRowTarget_filed row rt :
  hotRowTarget target m row = Some rt -> rt = targetByID (mr_TargetID row) m /\ is_Some (targets m !! mr_TargetID row).
Proof.
  unfold hotRowTarget. destruct (mr_ObservedTier row !=? _); [done|]. destruct (_ && _); [done|].
  destruct (mr_TargetID row !=? _) eqn:Et; bool_simp.
  - destruct (_ || _) eqn:Eb; [done|]. bool_simp. intros [= <-]. split; [done|]. by apply known_target.
  - intros [= <-]. rewrite Et, Hcur. split; [done|]. apply checked_target_known.
Qed.

Lemma occupied_charge o :
  occupies target requested m o ->
  exists row c, measured_row m o = Some row /\ o = (mc_TargetID row, mc_Model row) /\ c ∈ allocations rd target m capacity
    /\ ch_key c = modelCapacityAllocationKey (Some row) /\ ch_vram c = FootprintBytes row.
Proof.
  unfold allocations. rewrite accounts_vram. destruct Hfit as [_ _ Hrows Hps _ _]. rewrite accounts_vram in Hrows.
  rewrite Forall_forall in Hrows. rewrite Forall_forall in Hps.
  intros [->|[(k & r & Hk & -> & [rt Hrt])|(id & p & Hp & -> & Ha & Hm)]].
  - exists capacity, (requestedCharge false capacity).
    destruct (measured_row_of (at_request rd) (tgt_ID target) requested capacity) as [Hr Ho];
      [by rewrite Hcur|apply checked_target_known|]. split; [done|]. split; [done|]. split; [set_solver|done].
  - assert (r ∈ resident_rows m) as Hin by (apply list_elem_of_fmap; exists (k, r); split; [done|by apply elem_of_map_to_list]).
    destruct (Hrows r Hin rt Hrt) as [c Hc].
    pose proof Hc as (cap & Hcap & ->)%residentCharge_inv. destruct (hotRowTarget_filed r rt Hrt) as [-> Hid].
    destruct (measured_row_of _ _ _ _ Hcap Hid) as [Hr Ho]. exists cap, (measuredCharge false (targetByID (mr_TargetID r) m) cap).
    split; [done|]. split; [done|]. split; [|done]. apply elem_of_app. right. right. apply list_elem_of_omap. exists r. split; [done|]. unfold row_charge. by rewrite Hrt, Hc.
  - assert (p ∈ placements_on target m) as Hin.
    { apply list_elem_of_filter. split; [done|]. apply list_elem_of_fmap. exists (id, p). split; [done|by apply elem_of_map_to_list]. }
    destruct (Hps p Hin) as [?|(cap & Hcap & _)]; [done|].
    exists cap, (measuredCharge false (targetByID (pl_targetID p) m) cap).
    assert (tgt_ID (targetByID (pl_targetID p) m) <> ""%string) as Hid.
    { unfold placementCapacity, stalePlacement in Hcap. repeat branch Hcap. by bool_simp. }
    pose proof Hcap as (Hc & _)%placementCapacity_inv.
    destruct (measured_row_of _ _ _ _ Hc (known_target _ Hid)) as [Hr Ho].
    split; [done|]. split; [done|]. split; [|done]. apply elem_of_app. left. apply list_elem_of_omap. exists p. split; [done|]. unfold placement_charge.
    by rewrite bool_decide_eq_false_2, Hcap.
Qed.

(** Distinct models that occupy the accelerator weigh at most the load. *)
Lemma footprints_load os :
  NoDup os -> (forall o, o ∈ os -> occupies target requested m o) ->
  footprints m os <= load ch_vram (allocations rd target m capacity).
Proof.
  intros Hn Ho. apply (load_part ch_vram _ _ (fun o => modelCapacityAllocationKey (measured_row m o)) (footprint m)).
  - apply NoDup_fmap_2_strong; [|done]. intros a b Ha Hb Hk.
    destruct (occupied_charge a (Ho a Ha)) as (ra & _ & Hra & -> & _).
    destruct (occupied_charge b (Ho b Hb)) as (rb & _ & Hrb & -> & _). rewrite Hra, Hrb in Hk.
    destruct (fl_capacities _ Hf _ _ Hra) as (_ & Ta & Ma & _), (fl_capacities _ Hf _ _ Hrb) as (_ & Tb & Mb & _).
    by apply allocation_key_inj.
  - intros o Hin. destruct (occupied_charge o (Ho o Hin)) as (row & c & Hrow & _ & Hc & Hk & Hfp).
    exists c. split; [done|]. unfold footprint. rewrite Hrow. cbn. split; [done|lia].
Qed.

End physical.

(** ** A small fleet

    One accelerator of 24 GB with a reserve of 1 GB and a hard cap of 22 GB.
    Model [a] is hot and serves a request whose increment was measured; model
    [b] is measured, but not loaded. *)

Definition gb : Z := 1000000000.

Definition fleet_target : Target :=
  noTarget <| tgt_ID := "t1"%string |> <| tgt_Adapter := "llama"%string |> <| tgt_AcceleratorID := "gpu0"%string |>
    <| tgt_Slots := 4 |> <| tgt_CapabilityVersion := "v1"%string |> <| tgt_CapabilityRevision := "r1"%string |>
    <| tgt_Capacity := mkCapacityBudget (24 * gb) gb (22 * gb) 0 0 0 0 |> <| tgt_ModelFingerprint := "fp"%string |>
    <| tgt_ActiveRuntimeProfile := "p1"%string |>.

Definition fleet_capacity (model : string) (bytes : Z) : ModelCapacity :=
  mkModelCapacity "" "t1" "gpu0" model "p1" "fp" (residencyCapacityIdentity fleet_target) "v1" "r1" bytes 0 gb (22 * gb) 0 0 (24 * gb)
    0 false "runtime:probe" true 1 noon noon.

Definition fleet_hot (model : string) : ModelResidency :=
  (zero : ModelResidency) <| mr_TargetID := "t1"%string |> <| mr_Model := model |> <| mr_AcceleratorID := "gpu0"%string |>
    <| mr_ObservedTier := "hot_vram"%string |>.

Definition fleet_placement : activePlacement :=
  mkActivePlacement "w1" "t1" "gpu0" "llama" "v1" "" "" 0 0 0 false false float_zero float_zero false false "a" 0 1 "p1"
    (residencyCapacityIdentity fleet_target) gb true.

Definition fleet_store : MemoryStore :=
  NewMemoryStore <| modelCapacities := {[ modelCapacityKey "t1" "a" "p1" := fleet_capacity "a" (10 * gb);
                                          modelCapacityKey "t1" "b" "p1" := fleet_capacity "b" (8 * gb) ]} |>
    <| residencies := {[ residencyKey "t1" "a" := fleet_hot "a" ]} |>.

Definition fleet : Manager :=
  (NewManager fleet_store minute) <| targets := {[ "t1"%string := fleet_target ]} |> <| targetGenerations := {[ "t1"%string := 1 ]} |>
    <| targetActive := {[ "t1"%string := 1 ]} |> <| activePlacements := {[ "w1"%string := fleet_placement ]} |>.

(** The fleet after the request of [w1] has finished. *)
Definition fleet_idle : Manager := fleet <| activePlacements := ∅ |> <| targetActive := ∅ |>.

Definition readings : Readings := mkReadings noon (fun _ => noon) (fun _ => noon) (fun _ => noon).

Lemma fleet_wf : manager_wf fleet.
Proof.
  split; [|vm_compute; congruence]. intros k c Hc. cbn in Hc.
  apply lookup_insert_Some in Hc as [[_ <-]|[_ Hc]]; [vm_compute; intuition congruence|].
  apply lookup_singleton_Some in Hc as [_ <-]. vm_compute; intuition congruence.
Qed.

Lemma fleet_target_wf : target_wf fleet_target.
Proof. vm_compute. congruence. Qed.

Lemma fleet_filed : filed fleet.
Proof.
  split.
  - intros id t Ht. cbn in Ht. by apply lookup_singleton_Some in Ht as [<- <-].
  - intros k c Hc. cbn in Hc. apply lookup_insert_Some in Hc as [[<- <-]|[_ [<- <-]%lookup_singleton_Some]]; done.
Qed.

(** ** Theorems *)

(** C26: the memory check decides a condition on the recorded state: valid
    byte fields, a free slot, and either exclusive use for a local model that
    was never measured, or no budget and nothing physical at stake, or
    agreeing measurements for everything on the accelerator whose distinct
    allocations, increments and reserve fit every limit that applies.  The
    order in which maps are visited does not matter. *)
Theorem admission_decides {R : GoRange} (rd : Readings) (target : Target) (requested exclude : string) (m : Manager) :
  target_wf target -> manager_wf m ->
  checkResidentCapacityExcluding rd target requested exclude m = Ok tt <-> admissible rd target requested exclude m.
Proof. apply check_decides. Qed.

Lemma admission_decides_witness : admissible readings fleet_target "b" "" fleet.
Proof. apply (admission_decides (R := by_key)); [apply fleet_target_wf|apply fleet_wf|vm_compute; reflexivity]. Defined.

(** C27: an admitted request never overcommits the accelerator.  The target is
    the registered one and has VRAM, target and manager are well formed and
    measurements are filed under their own keys.  When the check admits a
    request, either the requested model was never measured and no other target
    works on the accelerator, or the measured footprints of any distinct models
    that are hot, serve a request or are requested, with the verified
    increments of the requests in flight and the reserve, stay within the
    target's hard cap and its physical memory. *)
Theorem admitted_never_overcommits {R : GoRange} (rd : Readings) (target : Target) (requested exclude : string) (m : Manager) :
  target_wf target -> manager_wf m -> filed m -> targetByID (tgt_ID target) m = target -> 0 < vramTotal target ->
  checkResidentCapacityExcluding rd target requested exclude m = Ok tt ->
  (never_measured rd target requested m /\ exclusive target exclude m)
  \/ forall os, NoDup os -> (forall o, o ∈ os -> occupies target requested m o) ->
       let bytes := footprints m os + increments (placements_on target m) + vramReserve target in
       bytes <= vramHardCap target /\ bytes <= vramTotal target.
Proof.
  intros W Wm Hf Hcur Hv Hok. apply check_decides in Hok as (F & _ & _ & H); [|done..].
  destruct H as [H|[(_ & (Hb & _) & _)|(_ & _ & c & Hc & Hfit)]]; [by left| |].
  { unfold hasVRAMBudget in Hb. bool_simp. lia. }
  right. intros os Hn Ho. pose proof (footprints_load rd target requested m c Hf Hcur Hv Hc Hfit os Hn Ho) as Hl.
  destruct (mf_limits _ _ _ _ Hfit) as (_ & _ & Hlim & _). destruct Hlim as (H1 & _ & H2).
  { left. unfold hasVRAMBudget. by rewrite (proj2 (Z.ltb_lt _ _) Hv). }
  specialize (H2 Hv). unfold vram_in_use in *. rewrite (accounts_vram target Hv) in *. cbn [in_vram] in *. cbv zeta.
  assert (vramLimit target = vramHardCap target) as Hlim.
  { unfold vramLimit. destruct (_ <=? 0) eqn:E; [|done]. bool_simp. exfalso. unfold vramHardCap in E. cbv zeta in E.
    repeat case_match; bool_simp; lia. }
  lia.
Qed.

Lemma admitted_never_overcommits_witness :
  footprints fleet [("t1", "a"); ("t1", "b")]%string = 18 * gb
  /\ 18 * gb + increments (placements_on fleet_target fleet) + vramReserve fleet_target <= vramHardCap fleet_target.
Proof.
  split; [vm_compute; reflexivity|].
  destruct (admitted_never_overcommits (R := by_key) readings fleet_target "b" "" fleet) as [[(_ & H & _) _]|H].
  - apply fleet_target_wf.
  - apply fleet_wf.
  - apply fleet_filed.
  - vm_compute; reflexivity.
  - vm_compute; reflexivity.
  - vm_compute; reflexivity.
  - vm_compute in H. discriminate H.
  - apply (H [("t1", "a"); ("t1", "b")]%string).
    + apply NoDup_cons. split; [by intros [=]%list_elem_of_singleton|apply NoDup_singleton].
    + intros o [->|[->|[]%elem_of_nil]%elem_of_cons]%elem_of_cons; [right; left|by left].
      exists (residencyKey "t1" "a"), (fleet_hot "a"). split; [reflexivity|]. split; [reflexivity|]. eexists. vm_compute. reflexivity.
Defined.

(** Finishing requests and unloading models never turns an admitted
    request away: when the manager's state differs only by fewer active
    placements, fewer hot models and fewer active slots, and the asking
    workload keeps its own placement, the check succeeds again, whatever the
    order in which either run visits the maps. *)
Theorem release_keeps_admission {R R' : GoRange} (rd : Readings) (target : Target) (requested exclude : string) (m m' : Manager) :
  target_wf target -> manager_wf m -> eases target exclude m m' ->
  checkResidentCapacityExcluding (R := R) rd target requested exclude m = Ok tt ->
  checkResidentCapacityExcluding (R := R') rd target requested exclude m' = Ok tt.
Proof.
  intros W Wm E Hok. apply check_decides; [done|by eapply ez_manager_wf|].
  eapply ez_admissible; [done|]. by apply (check_decides (R := R)).
Qed.

Lemma release_keeps_admission_witness :
  checkResidentCapacityExcluding (R := by_key) readings fleet_target "b" "" fleet_idle = Ok tt.
Proof.
  apply (release_keeps_admission (R := by_key) (R' := by_key) _ _ _ _ fleet).
  - apply fleet_target_wf.
  - apply fleet_wf.
  - split; try reflexivity; [apply map_empty_subseteq| |vm_compute; split; congruence|vm_compute; congruence].
    intros (id & p & Hp & _ & Hw). cbn in Hp. apply lookup_singleton_Some in Hp as [_ <-]. discriminate Hw.
  - vm_compute; reflexivity.
Defined.
