(* ===== verification/Placement.v ===== *)
(** * Reservations and releases ([workloads/manager.go], [workloads/companion.go])

    How a workload gets a slot of a target and the fence of its accelerator,
    and how it gives them back.  [reserveTarget] validates the request, tries
    to publish a placement under a lease the manager already holds (its own or,
    when everybody consents, that of another target on the accelerator), and
    otherwise acquires a durable lease first and publishes after checking
    again.  [releaseTargetWithIntent] elects the last user of an accelerator,
    who releases the durable lease before its placement is cleared.  Each
    definition below is one critical section or one call of the store; their
    interleavings are in [PlacementInv].

    The two digests of whole advertisements and requests that the code compares
    are arguments ([Fingerprints]): nothing is assumed of them. *)

From Stdlib Require Import Floats.SpecFloat.
From S2P Require Import Prelude GoText Domain DomainWorkload DomainNode Store Residency Records.
From S2P Require Import Checkpoint Displacement DisplacementInv Leases WorkloadManager Admission.

Class Fingerprints := {
  targetExecutionFingerprint : Target -> string;
  workloadProfileFingerprint : Target -> WorkloadRequest -> string;
}.

(** ** Requests *)

Record Requirements := mkRequirements {
  rq_Model : string;
  rq_EstimatedVRAMMB : Z;
  rq_ContextTokens : Z;
}.

Record RequestVRAMIncrementObservation := mkRequestVRAMIncrementObservation {
  vo_TargetID : string;
  vo_AcceleratorID : string;
  vo_RequestID : string;
  vo_Model : string;
  vo_ProfileID : string;
  vo_RuntimeIdentity : string;
  vo_CapabilityVersion : string;
  vo_CapabilityRevision : string;
  vo_ModelFingerprint : string;
  vo_TargetGeneration : Z;
  vo_ContextTokens : Z;
  vo_Bytes : Z;
  vo_Source : string;
  vo_Verified : bool;
  vo_ObservedAt : Time;
}.

Definition validateRequestVRAMIncrementObservation (o : RequestVRAMIncrementObservation) (target : Target) (requestID : string)
    (requirements : Requirements) (generation : Z) (now : Time) : result unit :=
  reject negb (vo_Verified o) || (vo_Bytes o <? 0) || (vo_Source o ==? ""%string) || negb (HasPrefix (vo_Source o) "runtime:")
    with ErrorsNew "request increment is not a verified runtime observation";
  reject (generation =? 0) || (negb (vo_TargetGeneration o =? 0) && negb (vo_TargetGeneration o =? generation))
      || (vo_TargetID o !=? tgt_ID target) || (vo_AcceleratorID o !=? tgt_AcceleratorID target) || (vo_RequestID o !=? requestID)
      || (vo_Model o !=? rq_Model requirements) || (vo_ProfileID o !=? tgt_ActiveRuntimeProfile target)
      || (vo_RuntimeIdentity o !=? residencyCapacityIdentity target)
      || (vo_CapabilityVersion o !=? tgt_CapabilityVersion target) || (vo_CapabilityRevision o !=? tgt_CapabilityRevision target)
      || (vo_ModelFingerprint o !=? tgt_ModelFingerprint target) || negb (vo_ContextTokens o =? rq_ContextTokens requirements)
    with ErrorsNew ("request increment identity drifted for target " +:+ tgt_ID target);
  reject (vo_ContextTokens o <? 0) || (vo_ObservedAt o =? 0) || (modelCapacityMaxAge <? now - vo_ObservedAt o)
      || (now + 300 * second <? vo_ObservedAt o)
    with ErrorsNew "request increment observation is stale or malformed";
  Ok tt.

(** What the target's adapter says about the bytes of a request: it has no
    observer, it does not support the question, it failed, or it answered. *)
Inductive observation :=
  | NoObserver
  | ObserveUnsupported
  | ObserveFailed
  | Observed (o : RequestVRAMIncrementObservation).

(** [(nil, false, reason, nil)], [(nil, false, "", err)], or go on. *)
Inductive attempt (A : Type) :=
  | Refused (reason : string)
  | Failed (e : error)
  | Proceed (a : A).
Arguments Refused {A} reason.
Arguments Failed {A} e.
Arguments Proceed {A} a.

Notation "'refuse' c 'with' e ; k" := (if c then Refused e else k)
  (at level 10, c at level 100, e at level 100, k at level 200) : go_scope.
Notation "'check?' c ; k" := (match c with Ok _ => k | Err e => Failed e end)
  (at level 10, c at level 100, k at level 200) : go_scope.

(** What the first phase fixes for the rest of the call. *)
Record prepared := mkPrepared {
  pr_target : Target;
  pr_generation : Z;
  pr_modelLimit : Z;
  pr_slots : Z;
  pr_pool : option ModelPool;
  pr_leaseID : string;
  pr_placement : activePlacement;
}.

Section fingerprints.
Context `{Fingerprints}.

Definition targetIdentityMatches (expected current : Target) : bool :=
  (tgt_ID expected !=? ""%string) && (tgt_ID current ==? tgt_ID expected)
  && (targetExecutionFingerprint expected ==? targetExecutionFingerprint current).

Definition targetFenceMatches (expected : Target) (generation : Z) (m : Manager) : bool :=
  if generation =? 0 then true
  else targetIdentityMatches expected (targetByID (tgt_ID expected) m) && (targetGeneration (tgt_ID expected) m =? generation).

Definition runtimeProfileTargetBlockerLocked (target : Target) (m : Manager) : string :=
  let reason := default ""%string (runtimeProfileBlockedTargets m !! tgt_ID target) in
  if reason !=? ""%string then reason
  else
    let reason := if tgt_NodeID target !=? ""%string then default ""%string (runtimeProfileBlockedNodes m !! tgt_NodeID target)
                  else ""%string in
    if reason !=? ""%string then reason
    else if tgt_AcceleratorID target !=? ""%string then default ""%string (runtimeProfileBlockedCards m !! tgt_AcceleratorID target)
    else ""%string.

Definition modelLimitLocked (model : string) (m : Manager) : Z :=
  let limit := default 0 (modelCapacityPolicies m !! model) in
  if 0 <? limit then limit
  else if 0 <? defaultMaxAcceleratorsPerModel m then defaultMaxAcceleratorsPerModel m else 1.

Definition targetWorkloadClass (target : Target) : string :=
  if tgt_WorkloadClass target !=? ""%string then tgt_WorkloadClass target else tgt_Adapter target.

(** The accelerator a target's lease is taken on. *)
Definition leaseIDOf (target : Target) : string :=
  if tgt_AcceleratorID target ==? ""%string then ("virtual/" +:+ tgt_ID target)%string else tgt_AcceleratorID target.

Definition standaloneProfileKey (target : Target) : string :=
  (leaseIDOf target +:+ "|" +:+ tgt_CapabilityVersion target +:+ "|" +:+ targetWorkloadClass target)%string.

Definition standaloneRequestProfileKey (target : Target) (request : WorkloadRequest) : string :=
  (standaloneProfileKey target +:+ "|fp:" +:+ workloadProfileFingerprint target request)%string.

(** A profile that has seen enough runs to be believed. *)
Definition confident (profile : option InterferenceProfile) : option InterferenceProfile :=
  match profile with
  | Some p => if SFltb (ip_Confidence p) float_half then None else Some p
  | None => None
  end.

(** The measured envelope of the placement; without one, the learned one. *)
Definition placementVRAM (target : Target) (request : WorkloadRequest) (m : Manager) : Z :=
  if 0 <? tgt_StandaloneVRAMMB target then tgt_StandaloneVRAMMB target
  else
    let profile := match confident (interferenceProfiles m !! standaloneRequestProfileKey target request) with
                   | Some p => Some p
                   | None => interferenceProfiles m !! standaloneProfileKey target
                   end in
    match profile with
    | Some p => if SFleb float_half (ip_Confidence p) then ip_P95VRAMMB p else tgt_StandaloneVRAMMB target
    | None => tgt_StandaloneVRAMMB target
    end.

Definition newPlacement (target : Target) (request : WorkloadRequest) (requirements : Requirements) (generation : Z)
    (increment : option RequestVRAMIncrementObservation) (m : Manager) : activePlacement :=
  {| pl_workloadID := req_ID request; pl_targetID := tgt_ID target; pl_acceleratorID := leaseIDOf target;
     pl_workloadClass := targetWorkloadClass target; pl_runtimeVersion := tgt_CapabilityVersion target;
     pl_fingerprint := workloadProfileFingerprint target request; pl_disruption := req_Disruption request;
     pl_vramMB := placementVRAM target request m; pl_capacityVRAMMB := tgt_AcceleratorVRAMMB target;
     pl_reserveVRAMMB := tgt_VRAMReserveMB target; pl_sharingEnabled := tgt_SharingEnabled target;
     pl_guardedExploration := tgt_GuardedExploration target; pl_predictedSlowdown := tgt_PredictedSlowdown target;
     pl_maxSlowdown := if SFleb (tgt_MaxSlowdown target) float_zero then float_1_25 else tgt_MaxSlowdown target;
     pl_safetyCritical := tgt_SafetyCritical target; pl_sharedObserved := false; pl_model := rq_Model requirements;
     pl_contextTokens := rq_ContextTokens requirements; pl_targetGeneration := generation;
     pl_profileID := tgt_ActiveRuntimeProfile target; pl_runtimeIdentity := residencyCapacityIdentity target;
     pl_requestIncrementBytes := match increment with Some o => if vo_Verified o then vo_Bytes o else 0 | None => 0 end;
     pl_requestIncrementVerified := match increment with Some o => vo_Verified o | None => false end |}.

(** The bytes the adapter claims for the request, validated. *)
Definition observedIncrement (now : Time) (answer : observation) (target : Target) (request : WorkloadRequest)
    (requirements : Requirements) (generation : Z) (m : Manager) : attempt (option RequestVRAMIncrementObservation) :=
  if rq_Model requirements ==? ""%string then Proceed None
  else
    match answer with
    | NoObserver | ObserveUnsupported => Proceed None
    | ObserveFailed => Refused "authoritative request VRAM increment observation unavailable"
    | Observed o =>
        match validateRequestVRAMIncrementObservation o target (req_ID request) requirements generation now with
        | Err _ => Refused "authoritative request VRAM increment observation is invalid"
        | Ok _ =>
            refuse negb (targetFenceMatches target generation m)
              with "target facts changed during request capacity observation";
            Proceed (Some o)
        end
    end.

(** The first phase of [reserveTarget], up to its loop.  No lock is held while
    the adapter answers: [m] is the manager before the call, [m'] after it. *)
Definition prepareReservation {R : GoRange} (now : Time) (answer : observation) (target : Target) (request : WorkloadRequest)
    (requirements : Requirements) (m m' : Manager) : attempt prepared :=
  let current := targetByID (tgt_ID target) m in
  let target := if tgt_ID current !=? ""%string then current else target in
  let pendingKey := default ""%string (runtimeProfileTransitionTarget m !! tgt_ID target) in
  refuse (pendingKey !=? ""%string) && (runtimeProfileTransitions m !! pendingKey ==? Some false)
    with "runtime profile transition is awaiting observed capacity";
  refuse runtimeProfileTargetBlockerLocked target m !=? ""%string
    with "runtime profile observation is unavailable; operator reconciliation is required";
  refuse tgt_CapacitySource target ==? "runtime-profile:observation_unavailable"%string
    with "runtime profile observation is unavailable; operator reconciliation is required";
  check? validateCapacityByteFields target;
  check? validateTargetMiBFields target;
  if rq_EstimatedVRAMMB requirements <? 0 then Failed (ErrorsNew "estimated_vram_mb must be non-negative")
  else if rq_ContextTokens requirements <? 0 then Failed (ErrorsNew "context_tokens must be non-negative")
  else
    check? checkedMiBToBytes (rq_EstimatedVRAMMB requirements) "estimated_vram_mb";
    check? validateActivePlacementBytes (tgt_AcceleratorID target) m;
    let generation := targetGeneration (tgt_ID target) m in
    match observedIncrement now answer target request requirements generation m' with
    | Refused reason => Refused reason
    | Failed e => Failed e
    | Proceed increment =>
        let placement := newPlacement target request requirements generation increment m' in
        check? checkedMiBToBytes (pl_vramMB placement) "active placement vram_mb";
        Proceed {| pr_target := target; pr_generation := generation;
                   pr_modelLimit := modelLimitLocked (rq_Model requirements) m;
                   pr_slots := slotLimit target (rq_Model requirements); pr_pool := modelPool target (rq_Model requirements);
                   pr_leaseID := leaseIDOf target; pr_placement := placement |}
    end.

End fingerprints.

(** ** Sharing an accelerator *)

Definition DisruptionSlowdown : string := "slowdown_allowed".

(** The results of [canCoScheduleLocked]. *)
Record sharing := mkSharing {
  cs_predictedVRAMMB : Z;
  cs_reserveVRAMMB : Z;
  cs_capacityVRAMMB : Z;
  cs_maxSlowdown : float64;
  cs_exploration : bool;
  cs_allowed : bool;
  cs_reason : string;
}.

Definition refusedSharing (reason : string) : sharing := mkSharing 0 0 0 float_zero false false reason.

(** The running composition of the loop over the victims. *)
Record composition := mkComposition {
  co_predicted : Z;
  co_reserve : Z;
  co_capacity : Z;
  co_maxSlowdown : float64;
  co_known : bool;
}.

Definition refusedComposition (c : composition) (reason : string) : sharing :=
  mkSharing (co_predicted c) (co_reserve c) (co_capacity c) (co_maxSlowdown c) false false reason.

(** A placement that lets others run beside it. *)
Definition consents (p : activePlacement) : bool :=
  negb (negb (pl_sharingEnabled p) || pl_safetyCritical p || (pl_disruption p !=? DisruptionSlowdown)).

Definition composeVictim (victim : activePlacement) (c : composition) : sharing + composition :=
  if negb (consents victim) || (pl_vramMB victim <=? 0)
  then inl (refusedSharing "active victim disruption policy forbids sharing")
  else
    let c := mkComposition (wrap64 (co_predicted c + pl_vramMB victim))
               (if co_reserve c <? pl_reserveVRAMMB victim then pl_reserveVRAMMB victim else co_reserve c)
               (if (0 <? pl_capacityVRAMMB victim) && ((co_capacity c =? 0) || (pl_capacityVRAMMB victim <? co_capacity c))
                then pl_capacityVRAMMB victim else co_capacity c)
               (if SFltb float_zero (pl_maxSlowdown victim) && SFltb (pl_maxSlowdown victim) (co_maxSlowdown c)
                then pl_maxSlowdown victim else co_maxSlowdown c)
               (co_known c && SFltb float_zero (pl_predictedSlowdown victim)) in
    if SFltb (co_maxSlowdown c) (pl_predictedSlowdown victim)
    then inl (refusedComposition c "predicted victim slowdown exceeds policy")
    else inr c.

Fixpoint composeVictims (victims : list activePlacement) (c : composition) : sharing + composition :=
  match victims with
  | [] => inr c
  | victim :: victims =>
      match composeVictim victim c with
      | inl refused => inl refused
      | inr c => composeVictims victims c
      end
  end.

(** The placements already on an accelerator, as a [range] visits them. *)
Definition victimsOf {R : GoRange} (acceleratorID : string) (m : Manager) : list activePlacement :=
  filter (fun p => pl_acceleratorID p = acceleratorID) (go_range (activePlacements m)).*2.

Definition sortStrings (l : list string) : list string := sort_slice String.ltb l.

Fixpoint compactAfter (previous : string) (values : list string) : list string :=
  match values with
  | [] => []
  | value :: values => if value !=? previous then value :: compactAfter value values else compactAfter previous values
  end.

Definition compactStrings (values : list string) : list string :=
  match values with
  | [] => []
  | value :: values => value :: compactAfter value values
  end.

Definition sharingProfileKeyLocked {R : GoRange} (newcomer : activePlacement) (m : Manager) : string * list string * string :=
  let victims := victimsOf (pl_acceleratorID newcomer) m in
  let classes := sortStrings (pl_workloadClass newcomer :: map pl_workloadClass victims) in
  let versions := compactStrings (sortStrings (pl_runtimeVersion newcomer :: map pl_runtimeVersion victims)) in
  let runtimeVersions := String.concat "+" versions in
  ((pl_acceleratorID newcomer +:+ "|" +:+ runtimeVersions +:+ "|" +:+ String.concat "+" classes)%string, classes, runtimeVersions).

Definition sharingExactProfileKeyLocked {R : GoRange} (newcomer : activePlacement) (classKey : string) (m : Manager) : string :=
  let fingerprints := sortStrings (pl_fingerprint newcomer :: map pl_fingerprint (victimsOf (pl_acceleratorID newcomer) m)) in
  (classKey +:+ "|fp:" +:+ String.concat "+" fingerprints)%string.

(** The learned profile of a combination. *)
Definition learnedProfile {R : GoRange} (newcomer : activePlacement) (m : Manager) : option InterferenceProfile :=
  let profileKey := (sharingProfileKeyLocked newcomer m).1.1 in
  let exactProfileKey := sharingExactProfileKeyLocked newcomer profileKey m in
  let learned := match confident (interferenceProfiles m !! exactProfileKey) with
                 | Some p => Some p
                 | None => interferenceProfiles m !! profileKey
                 end in
  match learned with
  | Some p => if SFleb float_half (ip_Confidence p) then Some p else None
  | None => None
  end.

Definition judgeComposition (newcomer : activePlacement) (learned : option InterferenceProfile) (c : composition) : sharing :=
  let c := if co_reserve c <=? 0 then mkComposition (co_predicted c) 512 (co_capacity c) (co_maxSlowdown c) (co_known c) else c in
  if co_capacity c <? wrap64 (co_predicted c + co_reserve c)
  then refusedComposition c "conservative p95 VRAM composition exceeds reserve"
  else
    let unknown :=
      let exploration := pl_guardedExploration newcomer
                         && (wrap64 (co_predicted c + wrap64 (2 * co_reserve c)) <=? co_capacity c) in
      if negb (co_known c) && negb exploration
      then refusedComposition c "sharing combination lacks a measured interference profile"
      else mkSharing (co_predicted c) (co_reserve c) (co_capacity c) (co_maxSlowdown c) (negb (co_known c) && exploration) true "" in
    match learned with
    | None => unknown
    | Some p =>
        if co_capacity c <? wrap64 (ip_P95VRAMMB p + co_reserve c)
        then mkSharing (ip_P95VRAMMB p) (co_reserve c) (co_capacity c) (co_maxSlowdown c) false false
               "learned p95 VRAM profile exceeds reserve"
        else if SFltb (co_maxSlowdown c) (ip_PredictedSlowdown p)
        then refusedComposition c "learned slowdown profile exceeds policy"
        else mkSharing (co_predicted c) (co_reserve c) (co_capacity c) (co_maxSlowdown c) false true ""
    end.

Definition canCoScheduleLocked {R : GoRange} (newcomer : activePlacement) (m : Manager) : sharing :=
  if negb (consents newcomer)
  then refusedSharing "accelerator is busy and newcomer policy does not allow sharing"
  else
    let c := mkComposition (pl_vramMB newcomer) (pl_reserveVRAMMB newcomer) (pl_capacityVRAMMB newcomer)
               (pl_maxSlowdown newcomer) (SFltb float_zero (pl_predictedSlowdown newcomer)) in
    if (pl_vramMB newcomer <=? 0) || (pl_capacityVRAMMB newcomer <=? 0)
    then refusedSharing "sharing requires measured standalone VRAM envelopes"
    else if SFltb (co_maxSlowdown c) (pl_predictedSlowdown newcomer)
    then refusedComposition c "predicted newcomer slowdown exceeds policy"
    else
      match composeVictims (victimsOf (pl_acceleratorID newcomer) m) c with
      | inl refused => refused
      | inr c => judgeComposition newcomer (learnedProfile newcomer m) c
      end.

(** ** Publishing a placement *)

(** [poolFullLocked]: the reason, or the empty string. *)
Definition poolFullLocked {R : GoRange} (targetID : string) (pool : ModelPool) (tokens : Z) (m : Manager) : string :=
  let reserved := foldl (fun acc p => wrap64 (acc + pl_contextTokens p)) 0
                    (filter (fun p => pl_targetID p = targetID) (go_range (activePlacements m)).*2) in
  if (0 <? reserved) && (mp_PoolTokens pool <? wrap64 (reserved + tokens))
  then ("context pool is full: " +:+ Sprint reserved +:+ " of " +:+ Sprint (mp_PoolTokens pool) +:+ " tokens reserved, "
        +:+ Sprint tokens +:+ " more needed")%string
  else ""%string.

(** The accelerators that serve a model now. *)
Definition modelAccelerators (model : string) (m : Manager) : gset string :=
  list_to_set (pl_acceleratorID <$>
    filter (fun p => pl_model p = model /\ pl_acceleratorID p <> ""%string) (map_to_list (activePlacements m)).*2).

Definition modelLimitReached (pr : prepared) (m : Manager) : bool :=
  let model := pl_model (pr_placement pr) in
  (model !=? ""%string) && (tgt_AcceleratorID (pr_target pr) !=? ""%string) && negb (tgt_Cloud (pr_target pr))
  && negb (bool_decide (tgt_AcceleratorID (pr_target pr) ∈ modelAccelerators model m))
  && (pr_modelLimit pr <=? Z.of_nat (size (modelAccelerators model m))).

Definition poolReason {R : GoRange} (pr : prepared) (m : Manager) : string :=
  match pr_pool pr with
  | Some pool => poolFullLocked (tgt_ID (pr_target pr)) pool (pl_contextTokens (pr_placement pr)) m
  | None => ""%string
  end.

Definition freshReservation (pr : prepared) (lease : AcceleratorLease) : targetReservation :=
  mkTargetReservation (tgt_ID (pr_target pr)) (pl_workloadID (pr_placement pr)) (pr_generation pr) (Some lease)
    false 0 0 0 float_zero false "" [] "" "" false false false None false false.

(** [&targetReservation{...}]: a fresh object. *)
Definition allocate (reservation : targetReservation) (m : Manager) : Manager * nat :=
  (m <| reservationHeap := <[nextReservation m := reservation]> (reservationHeap m) |>
     <| nextReservation := S (nextReservation m) |>,
   nextReservation m).

(** Every placement on the accelerator is seen to be shared. *)
Definition markShared (acceleratorID : string) (m : Manager) : Manager :=
  m <| activePlacements :=
         (fun p => if pl_acceleratorID p ==? acceleratorID then p <| pl_sharedObserved := true |> else p) <$> activePlacements m |>.

Definition enterTarget (active : Z) (p : activePlacement) (m : Manager) : Manager :=
  m <| targetActive := <[pl_targetID p := active]> (targetActive m) |>
    <| activePlacements := <[pl_workloadID p := p]> (activePlacements m) |>.

(** The outcome of a critical section of [reserveTarget]: return without a
    reservation, return the reservation, or leave the section and go on. *)
Inductive phase :=
  | Declined (reason : string)
  | Placed (reservation : nat)
  | Continue.

(** A placement beside others under the lease another target holds. *)
Definition joinShared {R : GoRange} (pr : prepared) (lease : AcceleratorLease) (m : Manager) : Manager * phase :=
  let verdict := canCoScheduleLocked (pr_placement pr) m in
  if negb (cs_allowed verdict) then (m, Declined (cs_reason verdict))
  else
    let targetID := tgt_ID (pr_target pr) in
    let placement := (pr_placement pr) <| pl_sharedObserved := true |> in
    let m := (enterTarget (targetActiveCount targetID m + 1) placement (markShared (pl_acceleratorID placement) m))
               <| targetLeases := <[targetID := lease]> (targetLeases m) |> in
    let '(profileKey, classes, runtimeVersions) := sharingProfileKeyLocked placement m in
    let exactProfileKey := sharingExactProfileKeyLocked placement profileKey m in
    let '(m, rid) := allocate ((freshReservation pr lease)
        <| tr_shared := true |> <| tr_predictedVRAMMB := cs_predictedVRAMMB verdict |>
        <| tr_reserveVRAMMB := cs_reserveVRAMMB verdict |> <| tr_capacityVRAMMB := cs_capacityVRAMMB verdict |>
        <| tr_maxSlowdown := cs_maxSlowdown verdict |> <| tr_exploration := cs_exploration verdict |>
        <| tr_profileKey := profileKey |> <| tr_exactProfileKey := exactProfileKey |>
        <| tr_workloadClasses := classes |> <| tr_runtimeVersion := runtimeVersions |>) m in
    (m, Placed rid).

Inductive route := RouteBlocked | RouteChanged | RouteCurrent.

Section reservation.
Context `{Fingerprints} {R : GoRange}.

(** Is the route still the one the request was prepared for? *)
Definition routeOf (pr : prepared) (m : Manager) : route :=
  let current := targets m !! tgt_ID (pr_target pr) in
  if runtimeProfileTargetBlockerLocked (default noTarget current) m !=? ""%string then RouteBlocked
  else if bool_decide (is_Some current) && (targetGeneration (tgt_ID (pr_target pr)) m =? pr_generation pr)
          && targetIdentityMatches (pr_target pr) (default noTarget current)
  then RouteCurrent
  else RouteChanged.

(** The first critical section of the loop. *)
Definition reserveLocked (pr : prepared) (m : Manager) : Manager * phase :=
  let targetID := tgt_ID (pr_target pr) in
  match routeOf pr m with
  | RouteBlocked => (m, Declined "runtime profile observation is unavailable; operator reconciliation is required")
  | RouteChanged => (m, Declined "target facts changed before placement")
  | RouteCurrent =>
      if pr_slots pr <=? targetActiveCount targetID m then (m, Declined "all execution slots are busy")
      else if poolReason pr m !=? ""%string then (m, Declined (poolReason pr m))
      else if modelLimitReached pr m
      then (m, Declined ("model accelerator limit " +:+ Sprint (pr_modelLimit pr) +:+ " reached")%string)
      else
        match targetLeases m !! targetID with
        | Some lease =>
            let m := enterTarget (targetActiveCount targetID m + 1) (pr_placement pr) m in
            let '(m, rid) := allocate (freshReservation pr lease) m in
            (m, Placed rid)
        | None =>
            match range_find (fun _ lease => lease_AcceleratorID lease ==? pr_leaseID pr) (targetLeases m) with
            | Some (_, lease) => joinShared pr lease m
            | None => (m, Continue)
            end
        end
  end.

Definition acceleratorReservedBy : string := "accelerator is reserved by ".

(** The durable call between the two sections. *)
Definition acquireForTarget (now : Time) (pr : prepared) (m : Manager) : Manager * (phase * AcceleratorLease) :=
  let '(s, (lease, acquired)) := AcquireAcceleratorLease now (pr_leaseID pr) (pl_workloadID (pr_placement pr)) (leaseTTL m) (mgr_store m) in
  (m <| mgr_store := s |>,
   (if (acquired : bool) then Continue else Declined (acceleratorReservedBy +:+ lease_WorkloadID lease)%string, lease)).

(** What the second section decides about the lease it was given; a rollback
    carries the reason to return when it succeeds and when it fails. *)
Inductive commitment :=
  | Publish (reservation : nat)
  | RollBack (reason : string) (failed : string)
  | RollBackAndRetry (failed : string).

(** The second critical section. *)
Definition commitLocked (pr : prepared) (lease : AcceleratorLease) (m : Manager) : Manager * commitment :=
  let targetID := tgt_ID (pr_target pr) in
  match routeOf pr m with
  | RouteBlocked =>
      (m, RollBack "runtime profile observation is unavailable; operator reconciliation is required"
                   "runtime profile observation became unavailable during accelerator lease acquisition")
  | RouteChanged =>
      (m, RollBack "target facts changed during accelerator lease acquisition"
                   "target facts changed during accelerator lease acquisition")
  | RouteCurrent =>
      if poolReason pr m !=? ""%string
      then (m, RollBack (poolReason pr m) "accelerator lease publication requires reconciliation")
      else if (pr_slots pr <=? targetActiveCount targetID m) || bool_decide (is_Some (targetLeases m !! targetID))
      then (m, RollBackAndRetry "accelerator lease publication requires reconciliation")
      else
        let m := (enterTarget 1 (pr_placement pr) m) <| targetLeases := <[targetID := lease]> (targetLeases m) |> in
        let '(m, rid) := allocate (freshReservation pr lease) m in
        (m, Publish rid)
  end.

End reservation.

(** ** Companion accelerators ([companion.go]) *)

Definition targetAccelerators (target : Target) : list string :=
  if tgt_AcceleratorID target ==? ""%string then []
  else tgt_AcceleratorID target
       :: filter (fun id => id <> ""%string /\ id <> tgt_AcceleratorID target) (tgt_CompanionAcceleratorIDs target).

Definition targetsShareAccelerator (a b : Target) : bool :=
  existsb (fun left => existsb (fun right => left ==? right) (targetAccelerators b)) (targetAccelerators a).

Definition companionGrace : Duration := 5 * second.
Definition companionOwner (targetID : string) : string := "companion:" +:+ targetID.

(** [_ = m.store.ReleaseAcceleratorLease(...)]. *)
Definition releaseLease (s : MemoryStore) (lease : AcceleratorLease) : MemoryStore :=
  match ReleaseAcceleratorLease (lease_AcceleratorID lease) (lease_WorkloadID lease) (lease_FencingToken lease) s with
  | Ok s => s
  | Err _ => s
  end.

(** Acquire the companions in order; the first refusal gives back what was
    acquired before it. *)
Fixpoint acquireCompanions {R : GoRange} (now : Time) (owner : string) (ttl : Duration) (ids : list string)
    (acquired : list AcceleratorLease) (s : MemoryStore) : MemoryStore * (string + list AcceleratorLease) :=
  match ids with
  | [] => (s, inr acquired)
  | id :: ids =>
      let '(s, (lease, ok)) := AcquireAcceleratorLease now id owner ttl s in
      if (ok : bool) then acquireCompanions now owner ttl ids (acquired ++ [lease]) s
      else (foldl releaseLease s acquired,
            inl ("companion accelerator " +:+ id +:+ " is in use by " +:+ lease_WorkloadID lease)%string)
  end.

(** [holdCompanionLeases]: the reason, or the empty string; [None] is the panic
    of [targetAccelerators(target)[1:]] on a target without an accelerator. *)
Definition holdCompanionLeases {R : GoRange} (now : Time) (target : Target) (m : Manager) : option (Manager * string) :=
  match tgt_CompanionAcceleratorIDs target with
  | [] => Some (m, ""%string)
  | _ =>
      match companions m !! tgt_ID target with
      | Some hold =>
          Some (m <| companions := <[tgt_ID target := mkCompanionHold (ch_leases hold) now]> (companions m) |>, ""%string)
      | None =>
          match targetAccelerators target with
          | [] => None
          | _ :: ids =>
              match acquireCompanions now (companionOwner (tgt_ID target)) (leaseTTL m) ids [] (mgr_store m) with
              | (s, inl reason) => Some (m <| mgr_store := s |>, reason)
              | (s, inr acquired) =>
                  Some (m <| mgr_store := s |> <| companions := <[tgt_ID target := mkCompanionHold acquired now]> (companions m) |>,
                        ""%string)
              end
          end
      end
  end.

Definition renewLease (now : Time) (ttl : Duration) (s : MemoryStore) (lease : AcceleratorLease) : MemoryStore :=
  match RenewAcceleratorLease now (lease_AcceleratorID lease) (lease_WorkloadID lease) (lease_FencingToken lease) ttl s with
  | Ok s => s
  | Err _ => s
  end.

(** One target of a tick of [keepCompanionLeases]. *)
Definition keepCompanion (now : Time) (m : Manager) (entry : string * companionHold) : Manager :=
  let '(targetID, hold) := entry in
  let lastNeeded := if 0 <? targetActiveCount targetID m then now else ch_lastNeeded hold in
  if companionGrace <? now - lastNeeded
  then m <| mgr_store := foldl releaseLease (mgr_store m) (ch_leases hold) |>
         <| companions := delete targetID (companions m) |>
  else m <| mgr_store := foldl (renewLease now (leaseTTL m)) (mgr_store m) (ch_leases hold) |>
         <| companions := <[targetID := mkCompanionHold (ch_leases hold) lastNeeded]> (companions m) |>.

Definition keepCompanionLeases {R : GoRange} (now : Time) (m : Manager) : Manager :=
  foldl (keepCompanion now) m (go_range (companions m)).

(** ** Giving a lease back *)

(** How a call of a store that is not in this process can fail before it took
    effect: the text of the error, if any, for each call of a rollback. *)
Record faults := mkFaults {
  f_release : option string;
  f_get : option string;
  f_record : option string;
  f_delete : bool;
}.
Definition noFaults : faults := mkFaults None None None false.

(** [nil], an error that wraps [errLeaseCleanupRecorded], or another error. *)
Inductive cleanup := CleanedUp | CleanupRecorded | CleanupFailed.

Definition leaseCleanupError (text : string) : string := if 512 <? len text then String.substring 0 512 text else text.

Definition scheduleLeaseCleanupRetry (now : Time) (intent : AcceleratorLeaseCleanupIntent) (failure : string)
  : AcceleratorLeaseCleanupIntent :=
  let attempts := (if lci_Attempts intent <? 1 then 1 else lci_Attempts intent) + 1 in
  let delay := second * Z.shiftl 1 (Z.min (attempts - 1) 5) in
  intent <| lci_Attempts := attempts |> <| lci_LastError := leaseCleanupError failure |> <| lci_UpdatedAt := now |>
         <| lci_NextRetryAt := Some (now + (if 60 * second <? delay then 60 * second else delay)) |>.

Definition newLeaseCleanupIntent (now : Time) (lease : AcceleratorLease) (owner failure : string) (attempts : Z)
  : AcceleratorLeaseCleanupIntent :=
  {| lci_AcceleratorID := lease_AcceleratorID lease; lci_Owner := owner; lci_FencingToken := lease_FencingToken lease;
     lci_WorkloadID := ""; lci_ExpectedWorkloadRevision := 0; lci_TerminalDisposition := ""; lci_TerminalErrorCode := "";
     lci_ReleaseConfirmed := false; lci_TerminalPublished := false; lci_AuditPublished := false;
     lci_NotificationPublished := false; lci_BudgetSettled := false;
     lci_Attempts := if attempts <=? 0 then 1 else attempts; lci_LastError := failure; lci_CreatedAt := now;
     lci_UpdatedAt := now; lci_NextRetryAt := Some (now + second) |}.

Definition deleteLeaseCleanupIntent (intent : AcceleratorLeaseCleanupIntent) (s : MemoryStore) : MemoryStore :=
  if lci_WorkloadID intent !=? ""%string
  then DeleteAcceleratorLeaseCleanupIntentForWorkload (lci_AcceleratorID intent) (lci_Owner intent) (lci_FencingToken intent)
         (lci_WorkloadID intent) s
  else DeleteAcceleratorLeaseCleanupIntent (lci_AcceleratorID intent) (lci_Owner intent) (lci_FencingToken intent) s.

(** [rollbackAcceleratorLeaseWithIntentMode]; [clock] is read by the expiry
    test, [now] when an intent is recorded. *)
Section rollback.
Variables (clock now : Time) (ft : faults).

Definition forgetIntent (lease : AcceleratorLease) (owner : string) (terminal : option AcceleratorLeaseCleanupIntent)
    (s : MemoryStore) : MemoryStore :=
  if f_delete ft then s
  else match terminal with
       | Some intent => deleteLeaseCleanupIntent intent s
       | None => DeleteAcceleratorLeaseCleanupIntent (lease_AcceleratorID lease) owner (lease_FencingToken lease) s
       end.

(** The release and, when the lease is not ours, the proof that it is absent:
    the store after a clean release, or the text of the failure. *)
Definition releaseOrVerify (lease : AcceleratorLease) (owner : string) (s : MemoryStore) : MemoryStore + string :=
  match f_release ft with
  | Some text => inr text
  | None =>
      match ReleaseAcceleratorLease (lease_AcceleratorID lease) owner (lease_FencingToken lease) s with
      | Ok s => inl s
      | Err _ =>
          match f_get ft with
          | Some text => inr ("verify absent accelerator lease after fenced release: " +:+ text)%string
          | None =>
              match GetAcceleratorLease (lease_AcceleratorID lease) s with
              | Err _ => inl s
              | Ok current =>
                  if clock <? lease_ExpiresAt current then inr "fenced accelerator lease belongs to another live owner"%string
                  else inl s
              end
          end
      end
  end.

Definition recordIntent (intent : AcceleratorLeaseCleanupIntent) (s : MemoryStore) : MemoryStore * cleanup :=
  match f_record ft with
  | Some _ => (s, CleanupFailed)
  | None =>
      match RecordAcceleratorLeaseCleanupIntent now (Some intent) s with
      | Ok (s, _) => (s, CleanupRecorded)
      | Err _ => (s, CleanupFailed)
      end
  end.

Definition rollbackAcceleratorLeaseWithIntentMode (lease : option AcceleratorLease) (owner : string)
    (retainIntent intentAlreadyAdvanced : bool) (terminal : option AcceleratorLeaseCleanupIntent) (s : MemoryStore)
  : MemoryStore * cleanup :=
  match lease with
  | None => (s, CleanedUp)
  | Some lease =>
      match releaseOrVerify lease owner s with
      | inl s => (if retainIntent then s else forgetIntent lease owner terminal s, CleanedUp)
      | inr failure =>
          match terminal with
          | Some intent =>
              recordIntent (if intentAlreadyAdvanced then intent <| lci_LastError := leaseCleanupError failure |>
                            else scheduleLeaseCleanupRetry now intent failure) s
          | None => recordIntent (newLeaseCleanupIntent now lease owner failure 1) s
          end
      end
  end.

Definition rollbackAcceleratorLease (lease : option AcceleratorLease) (owner : string) (s : MemoryStore) : MemoryStore * cleanup :=
  rollbackAcceleratorLeaseWithIntentMode lease owner false false None s.
Definition rollbackAcceleratorLeaseWithIntent (lease : option AcceleratorLease) (owner : string) (retainIntent : bool)
    (terminal : option AcceleratorLeaseCleanupIntent) (s : MemoryStore) : MemoryStore * cleanup :=
  rollbackAcceleratorLeaseWithIntentMode lease owner retainIntent false terminal s.
Definition rollbackAcceleratorLeaseWithPreparedIntent (lease : option AcceleratorLease) (owner : string) (retainIntent : bool)
    (intent : AcceleratorLeaseCleanupIntent) (s : MemoryStore) : MemoryStore * cleanup :=
  rollbackAcceleratorLeaseWithIntentMode lease owner retainIntent true (Some intent) s.

End rollback.

(** ** The whole reservation

    [reserveTarget] without interference between its steps: [held], [acquired],
    [clock] and [recorded] are the readings of the clock by the companions, the
    acquisition and a rollback. *)

(** The reservation, or the reason with the error of the preparation or of a
    rollback; [Retrying] when the fuel of the loop is spent. *)
Inductive reserveResult :=
  | Reserved (reservation : nat)
  | NotReserved (reason : string) (err : option (error + cleanup))
  | Panicked
  | Retrying.

Section whole.
Context `{Fingerprints} {R : GoRange}.
Variables (held acquired clock recorded : Time) (ft : faults).

Definition rollBackLease (lease : AcceleratorLease) (workloadID : string) (m : Manager) : Manager * cleanup :=
  let '(s, outcome) := rollbackAcceleratorLease clock recorded ft (Some lease) workloadID (mgr_store m) in
  (m <| mgr_store := s |>, outcome).

Fixpoint reserveLoop (fuel : nat) (pr : prepared) (m : Manager) : Manager * reserveResult :=
  match fuel with
  | O => (m, Retrying)
  | S fuel =>
      match reserveLocked pr m with
      | (m, Declined reason) => (m, NotReserved reason None)
      | (m, Placed rid) => (m, Reserved rid)
      | (m, Continue) =>
          match holdCompanionLeases held (pr_target pr) m with
          | None => (m, Panicked)
          | Some (m, reason) =>
              if reason !=? ""%string then (m, NotReserved reason None)
              else
                match acquireForTarget acquired pr m with
                | (m, (Continue, lease)) =>
                    match commitLocked pr lease m with
                    | (m, Publish rid) => (m, Reserved rid)
                    | (m, RollBack reason failed) =>
                        match rollBackLease lease (pl_workloadID (pr_placement pr)) m with
                        | (m, CleanedUp) => (m, NotReserved reason None)
                        | (m, outcome) => (m, NotReserved failed (Some (inr outcome)))
                        end
                    | (m, RollBackAndRetry failed) =>
                        match rollBackLease lease (pl_workloadID (pr_placement pr)) m with
                        | (m, CleanedUp) => reserveLoop fuel pr m
                        | (m, outcome) => (m, NotReserved failed (Some (inr outcome)))
                        end
                    end
                | (m, (Declined reason, _)) => (m, NotReserved reason None)
                | (m, (Placed rid, _)) => (m, Reserved rid)
                end
          end
      end
  end.

Definition reserveTarget (fuel : nat) (now : Time) (answer : observation) (target : Target) (request : WorkloadRequest)
    (requirements : Requirements) (m : Manager) : Manager * reserveResult :=
  match prepareReservation now answer target request requirements m m with
  | Refused reason => (m, NotReserved reason None)
  | Failed e => (m, NotReserved "" (Some (inl e)))
  | Proceed pr => reserveLoop fuel pr m
  end.

End whole.

(** ** Releasing a reservation *)

Definition setReservation (rid : nat) (f : targetReservation -> targetReservation) (m : Manager) : Manager :=
  m <| reservationHeap := alter f rid (reservationHeap m) |>.

(** One slot of a target less; the last one drops its lease pointer. *)
Definition leaveTarget (targetID : string) (m : Manager) : Manager :=
  let active := targetActiveCount targetID m in
  if 1 <? active then m <| targetActive := <[targetID := active - 1]> (targetActive m) |>
  else m <| targetActive := delete targetID (targetActive m) |> <| targetLeases := delete targetID (targetLeases m) |>.

Definition removePlacement (now : Time) (workloadID targetID : string) (m : Manager) : Manager :=
  leaveTarget targetID (m <| activePlacements := delete workloadID (activePlacements m) |>
                          <| targetReleasedAt := <[targetID := now]> (targetReleasedAt m) |>).

(** Another workload runs on the accelerator of the reservation's lease. *)
Definition stillActive (reservation : targetReservation) (acceleratorID : string) (m : Manager) : bool :=
  existsb (fun p => (pl_workloadID p !=? tr_workloadID reservation) && (pl_acceleratorID p ==? acceleratorID))
    (map_to_list (activePlacements m)).*2.

(** The critical section that elects the last user of the accelerator. *)
Inductive election :=
  | ReleaseNothing
  | ReleaseFenced
  | LeftOthers
  | LastUser (lease : AcceleratorLease).

Definition releaseElect (now : Time) (rid : nat) (m : Manager) : Manager * election :=
  match reservationHeap m !! rid with
  | None => (m, ReleaseNothing)
  | Some reservation =>
      match tr_lease reservation with
      | None => (m, ReleaseNothing)
      | Some lease =>
          if tr_backendStopPending reservation && negb (tr_backendStopConfirmed reservation)
          then (setReservation rid (fun r => r <| tr_releaseRequested := true |>) m, ReleaseFenced)
          else if tr_released reservation || tr_releaseInFlight reservation then (m, ReleaseNothing)
          else if stillActive reservation (lease_AcceleratorID lease) m
          then (removePlacement now (tr_workloadID reservation) (tr_targetID reservation)
                  (setReservation rid (fun r => r <| tr_released := true |>) m), LeftOthers)
          else (setReservation rid (fun r => r <| tr_releaseRequested := true |> <| tr_releaseInFlight := true |>) m, LastUser lease)
      end
  end.

(** [if current := m.reservations[w]; current == reservation { delete }]. *)
Definition forgetReservation (rid : nat) (m : Manager) : Manager :=
  match reservationHeap m !! rid with
  | Some reservation =>
      if reservations m !! tr_workloadID reservation ==? Some rid
      then m <| reservations := delete (tr_workloadID reservation) (reservations m) |> else m
  | None => m
  end.

(** The durable release of the last user. *)
Definition releaseDurable (clock now : Time) (ft : faults) (lease : AcceleratorLease)
    (terminal : option AcceleratorLeaseCleanupIntent) (m : Manager) : Manager * cleanup :=
  let '(s, outcome) := rollbackAcceleratorLeaseWithIntent clock now ft (Some lease) (lease_WorkloadID lease) false terminal (mgr_store m) in
  (m <| mgr_store := s |>, outcome).

(** The release did not complete: the placement stays. *)
Definition releaseFailed (rid : nat) (m : Manager) : Manager :=
  setReservation rid (fun r => r <| tr_releaseInFlight := false |>) m.

Definition finishReleasedReservationLocked (now : Time) (rid : nat) (reservation : targetReservation) (m : Manager) : Manager :=
  let m := setReservation rid (fun r => r <| tr_released := true |> <| tr_releaseInFlight := false |>
             <| tr_cleanupIntent := None |> <| tr_backendStopPending := false |> <| tr_backendStopConfirmed := true |>) m in
  (removePlacement now (tr_workloadID reservation) (tr_targetID reservation) m)
    <| capacityReleases := wrapU64 (capacityReleases m + 1) |>.

(** [finishReleasedReservation] up to the second lock: whether it went on. *)
Definition finishReleased (now : Time) (rid : nat) (m : Manager) : Manager * bool :=
  match reservationHeap m !! rid with
  | None => (m, false)
  | Some reservation =>
      if tr_released reservation then (m, false)
      else (finishReleasedReservationLocked now rid reservation m, true)
  end.

Definition finishReleasedReservation (now : Time) (rid : nat) (m : Manager) : Manager :=
  let '(m, go) := finishReleased now rid m in
  if (go : bool) then forgetReservation rid m else m.

(** [releaseTargetWithIntent] without interference, up to the power profile of
    the idle accelerator; the error is [true]. *)
Definition releaseTargetWithIntent (clock now : Time) (ft : faults) (rid : nat) (terminal : option AcceleratorLeaseCleanupIntent)
    (m : Manager) : Manager * bool :=
  match releaseElect now rid m with
  | (m, ReleaseNothing) => (m, false)
  | (m, ReleaseFenced) => (m, true)
  | (m, LeftOthers) => (forgetReservation rid m, false)
  | (m, LastUser lease) =>
      match releaseDurable clock now ft lease terminal m with
      | (m, CleanedUp) => (finishReleasedReservation now rid m, false)
      | (m, _) => (releaseFailed rid m, true)
      end
  end.

Definition releaseTarget (clock now : Time) (ft : faults) (rid : nat) (m : Manager) : Manager * bool :=
  releaseTargetWithIntent clock now ft rid (reservationHeap m !! rid ≫= tr_cleanupIntent) m.

(** ** Compensation of a checkpoint *)

(** A restored victim runs under a fresh lease: the pointers to the old one
    follow. *)
Definition adoptRestoredLease (oldLease lease : AcceleratorLease) (m : Manager) : Manager :=
  m <| targetLeases :=
         (fun existing => if (lease_AcceleratorID existing ==? lease_AcceleratorID lease)
                             && (lease_WorkloadID existing ==? lease_WorkloadID oldLease)
                          then lease else existing) <$> targetLeases m |>.

(** [if active <= 1 { delete } else { active - 1 }]. *)
Definition dropActive (targetID : string) (m : Manager) : Manager :=
  if targetActiveCount targetID m <=? 1 then m <| targetActive := delete targetID (targetActive m) |>
  else m <| targetActive := <[targetID := targetActiveCount targetID m - 1]> (targetActive m) |>.

Definition clearCheckpointCompensationLease (lease : option AcceleratorLease) (workloadID targetID : string) (m : Manager) : Manager :=
  match lease with
  | None => m
  | Some lease =>
      let m := m <| targetLeases :=
                 filter (fun kv => ~ (lease_AcceleratorID kv.2 = lease_AcceleratorID lease /\ lease_WorkloadID kv.2 = workloadID
                                      /\ lease_FencingToken kv.2 = lease_FencingToken lease)) (targetLeases m) |> in
      if targetID !=? ""%string then dropActive targetID m else m
  end.

(** The end of [cleanupFreshCheckpointRestore], once the backend has stopped:
    give the fresh lease back and clear what points to it. *)
Definition releaseFreshRestore (clock now : Time) (ft : faults) (lease : AcceleratorLease) (targetID : string) (m : Manager)
  : Manager * cleanup :=
  match rollbackAcceleratorLease clock now ft (Some lease) (lease_WorkloadID lease) (mgr_store m) with
  | (s, CleanedUp) =>
      (clearCheckpointCompensationLease (Some lease) (lease_WorkloadID lease) targetID (m <| mgr_store := s |>), CleanedUp)
  | (s, outcome) => (m <| mgr_store := s |>, outcome)
  end.

(** The placement half of [abandonRestoredCheckpointVictim]. *)
Definition abandonPlacement (now : Time) (victimID targetID : string) (m : Manager) : Manager :=
  match activePlacements m !! victimID with
  | Some active =>
      if pl_targetID active ==? targetID
      then dropActive targetID (m <| activePlacements := delete victimID (activePlacements m) |>
                                  <| targetReleasedAt := <[targetID := now]> (targetReleasedAt m) |>)
      else m
  | None => m
  end.

(** [abandonRestoredCheckpointVictim] after the stop of its backend. *)
Definition abandonRestoredCheckpointVictim (clock now : Time) (ft : faults) (victimID targetID : string) (lease : AcceleratorLease)
    (keepFence : bool) (m : Manager) : Manager * cleanup :=
  match releaseFreshRestore clock now ft lease targetID m with
  | (m, CleanedUp) => (if keepFence then m else abandonPlacement now victimID targetID m, CleanedUp)
  | r => r
  end.

(** ** Refresh of the advertisements *)

(** A retired target without work loses its entries. *)
Definition retireTarget (targetID : string) (m : Manager) : Manager :=
  if targetActiveCount targetID m <=? 0
  then m <| targetLeases := delete targetID (targetLeases m) |> <| targetActive := delete targetID (targetActive m) |>
  else m.

#[export] Instance spec_float_eq_dec : EqDecision spec_float.
Proof. solve_decision. Defined.
#[export] Instance activePlacement_eq_dec : EqDecision activePlacement.
Proof. solve_decision. Defined.

(** Go's [==] on placements: numbers compare as numbers. *)
Definition samePlacement (a b : activePlacement) : bool :=
  let plain p := p <| pl_predictedSlowdown := float_zero |> <| pl_maxSlowdown := float_zero |> in
  (plain a ==? plain b) && SFeqb (pl_predictedSlowdown a) (pl_predictedSlowdown b) && SFeqb (pl_maxSlowdown a) (pl_maxSlowdown b).

(** The placement of a workload follows its target to a new generation, or
    back to the old one. *)
Definition rebindPlacement (workloadID : string) (before updated : activePlacement) (m : Manager) : Manager :=
  match activePlacements m !! workloadID with
  | Some placement =>
      if samePlacement placement before then m <| activePlacements := <[workloadID := updated]> (activePlacements m) |> else m
  | None => m
  end.
