(* ===== verification/PlacementInv.v ===== *)
(** * Interleavings of reservations and releases

    The calls of [reserveTarget] and [releaseTargetWithIntent] as a machine
    whose steps are their critical sections and store calls, in any order, with
    refreshes of the targets and foreign use of the store in between.  The
    invariant [accounted] says that the three tables of the manager (active
    counts, lease pointers, placements) and the reservations agree. *)

From S2P Require Import Prelude GoText Domain DomainWorkload DomainNode Store.
From S2P Require Import Leases WorkloadManager Admission Placement.

(** ** Calls in progress *)

Inductive stage :=
  | SReserve
  | SHold
  | SAcquire
  | SCommit (lease : AcceleratorLease)
  | SRollback (lease : AcceleratorLease) (retry : bool).

Inductive release_stage :=
  | RDurable (lease : AcceleratorLease) (terminal : option AcceleratorLeaseCleanupIntent)
  | RFinish
  | RFailed
  | RForget.

(** Calls of [reserveTarget] by workload, calls of a release by reservation. *)
Record config := mkConfig {
  c_m : Manager;
  c_calls : gmap string (prepared * stage);
  c_releases : gmap nat release_stage;
}.
#[export] Instance eta_config : Eta config := fun r => mkConfig (c_m r) (c_calls r) (c_releases r).

(** What [prepareReservation] produces for a workload. *)
Definition well_prepared (w : string) (pr : prepared) : Prop :=
  pl_workloadID (pr_placement pr) = w /\ pl_targetID (pr_placement pr) = tgt_ID (pr_target pr) /\
  pl_acceleratorID (pr_placement pr) = pr_leaseID pr.
#[export] Instance well_prepared_dec w pr : Decision (well_prepared w pr).
Proof. unfold well_prepared. apply _. Defined.

Inductive action :=
  | ABegin (w : string) (pr : prepared)
  | AReserve (w : string)
  | AHold (w : string) (now : Time)
  | AAcquire (w : string) (now : Time)
  | ACommit (w : string)
  | ARollback (w : string) (clock now : Time) (ft : faults)
  | AElect (rid : nat) (now : Time) (terminal : option AcceleratorLeaseCleanupIntent)
  | ADurable (rid : nat) (clock now : Time) (ft : faults)
  | AFailed (rid : nat)
  | AFinish (rid : nat) (now : Time)
  | AForget (rid : nat)
  | AConfirmed (rid : nat) (now : Time)
  | ATick (now : Time)
  | ARetire (targetID : string).

Definition advance (w : string) (pr : prepared) (m : Manager) (next : option stage) (c : config) : config :=
  c <| c_m := m |>
    <| c_calls := match next with Some st => <[w := (pr, st)]> (c_calls c) | None => delete w (c_calls c) end |>.

Definition advance_release (rid : nat) (m : Manager) (next : option release_stage) (c : config) : config :=
  c <| c_m := m |>
    <| c_releases := match next with Some st => <[rid := st]> (c_releases c) | None => delete rid (c_releases c) end |>.

Section machine.
Context `{Fingerprints} {R : GoRange}.

(** The code between two steps of one reserving call. *)
Definition reserve_stage (a : action) (w : string) (pr : prepared) (st : stage) (c : config) : option config :=
  match a, st with
  | AReserve _, SReserve =>
      match reserveLocked pr (c_m c) with
      | (m, Continue) => Some (advance w pr m (Some SHold) c)
      | (m, _) => Some (advance w pr m None c)
      end
  | AHold _ now, SHold =>
      match holdCompanionLeases now (pr_target pr) (c_m c) with
      | Some (m, reason) => Some (advance w pr m (if reason ==? ""%string then Some SAcquire else None) c)
      | None => None
      end
  | AAcquire _ now, SAcquire =>
      match acquireForTarget now pr (c_m c) with
      | (m, (Continue, lease)) => Some (advance w pr m (Some (SCommit lease)) c)
      | (m, _) => Some (advance w pr m None c)
      end
  | ACommit _, SCommit lease =>
      match commitLocked pr lease (c_m c) with
      | (m, Publish _) => Some (advance w pr m None c)
      | (m, RollBack _ _) => Some (advance w pr m (Some (SRollback lease false)) c)
      | (m, RollBackAndRetry _) => Some (advance w pr m (Some (SRollback lease true)) c)
      end
  | ARollback _ clock now ft, SRollback lease retry =>
      let '(s, outcome) := rollbackAcceleratorLease clock now ft (Some lease) w (mgr_store (c_m c)) in
      Some (advance w pr ((c_m c) <| mgr_store := s |>)
              (match outcome with CleanedUp => if retry then Some SReserve else None | _ => None end) c)
  | _, _ => None
  end.

Definition perform (a : action) (c : config) : option config :=
  let m := c_m c in
  match a with
  | ABegin w pr =>
      if bool_decide (well_prepared w pr) && bool_decide (activePlacements m !! w = None) && bool_decide (c_calls c !! w = None)
      then Some (advance w pr m (Some SReserve) c) else None
  | AReserve w | AHold w _ | AAcquire w _ | ACommit w | ARollback w _ _ _ =>
      match c_calls c !! w with
      | Some (pr, st) => reserve_stage a w pr st c
      | None => None
      end
  | AElect rid now terminal =>
      match releaseElect now rid m with
      | (m, LastUser lease) => Some (advance_release rid m (Some (RDurable lease terminal)) c)
      | (m, LeftOthers) => Some (advance_release rid m (Some RForget) c)
      | (m, _) => Some (c <| c_m := m |>)
      end
  | ADurable rid clock now ft =>
      match c_releases c !! rid with
      | Some (RDurable lease terminal) =>
          let '(m, outcome) := releaseDurable clock now ft lease terminal m in
          Some (advance_release rid m (Some (match outcome with CleanedUp => RFinish | _ => RFailed end)) c)
      | _ => None
      end
  | AFailed rid =>
      match c_releases c !! rid with
      | Some RFailed => Some (advance_release rid (releaseFailed rid m) None c)
      | _ => None
      end
  | AFinish rid now =>
      match c_releases c !! rid with
      | Some RFinish =>
          let '(m, go) := finishReleased now rid m in
          Some (advance_release rid m (if (go : bool) then Some RForget else None) c)
      | _ => None
      end
  | AForget rid =>
      match c_releases c !! rid with
      | Some RForget => Some (advance_release rid (forgetReservation rid m) None c)
      | _ => None
      end
  | AConfirmed rid now => Some (c <| c_m := finishReleasedReservation now rid m |>)
  | ATick now => Some (c <| c_m := keepCompanionLeases now m |>)
  | ARetire targetID => Some (c <| c_m := retireTarget targetID m |>)
  end.

End machine.

(** ** The rest of the controller

    Everything else may change the store, the advertisements, the learned
    profiles, the table of reservations and the flags of a reservation that
    concern its backend; it may move a placement to another generation.  It
    does not touch counts, pointers or who is placed where. *)
Definition same_seat (p q : activePlacement) : Prop :=
  pl_workloadID p = pl_workloadID q /\ pl_targetID p = pl_targetID q /\ pl_acceleratorID p = pl_acceleratorID q /\
  pl_contextTokens p = pl_contextTokens q.

Definition same_reservation (r q : targetReservation) : Prop :=
  tr_workloadID r = tr_workloadID q /\ tr_targetID r = tr_targetID q /\ tr_lease r = tr_lease q /\
  tr_released r = tr_released q.

Record calm (m m' : Manager) : Prop := {
  q_active : targetActive m' = targetActive m;
  q_leases : targetLeases m' = targetLeases m;
  q_next : nextReservation m' = nextReservation m;
  q_places : forall w, option_Forall2 same_seat (activePlacements m !! w) (activePlacements m' !! w);
  q_heap : forall rid, option_Forall2 same_reservation (reservationHeap m !! rid) (reservationHeap m' !! rid);
}.

Definition inFlight (m : Manager) (rid : nat) : option bool := tr_releaseInFlight <$> reservationHeap m !! rid.
Definition quiet (m m' : Manager) : Prop := calm m m' /\ forall rid, inFlight m' rid = inFlight m rid.

(** A discipline restricts the actions and what the rest of the controller
    does; [free] does not. *)
Record discipline := mkDiscipline {
  d_action : config -> action -> Prop;
  d_rest : config -> Manager -> Prop;
}.
Definition free : discipline := mkDiscipline (fun _ _ => True) (fun _ _ => True).

Inductive place_step `{Fingerprints} (D : discipline) (c c' : config) : Prop :=
  | ps_act (R : GoRange) a : d_action D c a -> perform a c = Some c' -> place_step D c c'
  | ps_rest m' : d_rest D c m' -> quiet (c_m c) m' -> c' = c <| c_m := m' |> -> place_step D c c'.

(** A controller that has just started. *)
Definition started (s : MemoryStore) (ttl : Duration) : config := mkConfig (NewManager s ttl) ∅ ∅.

Inductive place_reachable `{Fingerprints} (D : discipline) (s : MemoryStore) (ttl : Duration) : config -> Prop :=
  | pr_start : place_reachable D s ttl (started s ttl)
  | pr_step c c' : place_reachable D s ttl c -> place_step D c c' -> place_reachable D s ttl c'.

(** ** Counting the placements of a target *)

Definition seats (t : string) (pm : gmap string activePlacement) : gmap string activePlacement :=
  filter (fun kv => pl_targetID kv.2 = t) pm.
Definition count (t : string) (pm : gmap string activePlacement) : Z := Z.of_nat (size (seats t pm)).

Lemma seats_nonneg t pm : 0 <= count t pm.
Proof. unfold count. lia. Qed.

Lemma seats_insert t w p pm : pm !! w = None ->
  count t (<[w := p]> pm) = count t pm + (if decide (pl_targetID p = t) then 1 else 0).
Proof.
  intros Hw. unfold count, seats. rewrite map_filter_insert. cbn. case_decide.
  - rewrite map_size_insert_None by (apply map_lookup_filter_None; by left). lia.
  - rewrite delete_id by done. lia.
Qed.

Lemma seats_delete t w p pm : pm !! w = Some p ->
  count t (delete w pm) = count t pm - (if decide (pl_targetID p = t) then 1 else 0).
Proof.
  intros Hw. rewrite <- (insert_delete_id pm w p Hw) at 2.
  rewrite seats_insert by apply lookup_delete_eq. destruct (decide _); lia.
Qed.

Lemma seats_pos t w p pm : pm !! w = Some p -> pl_targetID p = t -> 0 < count t pm.
Proof. intros Hw Ht. pose proof (seats_delete t w p pm Hw). pose proof (seats_nonneg t (delete w pm)). rewrite decide_True in * by done. lia. Qed.

(** Two tables seat the same workloads in the same places. *)
Definition same_seats (pm pm' : gmap string activePlacement) : Prop :=
  forall w, option_Forall2 same_seat (pm !! w) (pm' !! w).

#[export] Instance same_seat_equiv : Equivalence same_seat.
Proof. split; [done|intros p q (?&?&?&?); by split_and!|intros p q r (?&?&?&?) (?&?&?&?); split_and!; congruence]. Qed.
#[export] Instance same_reservation_equiv : Equivalence same_reservation.
Proof. split; [done|intros p q (?&?&?&?); by split_and!|intros p q r (?&?&?&?) (?&?&?&?); split_and!; congruence]. Qed.
#[export] Instance same_seats_equiv : Equivalence same_seats.
Proof.
  split; [intros pm w; reflexivity|intros pm pm' H w; symmetry; apply H|].
  intros pm1 pm2 pm3 H1 H2 w. etrans; [apply H1|apply H2].
Qed.

Lemma same_seats_lookup pm pm' w p : same_seats pm pm' -> pm !! w = Some p -> exists p', pm' !! w = Some p' /\ same_seat p p'.
Proof. intros H Hw. specialize (H w). rewrite Hw in H. inversion H; subst. eauto. Qed.
Lemma same_seats_None pm pm' w : same_seats pm pm' -> pm !! w = None <-> pm' !! w = None.
Proof. intros H. specialize (H w). inversion H; split; congruence. Qed.

Lemma same_seats_count t pm pm' : same_seats pm pm' -> count t pm = count t pm'.
Proof.
  intros H. unfold count. rewrite <- !size_dom. do 2 f_equal. apply set_eq. intros w.
  rewrite !elem_of_dom. unfold is_Some. setoid_rewrite map_lookup_filter_Some. cbn. split; intros (p & Hp & Ht).
  - destruct (same_seats_lookup _ _ _ _ H Hp) as (p' & ? & Hs). exists p'. split; [done|]. destruct Hs as (_ & <- & _). done.
  - destruct (same_seats_lookup _ _ _ _ (symmetry H) Hp) as (p' & ? & Hs). exists p'. split; [done|]. destruct Hs as (_ & <- & _). done.
Qed.

(** The counts are right, and a target has a lease pointer while it has work. *)
Definition balanced (m : Manager) : Prop := forall t,
  targetActive m !! t = (if count t (activePlacements m) =? 0 then None else Some (count t (activePlacements m))) /\
  (is_Some (targetLeases m !! t) <-> 0 < count t (activePlacements m)).

Lemma balanced_count m t : balanced m -> targetActiveCount t m = count t (activePlacements m).
Proof. intros H. unfold targetActiveCount. destruct (H t) as [-> _]. destruct (_ =? _) eqn:E; [bool_simp; cbn; lia|done]. Qed.

(** ** What a step does to the tables *)

Inductive place_effect (m m' : Manager) : Prop :=
  | pe_calm : calm m m' -> place_effect m m'
  | pe_enter p lease r :
      activePlacements m !! pl_workloadID p = None ->
      targetActive m' = <[pl_targetID p := count (pl_targetID p) (activePlacements m) + 1]> (targetActive m) ->
      targetLeases m' = <[pl_targetID p := lease]> (targetLeases m) ->
      same_seats (<[pl_workloadID p := p]> (activePlacements m)) (activePlacements m') ->
      tr_workloadID r = pl_workloadID p -> tr_targetID r = pl_targetID p -> tr_lease r = Some lease ->
      tr_released r = false ->
      reservationHeap m' = <[nextReservation m := r]> (reservationHeap m) ->
      nextReservation m' = S (nextReservation m) -> place_effect m m'
  | pe_leave now rid r r' :
      reservationHeap m !! rid = Some r -> tr_released r = false ->
      tr_workloadID r' = tr_workloadID r -> tr_released r' = true ->
      reservationHeap m' = <[rid := r']> (reservationHeap m) -> nextReservation m' = nextReservation m ->
      targetActive m' = targetActive (removePlacement now (tr_workloadID r) (tr_targetID r) m) ->
      targetLeases m' = targetLeases (removePlacement now (tr_workloadID r) (tr_targetID r) m) ->
      activePlacements m' = activePlacements (removePlacement now (tr_workloadID r) (tr_targetID r) m) ->
      place_effect m m'.

(** Placements and unreleased reservations correspond one to one. *)
Record ledger (m : Manager) : Prop := {
  lg_key : forall w p, activePlacements m !! w = Some p -> pl_workloadID p = w;
  lg_own : forall w p, activePlacements m !! w = Some p ->
    exists rid r, reservationHeap m !! rid = Some r /\ tr_released r = false /\ tr_workloadID r = w;
  lg_live : forall rid r, reservationHeap m !! rid = Some r -> tr_released r = false ->
    exists p, activePlacements m !! tr_workloadID r = Some p /\ pl_targetID p = tr_targetID r;
  lg_unique : forall i j r q, reservationHeap m !! i = Some r -> reservationHeap m !! j = Some q ->
    tr_released r = false -> tr_released q = false -> tr_workloadID r = tr_workloadID q -> i = j;
  lg_fresh : forall rid r, reservationHeap m !! rid = Some r -> (rid < nextReservation m)%nat;
}.

Lemma calm_balanced m m' : calm m m' -> balanced m -> balanced m'.
Proof.
  intros [Ha Hl _ Hp _] H t. rewrite Ha, Hl, <- (same_seats_count t _ _ Hp). apply H.
Qed.

Lemma enter_balanced m m' p lease : balanced m -> activePlacements m !! pl_workloadID p = None ->
  targetActive m' = <[pl_targetID p := count (pl_targetID p) (activePlacements m) + 1]> (targetActive m) ->
  targetLeases m' = <[pl_targetID p := lease]> (targetLeases m) ->
  same_seats (<[pl_workloadID p := p]> (activePlacements m)) (activePlacements m') -> balanced m'.
Proof.
  intros H Hw Ha Hl Hs t. rewrite Ha, Hl, <- (same_seats_count t _ _ Hs), seats_insert by done.
  pose proof (seats_nonneg t (activePlacements m)). destruct (decide (pl_targetID p = t)) as [<-|Hne].
  - rewrite !lookup_insert_eq. destruct (_ + 1 =? 0) eqn:E; bool_simp; [lia|]. split; [done|split; [lia|done]].
  - rewrite !lookup_insert_ne by done. rewrite Z.add_0_r. apply H.
Qed.

Lemma leave_balanced now w t p m : balanced m -> activePlacements m !! w = Some p -> pl_targetID p = t ->
  balanced (removePlacement now w t m).
Proof.
  intros H Hw Ht t'. unfold removePlacement, leaveTarget.
  assert (targetActiveCount t (m <| activePlacements := delete w (activePlacements m) |>
            <| targetReleasedAt := <[t := now]> (targetReleasedAt m) |>) = count t (activePlacements m)) as ->
    by (by rewrite <- (balanced_count m t H)).
  pose proof (seats_pos t w p _ Hw Ht) as Hpos.
  assert (forall x, count t' (delete w (activePlacements m)) = x -> x = count t' (activePlacements m) - (if decide (t = t') then 1 else 0)) as Hc.
  { intros x <-. rewrite (seats_delete t' w p _ Hw), Ht. done. }
  destruct (1 <? count t (activePlacements m)) eqn:E; bool_simp; cbn -[count]; rewrite (Hc _ eq_refl);
    (destruct (decide (t = t')) as [<-|Hne]; [|rewrite ?lookup_insert_ne, ?lookup_delete_ne, Z.sub_0_r by done; apply H]).
  - rewrite lookup_insert_eq. destruct (_ =? 0) eqn:E'; bool_simp; [lia|]. split; [done|].
    rewrite (proj2 (H t)). lia.
  - rewrite !lookup_delete_eq. destruct (_ =? 0) eqn:E'; bool_simp; [|lia]. split; [done|].
    split; [by intros [? ?]|lia].
Qed.

Lemma removePlacement_places now w t m : activePlacements (removePlacement now w t m) = delete w (activePlacements m).
Proof. unfold removePlacement, leaveTarget. by destruct (1 <? _). Qed.

Lemma calm_ledger m m' : calm m m' -> ledger m -> ledger m'.
Proof.
  intros [_ _ Hn Hp Hh] [Lk Lo Ll Lu Lf].
  assert (forall rid r', reservationHeap m' !! rid = Some r' -> exists r, reservationHeap m !! rid = Some r /\ same_reservation r r') as Hback.
  { intros rid r' Hr. specialize (Hh rid). rewrite Hr in Hh. inversion Hh; subst. eauto. }
  split.
  - intros w p' Hw. destruct (same_seats_lookup _ _ _ _ (symmetry Hp) Hw) as (p & Hw' & Hs & _). rewrite Hs. by apply Lk.
  - intros w p' Hw. destruct (same_seats_lookup _ _ _ _ (symmetry Hp) Hw) as (p & Hw' & _).
    destruct (Lo w p Hw') as (rid & r & Hr & Hrel & Hwr). specialize (Hh rid). rewrite Hr in Hh.
    inversion Hh as [? r' Hs Hx Hy|]; subst. destruct Hs as (E1 & _ & _ & E4). exists rid, r'. rewrite <- E1, <- E4. done.
  - intros rid r' Hr Hrel. destruct (Hback _ _ Hr) as (r & Hr' & E1 & E2 & _ & E4).
    destruct (Ll rid r Hr') as (p & Hpl & Ht); [congruence|].
    destruct (same_seats_lookup _ _ _ _ Hp Hpl) as (p' & Hp' & _ & Ht' & _). exists p'. rewrite <- E1. split; [done|congruence].
  - intros i j r' q' Hi Hj. destruct (Hback _ _ Hi) as (r & Hr & E1 & _ & _ & E4).
    destruct (Hback _ _ Hj) as (q & Hq & F1 & _ & _ & F4). rewrite <- E1, <- E4, <- F1, <- F4. by apply Lu.
  - intros rid r' Hr. destruct (Hback _ _ Hr) as (r & Hr' & _). rewrite Hn. by eapply Lf.
Qed.

Lemma enter_ledger m m' p lease r : ledger m -> activePlacements m !! pl_workloadID p = None ->
  same_seats (<[pl_workloadID p := p]> (activePlacements m)) (activePlacements m') ->
  tr_workloadID r = pl_workloadID p -> tr_targetID r = pl_targetID p -> tr_lease r = Some lease -> tr_released r = false ->
  reservationHeap m' = <[nextReservation m := r]> (reservationHeap m) -> nextReservation m' = S (nextReservation m) ->
  ledger m'.
Proof.
  intros [Lk Lo Ll Lu Lf] Hw Hs E1 E2 _ Hrel Hh Hn.
  assert (forall rid q, reservationHeap m !! rid = Some q -> nextReservation m <> rid) as Hne
    by (intros rid q Hq <-; apply Lf in Hq; lia).
  assert (forall rid q, reservationHeap m !! rid = Some q -> tr_released q = false -> tr_workloadID q <> pl_workloadID p) as Hfw.
  { intros rid q Hq Hr Heq. destruct (Ll rid q Hq Hr) as (p' & Hp' & _). congruence. }
  split.
  - intros w p' Hp'. destruct (same_seats_lookup _ _ _ _ (symmetry Hs) Hp') as (q & Hq & Hk & _). rewrite Hk.
    apply lookup_insert_Some in Hq as [[<- <-]|[_ Hq]]; [done|by apply Lk].
  - intros w p' Hp'. rewrite Hh. destruct (same_seats_lookup _ _ _ _ (symmetry Hs) Hp') as (q & Hq & _).
    apply lookup_insert_Some in Hq as [[<- <-]|[_ Hq]]; [exists (nextReservation m), r; split; [apply lookup_insert_eq|done]|].
    destruct (Lo w q Hq) as (rid & r0 & Hr0 & ?). exists rid, r0. by rewrite lookup_insert_ne by eauto.
  - intros rid q. rewrite Hh. intros [[<- <-]|[_ Hq]]%lookup_insert_Some Hr.
    + destruct (same_seats_lookup _ _ (pl_workloadID p) p Hs) as (p' & Hp' & _ & Ht & _); [by rewrite lookup_insert_eq|].
      exists p'. rewrite E1, E2. done.
    + destruct (Ll rid q Hq Hr) as (p0 & Hp0 & Ht).
      destruct (same_seats_lookup _ _ (tr_workloadID q) p0 Hs) as (p' & Hp' & _ & Ht' & _).
      { rewrite lookup_insert_ne by (intros Heq; by eapply Hfw). done. }
      exists p'. split; [done|congruence].
  - intros i j a b. rewrite Hh. intros [[<- <-]|[_ Hi]]%lookup_insert_Some [[<- <-]|[_ Hj]]%lookup_insert_Some Ra Rb Heq;
      [done|exfalso; eapply (Hfw j b); congruence|exfalso; eapply (Hfw i a); congruence|by eapply Lu].
  - intros rid q. rewrite Hh, Hn. intros [[<- <-]|[_ Hq]]%lookup_insert_Some; [lia|]. apply Lf in Hq. lia.
Qed.

Lemma leave_ledger m m' rid r r' : ledger m -> reservationHeap m !! rid = Some r -> tr_released r = false ->
  tr_released r' = true -> reservationHeap m' = <[rid := r']> (reservationHeap m) -> nextReservation m' = nextReservation m ->
  activePlacements m' = delete (tr_workloadID r) (activePlacements m) -> ledger m'.
Proof.
  intros [Lk Lo Ll Lu Lf] Hr Hrel Hrel' Hh Hn Hp. split.
  - intros w p. rewrite Hp. intros [_ H]%lookup_delete_Some. by apply Lk.
  - intros w p. rewrite Hp. intros [Hne H]%lookup_delete_Some. destruct (Lo w p H) as (i & q & Hq & Hqr & Hqw).
    exists i, q. rewrite Hh, lookup_insert_ne by (intros <-; congruence). done.
  - intros i q. rewrite Hh, Hp. intros [[<- <-]|[Hne Hq]]%lookup_insert_Some Hqr; [congruence|].
    destruct (Ll i q Hq Hqr) as (p & Hpl & Ht). exists p. rewrite lookup_delete_ne; [done|].
    intros Heq. apply Hne. by eapply (Lu rid i r q).
  - intros i j a b. rewrite Hh. intros [[<- <-]|[_ Hi]]%lookup_insert_Some [[<- <-]|[_ Hj]]%lookup_insert_Some Ra Rb Heq;
      [done|congruence|congruence|by eapply Lu].
  - intros i q. rewrite Hh, Hn. intros [[<- <-]|[_ Hq]]%lookup_insert_Some; eauto.
Qed.

Lemma effect_inv m m' : place_effect m m' -> balanced m /\ ledger m -> balanced m' /\ ledger m'.
Proof.
  intros [Hq|p lease r Hw Ha Hl Hs E1 E2 E3 E4 Hh Hn|now rid r r' Hr Hrel E1 E2 Hh Hn Ha Hl Hp] [Hb Hg].
  - split; [by eapply calm_balanced|by eapply calm_ledger].
  - split; [by eapply enter_balanced|by eapply enter_ledger].
  - split; [|eapply leave_ledger; try done; by rewrite Hp, removePlacement_places].
    destruct (lg_live m Hg rid r Hr Hrel) as (p & Hpl & Ht).
    intros t. rewrite Ha, Hl, Hp. by eapply (leave_balanced now).
Qed.

(** ** The critical sections, case by case *)

(** A new placement with its reservation, on [active] slots under [lease]. *)
Record entered (pr : prepared) (active : Z) (lease : AcceleratorLease) (r : targetReservation) (m m' : Manager) : Prop := {
  en_active : targetActive m' = <[pl_targetID (pr_placement pr) := active]> (targetActive m);
  en_leases : targetLeases m' = <[tgt_ID (pr_target pr) := lease]> (targetLeases m);
  en_places : same_seats (<[pl_workloadID (pr_placement pr) := pr_placement pr]> (activePlacements m)) (activePlacements m');
  en_heap : reservationHeap m' = <[nextReservation m := r]> (reservationHeap m);
  en_next : nextReservation m' = S (nextReservation m);
  en_store : mgr_store m' = mgr_store m;
  en_companions : companions m' = companions m;
  en_reservation : same_reservation r (freshReservation pr lease);
  en_idle : tr_backendStopPending r = false /\ tr_releaseInFlight r = false /\ tr_cleanupIntent r = None;
}.

Lemma markShared_seats acc pm : same_seats pm
  ((fun p => if pl_acceleratorID p ==? acc then p <| pl_sharedObserved := true |> else p) <$> pm).
Proof. intros w. rewrite lookup_fmap. destruct (pm !! w) as [p|]; constructor. by destruct (_ ==? _). Qed.

Lemma same_seats_insert w p q pm pm' : same_seat p q -> same_seats pm pm' -> same_seats (<[w := p]> pm) (<[w := q]> pm').
Proof.
  intros Hp H w'. destruct (decide (w = w')) as [<-|]; [rewrite !lookup_insert_eq; by constructor|].
  rewrite !lookup_insert_ne by done. apply H.
Qed.

Section sections.
Context `{Fingerprints} {R : GoRange}.

Lemma joinShared_cases pr lease m m' ph : joinShared pr lease m = (m', ph) ->
  match ph with
  | Placed rid => rid = nextReservation m /\ cs_allowed (canCoScheduleLocked (pr_placement pr) m) = true /\
      exists r, entered pr (targetActiveCount (tgt_ID (pr_target pr)) m + 1) lease r m m'
  | Declined _ => m' = m
  | Continue => False
  end.
Proof.
  unfold joinShared. destruct (cs_allowed _) eqn:Hc; cbn -[sharingProfileKeyLocked sharingExactProfileKeyLocked markShared].
  2: { by intros [= <- <-]. }
  destruct (sharingProfileKeyLocked _ _) as [[key classes] versions].
  intros [= <- <-]. split; [done|split; [done|]]. eexists. split; try reflexivity.
  - unfold set_field. cbn. apply same_seats_insert; [done|apply markShared_seats].
  - by split_and!.
  - by split_and!.
Qed.

(** Where the lease of a fast reservation comes from. *)
Definition reused (pr : prepared) (lease : AcceleratorLease) (m : Manager) : Prop :=
  targetLeases m !! tgt_ID (pr_target pr) = Some lease \/
  (targetLeases m !! tgt_ID (pr_target pr) = None /\ cs_allowed (canCoScheduleLocked (pr_placement pr) m) = true /\
   lease_AcceleratorID lease = pr_leaseID pr /\ exists t, targetLeases m !! t = Some lease).

Lemma reserve_cases pr m m' ph : reserveLocked pr m = (m', ph) ->
  match ph with
  | Placed rid => rid = nextReservation m /\ targetActiveCount (tgt_ID (pr_target pr)) m < pr_slots pr /\
      poolReason pr m = ""%string /\ routeOf pr m = RouteCurrent /\
      exists lease r, reused pr lease m /\ entered pr (targetActiveCount (tgt_ID (pr_target pr)) m + 1) lease r m m'
  | Declined _ => m' = m
  | Continue => m' = m /\ forall t l, targetLeases m !! t = Some l -> lease_AcceleratorID l <> pr_leaseID pr
  end.
Proof.
  unfold reserveLocked. destruct (routeOf pr m); [by intros [= <- <-]..|].
  destruct (_ <=? _) eqn:Hs; [by intros [= <- <-]|]. destruct (_ !=? _) eqn:Hp; [by intros [= <- <-]|].
  destruct (modelLimitReached pr m); [by intros [= <- <-]|]. bool_simp.
  destruct (targetLeases m !! _) as [lease|] eqn:Hl.
  - intros [= <- <-]. split_and!; [done..|]. exists lease, (freshReservation pr lease). split; [by left|].
    split; try reflexivity; cbn; [by rewrite insert_id|by split_and!].
  - destruct (range_find _ _) as [[t lease]|] eqn:Hf.
    + apply range_find_Some in Hf as [Ht Ha]. bool_simp. intros Hj. pose proof (joinShared_cases _ _ _ _ _ Hj) as Hc.
      destruct ph as [reason|rid|]; [done| |done]. destruct Hc as (-> & Hc & r & Hr). split_and!; [done..|].
      exists lease, r. split; [|done]. right. eauto.
    + intros [= <- <-]. split; [done|]. intros t l Ht Ha. pose proof (proj1 (range_find_None _ _) Hf t l Ht) as Hn.
      cbn in Hn. by bool_simp.
Qed.

Lemma commit_cases pr lease m m' out : commitLocked pr lease m = (m', out) ->
  match out with
  | Publish rid => rid = nextReservation m /\ targetActiveCount (tgt_ID (pr_target pr)) m < pr_slots pr /\
      poolReason pr m = ""%string /\ routeOf pr m = RouteCurrent /\ targetLeases m !! tgt_ID (pr_target pr) = None /\
      exists r, entered pr 1 lease r m m'
  | _ => m' = m
  end.
Proof.
  unfold commitLocked. destruct (routeOf pr m); [by intros [= <- <-]..|].
  destruct (_ !=? _) eqn:Hp; [by intros [= <- <-]|]. destruct (_ || _) eqn:Hs; [by intros [= <- <-]|].
  bool_simp. intros [= <- <-]. split_and!; [done..|by apply eq_None_not_Some|].
  eexists. split; try reflexivity. by split_and!.
Qed.

(** A section that publishes is an entry of the ledger. *)
Lemma entered_effect pr active lease r m m' : entered pr active lease r m m' -> balanced m ->
  pl_targetID (pr_placement pr) = tgt_ID (pr_target pr) -> activePlacements m !! pl_workloadID (pr_placement pr) = None ->
  active = count (tgt_ID (pr_target pr)) (activePlacements m) + 1 -> place_effect m m'.
Proof.
  intros [Ea El Ep Eh En _ _ (R1 & R2 & R3 & R4) _] Hb Ht Hw ->.
  rewrite Ht in Ea.
  eapply (pe_enter _ _ (pr_placement pr) lease r); try done; rewrite ?Ht; done.
Qed.

Definition closed (m : Manager) (rid : nat) : Prop := tr_released <$> (reservationHeap m !! rid) = Some true.

(** Flags of one reservation. *)
Lemma setReservation_calm rid f m : (forall r, same_reservation r (f r)) -> calm m (setReservation rid f m).
Proof.
  intros Hf. split; try done. intros i. cbn. destruct (decide (i = rid)) as [->|Hne].
  - rewrite lookup_alter_eq. destruct (reservationHeap m !! rid); constructor. apply Hf.
  - rewrite lookup_alter_ne by done. reflexivity.
Qed.

Lemma setReservation_other rid f m i : i <> rid -> reservationHeap (setReservation rid f m) !! i = reservationHeap m !! i.
Proof. intros Hne. cbn. by rewrite lookup_alter_ne. Qed.

Lemma removePlacement_frame now w t m : reservationHeap (removePlacement now w t m) = reservationHeap m /\
  nextReservation (removePlacement now w t m) = nextReservation m /\ mgr_store (removePlacement now w t m) = mgr_store m /\
  companions (removePlacement now w t m) = companions m.
Proof. unfold removePlacement, leaveTarget. by destruct (1 <? _). Qed.

(** An exit: one reservation closed and its placement gone. *)
Inductive exits (rid : nat) (m m' : Manager) : Prop :=
  exit_of now r r' :
    reservationHeap m !! rid = Some r -> tr_released r = false ->
    same_reservation (r <| tr_released := true |>) r' ->
    reservationHeap m' = <[rid := r']> (reservationHeap m) -> nextReservation m' = nextReservation m ->
    targetActive m' = targetActive (removePlacement now (tr_workloadID r) (tr_targetID r) m) ->
    targetLeases m' = targetLeases (removePlacement now (tr_workloadID r) (tr_targetID r) m) ->
    activePlacements m' = delete (tr_workloadID r) (activePlacements m) -> exits rid m m'.

Lemma exits_effect rid m m' : exits rid m m' -> place_effect m m' /\ closed m' rid /\
  (forall w, activePlacements m !! w = None -> activePlacements m' !! w = None) /\
  (forall i, i <> rid -> reservationHeap m' !! i = reservationHeap m !! i).
Proof.
  intros [now r r' Hr Hrel (E1 & E2 & E3 & E4) Hh Hn Ha Hl Hp]. cbn in *. split_and!.
  - eapply (pe_leave _ _ now rid r r'); try done. by rewrite Hp, removePlacement_places.
  - unfold closed. rewrite Hh, lookup_insert_eq. cbn. by rewrite <- E4.
  - intros w Hw. rewrite Hp. apply lookup_delete_None. by right.
  - intros i Hne. by rewrite Hh, lookup_insert_ne.
Qed.

Lemma exit_intro now rid r f m m' : reservationHeap m !! rid = Some r -> tr_released r = false ->
  same_reservation (r <| tr_released := true |>) (f r) ->
  let m1 := removePlacement now (tr_workloadID r) (tr_targetID r) (setReservation rid f m) in
  targetActive m' = targetActive m1 -> targetLeases m' = targetLeases m1 -> activePlacements m' = activePlacements m1 ->
  reservationHeap m' = reservationHeap m1 -> nextReservation m' = nextReservation m1 -> exits rid m m'.
Proof.
  intros Hr Hrel Hs m1 Ea El Ep Eh En.
  destruct (removePlacement_frame now (tr_workloadID r) (tr_targetID r) (setReservation rid f m)) as (Fh & Fn & _).
  apply (exit_of rid m m' now r (f r)); try done.
  - rewrite Eh. unfold m1. rewrite Fh. cbn. apply map_eq. intros i. destruct (decide (i = rid)) as [->|Hne].
    + by rewrite lookup_alter_eq, lookup_insert_eq, Hr.
    + by rewrite lookup_alter_ne, lookup_insert_ne.
  - rewrite En. unfold m1. by rewrite Fn.
  - rewrite Ea. unfold m1, removePlacement, leaveTarget.
    change (targetActiveCount _ _) with (targetActiveCount (tr_targetID r) m) at 1. cbn. by destruct (1 <? _).
  - rewrite El. unfold m1, removePlacement, leaveTarget. cbn. by destruct (1 <? _).
  - rewrite Ep. unfold m1. by rewrite removePlacement_places.
Qed.

(** A release of the reservation is under way or done. *)
Definition claimed (m : Manager) (rid : nat) : Prop := closed m rid \/ inFlight m rid = Some true.

Lemma elect_cases now rid m m' out : releaseElect now rid m = (m', out) ->
  mgr_store m' = mgr_store m /\ companions m' = companions m /\
  (forall i, i <> rid -> reservationHeap m' !! i = reservationHeap m !! i) /\
  match out with
  | LastUser lease => calm m m' /\ activePlacements m' = activePlacements m /\ inFlight m' rid = Some true /\ ~ claimed m rid /\
      exists r, reservationHeap m !! rid = Some r /\ tr_released r = false /\
        tr_lease r = Some lease /\ stillActive r (lease_AcceleratorID lease) m = false
  | LeftOthers => exits rid m m' /\ ~ claimed m rid
  | _ => quiet m m'
  end.
Proof.
  unfold releaseElect. destruct (reservationHeap m !! rid) as [r|] eqn:Hr; [|by intros [= <- <-]].
  destruct (tr_lease r) as [lease|] eqn:Hl; [|by intros [= <- <-]].
  destruct (_ && _) eqn:Hf.
  { intros [= <- <-]. split; [done|split; [done|split; [intros i; apply setReservation_other|split; [by apply setReservation_calm|]]]].
    intros i. unfold inFlight. cbn. destruct (decide (i = rid)) as [->|Hne];
      [rewrite lookup_alter_eq; by destruct (reservationHeap m !! rid)|by rewrite lookup_alter_ne]. }
  destruct (_ || _) eqn:Hg; [by intros [= <- <-]|]. bool_simp.
  assert (~ claimed m rid) as Hnc by (intros [Hc|Hc]; unfold closed, inFlight in Hc; rewrite Hr in Hc; cbn in Hc; congruence).
  destruct (stillActive r _ m) eqn:Hs; intros [= <- <-].
  - destruct (removePlacement_frame now (tr_workloadID r) (tr_targetID r)
      (setReservation rid (fun r => r <| tr_released := true |>) m)) as (Eh & En & Es & Ec).
    assert (exits rid m (removePlacement now (tr_workloadID r) (tr_targetID r) (setReservation rid (fun r => r <| tr_released := true |>) m)))
      as He by (by eapply exit_intro).
    split; [exact Es|split; [exact Ec|split; [by apply exits_effect|by split]]].
  - split_and!; [done|done|intros i; apply setReservation_other|by apply setReservation_calm|done| |done|eauto 10].
    unfold inFlight. cbn. by rewrite lookup_alter_eq, Hr.
Qed.
Lemma finish_cases now rid m m' go : finishReleased now rid m = (m', go) ->
  mgr_store m' = mgr_store m /\ companions m' = companions m /\
  (forall i, i <> rid -> reservationHeap m' !! i = reservationHeap m !! i) /\
  if go then exits rid m m' else m' = m /\ forall r, reservationHeap m !! rid = Some r -> tr_released r = true.
Proof.
  unfold finishReleased. destruct (reservationHeap m !! rid) as [r|] eqn:Hr; [|by intros [= <- <-]].
  destruct (tr_released r) eqn:Hrel; intros [= <- <-]; [split_and!; try done; by intros q [= <-]|].
  unfold finishReleasedReservationLocked.
  match goal with |- context [setReservation rid ?f m] => set (g := f) end.
  destruct (removePlacement_frame now (tr_workloadID r) (tr_targetID r) (setReservation rid g m)) as (Eh & En & Es & Ec).
  match goal with |- mgr_store ?x = _ /\ _ => assert (exits rid m x) as He by (by apply (exit_intro now rid r g)) end.
  split; [exact Es|split; [exact Ec|split; [by apply exits_effect|exact He]]].
Qed.

(** Steps that leave the tables of the manager alone. *)
Lemma quiet_tables m m' : targetActive m' = targetActive m -> targetLeases m' = targetLeases m ->
  nextReservation m' = nextReservation m -> activePlacements m' = activePlacements m ->
  reservationHeap m' = reservationHeap m -> quiet m m'.
Proof. intros Ea El En Ep Eh. split; [split; try done|]; intros ?; unfold inFlight; rewrite ?Ep, ?Eh; reflexivity. Qed.

Lemma quiet_refl m : quiet m m.
Proof. by apply quiet_tables. Qed.

Lemma quiet_trans m1 m2 m3 : quiet m1 m2 -> quiet m2 m3 -> quiet m1 m3.
Proof.
  intros [[A1 L1 N1 P1 H1] F1] [[A2 L2 N2 P2 H2] F2].
  split; [|intros rid; by rewrite F2]. split; [congruence..|intros w; etrans; [apply P1|apply P2]|]. intros rid. etrans; [apply H1|apply H2].
Qed.

Lemma quiet_store m s : quiet m (m <| mgr_store := s |>).
Proof. by apply quiet_tables. Qed.

Lemma hold_quiet now target m m' reason : holdCompanionLeases now target m = Some (m', reason) -> quiet m m'.
Proof.
  unfold holdCompanionLeases. destruct (tgt_CompanionAcceleratorIDs target); [by intros [= <- <-]; apply quiet_refl|].
  destruct (companions m !! _); [by intros [= <- <-]; apply quiet_tables|].
  destruct (targetAccelerators target) as [|a ids]; [done|].
  destruct (acquireCompanions _ _ _ _ _ _) as [s' [why|got]]; intros [= <- <-]; by apply quiet_tables.
Qed.

Lemma keep_quiet now m : quiet m (keepCompanionLeases now m).
Proof.
  unfold keepCompanionLeases. generalize (go_range (companions m)). intros l. revert m.
  induction l as [|[t h] l IH]; intros m; cbn -[keepCompanion]; [apply quiet_refl|].
  eapply quiet_trans; [|apply IH]. unfold keepCompanion. destruct (_ <? _); by apply quiet_tables.
Qed.

Lemma acquire_quiet now pr m m' out : acquireForTarget now pr m = (m', out) -> quiet m m'.
Proof.
  unfold acquireForTarget. destruct (AcquireAcceleratorLease _ _ _ _ _) as [s' [lease ok]]. intros [= <- _]. apply quiet_store.
Qed.

Lemma durable_quiet clock now ft lease terminal m m' out : releaseDurable clock now ft lease terminal m = (m', out) -> quiet m m'.
Proof.
  unfold releaseDurable. destruct (rollbackAcceleratorLeaseWithIntent _ _ _ _ _ _ _ _) as [s' o]. intros [= <- _]. apply quiet_store.
Qed.

Lemma forget_quiet rid m : quiet m (forgetReservation rid m).
Proof.
  unfold forgetReservation. destruct (reservationHeap m !! rid); [|apply quiet_refl].
  destruct (_ ==? _); by apply quiet_tables.
Qed.

Lemma retire_quiet t m : balanced m -> quiet m (retireTarget t m).
Proof.
  intros Hb. unfold retireTarget. destruct (_ <=? 0) eqn:E; [|apply quiet_refl]. bool_simp.
  rewrite (balanced_count m t Hb) in E. pose proof (seats_nonneg t (activePlacements m)) as Hn. destruct (Hb t) as [Ha Hl].
  destruct (count t (activePlacements m) =? 0) eqn:E0; bool_simp; [|lia].
  split; [|done]. split; cbn; [by rewrite delete_id| |done|intros w; reflexivity|intros i; reflexivity].
  rewrite delete_id; [done|]. apply eq_None_not_Some. rewrite Hl. lia.
Qed.

Lemma failed_calm rid m : calm m (releaseFailed rid m).
Proof. by apply setReservation_calm. Qed.

(** ** The invariant of a run *)

Record accounted (c : config) : Prop := {
  ac_balanced : balanced (c_m c);
  ac_ledger : ledger (c_m c);
  ac_calls : forall w pr st, c_calls c !! w = Some (pr, st) -> well_prepared w pr /\ activePlacements (c_m c) !! w = None;
  ac_releases : forall rid st, c_releases c !! rid = Some st -> claimed (c_m c) rid;
}.

Lemma quiet_claimed m m' rid : quiet m m' -> claimed m rid -> claimed m' rid.
Proof.
  intros [[_ _ _ _ Hh] Hf] [Hc|Hc]; [left|right; by rewrite Hf]. unfold closed in *.
  specialize (Hh rid). destruct (reservationHeap m !! rid) as [r|]; [|done]. inversion Hh as [? ? (_ & _ & _ & E)|]; subst.
  cbn in *. congruence.
Qed.

(** A quiet step of a call. *)
Lemma accounted_quiet c c' : accounted c -> quiet (c_m c) (c_m c') ->
  (forall w pr st, c_calls c' !! w = Some (pr, st) -> exists st', c_calls c !! w = Some (pr, st')) ->
  (forall rid st, c_releases c' !! rid = Some st -> exists st', c_releases c !! rid = Some st') -> accounted c'.
Proof.
  intros [Hb Hl Hc Hr] Hq Hc' Hr'. pose proof Hq as [Hcalm _]. split.
  - by eapply calm_balanced.
  - by eapply calm_ledger.
  - intros w pr st Hw. destruct (Hc' w pr st Hw) as [st' Hw']. destruct (Hc w pr st' Hw') as [Hwp Hn].
    split; [done|]. by apply (same_seats_None _ _ w (q_places _ _ Hcalm)).
  - intros rid st Hrid. destruct (Hr' rid st Hrid) as [st' Hrid']. eapply quiet_claimed; [done|by eapply Hr].
Qed.

Lemma accounted_enter c w pr st active lease r m' : accounted c -> c_calls c !! w = Some (pr, st) ->
  entered pr active lease r (c_m c) m' -> active = count (tgt_ID (pr_target pr)) (activePlacements (c_m c)) + 1 ->
  accounted (advance w pr m' None c).
Proof.
  intros [Hb Hl Hc Hr] Hw He Ha. destruct (Hc w pr st Hw) as [(Ew & Et & _) Hn].
  assert (place_effect (c_m c) m') as Hf by (eapply entered_effect; try done; by rewrite Ew).
  destruct (effect_inv _ _ Hf (conj Hb Hl)) as [Hb' Hl']. split; [done|done| |].
  - intros w' pr' st'. cbn. intros [Hne Hw']%lookup_delete_Some. destruct (Hc w' pr' st' Hw') as [Hp' Hn']. split; [done|].
    apply (same_seats_None _ _ w' (en_places _ _ _ _ _ _ He)). rewrite Ew, lookup_insert_ne by done. done.
  - intros rid st' Hrid. cbn in *. specialize (Hr rid st' Hrid). unfold claimed, closed, inFlight in *.
    rewrite (en_heap _ _ _ _ _ _ He). destruct (decide (nextReservation (c_m c) = rid)) as [<-|Hne];
      [|by rewrite lookup_insert_ne].
    destruct (reservationHeap (c_m c) !! nextReservation (c_m c)) as [q|] eqn:Hq; [|by destruct Hr].
    apply (lg_fresh _ Hl) in Hq. lia.
Qed.

Lemma heap_claimed m m' rid i : (forall i, i <> rid -> reservationHeap m' !! i = reservationHeap m !! i) -> i <> rid ->
  claimed m i -> claimed m' i.
Proof. intros Hh Hne. unfold claimed, closed, inFlight. by rewrite Hh. Qed.

Lemma accounted_exit c rid m' next : accounted c -> exits rid (c_m c) m' -> accounted (advance_release rid m' next c).
Proof.
  intros [Hb Hl Hc Hr] Hx. destruct (exits_effect _ _ _ Hx) as (He & Hcl & Hp & Hh). destruct (effect_inv _ _ He (conj Hb Hl)) as [Hb' Hl']. split; [done|done| |].
  - intros w pr st Hw. destruct (Hc w pr st Hw). split; [done|by apply Hp].
  - intros i st Hi. destruct (decide (i = rid)) as [->|Hne]; [by left|].
    assert (c_releases c !! i = Some st) as Hi' by (revert Hi; cbn; destruct next; by rewrite ?lookup_insert_ne, ?lookup_delete_ne).
    eapply heap_claimed; [exact Hh|done|by eapply Hr].
Qed.

Lemma accounted_stage a c w pr st c' : accounted c -> c_calls c !! w = Some (pr, st) -> reserve_stage a w pr st c = Some c' ->
  accounted c'.
Proof.
  intros Hac Hw Hp. pose proof (ac_balanced c Hac) as Hb.
  assert (forall m' next, quiet (c_m c) m' -> accounted (advance w pr m' next c)) as Hquiet.
  { intros m' next Hq. eapply accounted_quiet; [done..| |]; cbn; [|eauto]. intros w' pr' st'. destruct next as [st0|].
    - intros [[<- [= <- <-]]|[_ Hw']]%lookup_insert_Some; eauto.
    - intros [_ Hw']%lookup_delete_Some. eauto. }
  destruct a, st; try discriminate Hp; cbn -[rollbackAcceleratorLease] in Hp.
  - destruct (reserveLocked pr (c_m c)) as [m' ph] eqn:E. apply reserve_cases in E.
    destruct ph as [reason|rid|]; injection Hp as <-; [subst; apply Hquiet, quiet_refl| |].
    + destruct E as (_ & _ & _ & _ & lease & r & _ & He). eapply accounted_enter; [done..|]. by rewrite (balanced_count _ _ Hb).
    + destruct E as [-> _]. apply Hquiet, quiet_refl.
  - destruct (holdCompanionLeases _ _ _) as [[m' reason]|] eqn:E; [|done]. injection Hp as <-. apply Hquiet. by eapply hold_quiet.
  - destruct (acquireForTarget _ _ _) as [m' [ph lease]] eqn:E. apply acquire_quiet in E.
    destruct ph; injection Hp as <-; by apply Hquiet.
  - destruct (commitLocked pr lease (c_m c)) as [m' out] eqn:E. apply commit_cases in E.
    destruct out; injection Hp as <-; [|subst; apply Hquiet, quiet_refl..].
    destruct E as (_ & _ & _ & _ & Hnone & r & He). eapply accounted_enter; [done..|].
    pose proof (seats_nonneg (tgt_ID (pr_target pr)) (activePlacements (c_m c))).
    destruct (Hb (tgt_ID (pr_target pr))) as [_ Hi]. rewrite Hnone in Hi.
    destruct (decide (0 < count (tgt_ID (pr_target pr)) (activePlacements (c_m c)))) as [Hlt|]; [|lia].
    apply Hi in Hlt as [? ?]. done.
  - destruct (rollbackAcceleratorLease _ _ _ _ _ _) as [s' out]. injection Hp as <-. apply Hquiet, quiet_store.
Qed.

Lemma accounted_perform a c c' : accounted c -> perform a c = Some c' -> accounted c'.
Proof.
  intros Hac Hp. pose proof Hac as [Hb Hl Hc Hr].
  assert (forall m', quiet (c_m c) m' -> accounted (c <| c_m := m' |>)) as Hquiet
    by (intros m' Hq; eapply accounted_quiet; [done..|eauto|eauto]).
  assert (forall rid st m' next, c_releases c !! rid = Some st -> quiet (c_m c) m' -> accounted (advance_release rid m' next c)) as Hstage.
  { intros rid st m' next Hrid Hq. eapply accounted_quiet; [done..|eauto|]. intros i st'. cbn. destruct next.
    - intros [[<- _]|[_ Hi]]%lookup_insert_Some; eauto.
    - intros [_ Hi]%lookup_delete_Some. eauto. }
  destruct a; cbn -[reserve_stage keepCompanionLeases retireTarget] in Hp;
    try (destruct (c_calls c !! w) as [[pr st]|] eqn:Hw; [|done]; by eapply accounted_stage).
  - destruct (_ && _ && _) eqn:E; [|done]. injection Hp as <-. bool_simp. split; [done|done| |done]. cbn.
    intros w' pr' st' [[<- [= <- <-]]|[_ Hw']]%lookup_insert_Some; [done|eauto].
  - destruct (releaseElect now rid (c_m c)) as [m' out] eqn:E. apply elect_cases in E as (_ & _ & Hh & E).
    destruct out; injection Hp as <-; [by apply Hquiet..|destruct E; by apply accounted_exit|].
    destruct E as (Hcalm & _ & Hfl & Hnc & _). split; [by eapply calm_balanced|by eapply calm_ledger| |].
    + intros w pr st Hw. destruct (Hc w pr st Hw). split; [done|]. by apply (same_seats_None _ _ w (q_places _ _ Hcalm)).
    + cbn. intros i st [[<- _]|[Hne Hi]]%lookup_insert_Some; [by right|]. eapply heap_claimed; [exact Hh|done|by eapply Hr].
  - destruct (c_releases c !! rid) as [[lease terminal| | |]|] eqn:Hrid; try done.
    destruct (releaseDurable _ _ _ _ _ _) as [m' out] eqn:E. injection Hp as <-. eapply Hstage; [done|by eapply durable_quiet].
  - destruct (c_releases c !! rid) as [[lease terminal| | |]|] eqn:Hrid; try done. injection Hp as <-.
    pose proof (failed_calm rid (c_m c)) as Hcalm. split; [by eapply calm_balanced|by eapply calm_ledger| |].
    + intros w pr st Hw. destruct (Hc w pr st Hw). split; [done|]. by apply (same_seats_None _ _ w (q_places _ _ Hcalm)).
    + cbn. intros i st [Hne Hi]%lookup_delete_Some. eapply (heap_claimed _ _ rid); [|done|by eapply Hr].
      intros j Hj. by apply setReservation_other.
  - destruct (c_releases c !! rid) as [[lease terminal| | |]|] eqn:Hrid; try done.
    destruct (finishReleased _ _ _) as [m' go] eqn:E. apply finish_cases in E as (_ & _ & Hh & E). injection Hp as <-.
    destruct go; [by apply accounted_exit|]. destruct E as [-> _]. eapply Hstage; [done|apply quiet_refl].
  - destruct (c_releases c !! rid) as [[lease terminal| | |]|] eqn:Hrid; try done. injection Hp as <-.
    eapply Hstage; [done|apply forget_quiet].
  - injection Hp as <-. unfold finishReleasedReservation. destruct (finishReleased _ _ _) as [m' go] eqn:E.
    apply finish_cases in E as (_ & _ & Hh & E). destruct go; [|destruct E as [-> _]; apply Hquiet, quiet_refl].
    pose proof (accounted_exit c rid m' (c_releases c !! rid) Hac E) as Hx.
    eapply (accounted_quiet _ _ Hx); cbn; [apply forget_quiet|eauto|].
    intros i st Hi. destruct (c_releases c !! rid) as [st0|] eqn:H0; [rewrite insert_id by done|rewrite delete_id by done]; eauto.
  - injection Hp as <-. apply Hquiet, keep_quiet.
  - injection Hp as <-. apply Hquiet. by apply retire_quiet.
Qed.
End sections.

Lemma started_accounted s ttl : accounted (started s ttl).
Proof.
  split; [|split; cbn; intros *; by rewrite lookup_empty|cbn; intros *; by rewrite lookup_empty..].
  intros t. cbn. unfold count, seats. rewrite !lookup_empty, map_filter_empty, map_size_empty. cbn. split; [done|].
  split; [by intros [? ?]|lia].
Qed.

Lemma place_step_accounted `{Fingerprints} D c c' : place_step D c c' -> accounted c -> accounted c'.
Proof.
  intros [R a _ Hp|m' _ Hq ->] Hac; [by eapply accounted_perform|]. eapply accounted_quiet; [done|done|eauto|eauto].
Qed.

Lemma reachable_accounted `{Fingerprints} D s ttl c : place_reachable D s ttl c -> accounted c.
Proof. induction 1 as [|c c' _ IH Hs]; [apply started_accounted|by eapply place_step_accounted]. Qed.

(** ** What an action does, in one view *)

Lemma exits_quiet rid m m1 m2 : exits rid m m1 -> targetActive m2 = targetActive m1 -> targetLeases m2 = targetLeases m1 ->
  nextReservation m2 = nextReservation m1 -> activePlacements m2 = activePlacements m1 ->
  reservationHeap m2 = reservationHeap m1 -> exits rid m m2.
Proof.
  intros [now r r' H1 H2 H3 H4 H5 H6 H7 H8] Ea El En Ep Eh. apply (exit_of rid m m2 now r r'); congruence.
Qed.

(** The tables stay, or a reservation leaves them, or a call whose request
    passed the checks of slots and context enters them. *)
Inductive effect_of (c : config) (m' : Manager) : Prop :=
  | eo_calm : calm (c_m c) m' -> effect_of c m'
  | eo_exit rid : exits rid (c_m c) m' -> effect_of c m'
  | eo_enter (R : GoRange) w pr st active lease r : c_calls c !! w = Some (pr, st) -> entered pr active lease r (c_m c) m' ->
      targetActiveCount (tgt_ID (pr_target pr)) (c_m c) < pr_slots pr -> poolReason pr (c_m c) = ""%string -> effect_of c m'.

Lemma stage_effect `{Fingerprints} {R : GoRange} a c w pr st c' : c_calls c !! w = Some (pr, st) -> reserve_stage a w pr st c = Some c' ->
  effect_of c (c_m c') /\
  (forall w' pr' st', c_calls c' !! w' = Some (pr', st') -> exists st'', c_calls c !! w' = Some (pr', st'')).
Proof.
  intros Hw Hp.
  assert (forall m' next w' pr' st', c_calls (advance w pr m' next c) !! w' = Some (pr', st') ->
    exists st'', c_calls c !! w' = Some (pr', st'')) as Hadv.
  { intros m' next w' pr' st'. cbn. destruct next as [x|]; [|intros [_ ?]%lookup_delete_Some; eauto].
    intros [[<- [= <- <-]]|[_ ?]]%lookup_insert_Some; eauto. }
  assert (effect_of c (c_m c)) as Hsame by (apply eo_calm, (quiet_refl (c_m c))).
  destruct a, st; try discriminate Hp; cbn -[rollbackAcceleratorLease] in Hp.
  - destruct (reserveLocked pr (c_m c)) as [m' ph] eqn:E. apply reserve_cases in E.
    destruct ph as [reason|rid|]; injection Hp as <-; (split; [|by eapply Hadv]); cbn; [by subst| |by destruct E as [-> _]].
    destruct E as (_ & ? & ? & _ & lease & r & _ & He). by eapply eo_enter.
  - destruct (holdCompanionLeases _ _ _) as [[m' reason]|] eqn:E; [|done]. injection Hp as <-.
    split; [apply eo_calm; by eapply hold_quiet|by eapply Hadv].
  - destruct (acquireForTarget _ _ _) as [m' [ph lease]] eqn:E. apply acquire_quiet in E as [E _].
    destruct ph; injection Hp as <-; (split; [by apply eo_calm|by eapply Hadv]).
  - destruct (commitLocked pr lease (c_m c)) as [m' out] eqn:E. apply commit_cases in E.
    destruct out; injection Hp as <-; (split; [|by eapply Hadv]); cbn; [|by subst..].
    destruct E as (_ & ? & ? & _ & _ & r & He). by eapply eo_enter.
  - destruct (rollbackAcceleratorLease _ _ _ _ _ _) as [s' out]. injection Hp as <-.
    split; [apply eo_calm, (quiet_store (c_m c))|by eapply Hadv].
Qed.

Lemma perform_effect `{Fingerprints} {R : GoRange} a c c' : accounted c -> perform a c = Some c' ->
  effect_of c (c_m c') /\
  (forall w pr st, c_calls c' !! w = Some (pr, st) -> (exists st', c_calls c !! w = Some (pr, st')) \/ a = ABegin w pr).
Proof.
  intros Hac Hp. assert (effect_of c (c_m c)) as Hsame by (apply eo_calm, (quiet_refl (c_m c))).
  destruct a; cbn -[reserve_stage keepCompanionLeases retireTarget] in Hp;
    try (destruct (c_calls c !! w) as [[pr st]|] eqn:Hw; [|done]; destruct (stage_effect _ _ _ _ _ _ Hw Hp); split; [done|left; eauto]).
  - destruct (_ && _ && _) eqn:E; [|done]. injection Hp as <-. split; [done|]. cbn.
    intros w' pr' st' [[<- [= <- <-]]|[_ ?]]%lookup_insert_Some; [by right|left; eauto].
  - destruct (releaseElect now rid (c_m c)) as [m' out] eqn:E. apply elect_cases in E as (_ & _ & _ & E).
    destruct out; injection Hp as <-; (split; [|by left; eauto]); cbn; [apply eo_calm, E..|eapply eo_exit, E|apply eo_calm, E].
  - destruct (c_releases c !! rid) as [[lease terminal| | |]|]; try done.
    destruct (releaseDurable _ _ _ _ _ _) as [m' out] eqn:E. injection Hp as <-.
    split; [apply eo_calm; by eapply durable_quiet|by left; eauto].
  - destruct (c_releases c !! rid) as [[lease terminal| | |]|]; try done. injection Hp as <-.
    split; [apply eo_calm, failed_calm|by left; eauto].
  - destruct (c_releases c !! rid) as [[lease terminal| | |]|]; try done.
    destruct (finishReleased _ _ _) as [m' go] eqn:E. apply finish_cases in E as (_ & _ & _ & E). injection Hp as <-.
    split; [|by left; eauto]. destruct go; [by eapply eo_exit|]. destruct E as [-> _]. apply eo_calm, (quiet_refl (c_m c)).
  - destruct (c_releases c !! rid) as [[lease terminal| | |]|]; try done. injection Hp as <-.
    split; [apply eo_calm, forget_quiet|by left; eauto].
  - injection Hp as <-. split; [|by left; eauto]. cbn. unfold finishReleasedReservation.
    destruct (finishReleased _ _ _) as [m' go] eqn:E. apply finish_cases in E as (_ & _ & _ & E).
    destruct go; [|destruct E as [-> _]; apply eo_calm, (quiet_refl (c_m c))].
    eapply eo_exit, exits_quiet; [exact E|..]; unfold forgetReservation;
      (destruct (reservationHeap m' !! rid); [destruct (_ ==? _)|]; done).
  - injection Hp as <-. split; [apply eo_calm, keep_quiet|by left; eauto].
  - injection Hp as <-. split; [|by left; eauto]. apply eo_calm. apply retire_quiet, ac_balanced, Hac.
Qed.
