(* ===== verification/PlacementLease.v ===== *)
(** * Placements and durable leases

    When a placement is backed by a lease in the store.  The invariant
    [covered] follows every lease the controller has in hand (pointers of
    targets, leases of calls between acquisition and publication, companions,
    releases under way) through the interleavings of [PlacementInv], under
    three conditions on a run ([careful]): no placement is published beside a
    release of its accelerator, a target keeps its accelerator while it has
    work, and leases are renewed before they expire. *)

From S2P Require Import Prelude GoText Domain DomainWorkload DomainNode Store.
From S2P Require Import Leases WorkloadManager Admission Placement PlacementInv.

(** ** Leases in the store *)

(** The store's lease on the accelerator is this one, renewed or not. *)
Definition holds (s : MemoryStore) (l : AcceleratorLease) : Prop :=
  exists row, leases s !! lease_AcceleratorID l = Some row /\ lease_WorkloadID row = lease_WorkloadID l /\
    lease_FencingToken row = lease_FencingToken l.

Definition same_lease (a b : AcceleratorLease) : Prop :=
  lease_AcceleratorID a = lease_AcceleratorID b /\ lease_FencingToken a = lease_FencingToken b.

(** Tokens lie within the fences. *)
Definition tokens_ok (s : MemoryStore) : Prop := forall a, 0 <= fence s a /\
  forall row, leases s !! a = Some row -> lease_FencingToken row <= fence s a.

(** The counter of every accelerator has room for [n] more leases. *)
Definition room (n : nat) (s : MemoryStore) : Prop := forall a, fence s a + Z.of_nat n < MaxInt64.

(** Leases the store may not lose between [s] and [s']. *)
Definition keeps (s s' : MemoryStore) (l : AcceleratorLease) : Prop := holds s l -> holds s' l.

Definition fences_grow (s s' : MemoryStore) : Prop := forall a, fence s a <= fence s' a.

(** An ordinary acquisition, case by case. *)
Lemma plain_acquire {R : GoRange} now a w ttl s s' l ok : tokens_ok s -> room 1 s ->
  AcquireAcceleratorLease now a w ttl s = (s', (l, ok)) ->
  if ok then
    lease_AcceleratorID l = a /\ lease_WorkloadID l = w /\ lease_FencingToken l = fence s a + 1 /\
    leases s' = <[a := l]> (leases s) /\ (forall b, fence s' b = if decide (a = b) then fence s a + 1 else fence s b) /\
    (forall row, leases s !! a = Some row -> lease_ExpiresAt row <= now)
  else s' = s.
Proof.
  intros Ht Hr H. unfold AcquireAcceleratorLease in H. apply acquire_cases in H.
  assert (range_find (fun _ => recoveryMatch a w "") (llmCheckpointOps s) = None) as Hnone.
  { apply range_find_None. intros k op _. unfold recoveryMatch.
    rewrite (bool_decide_eq_true_2 (""%string = ""%string) eq_refl). cbn. by rewrite andb_false_r. }
  rewrite Hnone in H. destruct ok; [|by destruct H]. destruct H as ((_ & _ & Hexp) & -> & ->).
  change (fenceBase a None s) with (fence s a).
  rewrite wrap64_small by (specialize (Hr a); destruct (Ht a); lia).
  split_and!; [done..| |done]. intros b. by apply (fence_insert s).
Qed.

(** A change of the store that spares all leases outside [hit]. *)
Record spares (hit : AcceleratorLease -> Prop) (s s' : MemoryStore) : Prop := {
  sp_tokens : tokens_ok s -> tokens_ok s';
  sp_fences : fences_grow s s';
  sp_holds : forall l, holds s l -> ~ hit l -> holds s' l;
}.

Lemma spares_trans hit s1 s2 s3 : spares hit s1 s2 -> spares hit s2 s3 -> spares hit s1 s3.
Proof. intros [T1 F1 H1] [T2 F2 H2]. split; [eauto|intros a; specialize (F1 a); specialize (F2 a); lia|eauto]. Qed.

Lemma spares_weaken (hit hit' : AcceleratorLease -> Prop) s s' : (forall l, hit l -> hit' l) -> spares hit s s' -> spares hit' s s'.
Proof. intros Hw [T F H]. split; [done|done|]. intros l Hl Hn. apply H; [done|]. intros Hh. by apply Hn, Hw. Qed.

(** Rows only lost or renewed, fences as they were. *)
Lemma spares_rows (hit : AcceleratorLease -> Prop) s s' : leaseFences s' = leaseFences s ->
  (forall a row', leases s' !! a = Some row' -> exists row, leases s !! a = Some row /\ lease_FencingToken row' = lease_FencingToken row) ->
  (forall l, holds s l -> ~ hit l -> holds s' l) -> spares hit s s'.
Proof.
  intros Ef Hrows Hh. assert (forall a, fence s' a = fence s a) as Hf by (intros a; by apply fence_same).
  split; [|intros a; rewrite Hf; lia|done]. intros Ht a. rewrite Hf. destruct (Ht a) as [Hpos Hb]. split; [done|].
  intros row' Hr'. destruct (Hrows a row' Hr') as (row & Hr & ->). by apply Hb.
Qed.

Lemma spares_same hit s s' : leases s' = leases s -> leaseFences s' = leaseFences s -> spares hit s s'.
Proof.
  intros El Ef. apply spares_rows; [done|intros a row; rewrite El; eauto|].
  intros l (row & Hr & ?) _. exists row. by rewrite El.
Qed.

Lemma release_spares a w token s s' : ReleaseAcceleratorLease a w token s = Ok s' ->
  spares (fun l => lease_AcceleratorID l = a /\ lease_FencingToken l = token) s s'.
Proof.
  unfold ReleaseAcceleratorLease. destruct (leases s !! a) as [row|] eqn:Hrow; [|intros [= <-]; by apply spares_same].
  destruct (_ || _) eqn:E; [done|]. intros [= <-]. bool_simp. apply spares_rows; [done| |].
  - intros b r Hr. apply (lookup_delete_Some (leases s)) in Hr as [_ Hr]. eauto.
  - intros l (r & Hr & Hw & Htok) Hn. exists r. split; [|done]. refine (eq_trans (lookup_delete_ne (leases s) _ _ _) Hr).
    intros Heq. apply Hn. rewrite <- Heq in Hr. split; [done|]. congruence.
Qed.

Lemma releaseLease_spares l s : spares (same_lease l) s (releaseLease s l).
Proof.
  unfold releaseLease. destruct (ReleaseAcceleratorLease _ _ _ _) as [s'|] eqn:E; [|by apply spares_same].
  eapply spares_weaken; [|by eapply release_spares]. intros l' [? ?]. by split.
Qed.

Lemma renewLease_spares now ttl s l hit : spares hit s (renewLease now ttl s l).
Proof.
  unfold renewLease, RenewAcceleratorLease. destruct (leases s !! _) as [row|] eqn:Hrow; [|by apply spares_same].
  destruct (_ || _) eqn:E; [by apply spares_same|]. apply spares_rows; [done| |].
  - intros b r Hr. apply (lookup_insert_Some (leases s)) in Hr as [[<- <-]|[_ Hr]]; [exists row|]; eauto.
  - intros l' (r & Hr & Hw & Htok) _. destruct (decide (lease_AcceleratorID l = lease_AcceleratorID l')) as [Heq|Hne].
    + rewrite Heq in Hrow. exists (row <| lease_ExpiresAt := now + ttl |>).
      split; [rewrite Heq; apply (lookup_insert_eq (leases s))|]. cbn. split; congruence.
    + exists r. split; [|done]. exact (eq_trans (lookup_insert_ne (leases s) _ _ _ Hne) Hr).
Qed.

Lemma foldl_spares {A} (f : MemoryStore -> A -> MemoryStore) (hit : AcceleratorLease -> Prop) (xs : list A) s :
  (forall s x, x ∈ xs -> spares hit s (f s x)) -> spares hit s (foldl f s xs).
Proof.
  revert s. induction xs as [|x xs IH]; intros s H; cbn; [by apply spares_same|].
  eapply spares_trans; [apply H; left|apply IH; intros; apply H; by right].
Qed.

(** A rollback hits no other lease, and does not fail on a lease it holds
    unless the store cannot be reached. *)
Lemma rollback_spares clock now ft l owner retain advanced terminal s s' out :
  rollbackAcceleratorLeaseWithIntentMode clock now ft (Some l) owner retain advanced terminal s = (s', out) ->
  spares (same_lease l) s s' /\
  (owner = lease_WorkloadID l -> holds s l -> out <> CleanedUp -> leases s' = leases s /\ leaseFences s' = leaseFences s).
Proof.
  assert (forall hit i s s' o, recordIntent now ft i s = (s', o) -> spares hit s s' /\ leases s' = leases s /\ leaseFences s' = leaseFences s) as Hrec.
  { intros hit i t t' o. unfold recordIntent. destruct (f_record ft); [intros [= <- _]; by split; [apply spares_same|]|].
    destruct (RecordAcceleratorLeaseCleanupIntent _ _ _) as [[t2 r]|] eqn:E; intros [= <- _]; [|by split; [apply spares_same|]].
    assert (leases t2 = leases t /\ leaseFences t2 = leaseFences t) as [El Ef].
    { unfold RecordAcceleratorLeaseCleanupIntent in E. repeat (branch E); by injection E as <- _. }
    split; [by apply spares_same|done]. }
  cbn. unfold releaseOrVerify. destruct (f_release ft) as [text|].
  { destruct terminal; intros H; destruct (Hrec (same_lease l) _ _ _ _ H) as (Hs & ? & ?); by split. }
  assert (forall s, spares (same_lease l) s (if retain then s else forgetIntent ft l owner terminal s)) as Hforget.
  { intros t. destruct retain; [by apply spares_same|]. unfold forgetIntent, deleteLeaseCleanupIntent.
    destruct (f_delete ft), terminal; try destruct (_ !=? _); by apply spares_same. }
  destruct (ReleaseAcceleratorLease _ _ _ _) as [s1|e] eqn:E.
  { intros [= <- <-]. split; [|done]. eapply spares_trans; [|apply Hforget]. eapply spares_weaken; [|by eapply release_spares].
    intros l' [? ?]. by split. }
  assert (owner = lease_WorkloadID l -> ~ holds s l) as Hno.
  { intros -> (row & Hrow & Hw & Htok). unfold ReleaseAcceleratorLease in E. rewrite Hrow, Hw, Htok in E.
    by rewrite (bool_decide_eq_true_2 _ eq_refl), Z.eqb_refl in E. }
  destruct (f_get ft) as [text|]; [|destruct (GetAcceleratorLease _ _) as [row|];
    [destruct (clock <? _); [|intros [= <- <-]; by split; [apply Hforget|]]|intros [= <- <-]; by split; [apply Hforget|]]].
  all: intros H; split; [destruct terminal; by eapply Hrec|intros Ho Hh; by destruct (Hno Ho Hh)].
Qed.

Definition unexpired (now : Time) (s : MemoryStore) (l : AcceleratorLease) : Prop :=
  forall row, leases s !! lease_AcceleratorID l = Some row -> now < lease_ExpiresAt row.

(** An acquisition takes no lease that has not expired. *)
Lemma acquire_spares {R : GoRange} now a w ttl s s' l ok : tokens_ok s -> room 1 s ->
  AcquireAcceleratorLease now a w ttl s = (s', (l, ok)) ->
  spares (fun l0 => ~ unexpired now s l0) s s' /\ (forall l0, holds s l0 -> unexpired now s l0 -> unexpired now s' l0) /\
  (forall n, room (S n) s -> room n s') /\
  (ok = true -> fence s a < lease_FencingToken l <= fence s' a).
Proof.
  intros Ht Hr H. pose proof (plain_acquire _ _ _ _ _ _ _ _ Ht Hr H) as Hc. destruct ok.
  2: { subst. split_and!; [by apply spares_same|done| |done]. intros n Hn b. specialize (Hn b). lia. }
  destruct Hc as (Ha & Hw & Htok & El & Ef & Hexp).
  assert (forall l0, holds s l0 -> unexpired now s l0 -> a <> lease_AcceleratorID l0) as Hne.
  { intros l0 (row & Hrow & _) Hu ->. specialize (Hexp row Hrow). specialize (Hu row Hrow). lia. }
  split_and!.
  - split.
    + intros _ b. rewrite Ef, El. destruct (Ht b) as [Hpos Hb]. destruct (decide (a = b)) as [<-|Hab].
      * rewrite lookup_insert_eq. split; [lia|]. intros row [= <-]. lia.
      * rewrite lookup_insert_ne by done. done.
    + intros b. rewrite Ef. destruct (decide (a = b)) as [<-|]; lia.
    + intros l0 Hh Hu. destruct (decide (a = lease_AcceleratorID l0)) as [Heq|Hab];
        [destruct Hu; intros Hun; by destruct (Hne l0 Hh Hun)|].
      destruct Hh as (row & Hrow & ?). exists row. rewrite El. by rewrite lookup_insert_ne.
  - intros l0 Hh Hu row. rewrite El, lookup_insert_ne by by apply Hne. apply Hu.
  - intros n Hn b. specialize (Hn b). rewrite Ef. destruct (decide (a = b)) as [<-|]; lia.
  - intros _. rewrite Ef, decide_True by done. lia.
Qed.

(** Leases acquired as companions carry tokens above the old fences. *)
Definition fresh_above (f0 : string -> Z) (s : MemoryStore) (l : AcceleratorLease) : Prop :=
  f0 (lease_AcceleratorID l) < lease_FencingToken l <= fence s (lease_AcceleratorID l).

Lemma give_back_spares (f0 : string -> Z) ls s : (forall l, l ∈ ls -> fresh_above f0 s l) ->
  spares (fun l => f0 (lease_AcceleratorID l) < lease_FencingToken l) s (foldl releaseLease s ls).
Proof.
  intros Hls. assert (forall l, l ∈ ls -> f0 (lease_AcceleratorID l) < lease_FencingToken l) as Hf
    by (intros l Hl; by apply (Hls l)).
  apply foldl_spares. intros t l Hl. eapply spares_weaken; [|apply releaseLease_spares].
  intros l' [<- <-]. by apply Hf.
Qed.

Lemma companions_spare {R : GoRange} (f0 : string -> Z) now owner ttl ids : forall acquired s s' out,
  tokens_ok s -> room (length ids) s -> (forall a, f0 a <= fence s a) -> (forall l, l ∈ acquired -> fresh_above f0 s l) ->
  acquireCompanions now owner ttl ids acquired s = (s', out) ->
  tokens_ok s' /\ fences_grow s s' /\
  (forall l, holds s l -> unexpired now s l -> lease_FencingToken l <= f0 (lease_AcceleratorID l) -> holds s' l) /\
  (forall got, out = inr got -> forall l, l ∈ got -> fresh_above f0 s' l).
Proof.
  induction ids as [|id ids IH]; intros acquired s s' out Ht Hroom Hf Hacq; cbn.
  { intros [= <- <-]. split_and!; [done|intros a; lia|done|by intros got [= <-]]. }
  destruct (AcquireAcceleratorLease now id owner ttl s) as [s1 [l ok]] eqn:E.
  assert (room 1 s) as Hr1 by (intros a; specialize (Hroom a); cbn in Hroom; lia).
  pose proof (plain_acquire _ _ _ _ _ _ _ _ Ht Hr1 E) as Hc.
  destruct (acquire_spares _ _ _ _ _ _ _ _ Ht Hr1 E) as ([Ht1 Hg1 Hh1] & Hu1 & Hroom1 & Hfr1). destruct ok.
  - destruct Hc as (Ha & _). intros H. apply IH in H as (Ht' & Hg' & Hh' & Hgot).
    + split_and!; [done|intros a; specialize (Hg1 a); specialize (Hg' a); lia| |done].
      intros l0 Hl0 Hun Htok. apply Hh'; [apply Hh1; [done|by intros Hn; apply Hn]|by apply Hu1|done].
    + by apply Ht1.
    + by apply Hroom1.
    + intros a. specialize (Hf a). specialize (Hg1 a). lia.
    + intros l0 [Hl0| ->%list_elem_of_singleton]%elem_of_app; unfold fresh_above.
      * destruct (Hacq l0 Hl0). specialize (Hg1 (lease_AcceleratorID l0)). lia.
      * rewrite Ha. specialize (Hfr1 eq_refl). specialize (Hf id). lia.
  - subst s1. intros [= <- <-]. destruct (give_back_spares f0 acquired s Hacq) as [Ht2 Hg2 Hh2].
    split_and!; [by apply Ht2|done| |done]. intros l0 Hl0 _ Htok. apply Hh2; [done|lia].
Qed.

(** ** The leases in hand *)

Inductive origin :=
  | OPointer (t : string)
  | OCall (w : string)
  | OCompanion (t : string)
  | ODurable (rid : nat).

Definition call_lease (st : stage) : option AcceleratorLease :=
  match st with SCommit l | SRollback l _ => Some l | _ => None end.

Definition site (c : config) (o : origin) (l : AcceleratorLease) : Prop :=
  match o with
  | OPointer t => targetLeases (c_m c) !! t = Some l
  | OCall w => exists pr st, c_calls c !! w = Some (pr, st) /\ call_lease st = Some l
  | OCompanion t => exists h, companions (c_m c) !! t = Some h /\ l ∈ ch_leases h
  | ODurable rid => exists terminal, c_releases c !! rid = Some (RDurable l terminal)
  end.

(** An unreleased reservation. *)
Definition open_at (m : Manager) (rid : nat) (r : targetReservation) : Prop :=
  reservationHeap m !! rid = Some r /\ tr_released r = false.

(** Its durable release is under way, or done and not yet in the tables. *)
Definition in_release (c : config) (rid : nat) (r : targetReservation) : Prop :=
  open_at (c_m c) rid r /\ (c_releases c !! rid = Some RFinish \/ exists l terminal, c_releases c !! rid = Some (RDurable l terminal)).
Definition finishing (c : config) (t : string) : Prop :=
  exists rid r, c_releases c !! rid = Some RFinish /\ open_at (c_m c) rid r /\ tr_targetID r = t.

(** One lease may be in hand twice only through the pointers of the targets
    that share it and the release of its last user. *)
Definition shares (c : config) (o1 o2 : origin) : Prop :=
  match o1, o2 with
  | OPointer _, OPointer _ => True
  | OPointer t, ODurable rid | ODurable rid, OPointer t => exists r, open_at (c_m c) rid r /\ tr_targetID r = t
  | _, _ => o1 = o2
  end.

Lemma shares_sym c o1 o2 : shares c o1 o2 -> shares c o2 o1.
Proof. destruct o1, o2; cbn; done. Qed.
Lemma shares_refl c o : shares c o o.
Proof. by destruct o. Qed.

Record covered (c : config) : Prop := {
  cv_tokens : tokens_ok (mgr_store (c_m c));
  cv_fence : forall o l, site c o l -> lease_FencingToken l <= fence (mgr_store (c_m c)) (lease_AcceleratorID l);
  cv_apart : forall o1 o2 l1 l2, site c o1 l1 -> site c o2 l2 -> same_lease l1 l2 -> shares c o1 o2;
  cv_pointer : forall t l, targetLeases (c_m c) !! t = Some l -> finishing c t \/ holds (mgr_store (c_m c)) l;
  cv_commit : forall w pr l, c_calls c !! w = Some (pr, SCommit l) ->
    lease_AcceleratorID l = pr_leaseID pr /\ holds (mgr_store (c_m c)) l;
  cv_seat : forall w p, activePlacements (c_m c) !! w = Some p ->
    exists l, targetLeases (c_m c) !! pl_targetID p = Some l /\ lease_AcceleratorID l = pl_acceleratorID p;
  cv_reservation : forall rid r, open_at (c_m c) rid r ->
    exists l, tr_lease r = Some l /\ targetLeases (c_m c) !! tr_targetID r = Some l;
  cv_alone : forall rid r, in_release c rid r -> forall w p, activePlacements (c_m c) !! w = Some p ->
    pl_targetID p = tr_targetID r -> w = tr_workloadID r;
  cv_durable : forall rid l terminal, c_releases c !! rid = Some (RDurable l terminal) ->
    exists r, reservationHeap (c_m c) !! rid = Some r /\ tr_lease r = Some l;
}.

(** ** A careful run *)

Definition relied (c : config) (l : AcceleratorLease) : Prop :=
  (exists t, targetLeases (c_m c) !! t = Some l) \/ (exists w pr, c_calls c !! w = Some (pr, SCommit l)).

(** The leases the controller relies on are renewed before they expire. *)
Definition timely (now : Time) (c : config) : Prop :=
  forall l, relied c l -> holds (mgr_store (c_m c)) l -> unexpired now (mgr_store (c_m c)) l.

Definition careful_action (c : config) (a : action) : Prop :=
  match a with
  | AReserve w => forall pr st, c_calls c !! w = Some (pr, st) ->
      (forall rid r l, in_release c rid r -> tr_lease r = Some l -> lease_AcceleratorID l <> pr_leaseID pr) /\
      (forall l, targetLeases (c_m c) !! tgt_ID (pr_target pr) = Some l -> lease_AcceleratorID l = pr_leaseID pr)
  | AHold w now => timely now c /\ forall pr st, c_calls c !! w = Some (pr, st) ->
      room (length (targetAccelerators (pr_target pr))) (mgr_store (c_m c))
  | AAcquire w now => timely now c /\ room 1 (mgr_store (c_m c))
  | _ => True
  end.

Definition careful : discipline := {|
  d_action := careful_action;
  d_rest c m' := tokens_ok (mgr_store m') /\ fences_grow (mgr_store (c_m c)) (mgr_store m') /\
    companions m' = companions (c_m c) /\
    forall l, relied c l -> keeps (mgr_store (c_m c)) (mgr_store m') l;
|}.

(** ** Preservation *)

Lemma calm_open m m' rid r' : calm m m' -> open_at m' rid r' -> exists r, open_at m rid r /\ same_reservation r r'.
Proof.
  intros [_ _ _ _ Hh] [Hr Hrel]. specialize (Hh rid). rewrite Hr in Hh. inversion Hh as [r ? Hs|]; subst.
  exists r. split; [|done]. split; [done|]. destruct Hs as (_ & _ & _ & E). congruence.
Qed.
Lemma calm_open_fwd m m' rid r : calm m m' -> open_at m rid r -> exists r', open_at m' rid r' /\ same_reservation r r'.
Proof.
  intros [_ _ _ _ Hh] [Hr Hrel]. specialize (Hh rid). rewrite Hr in Hh. inversion Hh as [? r' Hs|]; subst.
  exists r'. split; [|done]. split; [done|]. destruct Hs as (_ & _ & _ & E). congruence.
Qed.

(** A step that leaves the tables alone: leases in hand are old ones, or new
    ones of one origin with tokens above the old fences. *)
Lemma covered_calm c c' o0 : covered c -> calm (c_m c) (c_m c') ->
  tokens_ok (mgr_store (c_m c')) -> fences_grow (mgr_store (c_m c)) (mgr_store (c_m c')) ->
  (forall o l, site c' o l -> site c o l \/ (o = o0 /\ fresh_above (fence (mgr_store (c_m c))) (mgr_store (c_m c')) l)) ->
  (forall t l, targetLeases (c_m c) !! t = Some l -> finishing c' t \/ holds (mgr_store (c_m c')) l) ->
  (forall w pr l, c_calls c' !! w = Some (pr, SCommit l) ->
     lease_AcceleratorID l = pr_leaseID pr /\ holds (mgr_store (c_m c')) l) ->
  (forall rid r', in_release c' rid r' -> exists r, in_release c rid r /\ same_reservation r r') ->
  (forall rid l terminal, c_releases c' !! rid = Some (RDurable l terminal) -> c_releases c !! rid = Some (RDurable l terminal)) ->
  covered c'.
Proof.
  intros [Ct Cf Ca Cp Cc Cs Cr Cal Cd] Hcalm Ht Hg Hsite Hptr Hcommit Hrel Hdur. pose proof Hcalm as [_ El _ Hseats Hheap].
  assert (forall o l, site c' o l -> site c o l -> lease_FencingToken l <= fence (mgr_store (c_m c)) (lease_AcceleratorID l)) as Hold
    by (intros o l _ Hs; by apply (Cf o)).
  split; [done|..].
  - intros o l Hs. destruct (Hsite o l Hs) as [Ho|[_ [_ Hf]]]; [|done]. apply Cf in Ho. specialize (Hg (lease_AcceleratorID l)). lia.
  - intros o1 o2 l1 l2 H1 H2 [Ea Et]. destruct (Hsite o1 l1 H1) as [S1|[-> [F1 _]]], (Hsite o2 l2 H2) as [S2|[-> [F2 _]]].
    + pose proof (Ca _ _ _ _ S1 S2 (conj Ea Et)) as Hsh.
      assert (forall rid t, (exists r, open_at (c_m c) rid r /\ tr_targetID r = t) -> exists r, open_at (c_m c') rid r /\ tr_targetID r = t) as Hfwd.
      { intros rid t (r & Hr & Htg). destruct (calm_open_fwd _ _ _ _ Hcalm Hr) as (r' & Hr' & _ & E & _). exists r'. split; [done|congruence]. }
      destruct o1, o2; cbn in *; by try apply Hfwd.
    + pose proof (Cf _ _ S1). rewrite Ea, Et in *. lia.
    + pose proof (Cf _ _ S2). rewrite Ea, Et in *. lia.
    + apply shares_refl.
  - intros t l. rewrite El. apply Hptr.
  - done.
  - intros w p' Hw. destruct (same_seats_lookup _ _ _ _ (symmetry Hseats) Hw) as (p & Hp & _ & Etg & Eacc & _).
    rewrite El, Etg, Eacc. by eapply Cs.
  - intros rid r' Hr'. destruct (calm_open _ _ _ _ Hcalm Hr') as (r & Hr & E1 & E2 & E3 & _). rewrite El, <- E2, <- E3. by apply (Cr rid).
  - intros rid r' Hr' w p' Hw Htg. destruct (Hrel rid r' Hr') as (r & Hr & E1 & E2 & _).
    destruct (same_seats_lookup _ _ _ _ (symmetry Hseats) Hw) as (p & Hp & _ & Etg & _). rewrite <- E1. eapply (Cal rid r Hr w p Hp). congruence.
  - intros rid l terminal Hl. destruct (Cd rid l terminal (Hdur _ _ _ Hl)) as (r & Hr & Hlease).
    specialize (Hheap rid). rewrite Hr in Hheap. inversion Hheap as [? r' (_ & _ & E3 & _)|]; subst. exists r'. split; [done|congruence].
Qed.

(** What is open and in hand after a publication. *)
Lemma entered_open c pr active l r m' : accounted c -> entered pr active l r (c_m c) m' ->
  (forall rid x, c_releases c !! rid = Some x -> nextReservation (c_m c) <> rid) /\
  (forall rid q, open_at m' rid q -> (rid = nextReservation (c_m c) /\ q = r) \/ open_at (c_m c) rid q) /\
  (forall rid q, open_at (c_m c) rid q -> open_at m' rid q).
Proof.
  intros [_ Hlg _ Hclaim] He. pose proof (en_heap _ _ _ _ _ _ He) as Eh. split_and!.
  - intros rid x Hx <-. destruct (reservationHeap (c_m c) !! nextReservation (c_m c)) as [q|] eqn:Hq.
    + apply (lg_fresh _ Hlg) in Hq. lia.
    + destruct (Hclaim _ _ Hx) as [Hc|Hc]; unfold closed, inFlight in Hc; by rewrite Hq in Hc.
  - intros rid q [Hq Hrel]. rewrite Eh in Hq. apply lookup_insert_Some in Hq as [[<- <-]|[_ Hq]]; [by left|by right].
  - intros rid q [Hq Hrel]. split; [|done]. rewrite Eh, lookup_insert_ne; [done|]. intros <-. apply (lg_fresh _ Hlg) in Hq. lia.
Qed.

Lemma entered_sites c w pr active l r m' : entered pr active l r (c_m c) m' -> forall o l',
  site (advance w pr m' None c) o l' -> (o = OPointer (tgt_ID (pr_target pr)) /\ l' = l) \/ (o <> OCall w /\ site c o l').
Proof.
  intros [_ El _ _ _ _ Ec _ _] [t|w'|t|rid] l'; cbn; rewrite ?El, ?Ec; try (right; by split).
  - intros [[<- <-]|[_ Hl]]%lookup_insert_Some; [by left|by right].
  - intros (pr' & st' & [Hne Hw']%lookup_delete_Some & Hl). right. split; [congruence|eauto].
Qed.

(** A publication under a lease that is held. *)
Lemma covered_enter c w pr st active l r m' : covered c -> accounted c -> c_calls c !! w = Some (pr, st) ->
  entered pr active l r (c_m c) m' ->
  lease_AcceleratorID l = pr_leaseID pr -> holds (mgr_store (c_m c)) l ->
  lease_FencingToken l <= fence (mgr_store (c_m c)) (lease_AcceleratorID l) ->
  (forall o l', site c o l' -> o <> OCall w -> same_lease l l' -> exists t, o = OPointer t) ->
  (targetLeases (c_m c) !! tgt_ID (pr_target pr) = None \/ targetLeases (c_m c) !! tgt_ID (pr_target pr) = Some l) ->
  (forall rid q, in_release c rid q -> tr_targetID q <> tgt_ID (pr_target pr)) ->
  covered (advance w pr m' None c).
Proof.
  intros [Ct Cf Ca Cp Cc Cs Cr Cal Cd] Hac Hw He Hacc Hh Htok Hapart Hfree Hno.
  pose proof He as [Ea El Ep Eh En Es Ec (R1 & R2 & R3 & R4) _]. destruct (ac_calls _ Hac w pr st Hw) as [(Hpw & Hpt & Hpa) Hnone].
  destruct (entered_open _ _ _ _ _ _ Hac He) as (Hrid & Hopen & Hfwd).
  pose proof (entered_sites _ w _ _ _ _ _ He) as Hsite.
  assert (forall t l', targetLeases (c_m c) !! t = Some l' -> targetLeases m' !! t = Some l') as Hptr.
  { intros t l' Hl. rewrite El. destruct (decide (tgt_ID (pr_target pr) = t)) as [<-|Hne]; [|by rewrite lookup_insert_ne].
    rewrite lookup_insert_eq. destruct Hfree; congruence. }
  assert (forall rid q, in_release (advance w pr m' None c) rid q -> in_release c rid q) as Hrel.
  { intros rid q [Ho Hst]. split; [|exact Hst]. destruct (Hopen rid q Ho) as [[-> _]|Ho']; [|done].
    cbn in Hst. destruct Hst as [Hx|(? & ? & Hx)]; by apply Hrid in Hx. }
  split; cbn.
  - by rewrite Es.
  - rewrite Es. intros o l' Hs. destruct (Hsite o l' Hs) as [[_ ->]|[_ Hs']]; [done|by eapply Cf].
  - assert (forall o l', site c o l' -> o <> OCall w -> same_lease l l' ->
      shares (advance w pr m' None c) (OPointer (tgt_ID (pr_target pr))) o) as Hnew.
    { intros o l' Hs Hne Hsl. destruct (Hapart o l' Hs Hne Hsl) as [t ->]. done. }
    intros o1 o2 l1 l2 H1 H2 Hsl. destruct (Hsite o1 l1 H1) as [[-> ->]|[N1 S1]], (Hsite o2 l2 H2) as [[-> ->]|[N2 S2]].
    + done.
    + by eapply Hnew.
    + apply shares_sym. eapply Hnew; [done..|]. destruct Hsl. by split.
    + pose proof (Ca _ _ _ _ S1 S2 Hsl) as Hsh.
      destruct o1, o2; cbn in *; try done; destruct Hsh as (q & Hq & ?); exists q; auto.
  - intros t l'. rewrite El, Es. intros [[<- <-]|[_ Hl]]%lookup_insert_Some; [by right|].
    destruct (Cp t l' Hl) as [(rid & q & Hst & Hq & Hq')|]; [left|by right]. exists rid, q. auto.
  - intros w' pr' l' [_ Hw']%lookup_delete_Some. rewrite Es. by eapply Cc.
  - intros w' p' Hp'. destruct (same_seats_lookup _ _ _ _ (symmetry Ep) Hp') as (q & Hq & _ & Eqt & Eqa & _). rewrite Eqt, Eqa.
    apply lookup_insert_Some in Hq as [[<- <-]|[_ Hq]].
    + exists l. rewrite El, Hpt, lookup_insert_eq. split; [done|congruence].
    + destruct (Cs w' q Hq) as (l' & Hl' & ?). exists l'. auto.
  - intros rid q Hq. destruct (Hopen rid q Hq) as [[-> ->]|Hq'].
    + exists l. rewrite R3, R2, El. cbn. split; [done|apply lookup_insert_eq].
    + destruct (Cr rid q Hq') as (l' & ? & ?). exists l'. auto.
  - intros rid q Hq w' p' Hp' Htg. apply Hrel in Hq.
    destruct (same_seats_lookup _ _ _ _ (symmetry Ep) Hp') as (p & Hp & _ & Eqt & _).
    apply lookup_insert_Some in Hp as [[<- <-]|[_ Hp]]; [|eapply (Cal rid q Hq w' p Hp); congruence].
    exfalso. apply (Hno rid q Hq). congruence.
  - intros rid l' tm Hl. destruct (Cd rid l' tm Hl) as (q & Hq & ?). exists q. split; [|done].
    rewrite Eh, lookup_insert_ne; [done|by eapply Hrid].
Qed.

Lemma seats_elem t pm : 0 < count t pm -> exists w p, pm !! w = Some p /\ pl_targetID p = t.
Proof.
  unfold count. intros Hc. destruct (map_choose (seats t pm)) as (w & p & Hp).
  { intros He. rewrite He, map_size_empty in Hc. lia. }
  apply map_lookup_filter_Some in Hp as [Hp Ht]. eauto.
Qed.

Lemma removePlacement_leases now w t m : targetLeases (removePlacement now w t m) =
  if 1 <? targetActiveCount t m then targetLeases m else delete t (targetLeases m).
Proof. unfold removePlacement, leaveTarget. change (targetActiveCount t _) with (targetActiveCount t m). by destruct (1 <? _). Qed.

(** What an exit leaves of the pointers. *)
Lemma exit_pointers c rid m' r : accounted c -> covered c -> open_at (c_m c) rid r -> exits rid (c_m c) m' ->
  (forall t l, targetLeases m' !! t = Some l -> targetLeases (c_m c) !! t = Some l) /\
  (forall t l, targetLeases (c_m c) !! t = Some l -> (t = tr_targetID r ->
     exists w p, w <> tr_workloadID r /\ activePlacements (c_m c) !! w = Some p /\ pl_targetID p = t) ->
     targetLeases m' !! t = Some l) /\
  ((forall w p, activePlacements (c_m c) !! w = Some p -> pl_targetID p = tr_targetID r -> w = tr_workloadID r) ->
     targetLeases m' !! tr_targetID r = None).
Proof.
  intros Hac Hcv [Hr Hrel] [now r0 r' Hr0 _ _ _ _ _ Hl _]. assert (r0 = r) as -> by congruence.
  destruct (lg_live _ (ac_ledger _ Hac) rid r Hr Hrel) as (p & Hp & Ht).
  rewrite Hl, removePlacement_leases, (balanced_count _ _ (ac_balanced _ Hac)).
  pose proof (seats_delete (tr_targetID r) _ _ _ Hp) as Hd. rewrite decide_True in Hd by done.
  split_and!.
  - intros t l. destruct (1 <? _); [done|]. by intros [_ ?]%lookup_delete_Some.
  - intros t l Htl Hmore. destruct (1 <? _) eqn:E; [done|]. rewrite lookup_delete_ne; [done|]. intros Heq.
    destruct (Hmore (symmetry Heq)) as (w & q & Hne & Hq & Hqt). bool_simp.
    assert (0 < count (tr_targetID r) (delete (tr_workloadID r) (activePlacements (c_m c)))) as Hpos; [|lia].
    eapply (seats_pos _ w q); [by rewrite lookup_delete_ne|congruence].
  - intros Hsole. destruct (1 <? _) eqn:E; [|apply lookup_delete_eq]. bool_simp.
    destruct (seats_elem (tr_targetID r) (delete (tr_workloadID r) (activePlacements (c_m c)))) as (w & q & Hq & Hqt); [lia|].
    apply lookup_delete_Some in Hq as [Hne Hq]. by destruct Hne; symmetry; eapply Hsole.
Qed.

Lemma exit_open c rid m' r : open_at (c_m c) rid r -> exits rid (c_m c) m' ->
  (forall i q, open_at m' i q -> i <> rid /\ open_at (c_m c) i q) /\
  (forall i q, i <> rid -> open_at (c_m c) i q -> open_at m' i q) /\
  (forall w p, activePlacements m' !! w = Some p -> w <> tr_workloadID r /\ activePlacements (c_m c) !! w = Some p).
Proof.
  intros [Hr Hrel] [now r0 r' Hr0 _ (_ & _ & _ & E4) Hh _ _ _ Hp]. assert (r0 = r) as -> by congruence. cbn in E4. split_and!.
  - intros i q [Hq Hqr]. rewrite Hh in Hq. apply lookup_insert_Some in Hq as [[<- <-]|[Hne Hq]]; [congruence|by split].
  - intros i q Hne [Hq Hqr]. split; [|done]. by rewrite Hh, lookup_insert_ne.
  - intros w p. rewrite Hp. intros [Hne ?]%lookup_delete_Some. by split.
Qed.

Lemma covered_exit c rid m' rels : accounted c -> covered c -> exits rid (c_m c) m' ->
  mgr_store m' = mgr_store (c_m c) -> companions m' = companions (c_m c) ->
  (forall i x, rels !! i = Some x -> c_releases c !! i = Some x \/ x = RForget) ->
  (forall i x, i <> rid -> c_releases c !! i = Some x -> rels !! i = Some x) ->
  covered (mkConfig m' (c_calls c) rels).
Proof.
  intros Hac Hcv Hx Es Ec Hback Hforth. pose proof Hcv as [Ct Cf Ca Cp Cc Cs Cr Cal Cd].
  pose proof Hx as [now r r' Hr Hrel (E1 & E2 & E3 & E4) Hh _ _ _ Hp]. cbn in E1, E2, E3, E4.
  assert (open_at (c_m c) rid r) as Ho by done.
  destruct (exit_pointers c rid m' r Hac Hcv Ho Hx) as (Hsub & Hstay & Hgone).
  destruct (exit_open c rid m' r Ho Hx) as (Hopen & Hfwd & Hpl).
  assert (forall i q, in_release (mkConfig m' (c_calls c) rels) i q -> in_release c i q) as Hrels.
  { intros i q [Hq Hst]. cbn in *. split; [by apply Hopen|].
    destruct Hst as [Hst|(l & tm & Hst)]; destruct (Hback _ _ Hst) as [?|?]; eauto; done. }
  assert (forall o l, site (mkConfig m' (c_calls c) rels) o l -> site c o l) as Hsite.
  { intros [t|w|t|i] l; cbn; [apply Hsub|done|by rewrite Ec|].
    intros (tm & Htm). destruct (Hback _ _ Htm) as [?|?]; [eauto|done]. }
  split; cbn -[fence]; rewrite ?Es.
  - done.
  - intros o l Hs. by apply (Cf o), Hsite.
  - intros o1 o2 l1 l2 H1 H2 Hsl. pose proof (Ca _ _ _ _ (Hsite _ _ H1) (Hsite _ _ H2) Hsl) as Hsh.
    assert (forall t i l tm, targetLeases m' !! t = Some l -> rels !! i = Some (RDurable l1 tm) \/ rels !! i = Some (RDurable l2 tm) ->
      (exists q, open_at (c_m c) i q /\ tr_targetID q = t) -> exists q, open_at m' i q /\ tr_targetID q = t) as Hkeep.
    { intros t i l tm Htl Hst (q & Hq & Hqt). exists q. split; [|done]. apply Hfwd; [|done]. intros ->.
      assert (q = r) as -> by (destruct Hq; congruence). rewrite <- Hqt, Hgone in Htl; [done|].
      eapply (Cal rid r). split; [done|]. right. destruct Hst as [Hst|Hst]; destruct (Hback _ _ Hst) as [?|?]; eauto; done. }
    destruct o1, o2; cbn in *; try done; [destruct H2 as [tm H2]|destruct H1 as [tm H1]]; eapply Hkeep; eauto.
  - intros t l Htl. destruct (Cp t l (Hsub _ _ Htl)) as [(i & q & Hst & Hq & Hqt)|]; [left|by right].
    destruct (decide (i = rid)) as [->|Hne]; [|exists i, q; cbn; auto].
    assert (q = r) as -> by (destruct Hq; congruence). rewrite <- Hqt, Hgone in Htl; [done|].
    eapply (Cal rid r). split; [done|by left].
  - done.
  - intros w p Hw. destruct (Hpl w p Hw) as [Hne Hw']. destruct (Cs w p Hw') as (l & Hl & ?). exists l. split; [|done]. apply Hstay; eauto.
  - intros i q Hq. destruct (Hopen i q Hq) as [Hne Hq']. destruct (Cr i q Hq') as (l & ? & Hl). exists l. split; [done|].
    apply Hstay; [done|]. intros Heq. destruct Hq' as [Hq1 Hq2]. destruct (lg_live _ (ac_ledger _ Hac) i q Hq1 Hq2) as (p & Hpq & Hpt).
    exists (tr_workloadID q), p. split_and!; [|done|done]. intros Hww. apply Hne. by eapply (lg_unique _ (ac_ledger _ Hac) i rid q r).
  - intros i q Hq w p Hw Hpt. destruct (Hpl w p Hw) as [_ Hw']. eapply (Cal i q); [by apply Hrels|done..].
  - intros i l tm Htm. destruct (Hback _ _ Htm) as [Htm'|?]; [|done]. destruct (Cd i l tm Htm') as (q & Hq & Hlq). rewrite Hh.
    destruct (decide (rid = i)) as [<-|Hne]; [|exists q; by rewrite lookup_insert_ne].
    exists r'. rewrite lookup_insert_eq. split; [done|congruence].
Qed.

(** Quiet steps of the manager with nothing new in hand. *)
Lemma covered_quiet c m' : covered c -> calm (c_m c) m' -> mgr_store m' = mgr_store (c_m c) -> companions m' = companions (c_m c) ->
  covered (c <| c_m := m' |>).
Proof.
  intros Hcv Hcalm Es Ec. pose proof Hcalm as [_ El _ _ _].
  assert (forall rid r', in_release (c <| c_m := m' |>) rid r' -> exists r, in_release c rid r /\ same_reservation r r') as Hrel.
  { intros rid r' [Ho Hst]. destruct (calm_open _ _ _ _ Hcalm Ho) as (r & Hr & Hs). exists r. split; [by split|done]. }
  eapply (covered_calm c _ (OPointer "") Hcv); cbn -[fence]; rewrite ?Es.
  - exact Hcalm.
  - by apply cv_tokens.
  - intros a. reflexivity.
  - intros o l Hs. left. destruct o; cbn in *; by rewrite ?El, ?Ec in *.
  - intros t l Hl. destruct (cv_pointer _ Hcv t l Hl) as [(rid & r & Hst & Hr & Ht)|]; [left|by right].
    destruct (calm_open_fwd _ _ _ _ Hcalm Hr) as (r' & Hr' & _ & E2 & _). exists rid, r'. split; [done|]. split; [done|congruence].
  - apply (cv_commit _ Hcv).
  - exact Hrel.
  - done.
Qed.

(** All pointers on the accelerator of a last user are its own. *)
Lemma last_user_alone c rid r l : covered c -> balanced (c_m c) -> ledger (c_m c) -> open_at (c_m c) rid r -> tr_lease r = Some l ->
  stillActive r (lease_AcceleratorID l) (c_m c) = false ->
  (forall w p, activePlacements (c_m c) !! w = Some p -> pl_acceleratorID p = lease_AcceleratorID l -> w = tr_workloadID r) /\
  (forall t l', targetLeases (c_m c) !! t = Some l' -> lease_AcceleratorID l' = lease_AcceleratorID l -> t = tr_targetID r).
Proof.
  intros Hcv Hb Hlg [Hr Hrel] Hl Hs. unfold stillActive in Hs. rewrite existsb_false in Hs.
  assert (forall w p, activePlacements (c_m c) !! w = Some p -> pl_acceleratorID p = lease_AcceleratorID l -> w = tr_workloadID r) as Hsole.
  { intros w p Hp Ha. assert (p ∈ (map_to_list (activePlacements (c_m c))).*2) as Hin
      by (apply list_elem_of_fmap; exists (w, p); split; [done|by apply elem_of_map_to_list]).
    specialize (Hs p Hin). rewrite (bool_decide_eq_true_2 _ Ha), andb_true_r in Hs. bool_simp.
    rewrite <- (lg_key _ Hlg w p Hp). done. }
  split; [done|]. intros t l' Ht Ha. destruct (Hb t) as [_ Hi].
  destruct (seats_elem t (activePlacements (c_m c))) as (w & p & Hp & Hpt); [apply Hi; eauto|].
  destruct (cv_seat _ Hcv w p Hp) as (l2 & Hl2 & Ha2). rewrite Hpt in Hl2.
  destruct (lg_live _ Hlg rid r Hr Hrel) as (q & Hq & Hqt).
  assert (w = tr_workloadID r) as -> by (eapply Hsole; [done|congruence]). congruence.
Qed.

Lemma covered_claim c rid r l tm : covered c -> balanced (c_m c) -> ledger (c_m c) -> c_releases c !! rid = None ->
  open_at (c_m c) rid r -> tr_lease r = Some l -> stillActive r (lease_AcceleratorID l) (c_m c) = false ->
  covered (c <| c_releases := <[rid := RDurable l tm]> (c_releases c) |>).
Proof.
  intros Hcv Hb Hlg Hnone Ho Hl Hs. destruct (last_user_alone c rid r l Hcv Hb Hlg Ho Hl Hs) as [Hsole Hown].
  pose proof Hcv as [Ct Cf Ca Cp Cc Cs Cr Cal Cd].
  destruct (Cr rid r Ho) as (l0 & Hl0 & Hptr). assert (l0 = l) as -> by congruence.
  set (c' := c <| c_releases := _ |>).
  assert (forall o l', site c' o l' -> site c o l' \/ (o = ODurable rid /\ l' = l)) as Hsite.
  { intros [t|w|t|i] l'; cbn; try by left. intros (tm' & [[<- [= <- <-]]|[_ H]]%lookup_insert_Some); [by right|left; eauto]. }
  assert (forall o l', site c o l' -> same_lease l l' -> shares c' (ODurable rid) o) as Hnew.
  { intros o l' Hs' Hsl. pose proof (Ca (OPointer (tr_targetID r)) o l l' Hptr Hs' Hsl) as Hsh.
    destruct o as [t|w|t|i]; cbn in *; try done.
    - exists r. split; [done|]. symmetry. eapply (Hown t l'); [done|]. by destruct Hsl.
    - destruct Hsh as (q & Hq & Hqt). destruct Hs' as (tm' & Htm').
      assert (in_release c i q) as Hrq by (split; [done|right; eauto]).
      destruct Ho as [Hr Hrel], Hq as [Hq Hqrel]. destruct (lg_live _ Hlg rid r Hr Hrel) as (p & Hp & Hpt).
      assert (tr_workloadID r = tr_workloadID q) as Hww by (eapply (Cal i q Hrq); [done|congruence]).
      f_equal. by eapply (lg_unique _ Hlg rid i r q). }
  assert (forall i q, in_release c' i q -> in_release c i q \/ (i = rid /\ q = r)) as Hrels.
  { intros i q [Hq Hst]. cbn in Hst. destruct (decide (rid = i)) as [<-|Hne].
    - right. destruct Hq as [Hq _], Ho as [Hr _]. cbn in Hq. split; [done|congruence].
    - left. split; [done|]. by rewrite !lookup_insert_ne in Hst. }
  split; cbn -[fence].
  - done.
  - intros o l' Hs'. destruct (Hsite o l' Hs') as [Hs''|[_ ->]]; [by eapply Cf|]. by apply (Cf (OPointer (tr_targetID r))).
  - intros o1 o2 l1 l2 H1 H2 Hsl. destruct (Hsite o1 l1 H1) as [S1|[-> ->]], (Hsite o2 l2 H2) as [S2|[-> ->]].
    + pose proof (Ca _ _ _ _ S1 S2 Hsl) as Hsh. by destruct o1, o2.
    + apply shares_sym. eapply Hnew; [done|]. destruct Hsl. by split.
    + by eapply Hnew.
    + done.
  - intros t l' Ht. destruct (Cp t l' Ht) as [(i & q & Hst & Hq)|]; [left|by right]. exists i, q. cbn.
    rewrite lookup_insert_ne by congruence. done.
  - done.
  - done.
  - done.
  - intros i q Hq w p Hp Hpt. destruct (Hrels i q Hq) as [Hq'|[-> ->]]; [by eapply (Cal i q)|].
    destruct (Cs w p Hp) as (l' & Hl' & Ha). eapply Hsole; [done|]. congruence.
  - intros i l' tm' [[<- [= <- <-]]|[_ H]]%lookup_insert_Some; [destruct Ho; eauto|by eapply Cd].
Qed.

(** Steps that change the store but spare what the controller relies on. *)
Lemma covered_store c c' o0 : covered c -> calm (c_m c) (c_m c') ->
  tokens_ok (mgr_store (c_m c')) -> fences_grow (mgr_store (c_m c)) (mgr_store (c_m c')) ->
  (forall o l, site c' o l -> site c o l \/ (o = o0 /\ fresh_above (fence (mgr_store (c_m c))) (mgr_store (c_m c')) l)) ->
  (forall l, relied c l -> keeps (mgr_store (c_m c)) (mgr_store (c_m c')) l) ->
  (forall w pr l, c_calls c' !! w = Some (pr, SCommit l) ->
     c_calls c !! w = Some (pr, SCommit l) \/ (lease_AcceleratorID l = pr_leaseID pr /\ holds (mgr_store (c_m c')) l)) ->
  c_releases c' = c_releases c -> covered c'.
Proof.
  intros Hcv Hcalm Ht Hg Hsite Hkeep Hcommit Er. apply (covered_calm c c' o0); try done.
  - intros t l Hl. destruct (cv_pointer _ Hcv t l Hl) as [(rid & r & Hst & Hr & Htg)|Hh]; [left|right; apply Hkeep; [left|]; eauto].
    destruct (calm_open_fwd _ _ _ _ Hcalm Hr) as (r' & Hr' & _ & E2 & _). exists rid, r'. rewrite Er. split; [done|].
    split; [done|congruence].
  - intros w pr l Hw. destruct (Hcommit w pr l Hw) as [Hw'|]; [|done]. destruct (cv_commit _ Hcv w pr l Hw') as [Ha Hh].
    split; [done|]. apply Hkeep; [right|]; eauto.
  - intros rid r' [Ho Hst]. rewrite Er in Hst. destruct (calm_open _ _ _ _ Hcalm Ho) as (r & Hr & Hs). exists r. by split.
  - by rewrite Er.
Qed.

(** A call that moves on with the same lease or none. *)
Lemma advance_sites c w pr st m' next o l : c_calls c !! w = Some (pr, st) ->
  targetLeases m' = targetLeases (c_m c) -> companions m' = companions (c_m c) ->
  (forall st', next = Some st' -> call_lease st' = None \/ call_lease st' = call_lease st) ->
  site (advance w pr m' next c) o l -> site c o l.
Proof.
  intros Hw El Ec Hnext. destruct o as [t|w'|t|rid]; cbn; rewrite ?El, ?Ec; try done.
  intros (pr' & st' & Hw' & Hl). destruct next as [st0|]; [|apply lookup_delete_Some in Hw' as [_ ?]; eauto].
  apply lookup_insert_Some in Hw' as [[<- [= <- <-]]|[_ ?]]; [|eauto].
  exists pr, st. split; [done|]. destruct (Hnext st0 eq_refl); congruence.
Qed.

Lemma advance_commits c w pr m' next w' pr' l : (forall l, next <> Some (SCommit l)) ->
  c_calls (advance w pr m' next c) !! w' = Some (pr', SCommit l) -> c_calls c !! w' = Some (pr', SCommit l).
Proof.
  intros Hnext. cbn. destruct next as [st|]; [|by intros [_ ?]%lookup_delete_Some].
  intros [[<- [= <- ->]]|[_ ?]]%lookup_insert_Some; [by destruct (Hnext l)|done].
Qed.

(** Nothing the controller relies on is in hand as a companion or in a rollback. *)
Lemma companion_apart c t l l' : covered c -> site c (OCompanion t) l -> relied c l' -> ~ same_lease l l'.
Proof.
  intros Hcv Hs [[t' Ht']|(w & pr & Hw)] Hsl.
  - pose proof (cv_apart _ Hcv _ (OPointer t') _ _ Hs Ht' Hsl) as Hx. discriminate Hx.
  - assert (site c (OCall w) l') as Hs' by (exists pr, (SCommit l'); done). pose proof (cv_apart _ Hcv _ _ _ _ Hs Hs' Hsl) as Hx. discriminate Hx.
Qed.

Lemma rollback_apart c w pr l retry l' : covered c -> c_calls c !! w = Some (pr, SRollback l retry) -> relied c l' -> ~ same_lease l l'.
Proof.
  intros Hcv Hw Hrel Hsl. assert (site c (OCall w) l) as Hs by (exists pr, (SRollback l retry); done).
  destruct Hrel as [[t' Ht']|(w' & pr' & Hw')].
  - pose proof (cv_apart _ Hcv _ (OPointer t') _ _ Hs Ht' Hsl) as Hx. discriminate Hx.
  - assert (site c (OCall w') l') as Hs' by (exists pr', (SCommit l'); done).
    pose proof (cv_apart _ Hcv _ _ _ _ Hs Hs' Hsl) as [= <-]. congruence.
Qed.

Section stages.
Context `{Fingerprints} {R : GoRange}.

Lemma covered_hold now w pr m' reason c : accounted c -> covered c -> c_calls c !! w = Some (pr, SHold) ->
  careful_action c (AHold w now) -> holdCompanionLeases now (pr_target pr) (c_m c) = Some (m', reason) ->
  covered (advance w pr m' (if reason ==? ""%string then Some SAcquire else None) c).
Proof.
  intros Hac Hcv Hw [Htime Hroom] Hh. pose proof (hold_quiet _ _ _ _ _ Hh) as [Hcalm _]. pose proof Hcalm as [_ El _ _ _].
  set (next := if reason ==? _ then _ else _).
  assert (forall l, next <> Some (SCommit l)) as Hnc by (intros l; unfold next; by destruct (_ ==? _)).
  assert (forall o l, site (advance w pr m' next c) o l -> (exists t, o = OCompanion t) \/ site c o l) as Hsites.
  { intros [t|w'|t|rid] l Hs; [right|right|left; eauto|by right].
    - cbn in *. by rewrite <- El.
    - destruct Hs as (pr' & st' & Hw' & Hl). cbn in Hw'. unfold next in Hw'.
      destruct (_ ==? _); [apply lookup_insert_Some in Hw' as [[<- [= <- <-]]|[_ ?]]; [done|]|apply lookup_delete_Some in Hw' as [_ ?]]; exists pr', st'; eauto. }
  unfold holdCompanionLeases in Hh.
  assert (forall s h, mgr_store m' = s -> companions m' = h ->
    tokens_ok s -> fences_grow (mgr_store (c_m c)) s ->
    (forall t hold l, h !! t = Some hold -> l ∈ ch_leases hold -> (exists old, companions (c_m c) !! t = Some old /\ l ∈ ch_leases old)
       \/ (t = tgt_ID (pr_target pr) /\ fresh_above (fence (mgr_store (c_m c))) s l)) ->
    (forall l, relied c l -> keeps (mgr_store (c_m c)) s l) -> covered (advance w pr m' next c)) as Hgo.
  { intros s h <- <- Ht Hg Hcomp Hkeep. eapply (covered_store c _ (OCompanion (tgt_ID (pr_target pr)))); try done.
    - intros o l Hs. destruct (Hsites o l Hs) as [[t ->]|Hs']; [|by left]. destruct Hs as (hold & Hhold & Hin).
      destruct (Hcomp t hold l Hhold Hin) as [(old & ? & ?)|[-> Hf]]; [left; exists old; done|by right].
    - intros w' pr' l Hw'. left. by eapply advance_commits. }
  assert (forall s, s = mgr_store (c_m c) -> tokens_ok s /\ fences_grow (mgr_store (c_m c)) s /\ (forall l, relied c l -> keeps (mgr_store (c_m c)) s l)) as Hsame.
  { intros s ->. split_and!; [by apply cv_tokens|intros a; reflexivity|by intros l _ Hl]. }
  destruct (tgt_CompanionAcceleratorIDs (pr_target pr)) as [|i0 is0].
  { injection Hh as <- <-. destruct (Hsame _ eq_refl) as (? & ? & ?). eapply Hgo; [done..| |done]. eauto. }
  destruct (companions (c_m c) !! tgt_ID (pr_target pr)) as [hold|] eqn:Hhold.
  { injection Hh as <- <-. destruct (Hsame _ eq_refl) as (? & ? & ?). eapply Hgo; [done..| |done].
    intros t hold' l Hx Hin. cbn in Hx. apply lookup_insert_Some in Hx as [[<- <-]|[_ Hx]]; left; eauto. }
  specialize (Hroom pr SHold Hw). destruct (targetAccelerators (pr_target pr)) as [|a0 ids]; [done|].
  destruct (acquireCompanions _ _ _ _ _ _) as [s' out] eqn:E.
  apply (companions_spare (fence (mgr_store (c_m c)))) in E as (Ht & Hg & Hk & Hgot);
    [|by apply cv_tokens|intros a; specialize (Hroom a); cbn in Hroom; lia|intros a; lia|intros l Hl; by apply elem_of_nil in Hl].
  assert (forall l, relied c l -> keeps (mgr_store (c_m c)) s' l) as Hkeep.
  { intros l Hl Hh'. apply Hk; [done|by apply Htime|].
    destruct Hl as [[t Hl]|(w' & pr' & Hl)]; [by apply (cv_fence _ Hcv (OPointer t))|].
    apply (cv_fence _ Hcv (OCall w')). exists pr', (SCommit l). done. }
  destruct out as [why|got]; injection Hh as <- <-; eapply Hgo; try done; [by eauto|].
  intros t hold l Hx Hin. cbn in Hx. apply lookup_insert_Some in Hx as [[<- <-]|[_ Hx]]; [right|left; eauto].
  split; [done|]. by apply (Hgot got).
Qed.

Lemma covered_acquire now w pr m' ph l c : accounted c -> covered c -> c_calls c !! w = Some (pr, SAcquire) ->
  careful_action c (AAcquire w now) -> acquireForTarget now pr (c_m c) = (m', (ph, l)) ->
  covered (advance w pr m' (match ph with Continue => Some (SCommit l) | _ => None end) c).
Proof.
  intros Hac Hcv Hw [Htime Hroom] Ha. unfold acquireForTarget in Ha.
  destruct (AcquireAcceleratorLease _ _ _ _ _) as [s' [l' ok]] eqn:E. injection Ha as <- <- <-.
  pose proof (plain_acquire _ _ _ _ _ _ _ _ (cv_tokens _ Hcv) Hroom E) as Hc.
  destruct (acquire_spares _ _ _ _ _ _ _ _ (cv_tokens _ Hcv) Hroom E) as ([Ht Hg Hh] & _ & _ & Hfresh).
  eapply (covered_store c _ (OCall w)); try done; cbn -[fence].
  - by apply Ht, cv_tokens.
  - intros [t|w'|t|rid] l0; cbn -[fence]; try by left. intros (pr' & st' & Hw' & Hl0). destruct ok.
    + apply lookup_insert_Some in Hw' as [[<- [= <- <-]]|[_ ?]]; [right|left; eauto]. cbn in Hl0. injection Hl0 as <-.
      split; [done|]. unfold fresh_above. destruct Hc as (-> & _). by apply Hfresh.
    + apply lookup_delete_Some in Hw' as [_ ?]. left. eauto.
  - intros l0 Hl0 Hh0. apply Hh; [done|]. intros Hn. apply Hn. by apply Htime.
  - intros w' pr' l0. destruct ok; [|intros [_ ?]%lookup_delete_Some; by left].
    intros [[<- [= <- <-]]|[_ ?]]%lookup_insert_Some; [right|by left]. destruct Hc as (Hacc & Hwid & Htok & El & _).
    split; [done|]. exists l'. by rewrite Hacc, El, lookup_insert_eq.
Qed.

(** A tick gives back and renews companions only. *)
Lemma keep_spares now entries (known : gmap string companionHold) : forall m,
  (forall t h, (t, h) ∈ entries -> known !! t = Some h) ->
  (forall t h, companions m !! t = Some h -> exists h0, known !! t = Some h0 /\ ch_leases h = ch_leases h0) ->
  let m' := foldl (keepCompanion now) m entries in
  spares (fun l => exists t h l', known !! t = Some h /\ l' ∈ ch_leases h /\ same_lease l' l) (mgr_store m) (mgr_store m') /\
  (forall t h, companions m' !! t = Some h -> exists h0, known !! t = Some h0 /\ ch_leases h = ch_leases h0).
Proof.
  induction entries as [|[t h] entries IH]; intros m He Hm; cbn -[keepCompanion]; [split; [by apply spares_same|done]|].
  assert (known !! t = Some h) as Hk by (apply He; left).
  destruct (IH (keepCompanion now m (t, h))) as [Hs Hc].
  - intros t' h' Hin. apply He. by right.
  - intros t' h'. unfold keepCompanion. destruct (_ <? _); cbn.
    + intros [_ Hx]%lookup_delete_Some. by apply Hm.
    + intros [[<- <-]|[_ Hx]]%lookup_insert_Some; [exists h; done|by apply Hm].
  - split; [|done]. eapply spares_trans; [|exact Hs]. unfold keepCompanion. destruct (_ <? _); cbn -[foldl]; apply foldl_spares.
    + intros s l Hl. eapply spares_weaken; [|apply releaseLease_spares]. intros l' Hsl. eauto 10.
    + intros s l Hl. apply renewLease_spares.
Qed.

Lemma covered_tick now c : covered c -> covered (c <| c_m := keepCompanionLeases now (c_m c) |>).
Proof.
  intros Hcv. pose proof (keep_quiet now (c_m c)) as [Hcalm _]. pose proof Hcalm as [_ El _ _ _].
  destruct (keep_spares now (go_range (companions (c_m c))) (companions (c_m c)) (c_m c)) as [[Ht Hg Hh] Hc].
  { intros t h. apply go_range_elem. }
  { eauto. }
  eapply (covered_store c _ (OPointer "")); try done.
  - by apply Ht, cv_tokens.
  - intros [t|w|t|rid] l Hs; left; try done.
    + cbn in *. by rewrite <- El.
    + destruct Hs as (h & Hx & Hin). destruct (Hc t h Hx) as (h0 & Hx0 & E0). exists h0. rewrite <- E0. done.
  - intros l Hl Hhl. apply Hh; [done|]. intros (t & h & l' & Hx & Hin & Hsl). eapply (companion_apart c t l' l); try done. by exists h.
  - intros w pr l Hw. by left.
Qed.

Lemma covered_durable clock now ft rid l tm m' out c : covered c -> c_releases c !! rid = Some (RDurable l tm) ->
  releaseDurable clock now ft l tm (c_m c) = (m', out) ->
  covered (advance_release rid m' (Some (match out with CleanedUp => RFinish | _ => RFailed end)) c).
Proof.
  intros Hcv Hst Hd. pose proof (durable_quiet _ _ _ _ _ _ _ _ Hd) as [Hcalm _].
  unfold releaseDurable in Hd. destruct (rollbackAcceleratorLeaseWithIntent _ _ _ _ _ _ _ _) as [s' out'] eqn:E. injection Hd as <- <-.
  apply rollback_spares in E as [[Ht Hg Hh] Hfail]. specialize (Hfail eq_refl).
  destruct (cv_durable _ Hcv rid l tm Hst) as (r & Hr & Hlr).
  assert (site c (ODurable rid) l) as Hsite by (exists tm; done).
  set (c' := advance_release _ _ _ _).
  assert (forall t, finishing c t -> finishing c' t) as Hfin.
  { intros t (i & q & Hi & Hq & Hqt). exists i, q. cbn. split; [|done]. rewrite lookup_insert_ne; [done|]. intros <-. congruence. }
  apply (covered_calm c c' (OPointer "") Hcv Hcalm).
  - by apply Ht, cv_tokens.
  - done.
  - intros [t|w|t|i] l'; cbn; try by left. intros (tm' & Htm'). left.
    apply lookup_insert_Some in Htm' as [[<- Hx]|[_ ?]]; [by destruct out'|eauto].
  - intros t l' Hl'. destruct (cv_pointer _ Hcv t l' Hl') as [Hf|Hhl]; [left; auto|].
    destruct (decide (lease_AcceleratorID l = lease_AcceleratorID l' /\ lease_FencingToken l = lease_FencingToken l')) as [Hsl|Hns];
      [|right; by apply Hh].
    destruct (cv_apart _ Hcv _ (OPointer t) _ _ Hsite Hl' Hsl) as (q & Hq & Hqt).
    destruct (cv_reservation _ Hcv rid q Hq) as (lq & Hlq & Hpq).
    assert (q = r) as -> by (destruct Hq; congruence). assert (l' = l) as -> by congruence.
    destruct out'; [left; exists rid, r; cbn; rewrite lookup_insert_eq; done|right..];
      (destruct Hfail as [El Ef]; [done|done|]; destruct Hhl as (row & Hrow & ?); exists row; cbn; by rewrite El).
  - intros w pr l' Hw. destruct (cv_commit _ Hcv w pr l' Hw) as [Ha Hhl]. split; [done|]. apply Hh; [done|]. intros Hsl.
    assert (site c (OCall w) l') as Hs' by (exists pr, (SCommit l'); done).
    pose proof (cv_apart _ Hcv _ _ _ _ Hsite Hs' Hsl) as Hx. discriminate Hx.
  - intros i q [Hq Hx]. exists q. split; [|done]. split; [done|]. cbn in Hx. destruct (decide (rid = i)) as [<-|Hne]; [right; eauto|].
    by rewrite !lookup_insert_ne in Hx.
  - intros i l' tm'. cbn. intros [[<- Hx]|[_ ?]]%lookup_insert_Some; [by destruct out'|done].
Qed.

(** A call that moves on without a new lease in hand. *)
Lemma covered_stay c w pr st next : covered c -> c_calls c !! w = Some (pr, st) ->
  (forall st', next = Some st' -> call_lease st' = None \/ call_lease st' = call_lease st) ->
  (forall l, next <> Some (SCommit l)) -> covered (advance w pr (c_m c) next c).
Proof.
  intros Hcv Hw Hl Hnc. eapply (covered_store c _ (OPointer "")); try done.
  - apply (cv_tokens _ Hcv).
  - intros x. reflexivity.
  - intros o l Hs. left. by eapply (advance_sites c w pr st).
  - by intros l _ Hh.
  - intros w' pr' l Hw'. left. by eapply advance_commits.
Qed.

(** A placement under a lease the controller already has. *)
Lemma covered_reuse c w pr st l active r m' : accounted c -> covered c -> careful_action c (AReserve w) ->
  c_calls c !! w = Some (pr, st) -> reused pr l (c_m c) -> entered pr active l r (c_m c) m' -> covered (advance w pr m' None c).
Proof.
  intros Hac Hcv Hcare Hw Hreused He. destruct (Hcare pr st Hw) as [Hno Hstable].
  assert (lease_AcceleratorID l = pr_leaseID pr /\ exists t, targetLeases (c_m c) !! t = Some l) as [Hacc [t Ht]]
    by (destruct Hreused as [Hx|(_ & _ & ? & ?)]; [split; [by apply Hstable|eauto]|done]).
  assert (forall rid q, in_release c rid q -> forall t', targetLeases (c_m c) !! t' = Some l -> tr_targetID q <> t') as Hfree.
  { intros i q Hq t' Ht' <-. destruct (cv_reservation _ Hcv i q (proj1 Hq)) as (lq & Hlq & Hpq).
    apply (Hno i q lq Hq Hlq). congruence. }
  eapply covered_enter; try done.
  - destruct (cv_pointer _ Hcv t l Ht) as [(i & q & Hi & Hq & Hqt)|]; [|done]. exfalso.
    eapply (Hfree i q); [split; [done|by left]|done|done].
  - by apply (cv_fence _ Hcv (OPointer t)).
  - intros o l' Hs Hne Hsl. pose proof (cv_apart _ Hcv (OPointer t) o l l' Ht Hs Hsl) as Hsh.
    destruct o as [t'|w'|t'|i]; cbn in Hsh; try discriminate Hsh; [eauto|]. destruct Hsh as (q & Hq & Hqt), Hs as (tm & Htm).
    exfalso. eapply (Hfree i q); [split; [done|right; eauto]|done|done].
  - destruct Hreused as [?|(? & _)]; [by right|by left].
  - intros i q Hq Hqt. destruct Hreused as [Hx|(Hx & _)]; [by apply (Hfree i q Hq _ Hx)|].
    destruct (cv_reservation _ Hcv i q (proj1 Hq)) as (lq & _ & Hpq). congruence.
Qed.

(** A placement under the lease its call acquired. *)
Lemma covered_publish c w pr l active r m' : accounted c -> covered c -> c_calls c !! w = Some (pr, SCommit l) ->
  targetLeases (c_m c) !! tgt_ID (pr_target pr) = None -> entered pr active l r (c_m c) m' -> covered (advance w pr m' None c).
Proof.
  intros Hac Hcv Hw Hnone He. destruct (cv_commit _ Hcv w pr l Hw) as [Hacc Hh].
  assert (site c (OCall w) l) as Hs by (exists pr, (SCommit l); done).
  eapply covered_enter; try done.
  - by apply (cv_fence _ Hcv (OCall w)).
  - intros o l' Hs' Hne Hsl. pose proof (cv_apart _ Hcv _ _ _ _ Hs Hs' Hsl) as Hsh. by destruct o.
  - by left.
  - intros i q Hq Hqt. destruct (cv_reservation _ Hcv i q (proj1 Hq)) as (lq & _ & Hpq). congruence.
Qed.

Lemma covered_rollback clock now ft c w pr l retry s' out next : covered c -> c_calls c !! w = Some (pr, SRollback l retry) ->
  rollbackAcceleratorLease clock now ft (Some l) w (mgr_store (c_m c)) = (s', out) -> next = None \/ next = Some SReserve ->
  covered (advance w pr ((c_m c) <| mgr_store := s' |>) next c).
Proof.
  intros Hcv Hw E Hnext. apply rollback_spares in E as [[Ht Hg Hh] _].
  eapply (covered_store c _ (OPointer "")); try done.
  - by apply Ht, cv_tokens.
  - intros o l' Hs. left. eapply (advance_sites c w pr _ _ next o l' Hw); try done. intros st' Hst. left.
    destruct Hnext as [Hx|Hx]; rewrite Hx in Hst; [done|by injection Hst as <-].
  - intros l' Hl Hhl. apply Hh; [done|]. by eapply rollback_apart.
  - intros w' pr' l' Hw'. left. eapply (advance_commits c w pr _ next); [|done]. intros l0. destruct Hnext; congruence.
Qed.

Lemma covered_stage a c w pr st c' : accounted c -> covered c -> careful_action c a -> c_calls c !! w = Some (pr, st) ->
  match a with AReserve v | AHold v _ | AAcquire v _ => v = w | _ => True end ->
  reserve_stage a w pr st c = Some c' -> covered c'.
Proof.
  intros Hac Hcv Hcare Hw Hv Hp. destruct a, st; try discriminate Hp; cbn -[rollbackAcceleratorLease] in Hp.
  - subst. destruct (reserveLocked pr (c_m c)) as [m' ph] eqn:E. apply reserve_cases in E.
    destruct ph as [reason|rid|]; injection Hp as <-; [subst; by eapply covered_stay| |].
    + destruct E as (_ & _ & _ & _ & l & r & Hreused & He). by eapply covered_reuse.
    + destruct E as [-> _]. eapply covered_stay; [done..| |done]. intros st' [= <-]. by left.
  - subst. destruct (holdCompanionLeases _ _ _) as [[m' reason]|] eqn:E; [|done]. injection Hp as <-. by eapply covered_hold.
  - subst. destruct (acquireForTarget _ _ _) as [m' [ph l]] eqn:E. pose proof (covered_acquire _ _ _ _ _ _ _ Hac Hcv Hw Hcare E) as Hx.
    destruct ph; by injection Hp as <-.
  - destruct (commitLocked pr lease (c_m c)) as [m' out] eqn:E. apply commit_cases in E.
    destruct out; injection Hp as <-; [|subst; eapply covered_stay; [done..|intros st' [= <-]; by right|done]..].
    destruct E as (_ & _ & _ & _ & Hnone & r & He). by eapply covered_publish.
  - destruct (rollbackAcceleratorLease _ _ _ _ _ _) as [s' out] eqn:E. injection Hp as <-.
    eapply covered_rollback; [done..|]. destruct out, retry; auto.
Qed.
End stages.

(** A release that failed, or that only has to forget its reservation. *)
Lemma covered_dropped c rid next : covered c -> (forall r, c_releases c !! rid = Some RFinish -> ~ open_at (c_m c) rid r) ->
  (forall x, next = Some x -> x = RForget) ->
  covered (c <| c_releases := match next with Some st => <[rid := st]> (c_releases c) | None => delete rid (c_releases c) end |>).
Proof.
  intros [Ct Cf Ca Cp Cc Cs Cr Cal Cd] Hnf Hnext. set (c' := c <| c_releases := _ |>).
  assert (forall i x, c_releases c' !! i = Some x -> x <> RForget -> c_releases c !! i = Some x) as Hback.
  { intros i x. cbn. destruct next as [y|]; [|by intros [_ ?]%lookup_delete_Some].
    intros [[<- ->]|[_ ?]]%lookup_insert_Some; [|done]. intros Hx. by destruct Hx; apply Hnext. }
  assert (forall o l, site c' o l -> site c o l) as Hsite.
  { intros [t|w|t|i] l; try done. intros [tm Htm]. exists tm. by apply Hback. }
  split; try done.
  - intros o l Hs. by apply (Cf o), Hsite.
  - intros o1 o2 l1 l2 H1 H2 Hsl. pose proof (Ca _ _ _ _ (Hsite _ _ H1) (Hsite _ _ H2) Hsl) as Hsh. by destruct o1, o2.
  - intros t l Hl. destruct (Cp t l Hl) as [(i & q & Hi & Hq)|]; [left|by right]. exists i, q. split; [|done]. cbn.
    destruct next; [rewrite lookup_insert_ne|rewrite lookup_delete_ne]; try done; intros <-; by eapply (Hnf q); [|apply Hq].
  - intros i q [Hq Hx] w p Hw Hpt. eapply (Cal i q); try done. split; [done|].
    destruct Hx as [Hx|(l & tm & Hx)]; [left|right; exists l, tm]; by apply Hback.
  - intros i l tm Hx. eapply Cd. by apply Hback.
Qed.

Lemma covered_forget rid c : covered c -> covered (c <| c_m := forgetReservation rid (c_m c) |>).
Proof.
  intros Hcv. apply covered_quiet; [done|apply forget_quiet|..]; unfold forgetReservation;
    (destruct (reservationHeap (c_m c) !! rid); [destruct (_ ==? _)|]; done).
Qed.

Lemma covered_begin c w pr : covered c -> c_calls c !! w = None -> covered (advance w pr (c_m c) (Some SReserve) c).
Proof.
  intros Hcv Hn. eapply (covered_store c _ (OPointer "")); try done.
  - apply (cv_tokens _ Hcv).
  - intros x. reflexivity.
  - intros [t|w'|t|rid] l; try by left. intros (pr' & st' & Hw' & Hl). cbn in Hw'.
    apply lookup_insert_Some in Hw' as [[<- [= <- <-]]|[_ ?]]; [done|left; exists pr', st'; done].
  - by intros l _ Hh.
  - intros w' pr' l Hw'. left. by eapply (advance_commits c w pr _ (Some SReserve)).
Qed.

(** A release that closes its reservation goes on to forget it. *)
Lemma covered_close c rid m' : accounted c -> covered c -> exits rid (c_m c) m' -> mgr_store m' = mgr_store (c_m c) ->
  companions m' = companions (c_m c) -> covered (advance_release rid m' (Some RForget) c).
Proof.
  intros Hac Hcv Hx Es Ec. apply (covered_exit c rid m' (<[rid := RForget]> (c_releases c)) Hac Hcv Hx Es Ec); intros i x.
  - intros [[<- <-]|[_ ?]]%lookup_insert_Some; [by right|by left].
  - intros Hne Hi. by rewrite lookup_insert_ne.
Qed.

Lemma covered_elect now rid terminal c c' : accounted c -> covered c ->
  match releaseElect now rid (c_m c) with
  | (m, LastUser lease) => Some (advance_release rid m (Some (RDurable lease terminal)) c)
  | (m, LeftOthers) => Some (advance_release rid m (Some RForget) c)
  | (m, _) => Some (c <| c_m := m |>)
  end = Some c' -> covered c'.
Proof.
  intros Hac Hcv Hp. pose proof Hac as [Hb Hlg Hcalls Hclaim].
  destruct (releaseElect now rid (c_m c)) as [m' out] eqn:E. apply elect_cases in E as (Es & Ec & Hh & E).
  destruct out; injection Hp as <-; [destruct E; by apply covered_quiet..|destruct E; by apply covered_close|].
  destruct E as (Hcalm & Ep & _ & Hnc & r & Hr & Hrel & Hl & Hs). pose proof (covered_quiet c m' Hcv Hcalm Es Ec) as Hcv'.
  destruct (calm_open_fwd _ _ rid r Hcalm (conj Hr Hrel)) as (r' & Hr' & E1 & E2 & E3 & E4).
  apply (covered_claim _ rid r' lease terminal) in Hcv'; try done.
  - by eapply calm_balanced.
  - by eapply calm_ledger.
  - destruct (c_releases c !! rid) eqn:Hx; [|done]. by destruct Hnc; eapply Hclaim.
  - congruence.
  - unfold stillActive in *. cbn. by rewrite <- E1, Ep.
Qed.

Lemma covered_perform `{Fingerprints} {R : GoRange} a c c' : accounted c -> covered c -> careful_action c a ->
  perform a c = Some c' -> covered c'.
Proof.
  intros Hac Hcv Hcare Hp. pose proof Hac as [Hb Hlg Hcalls Hclaim].
  destruct a; cbn -[reserve_stage keepCompanionLeases retireTarget] in Hp;
    try (destruct (c_calls c !! w) as [[pr st]|] eqn:Hw; [|done]; by eapply covered_stage).
  - destruct (_ && _ && _) eqn:E; [|done]. injection Hp as <-. bool_simp. by apply covered_begin.
  - by eapply covered_elect.
  - destruct (c_releases c !! rid) as [[lease terminal| | |]|] eqn:Hrid; try done.
    destruct (releaseDurable _ _ _ _ _ _) as [m' out] eqn:E. injection Hp as <-. by eapply covered_durable.
  - destruct (c_releases c !! rid) as [[lease terminal| | |]|] eqn:Hrid; try done. injection Hp as <-.
    pose proof (covered_quiet c _ Hcv (failed_calm rid (c_m c)) eq_refl eq_refl) as Hcv'.
    apply (covered_dropped _ rid None Hcv'); [cbn; intros r; congruence|done].
  - destruct (c_releases c !! rid) as [[lease terminal| | |]|] eqn:Hrid; try done.
    destruct (finishReleased _ _ _) as [m' go] eqn:E. apply finish_cases in E as (Es & Ec & Hh & E). injection Hp as <-.
    destruct go.
    + by apply covered_close.
    + destruct E as [-> E]. apply (covered_dropped c rid None Hcv); [|done]. intros r _ [Hr Hrel]. specialize (E r Hr). congruence.
  - destruct (c_releases c !! rid) as [[lease terminal| | |]|] eqn:Hrid; try done. injection Hp as <-.
    pose proof (covered_forget rid c Hcv) as Hcv'. apply (covered_dropped _ rid None Hcv'); [cbn; intros r; congruence|done].
  - injection Hp as <-. unfold finishReleasedReservation. destruct (finishReleased _ _ _) as [m' go] eqn:E.
    apply finish_cases in E as (Es & Ec & Hh & E). destruct go; [|destruct E as [-> _]; by apply covered_quiet; [|apply quiet_refl|..]].
    apply (covered_forget rid (mkConfig m' (c_calls c) (c_releases c))). apply (covered_exit c rid m' (c_releases c)); eauto.
  - injection Hp as <-. by apply covered_tick.
  - injection Hp as <-. apply covered_quiet; [done|by apply retire_quiet|by unfold retireTarget; destruct (_ <=? _)..].
Qed.

Lemma started_covered s ttl : tokens_ok s -> covered (started s ttl).
Proof.
  intros Ht. split; cbn -[fence]; try done; try (intros *; by rewrite lookup_empty).
  - intros [t|w|t|rid] l; cbn; [by rewrite lookup_empty|intros (?&?&?&_)|intros (?&?&_)|intros (?&?)]; set_solver.
  - intros [t|w|t|rid] o2 l1 l2; cbn; [by rewrite lookup_empty|intros (?&?&?&_)|intros (?&?&_)|intros (?&?)]; set_solver.
  - intros rid r [Hr _]. cbn in Hr. by rewrite lookup_empty in Hr.
Qed.

Lemma place_step_covered `{Fingerprints} c c' : place_step careful c c' -> accounted c -> covered c -> covered c'.
Proof.
  intros [R a Hcare Hp|m' (Ht & Hg & Ec & Hkeep) [Hcalm _] ->] Hac Hcv; [by eapply covered_perform|].
  pose proof Hcalm as [_ El _ _ _]. eapply (covered_store c _ (OPointer "")); try done.
  - intros [t|w|t|rid] l Hs; left; try done; cbn in *; [by rewrite <- El|by rewrite <- Ec].
  - intros w pr l Hw. by left.
Qed.

Lemma reachable_covered `{Fingerprints} s ttl c : tokens_ok s -> place_reachable careful s ttl c -> accounted c /\ covered c.
Proof.
  intros Ht. induction 1 as [|c c' _ [IHa IHc] Hs]; [split; [apply started_accounted|by apply started_covered]|].
  split; [by eapply place_step_accounted|by eapply place_step_covered].
Qed.
