(* ===== verification/PlacementProps.v ===== *)
(** * Theorems about reservations and releases

    The claims about [Placement], over the interleavings of [PlacementInv] and
    the lease coverage of [PlacementLease]. *)

From Stdlib Require Import Floats.SpecFloat.
From S2P Require Import Prelude GoText GoTime Domain DomainWorkload DomainNode Store Samples.
From S2P Require Import Leases Budget WorkloadManager Admission Placement PlacementInv PlacementLease.

(** ** Preparation *)

Lemma prepare_wf `{Fingerprints} {R : GoRange} now answer target request requirements m m' pr :
  prepareReservation now answer target request requirements m m' = Proceed pr ->
  well_prepared (req_ID request) pr /\ pl_contextTokens (pr_placement pr) = rq_ContextTokens requirements /\
  0 <= pl_contextTokens (pr_placement pr) /\ 0 < pr_slots pr.
Proof.
  unfold prepareReservation.
  set (target' := if tgt_ID (targetByID (tgt_ID target) m) !=? _ then _ else _). intros Hp.
  repeat match type of Hp with
  | (if ?b then _ else _) = _ => destruct b eqn:?; try discriminate Hp
  | match ?x with _ => _ end = _ => destruct x eqn:?; try discriminate Hp
  end.
  injection Hp as <-. cbn. bool_simp. split_and!; try done. unfold slotLimit.
  destruct (_ <=? 0) eqn:E in |- *; bool_simp; lia.
Qed.

(** ** A small fleet

    [t1] has two slots on [gpu0]; [t3] runs on [gpu1] and needs [gpu0] beside
    it. *)

#[local] Instance ids : Fingerprints := {|
  targetExecutionFingerprint := tgt_ID;
  workloadProfileFingerprint _ request := req_ID request;
|}.

Definition t1 : Target :=
  noTarget <| tgt_ID := "t1"%string |> <| tgt_AcceleratorID := "gpu0"%string |> <| tgt_Slots := 2 |>
    <| tgt_ModelPools := {[ "m"%string := mkModelPool 100 2 60 ]} |>.
Definition t3 : Target :=
  noTarget <| tgt_ID := "t3"%string |> <| tgt_AcceleratorID := "gpu1"%string |> <| tgt_Slots := 1 |>
    <| tgt_CompanionAcceleratorIDs := ["gpu0"%string] |>.

Definition registered (m : Manager) : Manager :=
  m <| targets := {[ "t1"%string := t1; "t3"%string := t3 ]} |> <| targetGenerations := {[ "t1"%string := 1; "t3"%string := 1 ]} |>.

Definition base : Manager := registered (NewManager NewMemoryStore minute).

(** The request of a workload for 50 tokens of the model of a target. *)
Definition asks (w : string) (target : Target) : prepared :=
  match prepareReservation (R := by_key) noon NoObserver target ((zero : WorkloadRequest) <| req_ID := w |>)
          (mkRequirements (if tgt_ID target ==? "t1"%string then "m" else "k") 0 50) base base with
  | Proceed pr => pr
  | _ => mkPrepared noTarget 0 0 0 None "" (newPlacement noTarget zero (mkRequirements "" 0 0) 0 None base)
  end.

Definition reserves (w : string) (target : Target) : list action :=
  [ABegin w (asks w target); AReserve w; AHold w noon; AAcquire w noon; ACommit w].

Fixpoint run (acts : list action) (c : config) : option config :=
  match acts with
  | [] => Some c
  | a :: acts => match perform (R := by_key) a c with Some c => run acts c | None => None end
  end.

(** The run obeys a discipline. *)
Fixpoint obeys (D : discipline) (acts : list action) (c : config) : Prop :=
  match acts with
  | [] => True
  | a :: acts => d_action D c a /\ match perform (R := by_key) a c with Some c => obeys D acts c | None => True end
  end.

Lemma run_reachable D s ttl acts : forall c c', obeys D acts c -> place_reachable D s ttl c -> run acts c = Some c' ->
  place_reachable D s ttl c'.
Proof.
  induction acts as [|a acts IH]; intros c c'; cbn; [by intros _ Hc [= <-]|]. intros [HD Hob] Hc.
  destruct (perform a c) as [c1|] eqn:E; [|done]. apply IH; [done|].
  eapply pr_step; [exact Hc|]. eapply ps_act; [exact HD|exact E].
Qed.

Lemma obeys_free acts : forall c, obeys free acts c.
Proof. induction acts as [|a acts IH]; intros c; cbn; [done|]. split; [done|]. by destruct (perform a c). Qed.

(** The controller once the targets are known. *)
Definition ready : config := mkConfig base ∅ ∅.

Lemma ready_reachable D : d_rest D (started NewMemoryStore minute) base -> place_reachable D NewMemoryStore minute ready.
Proof.
  intros HD. eapply pr_step; [apply pr_start|]. eapply (ps_rest _ _ _ base); [done|by apply quiet_tables|done].
Qed.

(** [w1] placed on [t1]. *)
Definition busy : config := default ready (run (reserves "w1" t1) ready).

(** ** Context in use on a target *)

Definition sum_of {A} (f : A -> Z) (l : list A) : Z := foldr (fun x acc => f x + acc) 0 l.

Lemma sum_of_wrapped {A} (f : A -> Z) (l : list A) : forall z,
  foldl (fun acc x => wrap64 (acc + f x)) (wrap64 z) l = wrap64 (z + sum_of f l).
Proof.
  induction l as [|x l IH]; intros z; cbn; [by rewrite Z.add_0_r|]. rewrite wrap64_add, IH. f_equal. unfold sum_of. lia.
Qed.

Lemma sum_of_fmap {A B} (f : B -> Z) (g : A -> B) (l : list A) : sum_of f (g <$> l) = sum_of (f ∘ g) l.
Proof. induction l as [|x l IH]; cbn; [done|]. unfold sum_of in IH. by rewrite IH. Qed.

Lemma sum_of_filter {A} (f : A -> Z) (P : A -> Prop) `{!forall x, Decision (P x)} (l : list A) :
  sum_of f (filter P l) = sum_of (fun x => if decide (P x) then f x else 0) l.
Proof.
  induction l as [|x l IH]; [done|]. rewrite filter_cons. unfold sum_of in *. cbn. destruct (decide (P x)); cbn; by rewrite IH.
Qed.

(** The context a placement takes of the pool of target [t]. *)
Definition share (t : string) (p : activePlacement) : Z := if decide (pl_targetID p = t) then pl_contextTokens p else 0.
Definition context_on (t : string) (pm : gmap string activePlacement) : Z := sum_of id (map_to_list (share t <$> pm)).*2.

Lemma context_insert t w p pm : pm !! w = None -> context_on t (<[w := p]> pm) = context_on t pm + share t p.
Proof.
  intros Hw. unfold context_on. rewrite fmap_insert.
  transitivity (sum_of id ((w, share t p) :: map_to_list (share t <$> pm)).*2); [|unfold sum_of; cbn; lia].
  apply (sum_perm id). rewrite map_to_list_insert by (by rewrite lookup_fmap, Hw). done.
Qed.

Lemma context_delete t w p pm : pm !! w = Some p -> context_on t (delete w pm) = context_on t pm - share t p.
Proof.
  intros Hw. rewrite <- (insert_delete_id pm w p Hw) at 2. rewrite context_insert by apply lookup_delete_eq. lia.
Qed.

Lemma context_same t pm pm' : same_seats pm pm' -> context_on t pm = context_on t pm'.
Proof.
  intros Hs. unfold context_on. do 3 f_equal. apply map_eq. intros w. rewrite !lookup_fmap. specialize (Hs w).
  destruct Hs as [p q (_ & Et & _ & Ec)|]; [|done]. cbn. unfold share. by rewrite Et, Ec.
Qed.

Lemma context_nonneg t pm : (forall w p, pm !! w = Some p -> 0 <= pl_contextTokens p) -> 0 <= context_on t pm.
Proof.
  intros H. unfold context_on. rewrite map_to_list_fmap.
  assert (forall x, x ∈ (prod_map id (share t) <$> map_to_list pm).*2 -> 0 <= x) as Hx.
  { intros x ([k v] & -> & ([w p] & [= -> ->] & Hin)%list_elem_of_fmap)%list_elem_of_fmap. apply elem_of_map_to_list in Hin.
    cbn. unfold share. apply H in Hin. by destruct (decide _). }
  induction (prod_map id (share t) <$> map_to_list pm).*2 as [|x l IH]; cbn; [done|].
  pose proof (Hx x ltac:(left)). assert (0 <= sum_of id l) by (apply IH; intros; apply Hx; by right). unfold sum_of, id in *. lia.
Qed.

(** [poolFullLocked] computes the context in use. *)
Lemma pool_free {R : GoRange} t pool tokens m :
  poolFullLocked t pool tokens m = ""%string -> 0 <= context_on t (activePlacements m) <= 4611686018427387904 ->
  0 <= tokens <= 4611686018427387903 ->
  context_on t (activePlacements m) = 0 \/ context_on t (activePlacements m) + tokens <= mp_PoolTokens pool.
Proof.
  unfold poolFullLocked. intros Hp Hc Ht.
  assert (foldl (fun acc p => wrap64 (acc + pl_contextTokens p)) 0
    (filter (fun p => pl_targetID p = t) (go_range (activePlacements m)).*2) = context_on t (activePlacements m)) as Hr.
  { change 0 with (wrap64 0) at 1. rewrite sum_of_wrapped, Z.add_0_l.
    assert (sum_of pl_contextTokens (filter (fun p => pl_targetID p = t) (go_range (activePlacements m)).*2)
      = context_on t (activePlacements m)) as ->; [|apply wrap64_small; unfold MaxInt64; lia].
    transitivity (sum_of (share t) (go_range (activePlacements m)).*2).
    - apply sum_of_filter.
    - unfold context_on. rewrite map_to_list_fmap, <- list_fmap_compose.
      transitivity (sum_of (share t) (map_to_list (activePlacements m)).*2); [apply (sum_perm (share t)); by rewrite go_range_perm|].
      rewrite !sum_of_fmap. reflexivity. }
  rewrite Hr in Hp. destruct (_ && _) eqn:E; [discriminate Hp|].
  apply andb_false_iff in E as [E|E]; bool_simp; [left; lia|right]. rewrite wrap64_small in E; unfold MaxInt64 in *; lia.
Qed.

(** Requests that respect the limits advertised for their target: at most
    [slots t] slots, and a context within a pool of at most [pool t] tokens. *)
Definition advertised (slots pool : string -> Z) (pr : prepared) : Prop :=
  let t := tgt_ID (pr_target pr) in
  pr_slots pr <= slots t /\ 0 <= pl_contextTokens (pr_placement pr) <= pool t /\
  exists p, pr_pool pr = Some p /\ mp_PoolTokens p <= pool t.

Definition bounded (slots pool : string -> Z) : discipline := {|
  d_action c a := match a with ABegin _ pr => advertised slots pool pr | _ => True end;
  d_rest _ _ := True;
|}.

Record fits (slots pool : string -> Z) (c : config) : Prop := {
  ft_count : forall t, count t (activePlacements (c_m c)) <= slots t;
  ft_context : forall t, context_on t (activePlacements (c_m c)) <= pool t;
  ft_tokens : forall w p, activePlacements (c_m c) !! w = Some p -> 0 <= pl_contextTokens p;
  ft_calls : forall w pr st, c_calls c !! w = Some (pr, st) -> advertised slots pool pr;
}.

Section limits.
Context `{Fingerprints} (slots pool : string -> Z).
Hypothesis slots_nonneg : forall t, 0 <= slots t.
Hypothesis pool_small : forall t, 0 <= pool t < 4611686018427387904.

Lemma fits_enter {R : GoRange} c w pr st active lease r m' : accounted c -> fits slots pool c -> c_calls c !! w = Some (pr, st) ->
  entered pr active lease r (c_m c) m' -> targetActiveCount (tgt_ID (pr_target pr)) (c_m c) < pr_slots pr ->
  poolReason pr (c_m c) = ""%string ->
  (forall t, count t (activePlacements m') <= slots t) /\ (forall t, context_on t (activePlacements m') <= pool t) /\
  (forall w p, activePlacements m' !! w = Some p -> 0 <= pl_contextTokens p).
Proof.
  intros Hac [Fc Fx Ft Fp] Hw He Hslots Hpool. destruct (ac_calls _ Hac w pr st Hw) as [(Ew & Et & _) Hnone].
  destruct (Fp w pr st Hw) as (Hs & Htok & p & Hp & Hpt). pose proof (en_places _ _ _ _ _ _ He) as Hseats.
  rewrite (balanced_count _ _ (ac_balanced _ Hac)) in Hslots. unfold poolReason in Hpool. rewrite Hp in Hpool. rewrite Ew in Hseats.
  split_and!.
  - intros t. rewrite <- (same_seats_count t _ _ Hseats), seats_insert, Et by done. specialize (Fc t).
    destruct (decide _) as [<-|]; lia.
  - intros t. rewrite <- (context_same t _ _ Hseats), context_insert by done. specialize (Fx t). unfold share.
    destruct (decide _) as [<-|]; [|lia]. rewrite Et in *.
    pose proof (pool_small (tgt_ID (pr_target pr))). pose proof (context_nonneg (tgt_ID (pr_target pr)) _ Ft).
    apply pool_free in Hpool as [->|?]; lia.
  - intros w' q Hq. destruct (same_seats_lookup _ _ _ _ (symmetry Hseats) Hq) as (q' & Hq' & _ & _ & _ & ->).
    apply lookup_insert_Some in Hq' as [[_ <-]|[_ Hq']]; [lia|by eapply Ft].
Qed.

Lemma fits_step c c' : place_step (bounded slots pool) c c' -> accounted c -> fits slots pool c -> fits slots pool c'.
Proof.
  intros Hstep Hac Hfit. pose proof Hfit as [Fc Fx Ft Fp].
  assert (forall m', calm (c_m c) m' -> (forall t, count t (activePlacements m') <= slots t) /\
    (forall t, context_on t (activePlacements m') <= pool t) /\ (forall w p, activePlacements m' !! w = Some p -> 0 <= pl_contextTokens p)) as Hcalm.
  { intros m' [_ _ _ Hs _]. split_and!; intros t; [by rewrite <- (same_seats_count t _ _ Hs)|by rewrite <- (context_same t _ _ Hs)|].
    intros q Hq. destruct (same_seats_lookup _ _ _ _ (symmetry Hs) Hq) as (q' & Hq' & _ & _ & _ & ->). by eapply Ft. }
  destruct Hstep as [R a HD Hp|m' _ [Hq _] ->]; [|destruct (Hcalm m' Hq) as (? & ? & ?); by split].
  destruct (perform_effect a c c' Hac Hp) as [He Hcalls].
  assert (forall w pr st, c_calls c' !! w = Some (pr, st) -> advertised slots pool pr) as Hadv.
  { intros w pr st Hw. destruct (Hcalls w pr st Hw) as [[st' Hw']| ->]; [by eapply Fp|exact HD]. }
  assert ((forall t, count t (activePlacements (c_m c')) <= slots t) /\ (forall t, context_on t (activePlacements (c_m c')) <= pool t) /\
    (forall w p, activePlacements (c_m c') !! w = Some p -> 0 <= pl_contextTokens p)) as (? & ? & ?); [|by split].
  destruct He as [He|rid [now r r' Hr Hrel _ _ _ _ _ Hpl]|R' w pr st active lease r Hw He Hs Hpr]; [by apply Hcalm| |by eapply fits_enter].
  destruct (lg_live _ (ac_ledger _ Hac) rid r Hr Hrel) as (p & Hp' & _). rewrite Hpl. split_and!.
  - intros t. rewrite (seats_delete t _ _ _ Hp'). specialize (Fc t). destruct (decide _); lia.
  - intros t. rewrite (context_delete t _ _ _ Hp'). specialize (Fx t). unfold share. apply Ft in Hp'. destruct (decide _); lia.
  - intros w q [_ Hq]%lookup_delete_Some. by eapply Ft.
Qed.

Lemma reachable_fits s ttl c : place_reachable (bounded slots pool) s ttl c -> fits slots pool c.
Proof.
  intros Hr. enough (accounted c /\ fits slots pool c) by naive_solver.
  induction Hr as [|c c' _ [IHa IHf] Hs]; [split; [apply started_accounted|]|split; [by eapply place_step_accounted|by eapply fits_step]].
  split; cbn; [| |intros *; by rewrite lookup_empty..].
  - intros t. unfold count, seats. rewrite map_filter_empty, map_size_empty. apply slots_nonneg.
  - intros t. unfold context_on. rewrite fmap_empty, map_to_list_empty. apply pool_small.
Qed.
End limits.

(** ** Obeying the disciplines in the sample *)

(** Nothing is placed, released or leased yet. *)
Definition vacant (c : config) : bool :=
  bool_decide (map_to_list (targetLeases (c_m c)) = []) && bool_decide (map_to_list (leaseFences (mgr_store (c_m c))) = [])
  && (length (map_to_list (c_releases c)) =? 0)%nat
  && forallb (fun kv => match kv.2 with (pr, SCommit _) => false | (pr, _) => (length (targetAccelerators (pr_target pr)) <? 100)%nat end)
       (map_to_list (c_calls c)).

Lemma vacant_careful c a : vacant c = true -> careful_action c a.
Proof.
  unfold vacant. intros H. bool_simp.
  repeat match goal with H : map_to_list _ = [] |- _ => apply map_to_list_empty_iff in H end.
  match goal with H : targetLeases _ = ∅ |- _ => rename H into El end.
  match goal with H : leaseFences _ = ∅ |- _ => rename H into Ef end.
  match goal with H : (length _ =? 0)%nat = true |- _ => apply Nat.eqb_eq, nil_length_inv, map_to_list_empty_iff in H as Hrel end.
  match goal with H : forallb _ _ = true |- _ => pose proof (proj1 (forallb_forall _ _) H) as Hcalls end.
  assert (forall w pr st, c_calls c !! w = Some (pr, st) -> (forall l, st <> SCommit l) /\ (length (targetAccelerators (pr_target pr)) < 100)%nat) as Hst.
  { intros w pr st Hw. assert (In (w, (pr, st)) (map_to_list (c_calls c))) as Hin by (by apply list_elem_of_In, elem_of_map_to_list).
    specialize (Hcalls _ Hin). cbn -[Nat.ltb] in Hcalls. destruct st; try done; (split; [done|by apply Nat.ltb_lt]). }
  assert (forall n a, (n < 100)%nat -> fence (mgr_store (c_m c)) a + Z.of_nat n < MaxInt64) as Hroom.
  { intros n b Hn. unfold fence. rewrite Ef, lookup_empty. unfold MaxInt64. cbn. lia. }
  assert (forall now, timely now c) as Htime.
  { intros now l [[t Ht]|(w & pr & Hw)]; [|by destruct (Hst w pr _ Hw) as [Hx _]; destruct (Hx l)].
    by rewrite El, lookup_empty in Ht. }
  destruct a; cbn -[Z.add Z.lt]; try done.
  - intros pr st Hw. split.
    + intros rid r l [_ Hx]. rewrite Hrel, !lookup_empty in Hx. by destruct Hx as [?|(? & ? & ?)].
    + intros l. by rewrite El, lookup_empty.
  - split; [done|]. intros pr st Hw b. apply Hroom. by apply (Hst w pr st).
  - split; [done|]. intros b. apply Hroom. lia.
Qed.

Lemma busy_careful : place_reachable careful NewMemoryStore minute busy.
Proof.
  eapply (run_reachable _ _ _ (reserves "w1" t1) ready).
  - cbn [obeys reserves]. repeat (split; [first [exact I|apply vacant_careful; vm_compute; reflexivity]|];
      match goal with |- match ?x with _ => _ end => let y := eval vm_compute in x in change x with y end; cbv iota).
    exact I.
  - apply ready_reachable. split_and!; [|intros a; reflexivity|done|by intros l _ Hl].
    intros a. unfold fence. cbn. rewrite lookup_empty. split; [done|]. intros row. by rewrite lookup_empty.
  - vm_compute. reflexivity.
Qed.

(** [w1] is placed on [t1] and its last user's release is elected; [w2] joins
    under the same lease before the release reaches the store; [t3] then gets
    [gpu0] as its companion. *)
Definition race : list action :=
  reserves "w1" t1 ++
  [AElect 0 noon None; ABegin "w2" (asks "w2" t1); AReserve "w2"; ADurable 0 noon noon noFaults; AFinish 0 noon; AForget 0] ++
  reserves "w3" t3.

Definition raced : config := default ready (run race ready).

(** [w1] and [w2] on [t1]. *)
Definition crowd : list action := reserves "w1" t1 ++ [ABegin "w2" (asks "w2" t1); AReserve "w2"].
Definition crowded : config := default ready (run crowd ready).

Lemma crowded_reachable D : obeys D crowd ready -> d_rest D (started NewMemoryStore minute) base ->
  place_reachable D NewMemoryStore minute crowded.
Proof. intros Ho Hr. eapply (run_reachable _ _ _ crowd ready); [exact Ho|by apply ready_reachable|]. vm_compute. reflexivity. Qed.

Lemma lease_inv_tokens s : lease_inv s -> tokens_ok s.
Proof. intros [Hf Ht _] a. split; [by apply Hf|]. intros row Hr. by apply Ht in Hr as [_ [_ ?]]. Qed.

(** ** Theorems *)

(** C28: in every interleaving of reservations and releases, with refreshes of
    the targets and any use of the store in between, the count of a target is
    the number of workloads placed on it, a target has a lease pointer exactly
    while it has work, and placements and unreleased reservations correspond
    one to one. *)
Theorem slots_accounted `{Fingerprints} (D : discipline) (s : MemoryStore) (ttl : Duration) (c : config) :
  place_reachable D s ttl c ->
  let m := c_m c in
  (forall t, targetActiveCount t m = count t (activePlacements m) /\
     (is_Some (targetLeases m !! t) <-> 0 < count t (activePlacements m))) /\
  (forall w p, activePlacements m !! w = Some p -> pl_workloadID p = w /\ exists rid r, open_at m rid r /\ tr_workloadID r = w /\
     tr_targetID r = pl_targetID p /\ forall i q, open_at m i q -> tr_workloadID q = w -> i = rid) /\
  (forall rid r, open_at m rid r -> exists p, activePlacements m !! tr_workloadID r = Some p /\ pl_targetID p = tr_targetID r).
Proof.
  intros Hr m. apply reachable_accounted in Hr as [Hb [Lk Lo Ll Lu _] _ _]. fold m in Hb, Lk, Lo, Ll, Lu. split_and!.
  - intros t. split; [by apply balanced_count|apply Hb].
  - intros w p Hp. split; [by apply Lk|]. destruct (Lo w p Hp) as (rid & r & Hr & Hrel & Hw). exists rid, r.
    destruct (Ll rid r Hr Hrel) as (p' & Hp' & Ht). split_and!; [done|done|congruence|].
    intros i q [Hq Hqr] Hqw. eapply (Lu i rid q r); congruence.
  - intros rid r [Hr Hrel]. by apply (Ll rid).
Qed.

Lemma slots_accounted_witness : targetActiveCount "t1" (c_m busy) = count "t1" (activePlacements (c_m busy)).
Proof. apply (slots_accounted careful NewMemoryStore minute busy busy_careful). Defined.

(** C29: in a careful run, where no placement is published beside a release of
    its accelerator, targets keep their accelerator while they have work and
    leases are renewed in time, every placement that is not being cleared is
    backed by the lease on its accelerator in the store; all placements on the
    accelerator share that lease, and nobody else can acquire one. *)
Theorem placements_leased `{Fingerprints} (s : MemoryStore) (ttl : Duration) (c : config) (w : string) (p : activePlacement) :
  tokens_ok s -> place_reachable careful s ttl c -> activePlacements (c_m c) !! w = Some p -> ~ finishing c (pl_targetID p) ->
  exists l, targetLeases (c_m c) !! pl_targetID p = Some l /\ lease_AcceleratorID l = pl_acceleratorID p /\ holds (mgr_store (c_m c)) l /\
    (forall w' q, activePlacements (c_m c) !! w' = Some q -> pl_acceleratorID q = pl_acceleratorID p -> ~ finishing c (pl_targetID q) ->
       exists l', targetLeases (c_m c) !! pl_targetID q = Some l' /\ same_lease l l' /\ lease_WorkloadID l' = lease_WorkloadID l) /\
    (forall (R : GoRange) now v ttl' s' l' ok, timely now c -> room 1 (mgr_store (c_m c)) ->
       AcquireAcceleratorLease now (pl_acceleratorID p) v ttl' (mgr_store (c_m c)) = (s', (l', ok)) -> ok = false).
Proof.
  intros Ht Hr Hp Hn. apply reachable_covered in Hr as [_ Hcv]; [|done].
  assert (forall w q, activePlacements (c_m c) !! w = Some q -> ~ finishing c (pl_targetID q) ->
    exists l, targetLeases (c_m c) !! pl_targetID q = Some l /\ lease_AcceleratorID l = pl_acceleratorID q /\ holds (mgr_store (c_m c)) l) as Hall.
  { intros v q Hq Hnq. destruct (cv_seat _ Hcv v q Hq) as (l & Hl & Ha). exists l. split_and!; [done..|].
    by destruct (cv_pointer _ Hcv _ l Hl). }
  destruct (Hall w p Hp Hn) as (l & Hl & Ha & Hh). exists l. split_and!; [done..| |].
  - intros w' q Hq Hqa Hnq. destruct (Hall w' q Hq Hnq) as (l' & Hl' & Ha' & row' & Hrow' & Hw' & Ht').
    destruct Hh as (row & Hrow & Hw & Htok). exists l'. assert (row' = row) as -> by congruence.
    split_and!; [done|split; congruence|congruence].
  - intros R now v ttl' s' l' ok Htime Hroom E. apply (plain_acquire _ _ _ _ _ _ _ _ (cv_tokens _ Hcv) Hroom) in E.
    destruct ok; [|done]. destruct E as (_ & _ & _ & _ & _ & Hexp). pose proof Hh as (row & Hrow & _). rewrite Ha in Hrow.
    assert (unexpired now (mgr_store (c_m c)) l) as Hu by (apply Htime; [left; eauto|done]).
    specialize (Hexp row Hrow). rewrite <- Ha in Hrow. specialize (Hu row Hrow). lia.
Qed.

Lemma placements_leased_witness : exists l, targetLeases (c_m busy) !! "t1" = Some l /\ holds (mgr_store (c_m busy)) l.
Proof.
  edestruct (placements_leased NewMemoryStore minute busy "w1") as (l & Hl & _ & Hh & _).
  - apply lease_inv_tokens, lease_inv_new.
  - apply busy_careful.
  - vm_compute. reflexivity.
  - intros (rid & r & Hx & _). vm_compute in Hx. discriminate Hx.
  - exists l. split; [exact Hl|exact Hh].
Defined.

(** C30: when every request for a target respects the slots and the context
    pool advertised for it, the target never runs more workloads than it has
    slots, and the context reserved on it never exceeds the pool, in every
    interleaving. *)
Theorem capacity_respected `{Fingerprints} (slots pool : string -> Z) (s : MemoryStore) (ttl : Duration) (c : config) :
  (forall t, 0 <= slots t) -> (forall t, 0 <= pool t < 4611686018427387904) ->
  place_reachable (bounded slots pool) s ttl c ->
  forall t, targetActiveCount t (c_m c) <= slots t /\ count t (activePlacements (c_m c)) <= slots t /\
    context_on t (activePlacements (c_m c)) <= pool t.
Proof.
  intros Hs Hp Hr t. pose proof (reachable_accounted _ _ _ _ Hr) as [Hb _ _ _].
  apply (reachable_fits slots pool Hs Hp) in Hr as [Fc Fx _ _]. rewrite (balanced_count _ _ Hb). split_and!; [apply Fc|apply Fc|apply Fx].
Qed.

Lemma crowd_advertised w : w = "w1"%string \/ w = "w2"%string -> advertised (fun _ => 2) (fun _ => 100) (asks w t1).
Proof.
  intros [->| ->]; (split; [vm_compute; congruence|split; [vm_compute; split; congruence|]]);
    exists (mkModelPool 100 2 60); split; vm_compute; congruence.
Qed.

Lemma capacity_respected_witness : count "t1" (activePlacements (c_m crowded)) <= 2.
Proof.
  assert (place_reachable (bounded (fun _ => 2) (fun _ => 100)) NewMemoryStore minute crowded) as Hr.
  { apply crowded_reachable; [|exact I]. unfold crowd, reserves. cbn [app obeys].
    repeat (split; [first [exact I|apply crowd_advertised; auto]|]; destruct (perform _ _); [|exact I]). exact I. }
  destruct (capacity_respected (fun _ => 2) (fun _ => 100) NewMemoryStore minute crowded) with (t := "t1"%string) as (_ & H & _);
    [lia|lia|exact Hr|exact H].
Defined.

(** The last user of an accelerator gives its lease back outside the lock
    that elected it, and meanwhile others may join under that lease: there is
    a run after which [w2] is placed on [gpu0], with no call left that would
    notice, while the store holds no lease for it and [t3] has been given
    [gpu0] for its own workload. *)
Theorem release_race : exists c, place_reachable free NewMemoryStore minute c /\
  c_calls c = ∅ /\ c_releases c = ∅ /\
  (exists p rid r l, activePlacements (c_m c) !! "w2" = Some p /\ pl_acceleratorID p = "gpu0"%string /\
     open_at (c_m c) rid r /\ tr_workloadID r = "w2"%string /\ tr_lease r = Some l /\ ~ holds (mgr_store (c_m c)) l) /\
  (exists q hold l, activePlacements (c_m c) !! "w3" = Some q /\ pl_targetID q = "t3"%string /\
     companions (c_m c) !! "t3" = Some hold /\ l ∈ ch_leases hold /\ lease_AcceleratorID l = "gpu0"%string /\
     holds (mgr_store (c_m c)) l).
Proof.
  exists raced. split_and!; [|vm_compute; reflexivity..| |].
  - eapply (run_reachable _ _ _ race ready); [apply obeys_free|by apply ready_reachable|]. vm_compute. reflexivity.
  - exists (pr_placement (asks "w2" t1)), 1%nat, (freshReservation (asks "w2" t1) (mkAcceleratorLease "gpu0" "w1" 1 (noon + minute))),
      (mkAcceleratorLease "gpu0" "w1" 1 (noon + minute)).
    do 2 (split; [vm_compute; reflexivity|]). split; [split; vm_compute; reflexivity|]. do 2 (split; [vm_compute; reflexivity|]).
    intros (row & Hrow & Hw & _). vm_compute in Hrow. injection Hrow as <-. vm_compute in Hw. discriminate Hw.
  - exists (pr_placement (asks "w3" t3)), (mkCompanionHold [mkAcceleratorLease "gpu0" "companion:t3" 2 (noon + minute)] noon),
      (mkAcceleratorLease "gpu0" "companion:t3" 2 (noon + minute)).
    do 3 (split; [vm_compute; reflexivity|]). split; [left|]. split; [vm_compute; reflexivity|].
    eexists. split; [vm_compute; reflexivity|split; reflexivity].
Qed.

Lemma dropActive_count t m : targetActiveCount t (dropActive t m) = Z.max 0 (targetActiveCount t m - 1) \/ targetActiveCount t m <= 0.
Proof.
  unfold dropActive. destruct (_ <=? 1) eqn:E; bool_simp; unfold targetActiveCount at 1; cbn.
  - rewrite lookup_delete_eq. cbn. lia.
  - rewrite lookup_insert_eq. cbn. lia.
Qed.

(** Abandoning a restored victim takes its slot off the count twice, once
    with the fresh lease and once with the placement.  Starting from correct
    counts, a target that serves others beside the victim is left with a
    count below the number of its placements, so that a new request is let in
    although all slots are taken. *)
Theorem compensation_undercounts (clock now : Time) (ft : faults) (victim t : string) (lease : AcceleratorLease) (m m' : Manager)
    (p : activePlacement) :
  balanced m -> t <> ""%string -> activePlacements m !! victim = Some p -> pl_targetID p = t -> 2 <= count t (activePlacements m) ->
  abandonRestoredCheckpointVictim clock now ft victim t lease false m = (m', CleanedUp) ->
  targetActiveCount t m' = count t (activePlacements m') - 1 /\ 0 < count t (activePlacements m').
Proof.
  intros Hb Ht Hp Hpt Hc. unfold abandonRestoredCheckpointVictim, releaseFreshRestore.
  destruct (rollbackAcceleratorLease _ _ _ _ _ _) as [s' []]; [|by intros [= <-]..].
  unfold clearCheckpointCompensationLease. rewrite (bool_decide_eq_false_2 (t = ""%string)) by done.
  cbn [negb]. match goal with |- context [dropActive t ?x] => set (m1 := x) end. intros [= <-].
  assert (activePlacements (dropActive t m1) = activePlacements m) as Ep by (unfold dropActive; by destruct (_ <=? 1)).
  unfold abandonPlacement. rewrite Ep, Hp, bool_decide_eq_true_2 by done.
  match goal with |- targetActiveCount t (dropActive t ?x) = _ /\ _ => set (m2 := x) end.
  assert (targetActiveCount t m1 = count t (activePlacements m)) as E1 by (by rewrite <- (balanced_count m t Hb)).
  assert (targetActiveCount t m2 = count t (activePlacements m) - 1) as E2.
  { transitivity (targetActiveCount t (dropActive t m1)); [done|]. destruct (dropActive_count t m1); lia. }
  assert (activePlacements (dropActive t m2) = delete victim (activePlacements m)) as -> by (unfold dropActive; by destruct (_ <=? 1)).
  rewrite (seats_delete t victim p _ Hp), decide_True by done. destruct (dropActive_count t m2); lia.
Qed.

Lemma crowded_balanced : balanced (c_m crowded).
Proof. eapply ac_balanced, reachable_accounted, (crowded_reachable free); [apply obeys_free|exact I]. Qed.

Definition abandoned : Manager * cleanup :=
  abandonRestoredCheckpointVictim noon noon noFaults "w1" "t1" (mkAcceleratorLease "gpu0" "w1" 1 (noon + minute)) false (c_m crowded).

Lemma abandoned_clean : abandoned = (abandoned.1, CleanedUp).
Proof. assert (abandoned.2 = CleanedUp) as E by (vm_compute; reflexivity). destruct abandoned as [m o]. cbn in *. by subst. Qed.

Lemma compensation_undercounts_witness :
  targetActiveCount "t1" abandoned.1 = count "t1" (activePlacements abandoned.1) - 1 /\ 0 < count "t1" (activePlacements abandoned.1).
Proof.
  eapply (compensation_undercounts noon noon noFaults "w1" "t1" (mkAcceleratorLease "gpu0" "w1" 1 (noon + minute)) (c_m crowded));
    [exact crowded_balanced|discriminate|vm_compute; reflexivity|vm_compute; reflexivity|vm_compute; congruence|exact abandoned_clean].
Defined.
