(* ===== verification/PlacementCall.v ===== *)
(** * A reservation from beginning to end

    [reserveTarget] and [releaseTarget] as whole calls, run from any state the
    interleavings of [PlacementInv] reach: the loop of a reservation that is
    not interfered with ends in its first pass, and a release undoes what the
    reservation did. *)

From S2P Require Import Prelude GoText GoTime Domain DomainWorkload DomainNode Store Samples.
From S2P Require Import Leases WorkloadManager Admission Placement PlacementInv PlacementLease PlacementProps.

(** The same manager but for its store and its companions. *)
Definition same_tables (m m' : Manager) : Prop := exists s h, m' = m <| mgr_store := s |> <| companions := h |>.

#[export] Instance same_tables_preorder : PreOrder same_tables.
Proof.
  split.
  - intros []. eexists _, _. reflexivity.
  - intros m1 m2 m3 (s & h & ->) (s' & h' & ->). by exists s', h'.
Qed.

Lemma tables_store m s : same_tables m (m <| mgr_store := s |>).
Proof. exists s, (companions m). by destruct m. Qed.
Lemma tables_companions m h : same_tables m (m <| companions := h |>).
Proof. exists (mgr_store m), h. by destruct m. Qed.
Lemma tables_both m s h : same_tables m (m <| mgr_store := s |> <| companions := h |>).
Proof. by exists s, h. Qed.

Section call.
Context `{Fingerprints} {R : GoRange}.

Lemma hold_tables now target m m' reason : holdCompanionLeases now target m = Some (m', reason) -> same_tables m m'.
Proof.
  unfold holdCompanionLeases. destruct (tgt_CompanionAcceleratorIDs target); [intros [= <- <-]; reflexivity|].
  destruct (companions m !! _); [intros [= <- <-]; apply tables_companions|].
  destruct (targetAccelerators target) as [|a ids]; [done|].
  destruct (acquireCompanions _ _ _ _ _ _) as [s1 [why|got]]; intros [= <- <-]; [apply tables_store|apply tables_both].
Qed.

Lemma hold_panics now target m : holdCompanionLeases now target m = None ->
  tgt_AcceleratorID target = ""%string /\ tgt_CompanionAcceleratorIDs target <> [].
Proof.
  unfold holdCompanionLeases, targetAccelerators. destruct (tgt_CompanionAcceleratorIDs target); [done|].
  destruct (companions m !! _); [done|]. destruct (_ ==? _) eqn:E; [by bool_simp|].
  by destruct (acquireCompanions _ _ _ _ _ _) as [s' [why|got]].
Qed.

Lemma acquire_tables now pr m m' ph l : acquireForTarget now pr m = (m', (ph, l)) -> same_tables m m' /\
  match ph with
  | Continue => lease_AcceleratorID l = pr_leaseID pr /\ leases (mgr_store m') !! pr_leaseID pr = Some l
  | Placed _ => False
  | Declined _ => True
  end.
Proof.
  unfold acquireForTarget. destruct (AcquireAcceleratorLease _ _ _ _ _) as [s' [lease ok]] eqn:E. intros [= <- <- <-].
  split; [apply tables_store|]. destruct ok; [|done]. unfold AcquireAcceleratorLease in E.
  apply acquire_cases in E as (_ & -> & ->). split; [done|]. cbn.
  destruct (range_find _ _) as [[k op]|]; apply lookup_insert_eq.
Qed.

(** A section that leaves the tables to the durable call found them ready. *)
Lemma reserve_continues pr m m' : reserveLocked pr m = (m', Continue) ->
  m' = m /\ routeOf pr m = RouteCurrent /\ (pr_slots pr <=? targetActiveCount (tgt_ID (pr_target pr)) m) = false /\
  poolReason pr m = ""%string /\ targetLeases m !! tgt_ID (pr_target pr) = None /\
  forall t l, targetLeases m !! t = Some l -> lease_AcceleratorID l <> pr_leaseID pr.
Proof.
  intros E. pose proof (reserve_cases _ _ _ _ E) as [-> Hfree]. revert E. unfold reserveLocked.
  destruct (routeOf pr m); [done..|]. destruct (_ <=? _) eqn:Hs; [done|]. destruct (_ !=? _) eqn:Hp; [done|]. bool_simp.
  destruct (modelLimitReached pr m); [done|]. destruct (targetLeases m !! _) eqn:Hl; [done|]. done.
Qed.

(** Nothing the section looks at has changed when the durable call returns. *)
Lemma commit_alone pr lease m m1 : routeOf pr m = RouteCurrent ->
  (pr_slots pr <=? targetActiveCount (tgt_ID (pr_target pr)) m) = false -> poolReason pr m = ""%string ->
  targetLeases m !! tgt_ID (pr_target pr) = None -> same_tables m m1 ->
  exists m2 r, commitLocked pr lease m1 = (m2, Publish (nextReservation m1)) /\ entered pr 1 lease r m1 m2.
Proof.
  intros Hr Hs Hp Hl (s & h & ->). destruct (commitLocked pr lease _) as [m2 out] eqn:E. pose proof (commit_cases _ _ _ _ _ E) as Hc.
  unfold commitLocked in E. change (routeOf pr _) with (routeOf pr m) in E. change (poolReason pr _) with (poolReason pr m) in E.
  change (targetActiveCount (tgt_ID (pr_target pr)) _) with (targetActiveCount (tgt_ID (pr_target pr)) m) in E. cbn [targetLeases] in E.
  rewrite Hr, Hp, Hs in E. cbn in E. rewrite Hl in E. cbn in E. injection E as <- <-.
  destruct Hc as (_ & _ & _ & _ & _ & r & He). eauto.
Qed.

(** The lease of a reservation that was published after a durable call. *)
Definition acquired_for (pr : prepared) (l : AcceleratorLease) (m m' : Manager) : Prop :=
  targetLeases m !! tgt_ID (pr_target pr) = None /\ lease_AcceleratorID l = pr_leaseID pr /\
  leases (mgr_store m') !! pr_leaseID pr = Some l /\
  forall t l', targetLeases m !! t = Some l' -> lease_AcceleratorID l' <> pr_leaseID pr.

(** The loop ends in its first pass; no lease is rolled back. *)
Lemma loop_alone held acquired clock recorded ft fuel pr m m' out : balanced m ->
  reserveLoop held acquired clock recorded ft (S fuel) pr m = (m', out) ->
  match out with
  | Reserved rid => rid = nextReservation m /\ exists m0 l r, same_tables m m0 /\
      entered pr (count (tgt_ID (pr_target pr)) (activePlacements m) + 1) l r m0 m' /\
      (reused pr l m \/ acquired_for pr l m m')
  | NotReserved _ err => same_tables m m' /\ err = None
  | Panicked => m' = m /\ tgt_AcceleratorID (pr_target pr) = ""%string /\ tgt_CompanionAcceleratorIDs (pr_target pr) <> []
  | Retrying => False
  end.
Proof.
  intros Hb E. cbn in E. destruct (reserveLocked pr m) as [m1 ph] eqn:E1. destruct ph as [reason|rid|].
  - injection E as <- <-. apply reserve_cases in E1 as ->. by split.
  - injection E as <- <-. apply reserve_cases in E1 as (-> & _ & _ & _ & l & r & Hr & He). split; [done|].
    exists m, l, r. rewrite <- (balanced_count _ _ Hb). split; [reflexivity|]. eauto.
  - apply reserve_continues in E1 as (-> & Hroute & Hslots & Hpool & Hnone & Hfree).
    destruct (holdCompanionLeases _ _ _) as [[m2 reason]|] eqn:E2; [|injection E as <- <-; split; [done|by eapply hold_panics]].
    apply hold_tables in E2. destruct (reason !=? _); [by injection E as <- <-|].
    destruct (acquireForTarget _ _ _) as [m3 [ph l]] eqn:E3. apply acquire_tables in E3 as [E3 Hl].
    assert (same_tables m m3) as Ht by (by etrans).
    destruct ph as [why|rid|]; [by injection E as <- <-|done|]. destruct Hl as [Hacc Hl].
    destruct (commit_alone pr l m m3 Hroute Hslots Hpool Hnone Ht) as (m4 & r & E4 & He). rewrite E4 in E. injection E as <- <-.
    split; [by destruct Ht as (s & h & ->)|]. exists m3, l, r. split; [done|].
    assert (count (tgt_ID (pr_target pr)) (activePlacements m) = 0) as ->.
    { pose proof (seats_nonneg (tgt_ID (pr_target pr)) (activePlacements m)). destruct (Hb (tgt_ID (pr_target pr))) as [_ Hi].
      rewrite Hnone in Hi. destruct (decide (0 < count (tgt_ID (pr_target pr)) (activePlacements m))) as [Hp|]; [|lia].
      by apply Hi in Hp as [? ?]. }
    split; [done|]. right. unfold acquired_for. by rewrite (en_store _ _ _ _ _ _ He).
Qed.
End call.

(** ** Leaving again *)

Lemma removePlacement_active now w t m : targetActive (removePlacement now w t m) =
  if 1 <? targetActiveCount t m then <[t := targetActiveCount t m - 1]> (targetActive m) else delete t (targetActive m).
Proof. unfold removePlacement, leaveTarget. change (targetActiveCount t _) with (targetActiveCount t m). by destruct (1 <? _). Qed.

(** An exit after an entry restores the tables. *)
Lemma exit_entered pr l r m m0 m1 m1' m2 w : balanced m -> same_tables m m0 -> activePlacements m !! w = None ->
  well_prepared w pr -> (targetLeases m !! tgt_ID (pr_target pr) = None \/ targetLeases m !! tgt_ID (pr_target pr) = Some l) ->
  entered pr (count (tgt_ID (pr_target pr)) (activePlacements m) + 1) l r m0 m1 -> calm m1 m1' ->
  exits (nextReservation m) m1' m2 ->
  targetActive m2 = targetActive m /\ targetLeases m2 = targetLeases m /\ same_seats (activePlacements m) (activePlacements m2).
Proof.
  intros Hb (s & h & ->) Hw (Pw & Pt & _) Hl [Ea El Ep Eh _ _ _ (R1 & R2 & _ & _) _] [Ca Cl _ Cp Ch] [now q q' Hq _ _ _ _ Xa Xl Xp].
  cbn in Ea, El, Ep, Eh. specialize (Ch (nextReservation m)). rewrite Hq, Eh, lookup_insert_eq in Ch.
  inversion_clear Ch as [? ? (Q1 & Q2 & _)|]. cbn in R1, R2. rewrite <- Q1, R1, Pw in *. rewrite <- Q2, R2 in *.
  set (t := tgt_ID (pr_target pr)) in *. set (n := count t (activePlacements m)) in *.
  assert (targetActiveCount t m1' = n + 1) as En by (unfold targetActiveCount; by rewrite Ca, Ea, Pt, lookup_insert_eq).
  rewrite Xa, Xl, removePlacement_active, removePlacement_leases, En, Ca, Cl, Ea, El, Pt, Xp. destruct (Hb t) as [Ht Hp]. fold n in Ht, Hp.
  pose proof (seats_nonneg t (activePlacements m)) as Hn. fold n in Hn. split_and!.
  - destruct (1 <? n + 1) eqn:E; bool_simp.
    + rewrite insert_insert_eq. replace (n + 1 - 1) with n by lia. rewrite insert_id; [done|]. rewrite Ht. destruct (_ =? _) eqn:E0; [bool_simp; lia|done].
    + rewrite delete_insert_eq, delete_id; [done|]. rewrite Ht. destruct (_ =? _) eqn:E0; [done|bool_simp; lia].
  - destruct (1 <? n + 1) eqn:E; bool_simp.
    + destruct Hl as [Hl|Hl]; [|by rewrite insert_id]. rewrite Hl in Hp. destruct (proj2 Hp ltac:(lia)) as [? Hx]. done.
    + rewrite delete_insert_eq, delete_id; [done|]. apply eq_None_not_Some. rewrite Hp. lia.
  - intros w'. destruct (decide (w = w')) as [<-|Hne]; [rewrite lookup_delete_eq, Hw; constructor|].
    rewrite lookup_delete_ne by done. specialize (Ep w'). specialize (Cp w'). rewrite lookup_insert_ne in Ep by done. by etrans.
Qed.

Lemma stillActive_spec r acc m : stillActive r acc m = true <->
  exists w p, activePlacements m !! w = Some p /\ pl_workloadID p <> tr_workloadID r /\ pl_acceleratorID p = acc.
Proof.
  unfold stillActive. rewrite existsb_exists. split.
  - intros (p & Hp & Hx). apply list_elem_of_In, list_elem_of_fmap in Hp as ([w p'] & -> & Hp). apply elem_of_map_to_list in Hp.
    bool_simp. exists w, p'. by bool_simp.
  - intros (w & p & Hp & Hne & Ha). exists p. split.
    + apply list_elem_of_In, list_elem_of_fmap. exists (w, p). split; [done|by apply elem_of_map_to_list].
    + by rewrite (bool_decide_eq_true_2 _ Ha), (bool_decide_eq_false_2 _ Hne).
Qed.

Lemma forget_exits rid m m1 : exits rid m m1 -> exits rid m (forgetReservation rid m1) /\ mgr_store (forgetReservation rid m1) = mgr_store m1.
Proof.
  intros Hx. unfold forgetReservation. split; [eapply exits_quiet; [exact Hx|..]|];
    (destruct (reservationHeap m1 !! rid); [destruct (_ ==? _)|]; done).
Qed.

(** The last user's durable release under the lease it acquired. *)
Lemma durable_clean clock now l m : leases (mgr_store m) !! lease_AcceleratorID l = Some l ->
  exists s, releaseDurable clock now noFaults l None m = (m <| mgr_store := s |>, CleanedUp) /\ leases s !! lease_AcceleratorID l = None.
Proof.
  intros Hl. unfold releaseDurable, rollbackAcceleratorLeaseWithIntent, rollbackAcceleratorLeaseWithIntentMode, releaseOrVerify.
  cbn. unfold ReleaseAcceleratorLease. rewrite Hl, bool_decide_eq_true_2, Z.eqb_refl by done. cbn.
  eexists. split; [reflexivity|]. cbn. apply lookup_delete_eq.
Qed.

(** A release of an idle reservation without a fault. *)
Lemma release_open clock now rid r l m : reservationHeap m !! rid = Some r -> tr_released r = false -> tr_lease r = Some l ->
  tr_backendStopPending r = false -> tr_releaseInFlight r = false -> tr_cleanupIntent r = None ->
  (stillActive r (lease_AcceleratorID l) m = false -> leases (mgr_store m) !! lease_AcceleratorID l = Some l) ->
  exists m' m2, releaseTarget clock now noFaults rid m = (m2, false) /\ calm m m' /\ exits rid m' m2 /\
    (stillActive r (lease_AcceleratorID l) m = false -> leases (mgr_store m2) !! lease_AcceleratorID l = None).
Proof.
  intros Hr Hrel Hl Hst Hfl Hci Hheld. unfold releaseTarget, releaseTargetWithIntent. rewrite Hr. cbn [mbind option_bind]. rewrite Hci.
  destruct (releaseElect now rid m) as [m1 out] eqn:E. pose proof (elect_cases _ _ _ _ _ E) as (Es & _ & _ & Hc).
  unfold releaseElect in E. rewrite Hr, Hl, Hst, Hrel, Hfl in E. cbn -[removePlacement setReservation] in E.
  destruct (stillActive r (lease_AcceleratorID l) m) eqn:Hsa; injection E as E <-; rewrite ?E.
  - exists m. eexists. destruct (forget_exits rid m m1 (proj1 Hc)). split; [reflexivity|]. split_and!; [apply quiet_refl|done|done].
  - destruct Hc as (Hcalm & Hp & Hin & _ & r' & Hr' & Hrel' & _). rewrite <- Es in Hheld.
    destruct (durable_clean clock now l m1 (Hheld eq_refl)) as (s & -> & Hgone).
    unfold finishReleasedReservation. destruct (finishReleased now rid (m1 <| mgr_store := s |>)) as [m3 go] eqn:E3.
    apply finish_cases in E3 as (E3s & _ & _ & E3). destruct go.
    + destruct (forget_exits _ _ _ E3) as [Hx Hxs]. exists (m1 <| mgr_store := s |>). eexists. split; [reflexivity|].
      split_and!; [|done|intros _; rewrite Hxs, E3s; exact Hgone]. destruct Hcalm. by split.
    + destruct E3 as [_ E3]. pose proof (q_heap _ _ Hcalm rid) as Hh. rewrite Hr in Hh. inversion Hh as [? q (_ & _ & _ & Q) Hx Hy|].
      cbn in E3. symmetry in Hy. specialize (E3 q Hy). congruence.
Qed.

(** Whoever lends a lease is on its accelerator. *)
Lemma pointer_seat c t l : accounted c -> covered c -> targetLeases (c_m c) !! t = Some l ->
  exists w p, activePlacements (c_m c) !! w = Some p /\ pl_acceleratorID p = lease_AcceleratorID l.
Proof.
  intros Hac Hcv Hl. destruct (ac_balanced _ Hac t) as [_ Hi].
  destruct (seats_elem t (activePlacements (c_m c))) as (w & p & Hp & Ht); [apply Hi; eauto|].
  destruct (cv_seat _ Hcv w p Hp) as (l' & Hl' & Ha). exists w, p. split; [done|congruence].
Qed.

Lemma prepare_target `{Fingerprints} {R : GoRange} now answer target request requirements m m' pr :
  prepareReservation now answer target request requirements m m' = Proceed pr ->
  pr_target pr = target \/ pr_target pr = targetByID (tgt_ID target) m.
Proof.
  unfold prepareReservation. set (target' := if tgt_ID (targetByID (tgt_ID target) m) !=? _ then _ else _). intros Hp.
  repeat match type of Hp with
  | (if ?b then _ else _) = _ => destruct b eqn:?; try discriminate Hp
  | match ?x with _ => _ end = _ => destruct x eqn:?; try discriminate Hp
  end.
  injection Hp as <-. cbn. unfold target'. destruct (_ !=? _); auto.
Qed.

(** What a reservation of [w] leaves behind and what a release makes of it. *)
Definition undone (clock now : Time) (w : string) (rid : nat) (m m1 : Manager) : Prop :=
  exists p l m2, activePlacements m1 !! w = Some p /\ targetLeases m1 !! pl_targetID p = Some l /\
    targetActiveCount (pl_targetID p) m1 = targetActiveCount (pl_targetID p) m + 1 /\
    releaseTarget clock now noFaults rid m1 = (m2, false) /\
    targetActive m2 = targetActive m /\ targetLeases m2 = targetLeases m /\
    same_seats (activePlacements m) (activePlacements m2) /\
    ((forall w' q, activePlacements m !! w' = Some q -> pl_acceleratorID q <> lease_AcceleratorID l) ->
     leases (mgr_store m2) !! lease_AcceleratorID l = None).

Lemma entered_undone `{Fingerprints} {R : GoRange} clock now w c pr l r m0 m1 : accounted c -> covered c ->
  activePlacements (c_m c) !! w = None -> well_prepared w pr -> same_tables (c_m c) m0 ->
  entered pr (count (tgt_ID (pr_target pr)) (activePlacements (c_m c)) + 1) l r m0 m1 ->
  (reused pr l (c_m c) \/ acquired_for pr l (c_m c) m1) -> undone clock now w (nextReservation (c_m c)) (c_m c) m1.
Proof.
  intros Hac Hcv Hw Hwp Ht He Hl. pose proof Hwp as (Pw & Pt & Pa). pose proof He as [Ea El Ep Eh _ Es _ (R1 & R2 & R3 & R4) (I1 & I2 & I3)].
  destruct Ht as (s & h & ->). cbn in Ea, El, Ep, Eh, Es, R1, R2, R3, R4.
  destruct (same_seats_lookup _ _ w (pr_placement pr) Ep) as (p & Hp & _ & Ept & _); [by rewrite Pw, lookup_insert_eq|].
  assert (forall t, targetLeases (c_m c) !! t = Some l -> stillActive r (lease_AcceleratorID l) m1 = true) as Hstill.
  { intros t Htl. destruct (pointer_seat c t l Hac Hcv Htl) as (v & q & Hq & Hqa). apply stillActive_spec.
    destruct (same_seats_lookup _ _ v q Ep) as (q' & Hq' & Hqw & _ & Hqa' & _); [rewrite Pw, lookup_insert_ne by congruence; done|].
    exists v, q'. split_and!; [done| |congruence]. rewrite R1, Pw, <- Hqw, (lg_key _ (ac_ledger _ Hac) v q Hq). congruence. }
  destruct (release_open clock now (nextReservation (c_m c)) r l m1) as (m' & m2 & Hrel & Hcalm & Hx & Hgone); try done.
  - by rewrite Eh, lookup_insert_eq.
  - intros Hsa. destruct Hl as [Hl|(_ & -> & ? & _)]; [|done]. destruct Hl as [Hl|(_ & _ & _ & t & Hl)]; by rewrite (Hstill _ Hl) in Hsa.
  - destruct (exit_entered pr l r (c_m c) _ m1 m' m2 w (ac_balanced _ Hac) (tables_both _ s h) Hw Hwp) as (Xa & Xl & Xp); try done.
    { destruct Hl as [[Hl|(Hl & _)]|(Hl & _)]; [by right|by left..]. }
    exists p, l, m2. rewrite <- Ept, Pt. split_and!; try done.
    + by rewrite El, lookup_insert_eq.
    + rewrite (balanced_count _ _ (ac_balanced _ Hac)). unfold targetActiveCount. by rewrite Ea, Pt, lookup_insert_eq.
    + intros Hnobody. apply Hgone. destruct (stillActive r _ m1) eqn:Hsa; [|done].
      apply stillActive_spec in Hsa as (v & q & Hq & Hqw & Hqa). destruct (same_seats_lookup _ _ v q (symmetry Ep) Hq) as (q' & Hq' & Hww & _ & Haa & _).
      apply lookup_insert_Some in Hq' as [[_ <-]|[_ Hq']]; [congruence|]. destruct (Hnobody v q' Hq'). congruence.
Qed.

(** C31: a reservation that runs without interference, from any state a
    careful run reaches, ends in the first pass of its loop and rolls no lease
    back.  When it is refused the tables are as before; it panics only for a
    target with companions and no accelerator of its own.  When it succeeds
    the workload is placed under a lease pointer and counted once, its release
    succeeds and restores counts, pointers and placements, and if nobody else
    was on the accelerator the store has no lease on it any more. *)
Theorem reservation_returned `{Fingerprints} {R : GoRange} (held acquired clock recorded : Time) (ft : faults) (fuel : nat)
    (now : Time) (answer : observation) (target : Target) (request : WorkloadRequest) (requirements : Requirements)
    (s : MemoryStore) (ttl : Duration) (c : config) (clock' now' : Time) :
  tokens_ok s -> place_reachable careful s ttl c -> activePlacements (c_m c) !! req_ID request = None ->
  let '(m1, out) := reserveTarget held acquired clock recorded ft (S fuel) now answer target request requirements (c_m c) in
  match out with
  | Reserved rid => undone clock' now' (req_ID request) rid (c_m c) m1
  | NotReserved _ err => same_tables (c_m c) m1 /\ forall outcome, err <> Some (inr outcome)
  | Panicked => m1 = c_m c /\ exists t, (t = target \/ t = targetByID (tgt_ID target) (c_m c)) /\
      tgt_AcceleratorID t = ""%string /\ tgt_CompanionAcceleratorIDs t <> []
  | Retrying => False
  end.
Proof.
  intros Ht Hr Hw. apply reachable_covered in Hr as [Hac Hcv]; [|done].
  destruct (reserveTarget _ _ _ _ _ _ _ _ _ _ _ _) as [m1 out] eqn:E. unfold reserveTarget in E.
  destruct (prepareReservation _ _ _ _ _ _ _) as [reason|e|pr] eqn:Hp; [by injection E as <- <-..|].
  pose proof (prepare_wf _ _ _ _ _ _ _ _ Hp) as [Hwp _]. apply prepare_target in Hp.
  apply loop_alone in E; [|by apply ac_balanced]. destruct out as [rid|reason err| |].
  - destruct E as (-> & m0 & l & r & Hm & He & Hl). by eapply entered_undone.
  - by destruct E as [? ->].
  - destruct E as (-> & ? & ?). split; [done|]. eauto.
  - done.
Qed.

#[local] Existing Instance ids.

Definition alone : Manager * reserveResult :=
  reserveTarget (R := by_key) noon noon noon noon noFaults 1 noon NoObserver t1 ((zero : WorkloadRequest) <| req_ID := "w2"%string |>)
    (mkRequirements "m" 0 50) (c_m busy).

Lemma reservation_returned_witness : alone = (alone.1, Reserved 1) /\ undone noon noon "w2" 1 (c_m busy) alone.1.
Proof.
  assert (alone.2 = Reserved 1) as E by (vm_compute; reflexivity).
  assert (activePlacements (c_m busy) !! "w2"%string = None) as Hn by (vm_compute; reflexivity).
  pose proof (reservation_returned (R := by_key) noon noon noon noon noFaults 0 noon NoObserver t1 ((zero : WorkloadRequest) <| req_ID := "w2"%string |>)
    (mkRequirements "m" 0 50) NewMemoryStore minute busy noon noon
    (lease_inv_tokens _ lease_inv_new) busy_careful Hn) as Hx.
  fold alone in Hx. destruct alone as [m1 out]. cbn in E. subst out. split; [reflexivity|exact Hx].
Defined.
