(* ===== verification/PlacementSharing.v ===== *)
(** * Sharing an accelerator

    What [canCoScheduleLocked] guarantees when it lets a workload in beside
    others, and what it does not: its verdict can depend on the order in which
    it meets the others, and the profiles learned from sharing are filed under
    keys it never looks up. *)

From Stdlib Require Import Floats.SpecFloat.
From stdpp Require Import sorting.
From S2P Require Import Prelude GoText GoTime Domain DomainWorkload DomainNode Store Samples.
From S2P Require Import Leases Budget WorkloadManager Admission Placement PlacementInv PlacementProps.

(** ** The composition *)

(** The placements on an accelerator, in no particular order. *)
Definition parties (acc : string) (m : Manager) : list activePlacement :=
  filter (fun p => pl_acceleratorID p = acc) (map_to_list (activePlacements m)).*2.

Lemma victims_parties {R : GoRange} acc m : victimsOf acc m ≡ₚ parties acc m.
Proof. unfold victimsOf, parties. by rewrite go_range_perm. Qed.

(** Memory sizes in MiB whose bytes fit a machine word. *)
Definition sizes_ok (ps : list activePlacement) : Prop :=
  Z.of_nat (length ps) < 524288 /\ forall p, p ∈ ps -> pl_vramMB p < 8796093022208 /\ pl_reserveVRAMMB p < 8796093022208.

Lemma compose_spec vs : forall c c', composeVictims vs c = inr c' -> 0 < co_capacity c -> 0 <= co_predicted c ->
  co_predicted c + Z.of_nat (length vs) * 8796093022208 <= MaxInt64 ->
  (forall v, v ∈ vs -> pl_vramMB v < 8796093022208) ->
  (forall v, v ∈ vs -> consents v = true /\ 0 < pl_vramMB v) /\
  co_predicted c' = co_predicted c + sum_of pl_vramMB vs /\
  co_reserve c <= co_reserve c' /\ (forall v, v ∈ vs -> pl_reserveVRAMMB v <= co_reserve c') /\
  (forall b, co_reserve c <= b -> (forall v, v ∈ vs -> pl_reserveVRAMMB v <= b) -> co_reserve c' <= b) /\
  0 < co_capacity c' <= co_capacity c /\ (forall v, v ∈ vs -> 0 < pl_capacityVRAMMB v -> co_capacity c' <= pl_capacityVRAMMB v).
Proof.
  induction vs as [|v vs IH]; intros c c'; cbn -[composeVictim Z.of_nat Z.mul].
  { intros [= <-] Hc Hp _ _. unfold sum_of. cbn. split_and!; try lia; intros v Hv; by apply elem_of_nil in Hv. }
  destruct (composeVictim v c) as [|c1] eqn:E; [done|]. intros H Hc Hp Hb Hv.
  unfold composeVictim in E. destruct (_ || _) eqn:Hg; [done|]. destruct (SFltb _ _); [done|]. injection E as <-. bool_simp.
  assert (consents v = true /\ 0 < pl_vramMB v) as [Hcv Hv0] by (split; [by destruct (consents v)|lia]).
  pose proof (Hv v ltac:(left)) as Hv1.
  assert (wrap64 (co_predicted c + pl_vramMB v) = co_predicted c + pl_vramMB v) as Ew by (apply wrap64_small; lia).
  apply IH in H as (J1 & J2 & J3 & J4 & J5 & J6 & J7); cbn in *; rewrite ?Ew in *; try lia.
  2: { destruct (_ && _) eqn:E in |- *; bool_simp; lia. }
  2: { intros x Hx. apply Hv. by right. }
  set (cap := if (0 <? pl_capacityVRAMMB v) && _ then _ else _) in *.
  assert (0 < cap <= co_capacity c /\ (0 < pl_capacityVRAMMB v -> cap <= pl_capacityVRAMMB v)) as [Hcap1 Hcap2].
  { unfold cap. destruct (0 <? pl_capacityVRAMMB v) eqn:E1, (co_capacity c =? 0) eqn:E2, (pl_capacityVRAMMB v <? co_capacity c) eqn:E3;
      cbn; bool_simp; lia. }
  set (res := if co_reserve c <? _ then _ else _) in *.
  assert (co_reserve c <= res /\ pl_reserveVRAMMB v <= res /\ (res = co_reserve c \/ res = pl_reserveVRAMMB v)) as (Hr1 & Hr2 & Hr3)
    by (unfold res; destruct (_ <? _) eqn:Er; bool_simp; lia).
  split_and!; try lia.
  - intros x [->|Hx]%elem_of_cons; [done|by apply J1].
  - unfold sum_of in *. cbn. lia.
  - intros x [->|Hx]%elem_of_cons; [lia|by apply J4].
  - intros b Hb1 Hb2. apply J5; [|intros x Hx; apply Hb2; by right]. pose proof (Hb2 v ltac:(left)). destruct Hr3; lia.
  - intros x [->|Hx]%elem_of_cons Hx0; [specialize (Hcap2 Hx0); lia|by apply J7].
Qed.

Lemma sum_of_perm {A} (f : A -> Z) l l' : l ≡ₚ l' -> sum_of f l = sum_of f l'.
Proof. apply sum_perm. Qed.

(** What the last checks leave of a composition. *)
Lemma judge_allowed newcomer learned c : cs_allowed (judgeComposition newcomer learned c) = true ->
  0 <= co_predicted c -> co_predicted c + 8796093022208 <= MaxInt64 -> co_reserve c < 8796093022208 ->
  co_predicted c + Z.max 1 (co_reserve c) <= co_capacity c /\
  cs_predictedVRAMMB (judgeComposition newcomer learned c) = co_predicted c.
Proof.
  unfold judgeComposition. set (d := if co_reserve c <=? 0 then _ else _). intros Hok Hp Hb Hr.
  assert (co_predicted d = co_predicted c /\ co_capacity d = co_capacity c /\ Z.max 1 (co_reserve c) <= co_reserve d < 8796093022208) as (E1 & E2 & E3)
    by (unfold d; destruct (_ <=? _) eqn:E; bool_simp; cbn; lia).
  clearbody d. destruct (co_capacity d <? _) eqn:E; [done|]. bool_simp. rewrite wrap64_small in E by lia.
  split; [lia|]. destruct learned as [p|]; [destruct (_ <? _); [done|]; destruct (SFltb _ _); done|].
  by destruct (negb (co_known d) && negb _).
Qed.

Lemma share_admits {R : GoRange} newcomer m : sizes_ok (newcomer :: parties (pl_acceleratorID newcomer) m) ->
  let verdict := canCoScheduleLocked newcomer m in
  let ps := newcomer :: parties (pl_acceleratorID newcomer) m in
  cs_allowed verdict = true ->
  cs_predictedVRAMMB verdict = sum_of pl_vramMB ps /\
  forall p, p ∈ ps -> consents p = true /\ 0 < pl_vramMB p /\
    sum_of pl_vramMB ps + pl_reserveVRAMMB p <= pl_capacityVRAMMB newcomer /\
    (0 < pl_capacityVRAMMB p -> sum_of pl_vramMB ps + pl_reserveVRAMMB p <= pl_capacityVRAMMB p).
Proof.
  intros [Hlen Hsz]. unfold canCoScheduleLocked. destruct (consents newcomer) eqn:Hc; [cbn -[judgeComposition]|done].
  destruct (_ || _) eqn:Hg; [done|]. destruct (SFltb _ _); [done|]. bool_simp.
  destruct (composeVictims _ _) as [refused|c] eqn:E.
  { intros Hok. exfalso. revert E. generalize (victimsOf (pl_acceleratorID newcomer) m).
    intros vs. match goal with |- composeVictims _ ?c = _ -> _ => generalize c end.
    induction vs as [|v vs IH]; intros c; cbn -[composeVictim]; [done|].
    destruct (composeVictim v c) as [x|c1] eqn:Ev; [|apply IH]. intros [= ->]. unfold composeVictim in Ev.
    destruct (_ || _); [by injection Ev as <-|]. destruct (SFltb _ _); [by injection Ev as <-|done]. }
  set (vs := parties _ m) in *. pose proof (victims_parties (R := R) (pl_acceleratorID newcomer) m) as Hperm. fold vs in Hperm.
  assert (forall v, v ∈ victimsOf (pl_acceleratorID newcomer) m <-> v ∈ vs) as Hin by (intros v; by rewrite Hperm).
  destruct (Hsz newcomer ltac:(left)) as [Hn1 Hn2]. cbn [length] in Hlen.
  remember (sum_of pl_vramMB (newcomer :: vs)) as T eqn:HT.
  apply compose_spec in E as (J1 & J2 & J3 & J4 & J5 & J6 & J7); cbn in *; try lia.
  2: { rewrite (Permutation_length Hperm). unfold MaxInt64. lia. }
  2: { intros v Hv. apply Hsz. right. by apply Hin. }
  rewrite (sum_of_perm pl_vramMB _ _ Hperm) in J2.
  assert (0 <= sum_of pl_vramMB vs <= Z.of_nat (length vs) * 8796093022208) as Htot.
  { clear -J1 Hsz Hin. assert (forall v, v ∈ vs -> 0 < pl_vramMB v < 8796093022208) as Hv
      by (intros v Hv; split; [by apply J1, Hin|apply Hsz; by right]).
    clear J1 Hsz Hin. induction vs as [|v l IH]; cbn -[Z.mul Z.of_nat]; [unfold sum_of; cbn; lia|].
    pose proof (Hv v ltac:(left)). assert (0 <= sum_of pl_vramMB l <= Z.of_nat (length l) * 8796093022208) by (apply IH; intros; apply Hv; by right).
    unfold sum_of in *. cbn -[Z.mul Z.of_nat]. lia. }
  intros Hok. apply judge_allowed in Hok as [Hfit ->]; [|unfold MaxInt64 in *; lia..|].
  2: { enough (co_reserve c <= 8796093022207) by lia. apply J5; [lia|]. intros v Hv. apply Hin in Hv. destruct (Hsz v); [by right|lia]. }
  assert (T = co_predicted c) as -> by (subst T; unfold sum_of in *; cbn; lia).
  split; [done|]. intros p [->|Hp]%elem_of_cons; [split_and!; [done|lia|lia|lia]|].
  apply Hin in Hp. destruct (J1 p Hp). specialize (J4 p Hp). specialize (J7 p Hp). split_and!; [done|lia|lia|lia].
Qed.

(** ** The keys of learned profiles *)

Lemma concat_length l : String.length (String.concat "+" l) = (foldr (fun s n => String.length s + n) 0 l + pred (length l))%nat.
Proof.
  induction l as [|s l IH]; [done|]. destruct l as [|s' l]; [cbn; lia|].
  change (String.concat "+" (s :: s' :: l)) with (s +:+ "+" +:+ String.concat "+" (s' :: l))%string.
  rewrite !string_length_app, IH. cbn. lia.
Qed.

Lemma concat_length_perm l l' : l ≡ₚ l' -> String.length (String.concat "+" l) = String.length (String.concat "+" l').
Proof. intros Hp. rewrite !concat_length, (Permutation_length Hp). f_equal. induction Hp; cbn; lia. Qed.

Definition before (a b : string) : Prop := Is_true (negb (String.ltb b a)).

Lemma before_le a b : before a b <-> String.le a b.
Proof.
  unfold before, String.le, String.ltb, String.leb. rewrite (String.compare_antisym b a). by destruct (String.compare a b).
Qed.
#[local] Instance before_trans : Transitive before.
Proof. intros a b c. rewrite !before_le. apply transitivity. Qed.
#[local] Instance before_total : Total before.
Proof. intros a b. rewrite !before_le. apply (total String.le). Qed.
#[local] Instance before_antisym : AntiSymm (=) before.
Proof. intros a b. rewrite !before_le. apply anti_symm. apply _. Qed.

Lemma sortStrings_sorted l : StronglySorted before (sortStrings l).
Proof. apply (StronglySorted_merge_sort before). Qed.

Lemma compactAfter_spec prev l : StronglySorted before (prev :: l) ->
  NoDup (prev :: compactAfter prev l) /\ StronglySorted before (prev :: compactAfter prev l) /\
  forall x, x ∈ prev :: compactAfter prev l <-> x ∈ prev :: l.
Proof.
  revert prev. induction l as [|y l IH]; intros prev Hs; cbn.
  { split_and!; [apply NoDup_singleton|done|done]. }
  apply StronglySorted_inv in Hs as [Hs Hall]. pose proof Hall as Hall'. apply Forall_cons in Hall as [Hy Hall].
  destruct (decide (y = prev)) as [->|Hne].
  - rewrite bool_decide_eq_true_2 by done. cbn. destruct (IH prev Hs) as (J1 & J2 & J3). split_and!; [done..|].
    intros x. rewrite J3. set_solver.
  - rewrite bool_decide_eq_false_2 by done. cbn. destruct (IH y Hs) as (J1 & J2 & J3).
    assert (forall x, x ∈ y :: compactAfter y l -> before prev x /\ before y x) as Hge.
    { intros x Hx. apply J3 in Hx. rewrite Forall_forall in Hall'. split; [by apply Hall'|].
      apply StronglySorted_inv in Hs as [_ Hy2]. rewrite Forall_forall in Hy2.
      apply elem_of_cons in Hx as [->|Hx]; [by apply before_le|by apply Hy2]. }
    split_and!.
    + apply NoDup_cons. split; [|done]. intros Hin. destruct (Hge prev Hin). apply Hne. by apply (anti_symm before).
    + constructor; [done|]. apply Forall_forall. intros x Hx. by apply Hge.
    + intros x. rewrite elem_of_cons, J3, (elem_of_cons (y :: l)). done.
Qed.

Lemma compact_spec l : NoDup (compactStrings (sortStrings l)) /\ StronglySorted before (compactStrings (sortStrings l)) /\
  forall x, x ∈ compactStrings (sortStrings l) <-> x ∈ l.
Proof.
  pose proof (sortStrings_sorted l) as Hs. pose proof (sort_slice_perm String.ltb l) as Hp. fold (sortStrings l) in Hp.
  destruct (sortStrings l) as [|y k]; cbn.
  - split_and!; [constructor..|]. intros x. by rewrite Hp.
  - destruct (compactAfter_spec y k Hs) as (J1 & J2 & J3). split_and!; [done..|]. intros x. by rewrite J3, Hp.
Qed.

(** Compacting a sorted list keeps one of each. *)
Lemma compact_same l l' : (forall x, x ∈ l <-> x ∈ l') -> compactStrings (sortStrings l) = compactStrings (sortStrings l').
Proof.
  intros Hx. destruct (compact_spec l) as (N1 & S1 & E1), (compact_spec l') as (N2 & S2 & E2).
  apply (StronglySorted_unique before); [done..|]. apply NoDup_Permutation; [done..|]. intros x. by rewrite E1, E2.
Qed.

(** The placements after a workload has joined. *)
Lemma joined_parties acc p m : activePlacements m !! pl_workloadID p = None -> pl_acceleratorID p = acc ->
  forall {A} (f : activePlacement -> A), (forall q, f (q <| pl_sharedObserved := true |>) = f q) ->
  forall m', activePlacements m' = <[pl_workloadID p := p]> (activePlacements (markShared acc m)) ->
  f <$> parties acc m' ≡ₚ f p :: (f <$> parties acc m).
Proof.
  intros Hw Ha A f Hf m' Em. unfold parties, markShared in *. rewrite Em. unfold set_field. cbn -[bool_decide].
  set (g := fun q : activePlacement => if pl_acceleratorID q ==? acc then _ else q).
  assert (forall q, pl_acceleratorID (g q) = pl_acceleratorID q /\ f (g q) = f q) as Hg
    by (intros q; unfold g; destruct (_ ==? _); split; try done; apply (Hf q)).
  clearbody g. rewrite map_to_list_insert by (by rewrite lookup_fmap, Hw).
  rewrite fmap_cons, filter_cons, decide_True by done. cbn. f_equiv. rewrite map_to_list_fmap.
  enough (forall l : list (string * activePlacement), f <$> filter (fun q => pl_acceleratorID q = acc) (prod_map id g <$> l).*2
    = f <$> filter (fun q => pl_acceleratorID q = acc) l.*2) as -> by done.
  intros l. induction l as [|[k q] l IH]; [done|]. rewrite !fmap_cons, !filter_cons. cbn.
  destruct (Hg q) as [E1 E2]. rewrite E1. destruct (decide _); [|done]. rewrite !fmap_cons, E2. by f_equal.
Qed.

(** The same workloads about to meet on the accelerator again. *)
Definition same_combination (q : activePlacement) (m2 : Manager) (p : activePlacement) (m : Manager) : Prop :=
  pl_acceleratorID q = pl_acceleratorID p /\
  forall f, f = pl_workloadClass \/ f = pl_runtimeVersion \/ f = pl_fingerprint ->
    f q = f p /\ f <$> parties (pl_acceleratorID p) m2 ≡ₚ f <$> parties (pl_acceleratorID p) m.

(** A list of names that has grown by one is longer when joined, and names
    the same set when the new one was there. *)
Lemma joined_longer (l l' : list string) s : l' ≡ₚ s :: l -> l <> [] ->
  (String.length (String.concat "+" (sortStrings l)) < String.length (String.concat "+" (sortStrings l')))%nat.
Proof.
  intros Hp Hne. unfold sortStrings.
  rewrite (concat_length_perm _ _ (sort_slice_perm String.ltb l)), (concat_length_perm _ _ (sort_slice_perm String.ltb l')).
  rewrite (concat_length_perm _ _ Hp), !concat_length. destruct l; [done|]. cbn. lia.
Qed.

Lemma keys_differ {R R' : GoRange} p m m1 q m2 : activePlacements m !! pl_workloadID p = None ->
  activePlacements m1 = <[pl_workloadID p := p]> (activePlacements (markShared (pl_acceleratorID p) m)) ->
  same_combination q m2 p m ->
  let looked := (sharingProfileKeyLocked (R := R') q m2).1.1 in
  let filed := (sharingProfileKeyLocked (R := R) p m1).1.1 in
  (String.length looked < String.length filed)%nat /\
  (String.length (sharingExactProfileKeyLocked (R := R') q looked m2) < String.length (sharingExactProfileKeyLocked (R := R) p filed m1))%nat.
Proof.
  intros Hw Em [Ea Hf].
  assert (forall f, f = pl_workloadClass \/ f = pl_runtimeVersion \/ f = pl_fingerprint ->
    f p :: map f (victimsOf (R := R) (pl_acceleratorID p) m1) ≡ₚ f p :: f q :: map f (victimsOf (R := R') (pl_acceleratorID q) m2)) as Hgrow.
  { intros f Hff. destruct (Hf f Hff) as [Eq Hperm]. change (map f) with (fmap (M := list) f). f_equiv. rewrite !victims_parties, Ea, Eq.
    rewrite (joined_parties (pl_acceleratorID p) p m Hw eq_refl f); [|by destruct Hff as [->|[->| ->]]|exact Em]. by rewrite Hperm. }
  pose proof (joined_longer _ _ _ (Hgrow pl_workloadClass ltac:(auto)) ltac:(done)) as Hcl.
  pose proof (joined_longer _ _ _ (Hgrow pl_fingerprint ltac:(auto)) ltac:(done)) as Hfp.
  assert (compactStrings (sortStrings (pl_runtimeVersion p :: map pl_runtimeVersion (victimsOf (R := R) (pl_acceleratorID p) m1)))
    = compactStrings (sortStrings (pl_runtimeVersion q :: map pl_runtimeVersion (victimsOf (R := R') (pl_acceleratorID q) m2)))) as Hv.
  { apply compact_same. intros x. rewrite (Hgrow pl_runtimeVersion ltac:(auto)). destruct (Hf pl_runtimeVersion ltac:(auto)) as [Eq _].
    rewrite Eq. set_solver. }
  unfold sharingProfileKeyLocked, sharingExactProfileKeyLocked. cbn [fst snd]. rewrite Hv, Ea in *.
  rewrite !string_length_app. cbn [String.length]. lia.
Qed.

(** ** Samples *)

Definition float_1 : float64 := S754_finite false 4503599627370496 (-52).
Definition float_1_5 : float64 := S754_finite false 6755399441055744 (-52).
Definition float_2 : float64 := S754_finite false 4503599627370496 (-51).

(** A consenting placement of 1000 MiB on [gpu0], which has 8000. *)
Definition party (w : string) (predicted tolerated : float64) : activePlacement :=
  mkActivePlacement w w "gpu0" "llama" "v1" w DisruptionSlowdown 1000 8000 500 true false predicted tolerated false false "m" 0 1 "" "" 0 false.

(** [a] predicts a slowdown of a half and tolerates a doubling, [b] predicts
    none and tolerates a quarter. *)
Definition pair : Manager :=
  (NewManager NewMemoryStore minute) <| activePlacements := {[ "a"%string := party "a" float_1_5 float_2; "b"%string := party "b" float_1 float_1_25 ]} |>.

(** Visits maps the other way round. *)
Definition backwards : GoRange := {|
  go_range A m := reverse (map_to_list m);
  go_range_perm A m := reverse_Permutation (map_to_list m);
|}.

(** [a] alone. *)
Definition solo : Manager :=
  (NewManager NewMemoryStore minute) <| activePlacements := {[ "a"%string := party "a" float_1 float_2 ]} |>.
Definition guest : prepared :=
  mkPrepared (noTarget <| tgt_ID := "n"%string |>) 1 1 1 None "gpu0" (party "n" float_1 float_2).
Definition gpu0_lease : AcceleratorLease := mkAcceleratorLease "gpu0" "a" 1 noon.

(** ** Theorems *)

(** C32: a workload is let in beside others only when everybody on the
    accelerator, itself included, consents and has a measured footprint, and
    the footprints of all with anyone's reserve fit the accelerator as the
    newcomer and each of the others advertises it; the predicted total is the
    true one, whatever order the others are visited in. *)
Theorem sharing_sound {R : GoRange} (newcomer : activePlacement) (m : Manager) :
  sizes_ok (newcomer :: parties (pl_acceleratorID newcomer) m) ->
  let verdict := canCoScheduleLocked newcomer m in
  let ps := newcomer :: parties (pl_acceleratorID newcomer) m in
  cs_allowed verdict = true ->
  cs_predictedVRAMMB verdict = sum_of pl_vramMB ps /\
  forall p, p ∈ ps -> consents p = true /\ 0 < pl_vramMB p /\
    sum_of pl_vramMB ps + pl_reserveVRAMMB p <= pl_capacityVRAMMB newcomer /\
    (0 < pl_capacityVRAMMB p -> sum_of pl_vramMB ps + pl_reserveVRAMMB p <= pl_capacityVRAMMB p).
Proof. apply share_admits. Qed.

Lemma solo_sizes : sizes_ok (party "n" float_1 float_2 :: parties "gpu0" solo).
Proof.
  split; [vm_compute; reflexivity|]. intros p Hp. assert (pl_vramMB p = 1000 /\ pl_reserveVRAMMB p = 500) as [-> ->]; [|lia].
  vm_compute in Hp. set_solver.
Qed.

Lemma sharing_sound_witness : cs_predictedVRAMMB (canCoScheduleLocked (R := by_key) (party "n" float_1 float_2) solo) = 2000.
Proof.
  destruct (sharing_sound (R := by_key) (party "n" float_1 float_2) solo solo_sizes) as [-> _]; vm_compute; reflexivity.
Defined.

(** What is learned from sharing is never used.  The profile of a shared
    run is filed under keys in which the newcomer is counted twice, because
    they are computed after its placement has been published; whenever the
    same workloads are about to meet again, the keys looked up are others. *)
Theorem sharing_profile_never_found {R R' : GoRange} (pr : prepared) (lease : AcceleratorLease) (m m' : Manager) (rid : nat)
    (r : targetReservation) (q : activePlacement) (m2 : Manager) :
  activePlacements m !! pl_workloadID (pr_placement pr) = None ->
  joinShared (R := R) pr lease m = (m', Placed rid) -> reservationHeap m' !! rid = Some r ->
  same_combination q m2 (pr_placement pr) m ->
  let looked := (sharingProfileKeyLocked (R := R') q m2).1.1 in
  looked <> tr_profileKey r /\ sharingExactProfileKeyLocked (R := R') q looked m2 <> tr_exactProfileKey r.
Proof.
  intros Hw Hj Hr [Ea Hsame] looked. unfold joinShared in Hj. destruct (negb _); [done|].
  assert (same_combination q m2 ((pr_placement pr) <| pl_sharedObserved := true |>) m) as Hsame'
    by (split; [exact Ea|]; intros f Hf; destruct (Hsame f Hf); by destruct Hf as [->|[->| ->]]).
  match type of Hj with context [sharingProfileKeyLocked ?p ?x] =>
    pose proof (keys_differ (R := R) (R' := R') p m x q m2 Hw eq_refl Hsame') as [Hk He]; set (m1 := x) in * end.
  destruct (sharingProfileKeyLocked (_ <| pl_sharedObserved := true |>) m1) as [[key classes] versions].
  cbn [fst snd] in Hk, He. fold looked in Hk, He. set (exact := sharingExactProfileKeyLocked q looked m2) in *.
  set (filed := sharingExactProfileKeyLocked _ key m1) in *. clearbody exact looked filed. injection Hj as <- <-. cbn in Hr. rewrite lookup_insert_eq in Hr. injection Hr as <-. cbn.
  split; intros E; [rewrite E in Hk|rewrite E in He]; lia.
Qed.

Lemma sharing_profile_never_found_witness :
  (sharingProfileKeyLocked (R := by_key) (party "n" float_1 float_2) solo).1.1 = "gpu0|v1|llama+llama"%string /\
  "gpu0|v1|llama+llama"%string <> tr_profileKey (default (freshReservation guest gpu0_lease)
     (reservationHeap (joinShared (R := by_key) guest gpu0_lease solo).1 !! 0%nat)).
Proof.
  split; [vm_compute; reflexivity|].
  destruct (sharing_profile_never_found (R := by_key) (R' := by_key) guest gpu0_lease solo (joinShared (R := by_key) guest gpu0_lease solo).1 0
    (default (freshReservation guest gpu0_lease) (reservationHeap (joinShared (R := by_key) guest gpu0_lease solo).1 !! 0%nat))
    (party "n" float_1 float_2) solo) as [H _]; [vm_compute; reflexivity..|split; [reflexivity|by intros f _]|].
  vm_compute in H. vm_compute. exact H.
Defined.

(** The verdict depends on the order in which the others are visited: the
    tolerance of a later one is not applied to those before it. *)
Theorem sharing_depends_on_order :
  cs_allowed (canCoScheduleLocked (R := by_key) (party "n" float_1 float_2) pair)
  <> cs_allowed (canCoScheduleLocked (R := backwards) (party "n" float_1 float_2) pair).
Proof. vm_compute. congruence. Qed.
