(* ===== verification/GoFloat.v ===== *)
(** * Floating-point numbers

    What the modelled code uses of Go's [float64]: conversion from integers,
    the value of a JSON number, and the text [%v] prints.  A [float64] is a
    [spec_float] of the standard library; rounding is that of its exact
    division, to nearest with ties to even. *)

From Stdlib Require Import SpecFloat.
From S2P Require Import Prelude GoText Domain.

(** [num / den], rounded once. *)
Definition float_ratio (negative : bool) (num den : positive) : float64 :=
  SFdiv 53 1024 (S754_finite negative num 0) (S754_finite false den 0).

(** [float64(n)] of an integer. *)
Definition float_of_Z (n : Z) : float64 :=
  match n with
  | Z0 => S754_zero false
  | Zpos p => float_ratio false p 1
  | Zneg p => float_ratio true p 1
  end.

(** The integer a finite value is, if it is one. *)
Definition float_integer (f : float64) : option Z :=
  match f with
  | S754_zero _ => Some 0
  | S754_finite s m e =>
      let z := if 0 <=? e then Some (Zpos m * 2 ^ e)
               else if Zpos m mod 2 ^ (- e) =? 0 then Some (Zpos m / 2 ^ (- e)) else None in
      (fun z => if s then - z else z) <$> z
  | _ => None
  end.

Definition float_finite (f : float64) : bool :=
  match f with S754_zero _ | S754_finite _ _ _ => true | _ => false end.

(** [m * 10^k]; exponents beyond the range of the type are cut off before the
    power is computed. *)
Definition float_decimal (negative : bool) (m : N) (k : Z) : float64 :=
  match m with
  | 0%N => S754_zero negative
  | Npos p =>
      let digits := Z.of_nat (String.length (pretty m)) in
      if 400 <? digits + k then S754_infinity negative
      else if digits + k <? -400 then S754_zero negative
      else if 0 <=? k then float_ratio negative (p * Z.to_pos (10 ^ k)) 1
      else float_ratio negative p (Z.to_pos (10 ^ (- k)))
  end.

(** ** Reading a number *)

Definition is_digit (c : Ascii.ascii) : bool := in_range 48 57 c.
Definition digit_value (c : Ascii.ascii) : N := (code c - 48)%N.

(** The leading digits of a text: their value, how many there are, the rest. *)
Fixpoint read_digits (s : string) (acc : N) (n : Z) : N * Z * string :=
  match s with
  | String c s' => if is_digit c then read_digits s' (acc * 10 + digit_value c)%N (n + 1) else (acc, n, s)
  | EmptyString => (acc, n, s)
  end.

Definition read_exponent (s : string) : option Z :=
  match s with
  | EmptyString => Some 0
  | String e s =>
      if (e ==? "e"%char) || (e ==? "E"%char) then
        let '(negative, s) := match s with
                              | String "-" s => (true, s)
                              | String "+" s => (false, s)
                              | _ => (false, s)
                              end in
        match read_digits s 0 0 with
        | (v, n, EmptyString) => if n =? 0 then None else Some (if negative then - Z.of_N v else Z.of_N v)
        | _ => None
        end
      else None
  end.

(** [strconv.ParseFloat(literal, 64)] of a JSON number; [None] is an error:
    not a number, or out of range. *)
Definition ParseFloat (literal : string) : option float64 :=
  let '(negative, s) := match literal with String "-" s => (true, s) | _ => (false, literal) end in
  let '(whole, n, s) := read_digits s 0 0 in
  if n =? 0 then None
  else
    let '(m, shift, s) := match s with
                          | String "." s => read_digits s whole 0
                          | _ => (whole, 0, s)
                          end in
    match read_exponent s with
    | Some e =>
        let f := float_decimal negative m (e - shift) in
        if float_finite f then Some f else None
    | None => None
    end.

(** [strconv.ParseInt(s, 10, 64)]. *)
Definition ParseInt (s : string) : option Z :=
  let '(negative, s) := match s with
                        | String "-" s => (true, s)
                        | String "+" s => (false, s)
                        | _ => (false, s)
                        end in
  match read_digits s 0 0 with
  | (v, n, EmptyString) =>
      let z := if negative then - Z.of_N v else Z.of_N v in
      if (n =? 0) || (z <? - MaxInt64 - 1) || (MaxInt64 <? z) then None else Some z
  | _ => None
  end.

(** ** Printing *)

(** Positive values as fractions. *)
Definition float_fraction (m : positive) (e : Z) : Z * Z :=
  if 0 <=? e then (Zpos m * 2 ^ e, 1) else (Zpos m, 2 ^ (- e)).

(** The least [k] with [num / den < 10^k], searched from below. *)
Fixpoint decimal_point (fuel : nat) (num den k : Z) : Z :=
  match fuel with
  | O => k
  | S fuel => if num * 10 ^ (Z.max 0 (- k)) <? den * 10 ^ (Z.max 0 k) then k else decimal_point fuel num den (k + 1)
  end.

(** [n] digits of [num / den < 10^k] around the nearest ones. *)
Definition near_digits (num den k n : Z) : list Z :=
  let scale := n - k in
  let a := num * 10 ^ (Z.max 0 scale) in
  let b := den * 10 ^ (Z.max 0 (- scale)) in
  let d := (2 * a + b) / (2 * b) in
  let d := if ((2 * a + b) mod (2 * b) =? 0) && Z.odd d then d - 1 else d in
  [d; d - 1; d + 1].

(** The first of the nearest [n]-digit decimals that reads back as the value,
    for the smallest [n]. *)
Fixpoint shortest (fuel : nat) (f : float64) (num den k n : Z) : Z * Z :=
  match fuel with
  | O => (0, n)
  | S fuel =>
      match List.find (fun d => match d with
                                | Zpos p => SFeqb (float_decimal false (Npos p) (k - n)) f
                                | _ => false
                                end) (near_digits num den k n) with
      | Some d => (d, n)
      | None => shortest fuel f num den k (n + 1)
      end
  end.

Fixpoint zeros (n : nat) : string := match n with O => "" | S n => String "0" (zeros n) end.

Fixpoint trim_zeros (fuel : nat) (d : Z) : Z :=
  match fuel with O => d | S fuel => if (d mod 10 =? 0) && negb (d =? 0) then trim_zeros fuel (d / 10) else d end.

(** Digits [0.d1d2... * 10^point] with an exponent of at least [width] digits,
    and without one. *)
Definition layout_e (width : Z) (digits : string) (point : Z) : string :=
  let n := len digits in
  let exp := point - 1 in
  let fraction := if 1 <? n then ("." +:+ String.substring 1 (Z.to_nat n) digits)%string else ""%string in
  let sign := if exp <? 0 then "e-"%string else "e+"%string in
  let pad := if (Z.abs exp <? 10) && (1 <? width) then "0"%string else ""%string in
  (String.substring 0 1 digits +:+ fraction +:+ sign +:+ pad +:+ Sprint (Z.abs exp))%string.

Definition layout_f (digits : string) (point : Z) : string :=
  let n := len digits in
  if point <=? 0 then ("0." +:+ zeros (Z.to_nat (- point)) +:+ digits)%string
  else if n <=? point then (digits +:+ zeros (Z.to_nat (point - n)))%string
  else (String.substring 0 (Z.to_nat point) digits +:+ "." +:+ String.substring (Z.to_nat point) (Z.to_nat n) digits)%string.

(** The fewest digits of a positive value, and its decimal point. *)
Definition float_digits (m : positive) (e : Z) : string * Z :=
  let '(num, den) := float_fraction m e in
  let k := decimal_point 700 num den (-330) in
  let '(d, n) := shortest 17 (S754_finite false m e) num den k 1 in
  (Sprint (trim_zeros 18 d), if d =? 10 ^ n then k + 1 else k).

Definition signed (negative : bool) (text : string) : string := if negative then ("-" +:+ text)%string else text.

(** [fmt.Sprint] of a [float64]: [%g] with the fewest digits. *)
Definition FormatFloat (f : float64) : string :=
  match f with
  | S754_nan => "NaN"
  | S754_infinity s => if s then "-Inf" else "+Inf"
  | S754_zero s => if s then "-0" else "0"
  | S754_finite s m e =>
      let '(digits, point) := float_digits m e in
      signed s (if (point - 1 <? -4) || (6 <=? point - 1) then layout_e 2 digits point else layout_f digits point)
  end.

(** [json.Marshal] of a [float64]; not a number and the infinities are errors. *)
Definition json_float (f : float64) : option string :=
  match f with
  | S754_nan | S754_infinity _ => None
  | S754_zero s => Some (signed s "0")
  | S754_finite s m e =>
      let '(digits, point) := float_digits m e in
      Some (signed s (if point - 1 <? -6 then layout_e 1 digits point
                      else if 21 <=? point - 1 then layout_e 2 digits point else layout_f digits point))
  end.

(** [int64(f)] on amd64: truncation, and the least integer when the result does
    not fit. *)
Definition float_to_int64 (f : float64) : Z :=
  match f with
  | S754_zero _ => 0
  | S754_finite s m e =>
      let v := if 0 <=? e then Zpos m * 2 ^ e else Zpos m / 2 ^ (- e) in
      let v := if s then - v else v in
      if (- MaxInt64 - 1 <=? v) && (v <=? MaxInt64) then v else - MaxInt64 - 1
  | _ => - MaxInt64 - 1
  end.

Definition reprint (literal : string) : option string := FormatFloat <$> ParseFloat literal.

Lemma reprint_examples :
  map reprint ["0.1"; "1024.0"; "1000000"; "-2.50"; "5e-324"; "9.999999999999999e22"; "1e309"; "0.00001234"]%string =
  [Some "0.1"; Some "1024"; Some "1e+06"; Some "-2.5"; Some "5e-324"; Some "1e+23"; None; Some "1.234e-05"]%string.
Proof. vm_compute. reflexivity. Qed.

Lemma json_float_examples :
  map (fun literal => ParseFloat literal ≫= json_float) ["0.1"; "1024.0"; "1000000"; "-2.50"; "1e-7"; "1.5e-12"; "1e21"; "123456789012345680000"]%string =
  [Some "0.1"; Some "1024"; Some "1000000"; Some "-2.5"; Some "1e-7"; Some "1.5e-12"; Some "1e+21"; Some "123456789012345680000"]%string.
Proof. vm_compute. reflexivity. Qed.
