(* ===== verification/GoDyn.v ===== *)
(** * Dynamic values ([any], [encoding/json], [strings])

    A value of type [any] that came from JSON or was built by hand is a [dyn];
    its maps are association lists with distinct keys.  The file reads and
    prints them as [encoding/json] does, compares them as [reflect.DeepEqual]
    does, and has the functions of [strings] that the users of such values
    call. *)

From Stdlib Require Import SpecFloat.
From S2P Require Import Prelude GoText Domain GoJSON GoFloat.

(** ** Dynamic values *)

Inductive dyn :=
  | DNil
  | DBool (b : bool)
  | DInt (n : Z)
  | DInt64 (n : Z)
  | DFloat (f : float64)
  | DNumber (literal : string)
  | DString (s : string)
  | DSlice (l : list dyn)
  | DMap (l : list (string * dyn))
  | DUint64 (n : Z).

Fixpoint assoc {A} (k : string) (l : list (string * A)) : option A :=
  match l with
  | [] => None
  | (k', v) :: l => if k ==? k' then Some v else assoc k l
  end.

(** [m[k] = v]. *)
Fixpoint assoc_set {A} (k : string) (v : A) (l : list (string * A)) : list (string * A) :=
  match l with
  | [] => [(k, v)]
  | (k', v') :: l => if k ==? k' then (k, v) :: l else (k', v') :: assoc_set k v l
  end.

(** [json.Unmarshal] into an [any]; [None] when a number is out of range.  A
    repeated key overwrites. *)
Fixpoint unmarshal_any (j : json) : option dyn :=
  match j with
  | JNull => Some DNil
  | JBool b => Some (DBool b)
  | JNumber literal => DFloat <$> ParseFloat literal
  | JString s => Some (DString s)
  | JArray l =>
      (fix go (l : list json) : option (list dyn) :=
         match l with
         | [] => Some []
         | j :: l => v ← unmarshal_any j; vs ← go l; Some (v :: vs)
         end) l ≫= fun vs => Some (DSlice vs)
  | JObject l =>
      (fix go (l : list (string * json)) (acc : list (string * dyn)) : option (list (string * dyn)) :=
         match l with
         | [] => Some acc
         | (k, j) :: l => v ← unmarshal_any j; go l (assoc_set k v acc)
         end) l [] ≫= fun kvs => Some (DMap kvs)
  end.

(** Entries decoded into a map that may hold some already. *)
Fixpoint unmarshal_entries (l : list (string * json)) (acc : list (string * dyn)) : option (list (string * dyn)) :=
  match l with
  | [] => Some acc
  | (k, j) :: l => v ← unmarshal_any j; unmarshal_entries l (assoc_set k v acc)
  end.

(** [fmt.Sprint] of one value. *)
Fixpoint sprint_any (v : dyn) : string :=
  match v with
  | DNil => "<nil>"
  | DBool b => if b then "true" else "false"
  | DInt n | DInt64 n | DUint64 n => Sprint n
  | DFloat f => FormatFloat f
  | DNumber s | DString s => s
  | DSlice l => ("[" +:+ String.concat " " (map sprint_any l) +:+ "]")%string
  | DMap l =>
      ("map[" +:+ String.concat " " (map snd (sort_slice (fun p q => String.ltb p.1 q.1)
          (map (fun kv => (kv.1, kv.1 +:+ ":" +:+ sprint_any kv.2)%string) l))) +:+ "]")%string
  end.

(** [json.Marshal] of one value: map keys are sorted; a float that is not a
    number is an error; a [json.Number], which came from JSON, is its text. *)
Fixpoint dyn_json (v : dyn) : option json :=
  match v with
  | DNil => Some JNull
  | DBool b => Some (JBool b)
  | DInt n | DInt64 n | DUint64 n => Some (JNumber (Sprint n))
  | DFloat f => JNumber <$> json_float f
  | DNumber literal => Some (JNumber (if literal ==? ""%string then "0"%string else literal))
  | DString s => Some (JString s)
  | DSlice l => JArray <$> mapM dyn_json l
  | DMap l =>
      l' ← mapM (fun kv => j ← dyn_json kv.2; Some (kv.1, j)) l;
      Some (JObject (sort_slice (fun p q => String.ltb p.1 q.1) l'))
  end.

(** [json.Marshal] of a [map[string]any] that may be [nil]. *)
Definition args_json (args : option (gmap string dyn)) : option json :=
  match args with
  | None => Some JNull
  | Some m => dyn_json (DMap (map_to_list m))
  end.

(** What is left of a value that was written as JSON and read back into an
    [any]: numbers become [float64]. *)
Fixpoint reread (v : dyn) : dyn :=
  match v with
  | DInt n | DInt64 n | DUint64 n => DFloat (float_of_Z n)
  | DNumber literal => DFloat (default (S754_zero false) (ParseFloat literal))
  | DSlice l => DSlice (map reread l)
  | DMap l => DMap (map (fun kv => (kv.1, reread kv.2)) l)
  | _ => v
  end.

(** [reflect.DeepEqual]. *)
Fixpoint deepEqual (v w : dyn) : bool :=
  match v, w with
  | DNil, DNil => true
  | DBool a, DBool b => Bool.eqb a b
  | DInt a, DInt b | DInt64 a, DInt64 b | DUint64 a, DUint64 b => a =? b
  | DFloat a, DFloat b => SFeqb a b
  | DNumber a, DNumber b | DString a, DString b => a ==? b
  | DSlice l, DSlice l' =>
      (fix go (l l' : list dyn) : bool :=
         match l, l' with
         | [], [] => true
         | x :: l, y :: l' => deepEqual x y && go l l'
         | _, _ => false
         end) l l'
  | DMap l, DMap l' =>
      (length l =? length l')%nat &&
      (fix go (l : list (string * dyn)) : bool :=
         match l with
         | [] => true
         | (k, x) :: l => match assoc k l' with Some y => deepEqual x y | None => false end && go l
         end) l
  | _, _ => false
  end.

(** ** Text *)

Fixpoint strip (prefix s : string) : option string :=
  match prefix, s with
  | EmptyString, _ => Some s
  | String a prefix, String b s => if a ==? b then strip prefix s else None
  | _, EmptyString => None
  end.

(** [strings.Contains]. *)
Fixpoint Contains (s substr : string) : bool :=
  bool_decide (is_Some (strip substr s)) || match s with EmptyString => false | String _ s => Contains s substr end.

(** [strings.ReplaceAll] of a text that is not empty; the length is enough
    fuel. *)
Fixpoint replace_go (fuel : nat) (s old new : string) : string :=
  match fuel, s with
  | S fuel, String c s' =>
      match strip old s with
      | Some rest => (new +:+ replace_go fuel rest old new)%string
      | None => String c (replace_go fuel s' old new)
      end
  | _, _ => ""
  end.
Definition ReplaceAll (s old new : string) : string := replace_go (String.length s) s old new.

Fixpoint ContainsAny (s chars : string) : bool :=
  match s with
  | EmptyString => false
  | String c s => negb (nochar c chars) || ContainsAny s chars
  end.

Definition TrimPrefix (s prefix : string) : string := default s (strip prefix s).


(** [strings.HasSuffix]. *)
Definition HasSuffix (s suffix : string) : bool := String.prefix (GoText.rev suffix) (GoText.rev s).

Fixpoint trim_slashes (reversed : string) : string :=
  match reversed with String "/" s => trim_slashes s | _ => reversed end.
Fixpoint until_slash (reversed : string) : string :=
  match reversed with EmptyString => "" | String c s => if c ==? "/"%char then ""%string else String c (until_slash s) end.

(** [filepath.Base]. *)
Definition Base (path : string) : string :=
  if path ==? ""%string then "."%string
  else
    let base := GoText.rev (until_slash (trim_slashes (GoText.rev path))) in
    if base ==? ""%string then "/"%string else base.

Lemma Base_examples : map Base [""; "a.kv"; "/"; "a/b"; "a/b//"; "../x"]%string = ["."; "a.kv"; "/"; "b"; "b"; "x"]%string.
Proof. vm_compute. reflexivity. Qed.

(** The first digits of a number, as [fmt.Sscan] into an [int64] reads a JSON
    number. *)
Definition Sscan_int64 (literal : string) : option Z :=
  let '(sign, s) := match literal with
                    | String "-" s => ("-"%string, s)
                    | String "+" s => (""%string, s)
                    | s => (""%string, s)
                    end in
  let '(_, n, rest) := read_digits s 0 0 in
  ParseInt (sign +:+ String.substring 0 (Z.to_nat n) s).
