(* ===== verification/Workflow.v ===== *)
(** * Workflow templates ([workflowtpl/workflowtpl.go])

    A template is a graph of image-generation nodes with typed parameters, each
    bound to inputs of nodes.  [Template_Validate] is the check a template
    passes when it is loaded, [Template_Compile] writes the parameters of a
    request into a copy of the graph, and the registry resolves names.

    A raw JSON message is its syntax tree ([json]); a dynamic value is a [dyn],
    whose maps are association lists with distinct keys.  A type assertion or
    a nil dereference that fails is [Panics].  Random seeds are arguments. *)

From Stdlib Require Import SpecFloat.
From S2P Require Import Prelude GoText Domain GoJSON GoFloat GoDyn.

(** ** Templates *)

Definition TypeString : string := "string".
Definition TypeInteger : string := "integer".
Definition TypeNumber : string := "number".
Definition TypeBoolean : string := "boolean".
Definition TypeEnum : string := "enum".
Definition TypeSeed : string := "seed".
Definition TypeImage : string := "image".
Definition TypeVideo : string := "video".
Definition TypeAudio : string := "audio".

Definition maxSeed : Z := 9007199254740991.

Record Binding := mkBinding {
  bd_Node : string;
  bd_Input : string;
  bd_Format : string;
  bd_Map : option (gmap string dyn);
}.

Record Bypass := mkBypass {
  by_Node : string;
  by_When : list string;
  by_Outputs : gmap string string;
}.

Record Param := mkParam {
  pa_Name : string;
  pa_Type : string;
  pa_Description : string;
  pa_Required : bool;
  pa_Default : dyn;
  pa_Min : option float64;
  pa_Max : option float64;
  pa_MultipleOf : Z;
  pa_MaxLength : Z;
  pa_Values : list string;
  pa_Tokens : gmap string string;
  pa_Bypass : list Bypass;
  pa_Bind : list Binding;
}.

Record Template := mkTemplate {
  tp_ID : string;
  tp_Version : Z;
  tp_Title : string;
  tp_Description : string;
  tp_Operation : string;
  tp_Profile : string;
  tp_Outputs : list string;
  tp_TypicalSeconds : Z;
  tp_Params : list Param;
  tp_Graph : gmap string json;
}.
#[export] Instance eta_Param : Eta Param := fun r =>
  mkParam (pa_Name r) (pa_Type r) (pa_Description r) (pa_Required r) (pa_Default r) (pa_Min r) (pa_Max r) (pa_MultipleOf r)
    (pa_MaxLength r) (pa_Values r) (pa_Tokens r) (pa_Bypass r) (pa_Bind r).
#[export] Instance eta_Template : Eta Template := fun r =>
  mkTemplate (tp_ID r) (tp_Version r) (tp_Title r) (tp_Description r) (tp_Operation r) (tp_Profile r) (tp_Outputs r)
    (tp_TypicalSeconds r) (tp_Params r) (tp_Graph r).

Definition Template_Ref (t : Template) : string := (tp_ID t +:+ "@" +:+ Sprint (tp_Version t))%string.

Definition Template_param (t : Template) (name : string) : option Param :=
  List.find (fun p => pa_Name p ==? name) (tp_Params t).

Definition containsValue (values : list string) (value : string) : bool := existsb (fun v => v ==? value) values.

Definition Param_bypasses (p : Param) (node value : string) : bool :=
  existsb (fun bypass => (by_Node bypass ==? node) && containsValue (by_When bypass) value) (pa_Bypass p).

Definition Param_isMedia (p : Param) : bool :=
  (pa_Type p ==? TypeImage) || (pa_Type p ==? TypeVideo) || (pa_Type p ==? TypeAudio).

(** ** Names and references *)

Definition az (c : Ascii.ascii) : bool := in_range 97 122 c.
Definition name_char (c : Ascii.ascii) : bool := az c || is_digit c || (c ==? "_"%char).
Definition id_char (c : Ascii.ascii) : bool := az c || is_digit c || (c ==? "."%char) || (c ==? "-"%char).

(** [^[a-z0-9][a-z0-9.-]{0,63}$]. *)
Definition idPattern (s : string) : bool :=
  match s with
  | EmptyString => false
  | String c s => (az c || is_digit c) && all_chars id_char s && (len s <=? 63)
  end.

(** [^[a-z][a-z0-9_]{0,31}$]. *)
Definition namePattern (s : string) : bool :=
  match s with
  | EmptyString => false
  | String c s => az c && all_chars name_char s && (len s <=? 31)
  end.

Fixpoint read_name (s : string) : string * string :=
  match s with
  | String c s' => if name_char c then let '(name, rest) := read_name s' in (String c name, rest) else (""%string, s)
  | EmptyString => (""%string, s)
  end.

(** A match of [tokenRefPattern] at the beginning, a name after [{tokens:] and
    before a brace: the name and what follows. *)
Definition tokenRef (s : string) : option (string * string) :=
  match strip "{tokens:" s with
  | Some (String c _ as s) =>
      if az c then
        match read_name s with
        | (name, String "}" rest) => Some (name, rest)
        | _ => None
        end
      else None
  | _ => None
  end.

(** The characters of a text and the references between them, matched from
    the left. *)
Fixpoint pieces_go (fuel : nat) (s : string) : list (Ascii.ascii + string) :=
  match fuel, s with
  | S fuel, String c s' =>
      match tokenRef s with
      | Some (name, rest) => inr name :: pieces_go fuel rest
      | None => inl c :: pieces_go fuel s'
      end
  | _, _ => []
  end.
Definition pieces (s : string) : list (Ascii.ascii + string) := pieces_go (String.length s) s.

Definition formatTokenRefs (format : string) : list string :=
  omap (fun piece => match piece with inr name => Some name | inl _ => None end) (pieces format).

(** ** Values of parameters *)

Definition path_chars : string := String "/" (String backslash "").

(** Why a parameter is refused. *)
Inductive problem :=
  | NotAParameter
  | IsRequired
  | MustBeString
  | MayNotBeEmpty
  | LongerThan (limit : Z)
  | MustBeWhole
  | MustBeSeed
  | AtLeast (f : float64)
  | AtMost (f : float64)
  | MustBeMultipleOf (n : Z)
  | MustBeNumber
  | MustBeTrueOrFalse
  | MustBeOneOf (values : list string)
  | MustBeArtifact
  | UnknownType (ty : string).

Definition Param_checkRange (p : Param) (f : float64) : option problem :=
  match pa_Min p with
  | Some lo => if SFltb f lo then Some (AtLeast lo) else
      match pa_Max p with Some hi => if SFltb hi f then Some (AtMost hi) else None | None => None end
  | None => match pa_Max p with Some hi => if SFltb hi f then Some (AtMost hi) else None | None => None end
  end.

Definition wholeNumber (v : dyn) : option Z :=
  match v with
  | DInt n | DInt64 n => Some n
  | DFloat f => z ← float_integer f; if Z.abs z <=? maxSeed then Some z else None
  | DNumber literal => ParseInt literal
  | _ => None
  end.

Definition as_string (v : dyn) : option string := match v with DString s => Some s | _ => None end.

(** The value to write, or why there is none. *)
Definition Param_coerce (p : Param) (v : dyn) : problem + dyn :=
  let ty := pa_Type p in
  if ty ==? TypeString then
    match as_string v with
    | None => inl MustBeString
    | Some s =>
        if pa_Required p && blank s then inl MayNotBeEmpty
        else
          let limit := if pa_MaxLength p =? 0 then 4000 else pa_MaxLength p in
          if limit <? Z.of_nat (length (runes s)) then inl (LongerThan limit) else inr (DString s)
    end
  else if (ty ==? TypeInteger) || (ty ==? TypeSeed) then
    match wholeNumber v with
    | None => inl MustBeWhole
    | Some n =>
        if (ty ==? TypeSeed) && ((n <? 0) || (maxSeed <? n)) then inl MustBeSeed
        else
          match Param_checkRange p (float_of_Z n) with
          | Some why => inl why
          | None =>
              if (0 <? pa_MultipleOf p) && negb (Z.rem n (pa_MultipleOf p) =? 0) then inl (MustBeMultipleOf (pa_MultipleOf p))
              else inr (DInt64 n)
          end
    end
  else if ty ==? TypeNumber then
    match match v with DFloat f => Some f | DInt n => Some (float_of_Z n) | _ => None end with
    | Some f =>
        if float_finite f then match Param_checkRange p f with Some why => inl why | None => inr (DFloat f) end
        else inl MustBeNumber
    | None => inl MustBeNumber
    end
  else if ty ==? TypeBoolean then
    match v with DBool b => inr (DBool b) | _ => inl MustBeTrueOrFalse end
  else if ty ==? TypeEnum then
    match as_string v with
    | Some s => if containsValue (pa_Values p) s then inr (DString s) else inl (MustBeOneOf (pa_Values p))
    | None => inl (MustBeOneOf (pa_Values p))
    end
  else if Param_isMedia p then
    match as_string v with
    | Some s =>
        let s := TrimPrefix (TrimSpace s) "artifact://" in
        if (s ==? ""%string) || ContainsAny s path_chars then inl MustBeArtifact else inr (DString s)
    | None => inl MustBeArtifact
    end
  else inl (UnknownType ty).

(** ** Nodes *)

Record node := mkNode {
  nd_ClassType : string;
  nd_Inputs : list (string * dyn);
}.

(** Folding of a member name: ASCII letters, and the two other runes that fold
    to one, U+017F and U+212A. *)
Fixpoint fold_name (s : string) : string :=
  match s with
  | String a (String b (String c s as s2) as s1) =>
      if (code a =? 197)%N && (code b =? 191)%N then String "s" (fold_name s2)
      else if (code a =? 226)%N && (code b =? 132)%N && (code c =? 170)%N then String "k" (fold_name s)
      else String (lower a) (fold_name s1)
  | String a (String b EmptyString) =>
      if (code a =? 197)%N && (code b =? 191)%N then "s"%string else String (lower a) (String (lower b) "")
  | String a EmptyString => String (lower a) ""
  | EmptyString => ""
  end.

(** What a struct is filled with so far: the class, the inputs, and whether an
    error was met. *)
Record filling := mkFilling {
  fi_class : string;
  fi_inputs : option (list (string * dyn));
  fi_failed : bool;
}.

Definition fill (f : filling) (kj : string * json) : filling :=
  let '(k, j) := kj in
  if fold_name k ==? "class_type"%string then
    match j with
    | JString s => mkFilling s (fi_inputs f) (fi_failed f)
    | JNull => f
    | _ => mkFilling (fi_class f) (fi_inputs f) true
    end
  else if fold_name k ==? "inputs"%string then
    match j with
    | JObject l =>
        match unmarshal_entries l (default [] (fi_inputs f)) with
        | Some inputs => mkFilling (fi_class f) (Some inputs) (fi_failed f)
        | None => mkFilling (fi_class f) (fi_inputs f) true
        end
    | JNull => mkFilling (fi_class f) None (fi_failed f)
    | _ => mkFilling (fi_class f) (fi_inputs f) true
    end
  else f.

(** A node, unless it is not one. *)
Definition decodeNode (raw : json) : option node :=
  match raw with
  | JObject l =>
      let f := foldl fill (mkFilling "" None false) l in
      if fi_failed f || (fi_class f ==? ""%string) then None else mkNode (fi_class f) <$> fi_inputs f
  | _ => None
  end.

(** The nodes, or the id of one that is not a node. *)
Definition decodeGraph {R : GoRange} (graph : gmap string json) : string + gmap string node :=
  match range_find (fun _ raw => bool_decide (decodeNode raw = None)) graph with
  | Some (id, _) => inl id
  | None => inr (omap decodeNode graph)
  end.

(** ** Validation *)

(** Why a template is refused. *)
Inductive invalid :=
  | BadIdentity
  | IncompleteHeader
  | NoGraph
  | BadNode (id : string)
  | BadName (name : string)
  | NoValues (name : string)
  | BadType (name ty : string)
  | BindsNothing (name : string)
  | MissingNode (name node : string)
  | MissingInput (name node input : string)
  | LinkedInput (name node input : string)
  | BoundTwice (key other name : string)
  | BadFormat (name : string)
  | MapNeedsEnum (name : string)
  | MapLacks (name value : string)
  | TokensNeedEnum (name : string)
  | BypassIncomplete (name : string)
  | BypassUnknown (name value : string)
  | BypassNotLink (name node input : string)
  | RequiredDefault (name : string)
  | MediaDefault (name : string)
  | NeedsDefault (name : string)
  | BadDefault (name : string) (why : problem)
  | BadTokens (name ref : string).

Notation "'refute' c 'with' e ; k" := (if c then inl e else k)
  (at level 10, c at level 100, e at level 100, k at level 200) : go_scope.
Notation "'let!' x := c 'in' k" := (match c with inr x => k | inl e => inl e end)
  (at level 10, x pattern, c at level 100, k at level 200) : go_scope.

(** A loop with an early return. *)
Fixpoint each {A S E} (f : S -> A -> E + S) (s : S) (l : list A) : E + S :=
  match l with
  | [] => inr s
  | x :: l => let! s := f s x in each f s l
  end.

Definition isLink (v : dyn) : bool := match v with DSlice _ => true | _ => false end.
Definition isPair (v : option dyn) : bool := match v with Some (DSlice [_; _]) => true | _ => false end.

Definition bindKey (b : Binding) : string := (bd_Node b +:+ "." +:+ bd_Input b)%string.

(** One binding of a parameter; [bound] names who binds an input. *)
Definition validateBinding (nodes : gmap string node) (p : Param) (bound : gmap string string) (b : Binding)
  : invalid + gmap string string :=
  match nodes !! bd_Node b with
  | None => inl (MissingNode (pa_Name p) (bd_Node b))
  | Some n =>
      match assoc (bd_Input b) (nd_Inputs n) with
      | None => inl (MissingInput (pa_Name p) (bd_Node b) (bd_Input b))
      | Some current =>
          refute isLink current with LinkedInput (pa_Name p) (bd_Node b) (bd_Input b);
          let other := default ""%string (bound !! bindKey b) in
          refute other !=? ""%string with BoundTwice (bindKey b) other (pa_Name p);
          refute (bd_Format b !=? ""%string) && ((pa_Type p !=? TypeString) || negb (Contains (bd_Format b) "{value}"))
            with BadFormat (pa_Name p);
          let bound := <[bindKey b := pa_Name p]> bound in
          match bd_Map b with
          | None => inr bound
          | Some m =>
              refute pa_Type p !=? TypeEnum with MapNeedsEnum (pa_Name p);
              match List.find (fun value => bool_decide (m !! value = None) && negb (Param_bypasses p (bd_Node b) value)) (pa_Values p) with
              | Some value => inl (MapLacks (pa_Name p) value)
              | None => inr bound
              end
          end
      end
  end.

Definition validateBypass {R : GoRange} (nodes : gmap string node) (p : Param) (_ : unit) (bypass : Bypass) : invalid + unit :=
  match nodes !! by_Node bypass with
  | None => inl (BypassIncomplete (pa_Name p))
  | Some n =>
      refute (by_When bypass ==? []) || (by_Outputs bypass ==? ∅) with BypassIncomplete (pa_Name p);
      match List.find (fun value => negb (containsValue (pa_Values p) value)) (by_When bypass) with
      | Some value => inl (BypassUnknown (pa_Name p) value)
      | None =>
          match range_find (fun _ input => negb (isPair (assoc input (nd_Inputs n)))) (by_Outputs bypass) with
          | Some (_, input) => inl (BypassNotLink (pa_Name p) (by_Node bypass) input)
          | None => inr tt
          end
      end
  end.

Definition knownTypes : list string :=
  [TypeString; TypeInteger; TypeNumber; TypeBoolean; TypeSeed; TypeImage; TypeVideo; TypeAudio].

Definition isNil (v : dyn) : bool := match v with DNil => true | _ => false end.

(** One parameter; the names seen so far and who binds which input. *)
Definition validateParam {R : GoRange} (nodes : gmap string node) (state : gset string * gmap string string) (p : Param)
  : invalid + (gset string * gmap string string) :=
  let '(seen, bound) := state in
  let name := pa_Name p in
  refute negb (namePattern name) || bool_decide (name ∈ seen) with BadName name;
  refute (pa_Type p ==? TypeEnum) && (pa_Values p ==? []) with NoValues name;
  refute negb (containsValue knownTypes (pa_Type p)) && (pa_Type p !=? TypeEnum) with BadType name (pa_Type p);
  refute match pa_Bind p with [] => true | _ => false end with BindsNothing name;
  let! bound := each (validateBinding nodes p) bound (pa_Bind p) in
  refute ((pa_Tokens p !=? ∅) || match pa_Bypass p with [] => false | _ => true end) && (pa_Type p !=? TypeEnum)
    with TokensNeedEnum name;
  let! _ := each (validateBypass nodes p) tt (pa_Bypass p) in
  refute pa_Required p && negb (isNil (pa_Default p)) with RequiredDefault name;
  refute Param_isMedia p && negb (isNil (pa_Default p)) with MediaDefault name;
  refute negb (pa_Required p) && isNil (pa_Default p) && (pa_Type p !=? TypeSeed) with NeedsDefault name;
  match (if isNil (pa_Default p) then inr DNil else Param_coerce p (pa_Default p)) with
  | inl why => inl (BadDefault name why)
  | inr _ => inr ({[name]} ∪ seen, bound)
  end.

(** The references in the formats of a parameter. *)
Definition Param_refs (p : Param) : list string := pa_Bind p ≫= fun b => formatTokenRefs (bd_Format b).

Definition tokensKnown (t : Template) (ref : string) : bool :=
  match Template_param t ref with
  | Some target => (pa_Type target ==? TypeEnum) && (pa_Tokens target !=? ∅)
  | None => false
  end.

(** [Validate]: [None] is [nil]. *)
Definition Template_Validate {R : GoRange} (t : Template) : option invalid :=
  if negb (idPattern (tp_ID t)) || (tp_Version t <? 1) then Some BadIdentity
  else if (tp_Title t ==? ""%string) || (tp_Operation t ==? ""%string) || negb (Contains (tp_Profile t) "@") then Some IncompleteHeader
  else if tp_Graph t ==? ∅ then Some NoGraph
  else
    match decodeGraph (tp_Graph t) with
    | inl id => Some (BadNode id)
    | inr nodes =>
        match each (validateParam nodes) (∅, ∅) (tp_Params t) with
        | inl why => Some why
        | inr _ =>
            match each (fun (_ : unit) p => match List.find (fun ref => negb (tokensKnown t ref)) (Param_refs p) with
                                            | Some ref => inl (BadTokens (pa_Name p) ref)
                                            | None => inr tt
                                            end) tt (tp_Params t) with
            | inl why => Some why
            | inr _ => None
            end
        end
    end.

(** ** Compilation *)

Record Compiled := mkCompiled {
  cm_Graph : gmap string dyn;
  cm_ArtifactRefs : list string;
  cm_Params : gmap string dyn;
}.

Inductive compileError :=
  | GraphUndecodable
  | ParamError (workflow : string) (problems : gmap string problem).

Inductive outcome (A : Type) :=
  | Panics
  | Fails (e : compileError)
  | Compiles (a : A).
Arguments Panics {A}.
Arguments Fails {A} e.
Arguments Compiles {A} a.

(** The graph as a [map[string]any]. *)
Definition unmarshal_graph (graph : gmap string json) : option (gmap string dyn) :=
  if bool_decide (map_Forall (fun _ raw => is_Some (unmarshal_any raw)) graph) then Some (omap unmarshal_any graph) else None.

(** [randomSeed]: eight random bytes as a number, unless reading them failed. *)
Definition randomSeed (bytes : option Z) : Z := match bytes with Some n => Z.land n maxSeed | None => 0 end.

(** The value a parameter takes before it is checked; [None] when it is
    required and missing. *)
Definition effective (p : Param) (supplied : option dyn) (bytes : option Z) : option dyn :=
  let v := default DNil supplied in
  if isNil v then
    if pa_Required p then None
    else if negb (isNil (pa_Default p)) then Some (pa_Default p)
    else if pa_Type p ==? TypeSeed then Some (DInt64 (randomSeed bytes))
    else Some v
  else Some v.

(** The loop over the parameters: problems, artifacts and values so far. *)
Record gathered := mkGathered {
  ga_problems : gmap string problem;
  ga_refs : list string;
  ga_values : gmap string dyn;
}.

Definition gather (params : gmap string dyn) (bytes : string -> option Z) (g : gathered) (p : Param) : gathered :=
  let name := pa_Name p in
  match effective p (params !! name) (bytes name) with
  | None => mkGathered (<[name := IsRequired]> (ga_problems g)) (ga_refs g) (ga_values g)
  | Some v =>
      match Param_coerce p v with
      | inl why => mkGathered (<[name := why]> (ga_problems g)) (ga_refs g) (ga_values g)
      | inr value =>
          mkGathered (ga_problems g)
            (if Param_isMedia p then ga_refs g ++ match as_string value with Some s => [s] | None => [] end else ga_refs g)
            (<[name := value]> (ga_values g))
      end
  end.

Definition unknownParams (t : Template) (params : gmap string dyn) : gmap string problem :=
  (fun _ => NotAParameter) <$> filter (fun kv => containsValue (map pa_Name (tp_Params t)) kv.1 = false) params.

(** The text of a format with the tokens in their places; [None] when a
    reference names no parameter. *)
Definition expandTokens (t : Template) (values : gmap string dyn) (text : string) : option string :=
  String.concat "" <$> mapM (fun piece => match piece with
    | inl c => Some (String c "")
    | inr name =>
        p ← Template_param t name;
        let chosen := default ""%string (values !! name ≫= as_string) in
        Some (default ""%string (pa_Tokens p !! chosen))
    end) (pieces text).

(** What a binding writes for a value. *)
Definition written (t : Template) (values : gmap string dyn) (value : dyn) (b : Binding) : option dyn :=
  w ← match bd_Map b with
      | Some m => s ← as_string value; Some (default DNil (m !! s))
      | None => Some value
      end;
  if bd_Format b !=? ""%string
  then s ← as_string value; DString <$> expandTokens t values (ReplaceAll (bd_Format b) "{value}" s)
  else Some w.

(** [n.(map[string]any)["inputs"].(map[string]any)]. *)
Definition inputsOf (n : dyn) : option (list (string * dyn)) :=
  match n with
  | DMap l => match assoc "inputs" l with Some (DMap inputs) => Some inputs | _ => None end
  | _ => None
  end.

Definition withInputs (inputs : list (string * dyn)) (n : dyn) : dyn :=
  match n with
  | DMap l => DMap (assoc_set "inputs" (DMap inputs) l)
  | _ => n
  end.

Definition writeInput (t : Template) (values : gmap string dyn) (value : dyn) (graph : gmap string dyn) (b : Binding)
  : option (gmap string dyn) :=
  w ← written t values value b;
  n ← graph !! bd_Node b;
  inputs ← inputsOf n;
  Some (<[bd_Node b := withInputs (assoc_set (bd_Input b) w inputs) n]> graph).

(** A loop that may panic. *)
Fixpoint trying {A S} (f : S -> A -> option S) (s : S) (l : list A) : option S :=
  match l with
  | [] => Some s
  | x :: l => s ← f s x; trying f s l
  end.

Definition writeParam (t : Template) (values : gmap string dyn) (graph : gmap string dyn) (p : Param) : option (gmap string dyn) :=
  trying (writeInput t values (default DNil (values !! pa_Name p))) graph (pa_Bind p).

(** The nodes an enum choice takes out of the graph, with their outputs. *)
Definition chosenBypasses (values : gmap string dyn) (p : Param) : list Bypass :=
  match values !! pa_Name p ≫= as_string with
  | Some chosen => if pa_Type p ==? TypeEnum then filter (fun b => containsValue (by_When b) chosen = true) (pa_Bypass p) else []
  | None => []
  end.

Definition bypassedNodes (t : Template) (values : gmap string dyn) : gmap string (gmap string string) :=
  foldl (fun acc b => <[by_Node b := by_Outputs b]> acc) ∅ (tp_Params t ≫= chosenBypasses values).

(** A consumer of a removed node gets the link in the input that stands for
    the output it used. *)
Definition rewire (id : string) (removed : list (string * dyn)) (outputs : gmap string string) (input : dyn) : dyn :=
  match input with
  | DSlice [DString source; output] =>
      if source ==? id
      then default DNil (assoc (default ""%string (outputs !! sprint_any output)) removed)
      else input
  | _ => input
  end.

Definition rewireInputs (id : string) (removed : list (string * dyn)) (outputs : gmap string string) (inputs : list (string * dyn))
  : list (string * dyn) :=
  map (fun kv => (kv.1, rewire id removed outputs kv.2)) inputs.

Definition removeNode (graph : gmap string dyn) (entry : string * gmap string string) : option (gmap string dyn) :=
  let '(id, outputs) := entry in
  removed ← graph !! id ≫= inputsOf;
  let graph := delete id graph in
  if bool_decide (map_Forall (fun _ n => is_Some (inputsOf n)) graph)
  then Some ((fun n => withInputs (rewireInputs id removed outputs (default [] (inputsOf n))) n) <$> graph)
  else None.

Definition Template_Compile {R : GoRange} (bytes : string -> option Z) (t : Template) (params : gmap string dyn) : outcome Compiled :=
  match unmarshal_graph (tp_Graph t) with
  | None => Fails GraphUndecodable
  | Some graph =>
      let g := foldl (gather params bytes) (mkGathered (unknownParams t params) [] ∅) (tp_Params t) in
      if ga_problems g !=? ∅ then Fails (ParamError (Template_Ref t) (ga_problems g))
      else
        match graph ← trying (writeParam t (ga_values g)) graph (tp_Params t);
              trying removeNode graph (go_range (bypassedNodes t (ga_values g))) with
        | None => Panics
        | Some graph => Compiles (mkCompiled graph (ga_refs g) (ga_values g))
        end
  end.

(** ** The registry *)

Record Registry := mkRegistry {
  rg_byRef : gmap string Template;
  rg_latest : gmap string Template;
}.
Definition emptyRegistry : Registry := mkRegistry ∅ ∅.

(** [Add]: the error, or the registry. *)
Definition Registry_Add {R : GoRange} (r : Registry) (t : Template) : (invalid + string) + Registry :=
  match Template_Validate t with
  | Some why => inl (inl why)
  | None =>
      match rg_byRef r !! Template_Ref t with
      | Some _ => inl (inr (Template_Ref t))
      | None =>
          let newest := match rg_latest r !! tp_ID t with Some cur => tp_Version cur <? tp_Version t | None => true end in
          inr (mkRegistry (<[Template_Ref t := t]> (rg_byRef r))
                 (if newest then <[tp_ID t := t]> (rg_latest r) else rg_latest r))
      end
  end.

Definition NewRegistry {R : GoRange} (templates : list Template) : (invalid + string) + Registry :=
  each Registry_Add emptyRegistry templates.

(** [Get]: [None] is [ErrUnknownWorkflow]. *)
Definition Registry_Get (r : Registry) (ref : string) : option Template :=
  match rg_byRef r !! ref with
  | Some t => Some t
  | None => rg_latest r !! ref
  end.

Definition templateLess (a b : Template) : bool :=
  if tp_ID a !=? tp_ID b then String.ltb (tp_ID a) (tp_ID b) else tp_Version a <? tp_Version b.

Definition Registry_All {R : GoRange} (r : Registry) : list Template := sort_slice templateLess (map snd (go_range (rg_byRef r))).
