(* ===== verification/WorkflowLemmas.v ===== *)
(** * Compilation of workflow templates, step by step

    What the parts of [Workflow] do: the checks of a template, the values of
    its parameters, the writes into the graph and the removal of bypassed
    nodes, whatever the order in which maps are visited. *)

From Stdlib Require Import SpecFloat.
From S2P Require Import Prelude GoText Domain GoJSON GoFloat GoDyn Workflow.

(** ** Association lists and loops *)

Lemma assoc_set_eq {A} k (v : A) l : assoc k (assoc_set k v l) = Some v.
Proof.
  induction l as [|[k' v'] l IH]; cbn; [by rewrite bool_decide_eq_true_2|].
  destruct (k ==? k') eqn:E; cbn; [by rewrite bool_decide_eq_true_2|by rewrite E].
Qed.

Lemma assoc_set_ne {A} k k' (v : A) l : k <> k' -> assoc k' (assoc_set k v l) = assoc k' l.
Proof.
  intros Hne. induction l as [|[k0 v0] l IH]; cbn; [by rewrite bool_decide_eq_false_2|].
  destruct (k ==? k0) eqn:E; cbn; [|by rewrite IH].
  bool_simp. subst. by rewrite (bool_decide_eq_false_2 (k' = k0)).
Qed.

Lemma assoc_map {A B} (f : A -> B) k l : assoc k (map (fun kv => (kv.1, f kv.2)) l) = f <$> assoc k l.
Proof. induction l as [|[k' v] l IH]; cbn; [done|]. by destruct (k ==? k'). Qed.

Lemma trying_app {A S} (f : S -> A -> option S) s l1 l2 : trying f s (l1 ++ l2) = trying f s l1 ≫= fun s => trying f s l2.
Proof. revert s. induction l1 as [|x l1 IH]; intros s; cbn; [done|]. by destruct (f s x); cbn. Qed.

(** Loops in loops are loops over all elements. *)
Lemma trying_concat {A B S} (f : S -> A * B -> option S) (g : A -> list B) s l :
  trying (fun s x => trying (fun s y => f s (x, y)) s (g x)) s l = trying f s (l ≫= fun x => (x,.) <$> g x).
Proof.
  revert s. induction l as [|x l IH]; intros s; cbn; [done|]. rewrite trying_app.
  assert (trying f s ((x,.) <$> g x) = trying (fun s y => f s (x, y)) s (g x)) as ->.
  { generalize (g x). intros ys. revert s. induction ys as [|y ys IHy]; intros s; cbn; [done|]. by destruct (f s (x, y)); cbn. }
  destruct (trying _ s (g x)); cbn; [apply IH|done].
Qed.

Lemma each_app {A S E} (f : S -> A -> E + S) s l1 l2 :
  each f s (l1 ++ l2) = match each f s l1 with inr s => each f s l2 | inl e => inl e end.
Proof. revert s. induction l1 as [|x l1 IH]; intros s; cbn; [done|]. by destruct (f s x). Qed.

(** Every element of a loop that ends was met in some state. *)
Lemma each_elem {A S E} (f : S -> A -> E + S) s l s' x : each f s l = inr s' -> x ∈ l -> exists s1 s2, f s1 x = inr s2.
Proof.
  revert s. induction l as [|y l IH]; intros s; cbn; [by intros _ ?%elem_of_nil|]. destruct (f s y) eqn:Hf; [done|].
  intros H [->|Hx]%elem_of_cons; eauto.
Qed.

Lemma find_None_elem {A} (p : A -> bool) l : List.find p l = None -> forall x, x ∈ l -> p x = false.
Proof. intros H x Hx. apply (List.find_none p l H), list_elem_of_In, Hx. Qed.

Lemma containsValue_spec values v : containsValue values v = true <-> v ∈ values.
Proof.
  unfold containsValue. rewrite existsb_true. split.
  - intros (x & Hx & E). bool_simp. by subst.
  - intros H. exists v. split; [done|by apply bool_decide_eq_true].
Qed.

(** ** Graphs *)

(** An input of a node, and its other members. *)
Definition input_at (g : gmap string dyn) (id i : string) : option dyn := (g !! id ≫= inputsOf) ≫= assoc i.
Definition member_at (g : gmap string dyn) (id k : string) : option dyn :=
  g !! id ≫= fun n => match n with DMap l => assoc k l | _ => None end.

(** Two graphs with the same nodes but for their inputs. *)
Definition same_frame (g g' : gmap string dyn) : Prop :=
  dom g' = dom g /\ (forall id k, k <> "inputs"%string -> member_at g' id k = member_at g id k).

Lemma inputs_with n inputs inputs' : inputsOf n = Some inputs -> inputsOf (withInputs inputs' n) = Some inputs'.
Proof. destruct n; try done. cbn. by rewrite assoc_set_eq. Qed.

Lemma member_with n inputs k : k <> "inputs"%string ->
  match withInputs inputs n with DMap l => assoc k l | _ => None end = match n with DMap l => assoc k l | _ => None end.
Proof. destruct n; try done. cbn. intros Hk. by apply assoc_set_ne. Qed.

Lemma writeInput_spec t values value g b g' : writeInput t values value g b = Some g' ->
  exists w, written t values value b = Some w /\ same_frame g g' /\
    input_at g' (bd_Node b) (bd_Input b) = Some w /\
    (forall id i, (id, i) <> (bd_Node b, bd_Input b) -> input_at g' id i = input_at g id i) /\
    (forall id, is_Some (g !! id ≫= inputsOf) -> is_Some (g' !! id ≫= inputsOf)).
Proof.
  unfold writeInput. destruct (written t values value b) as [w|] eqn:Hw; [|done]. cbn.
  destruct (g !! bd_Node b) as [n|] eqn:Hn; [|done]. cbn. destruct (inputsOf n) as [inputs|] eqn:Hi; [|done]. cbn. intros [= <-].
  exists w. split; [done|]. split_and!.
  - split; [by rewrite dom_insert_lookup_L|]. intros id k Hk. unfold member_at.
    destruct (decide (bd_Node b = id)) as [<-|Hne]; [rewrite lookup_insert_eq, Hn; by apply member_with|by rewrite lookup_insert_ne].
  - unfold input_at. rewrite lookup_insert_eq. cbn. rewrite (inputs_with _ _ _ Hi). cbn. apply assoc_set_eq.
  - intros id i Hne. unfold input_at. destruct (decide (bd_Node b = id)) as [<-|Hid]; [|by rewrite lookup_insert_ne].
    rewrite lookup_insert_eq, Hn. cbn. rewrite (inputs_with _ _ _ Hi), Hi. cbn. apply assoc_set_ne. congruence.
  - intros id Hs. destruct (decide (bd_Node b = id)) as [<-|Hid]; [|by rewrite lookup_insert_ne].
    rewrite lookup_insert_eq. cbn. rewrite (inputs_with _ _ _ Hi). eauto.
Qed.

#[export] Instance same_frame_preorder : PreOrder same_frame.
Proof.
  split; [done|]. intros g1 g2 g3 [D1 M1] [D2 M2]. split; [congruence|]. intros id k Hk. by rewrite M2, M1.
Qed.

(** ** Writing *)

(** The writes of a compilation, in order. *)
Definition writes (t : Template) : list (Param * Binding) := tp_Params t ≫= fun p => (p,.) <$> pa_Bind p.
Definition place (pb : Param * Binding) : string * string := (bd_Node pb.2, bd_Input pb.2).
Definition value_of (values : gmap string dyn) (p : Param) : dyn := default DNil (values !! pa_Name p).

Lemma elem_of_writes t p b : (p, b) ∈ writes t <-> p ∈ tp_Params t /\ b ∈ pa_Bind p.
Proof.
  unfold writes. rewrite list_elem_of_bind. setoid_rewrite list_elem_of_fmap. split.
  - intros (q & (c & [= -> ->] & Hc) & Hq). done.
  - intros [Hp Hb]. exists p. split; [|done]. by exists b.
Qed.

Definition writeGraph (t : Template) (values : gmap string dyn) (g : gmap string dyn) : option (gmap string dyn) :=
  trying (writeParam t values) g (tp_Params t).

Lemma writeGraph_flat t values g :
  writeGraph t values g = trying (fun g pb => writeInput t values (value_of values pb.1) g pb.2) g (writes t).
Proof.
  unfold writeGraph, writes. rewrite <- (trying_concat (fun g pb => writeInput t values (value_of values pb.1) g pb.2)). done.
Qed.

Lemma writes_spec t values l : forall g g', NoDup (place <$> l) ->
  trying (fun g pb => writeInput t values (value_of values pb.1) g pb.2) g l = Some g' ->
  same_frame g g' /\
  (forall pb, pb ∈ l -> exists w, written t values (value_of values pb.1) pb.2 = Some w /\ input_at g' (place pb).1 (place pb).2 = Some w) /\
  (forall id i, (id, i) ∉ place <$> l -> input_at g' id i = input_at g id i) /\
  (forall id, is_Some (g !! id ≫= inputsOf) -> is_Some (g' !! id ≫= inputsOf)).
Proof.
  induction l as [|[p b] l IH]; intros g g' Hnd; cbn.
  { intros [= <-]. split_and!; [done|by intros pb ?%elem_of_nil|done|done]. }
  apply NoDup_cons in Hnd as [Hni Hnd]. destruct (writeInput _ _ _ g b) as [g1|] eqn:E; [|done]. cbn. intros Ht.
  apply writeInput_spec in E as (w & Hw & Hf & Hi & Ho & Hs). destruct (IH g1 g' Hnd Ht) as (Hf' & Hin & Hout & Hs').
  split_and!.
  - by etrans.
  - intros pb [->|Hpb]%elem_of_cons; [|by apply Hin]. exists w. split; [done|]. cbn. rewrite Hout; [done|exact Hni].
  - intros id i Hn. apply not_elem_of_cons in Hn as [Hne Hn]. rewrite Hout by done. by apply Ho.
  - intros id H. by apply Hs', Hs.
Qed.

(** ** Removing *)

Lemma removeNode_spec g id outputs g' : removeNode g (id, outputs) = Some g' ->
  exists removed, g !! id ≫= inputsOf = Some removed /\ dom g' = dom g ∖ {[id]} /\
    (forall id' k, id' <> id -> k <> "inputs"%string -> member_at g' id' k = member_at g id' k) /\
    (forall id' i, id' <> id -> input_at g' id' i = rewire id removed outputs <$> input_at g id' i) /\
    (forall id', id' <> id -> is_Some (g !! id' ≫= inputsOf) -> is_Some (g' !! id' ≫= inputsOf)).
Proof.
  unfold removeNode. destruct (g !! id ≫= inputsOf) as [removed|] eqn:Hr; [|done]. cbn.
  destruct (bool_decide _) eqn:Hall; [|done]. bool_simp. intros [= <-]. exists removed. split; [done|]. split_and!.
  - by rewrite dom_fmap_L, dom_delete_L.
  - intros id' k Hne Hk. unfold member_at. rewrite lookup_fmap, lookup_delete_ne by done.
    destruct (g !! id') as [n|]; [|done]. cbn. by apply member_with.
  - intros id' i Hne. unfold input_at. rewrite lookup_fmap, lookup_delete_ne by done.
    destruct (g !! id') as [n|] eqn:Hn; [|done]. cbn. destruct (Hall id' n) as [inputs Hi]; [by rewrite lookup_delete_ne|].
    rewrite Hi. cbn. rewrite (inputs_with _ _ _ Hi). cbn. unfold rewireInputs. apply assoc_map.
  - intros id' Hne. rewrite lookup_fmap, lookup_delete_ne by done. destruct (g !! id') as [n|]; [|done]. cbn.
    intros [inputs Hi]. rewrite Hi. cbn. rewrite (inputs_with _ _ _ Hi). eauto.
Qed.

(** A link to one of the nodes. *)
Definition links (v : dyn) : option string :=
  match v with DSlice [DString source; _] => Some source | _ => None end.

Lemma rewire_other id removed outputs v : links v <> Some id -> rewire id removed outputs v = v.
Proof.
  unfold rewire. destruct v as [| | | | | | |[|[| | | | | |source| | |] [|o [|]]]| |]; try done. cbn. intros Hne.
  by rewrite bool_decide_eq_false_2 by congruence.
Qed.

Lemma removes_spec entries : forall g g', NoDup entries.*1 -> trying removeNode g entries = Some g' ->
  dom g' = dom g ∖ list_to_set entries.*1 /\
  (forall id k, id ∉ entries.*1 -> k <> "inputs"%string -> member_at g' id k = member_at g id k) /\
  (forall id i, id ∉ entries.*1 -> match input_at g id i with
     | Some v => (forall s, links v = Some s -> s ∉ entries.*1) -> input_at g' id i = Some v
     | None => input_at g' id i = None
     end).
Proof.
  induction entries as [|[id outputs] entries IH]; intros g g' Hnd; cbn [fmap list_fmap fst trying].
  { intros [= <-]. split_and!; [set_solver|done|]. intros id i _. by destruct (input_at g id i). }
  apply NoDup_cons in Hnd as [Hni Hnd]. destruct (removeNode g (id, outputs)) as [g1|] eqn:E; [|done]. cbn [mbind option_bind].
  intros Ht. apply removeNode_spec in E as (removed & _ & Hd & Hm & Hi & _).
  destruct (IH g1 g' Hnd Ht) as (Hd' & Hm' & Hi'). split_and!.
  - rewrite Hd', Hd. set_solver.
  - intros id' k Hn Hk. apply not_elem_of_cons in Hn as [Hne Hn]. by rewrite Hm', Hm.
  - intros id' i Hn. apply not_elem_of_cons in Hn as [Hne Hn]. specialize (Hi' id' i Hn). rewrite (Hi id' i Hne) in Hi'.
    destruct (input_at g id' i) as [v|]; [|done]. cbn in Hi'. intros Hl.
    rewrite rewire_other in Hi' by (intros Hx; apply (Hl id Hx); by left).
    apply Hi'. intros s Hs. specialize (Hl s Hs). by apply not_elem_of_cons in Hl as [_ Hl].
Qed.

(** ** What validation ensures *)

Record sound_binding (nodes : gmap string node) (p : Param) (b : Binding) : Prop := {
  sb_node : exists n, nodes !! bd_Node b = Some n /\ exists v, assoc (bd_Input b) (nd_Inputs n) = Some v /\ isLink v = false;
  sb_format : bd_Format b <> ""%string -> pa_Type p = TypeString;
  sb_map : forall m, bd_Map b = Some m -> pa_Type p = TypeEnum;
}.

Lemma validateBinding_spec nodes p bound b bound' : validateBinding nodes p bound b = inr bound' ->
  sound_binding nodes p b /\ default ""%string (bound !! bindKey b) = ""%string /\ bound' = <[bindKey b := pa_Name p]> bound.
Proof.
  unfold validateBinding. destruct (nodes !! bd_Node b) as [n|] eqn:Hn; [|done].
  destruct (assoc _ _) as [v|] eqn:Hv; [|done]. destruct (isLink v) eqn:Hl; [done|].
  destruct (_ !=? _) eqn:Ho; [done|]. destruct (_ && _) eqn:Hf; [done|]. bool_simp.
  assert (bd_Format b <> ""%string -> pa_Type p = TypeString) as Hfmt.
  { intros Hne. rewrite (bool_decide_eq_false_2 _ Hne) in Hf. cbn in Hf. by bool_simp. }
  destruct (bd_Map b) as [m|] eqn:Hm.
  - destruct (pa_Type p !=? TypeEnum) eqn:He; [done|]. destruct (List.find _ _); [done|]. bool_simp. intros [= <-].
    split; [|done]. split; eauto.
  - intros [= <-]. split; [|done]. split; [eauto|done|congruence].
Qed.

Lemma bindings_spec nodes p : pa_Name p <> ""%string -> forall l bound bound',
  map_Forall (fun _ n => n <> ""%string) bound -> each (validateBinding nodes p) bound l = inr bound' ->
  map_Forall (fun _ n => n <> ""%string) bound' /\ (forall b, b ∈ l -> sound_binding nodes p b) /\
  NoDup (bindKey <$> l) /\ (forall b, b ∈ l -> bindKey b ∉ dom bound) /\ dom bound' = dom bound ∪ list_to_set (bindKey <$> l).
Proof.
  intros Hname. induction l as [|b l IH]; intros bound bound' Hne; cbn [each fmap list_fmap].
  { intros [= <-]. split_and!; [done|by intros b ?%elem_of_nil|constructor|by intros b ?%elem_of_nil|set_solver]. }
  destruct (validateBinding nodes p bound b) as [|bound1] eqn:E; [done|]. intros H.
  apply validateBinding_spec in E as (Hs & Hfree & ->).
  assert (bindKey b ∉ dom bound) as Hnd.
  { intros [n Hn]%elem_of_dom. rewrite Hn in Hfree. by apply (Hne _ _ Hn). }
  destruct (IH _ _ (map_Forall_insert_2 _ _ _ _ Hname Hne) H) as (Hne' & Hall & Hdup & Hout & Hdom).
  rewrite dom_insert_L in Hdom. split_and!.
  - done.
  - intros b' [->|Hb]%elem_of_cons; [done|by apply Hall].
  - constructor; [|done]. intros (b' & Hk & Hb')%list_elem_of_fmap. apply (Hout b' Hb'). rewrite <- Hk. rewrite dom_insert_L. set_solver.
  - intros b' [->|Hb]%elem_of_cons; [done|]. specialize (Hout b' Hb). rewrite dom_insert_L in Hout. set_solver.
  - rewrite Hdom. cbn. set_solver.
Qed.

Record sound_param (nodes : gmap string node) (p : Param) : Prop := {
  so_name : namePattern (pa_Name p) = true;
  so_type : pa_Type p ∈ (TypeEnum :: knownTypes);
  so_bind : forall b, b ∈ pa_Bind p -> sound_binding nodes p b;
  so_bypass : forall b, b ∈ pa_Bypass p -> is_Some (nodes !! by_Node b);
  so_default : pa_Default p <> DNil -> exists v, Param_coerce p (pa_Default p) = inr v;
  so_optional : pa_Required p = false -> pa_Default p <> DNil \/ pa_Type p = TypeSeed;
}.

Lemma isNil_spec v : isNil v = true <-> v = DNil.
Proof. by destruct v. Qed.

Lemma validateBypass_node {R : GoRange} nodes p l : each (validateBypass nodes p) tt l = inr tt ->
  forall b, b ∈ l -> is_Some (nodes !! by_Node b).
Proof.
  intros H b Hb. destruct (each_elem _ _ _ _ b H Hb) as (s1 & s2 & E). unfold validateBypass in E.
  destruct (nodes !! by_Node b); [eauto|done].
Qed.

Lemma name_nonempty s : namePattern s = true -> s <> ""%string.
Proof. by intros H ->. Qed.

Lemma validateParam_spec {R : GoRange} nodes seen bound p seen' bound' :
  map_Forall (fun _ n => n <> ""%string) bound -> validateParam nodes (seen, bound) p = inr (seen', bound') ->
  sound_param nodes p /\ (pa_Name p ∉ seen) /\ seen' = ({[pa_Name p]} ∪ seen) /\
  each (validateBinding nodes p) bound (pa_Bind p) = inr bound'.
Proof.
  intros Hne. unfold validateParam. destruct (_ || _) eqn:E1; [done|]. destruct (_ && _) eqn:E2; [done|].
  destruct (negb (containsValue _ _) && _) eqn:E3; [done|]. destruct (match pa_Bind p with [] => true | _ => false end); [done|].
  destruct (each (validateBinding nodes p) bound (pa_Bind p)) as [|bound1] eqn:Eb; [done|].
  destruct ((_ || _) && _); [done|]. destruct (each (validateBypass nodes p) tt (pa_Bypass p)) as [|[]] eqn:Ey; [done|].
  destruct (pa_Required p && _) eqn:E4; [done|]. destruct (Param_isMedia p && _); [done|].
  destruct (negb (pa_Required p) && _ && _) eqn:E5; [done|].
  destruct (if isNil (pa_Default p) then _ else _) as [|v] eqn:Ed; [done|]. intros [= <- <-]. bool_simp.
  pose proof (bindings_spec nodes p (name_nonempty _ H) _ _ _ Hne Eb) as (_ & Hall & _).
  split; [|done]. split; [done| |done|by eapply validateBypass_node| |].
  - apply andb_false_iff in E3 as [E3|E3]; bool_simp; [right; by apply containsValue_spec|rewrite E3; left].
  - intros Hd. destruct (isNil (pa_Default p)) eqn:En; [by apply isNil_spec in En|eauto].
  - intros Hr. rewrite Hr in E5. cbn in E5. destruct (isNil (pa_Default p)) eqn:En; cbn in E5; [bool_simp; by right|].
    left. intros Hx. by rewrite Hx in En.
Qed.

(** The loop over the parameters: names and inputs are taken once. *)
Lemma params_spec {R : GoRange} nodes : forall l seen bound seen' bound',
  map_Forall (fun _ n => n <> ""%string) bound -> each (validateParam nodes) (seen, bound) l = inr (seen', bound') ->
  (forall p, p ∈ l -> sound_param nodes p /\ pa_Name p ∉ seen) /\ NoDup (pa_Name <$> l) /\
  NoDup (bindKey <$> (l ≫= pa_Bind)) /\ (forall b, b ∈ l ≫= pa_Bind -> bindKey b ∉ dom bound).
Proof.
  induction l as [|p l IH]; intros seen bound seen' bound' Hne; cbn [each].
  { intros _. split_and!; [by intros p ?%elem_of_nil|constructor|constructor|by intros b ?%elem_of_nil]. }
  destruct (validateParam nodes (seen, bound) p) as [|[seen1 bound1]] eqn:E; [done|]. intros H.
  apply validateParam_spec in E as (Hs & Hfresh & -> & Eb); [|done].
  destruct (bindings_spec nodes p (name_nonempty _ (so_name _ _ Hs)) _ _ _ Hne Eb) as (Hne1 & _ & Hd1 & Ho1 & Hdom).
  destruct (IH _ _ _ _ Hne1 H) as (Hp & Hn & Hd & Ho). rewrite Hdom in Ho.
  assert (forall b, b ∈ l ≫= pa_Bind -> (bindKey b ∉ dom bound) /\ (bindKey b ∉ bindKey <$> pa_Bind p)) as Hapart.
  { intros b Hb. specialize (Ho b Hb). rewrite elem_of_union, elem_of_list_to_set in Ho. tauto. }
  split_and!.
  - intros q [->|Hq]%elem_of_cons; [done|]. destruct (Hp q Hq) as [? Hx]. split; [done|]. set_solver.
  - constructor; [|done]. intros (q & Hq & Hin)%list_elem_of_fmap. destruct (Hp q Hin) as [_ Hx]. apply Hx. rewrite Hq. set_solver.
  - cbn. rewrite fmap_app. apply NoDup_app. split_and!; [done| |done].
    intros k Hk (b & -> & Hb)%list_elem_of_fmap. by apply (Hapart b Hb).
  - intros b. cbn. intros [Hb|Hb]%elem_of_app; [by apply Ho1|by apply Hapart].
Qed.

Record validated {R : GoRange} (t : Template) (nodes : gmap string node) : Prop := {
  va_id : idPattern (tp_ID t) = true;
  va_version : 1 <= tp_Version t;
  va_nodes : decodeGraph (tp_Graph t) = inr nodes;
  va_params : forall p, p ∈ tp_Params t -> sound_param nodes p;
  va_names : NoDup (pa_Name <$> tp_Params t);
  va_places : NoDup (place <$> writes t);
  va_tokens : forall p b ref, p ∈ tp_Params t -> b ∈ pa_Bind p -> ref ∈ formatTokenRefs (bd_Format b) -> tokensKnown t ref = true;
}.

Lemma writes_snd t : (writes t).*2 = tp_Params t ≫= pa_Bind.
Proof.
  unfold writes. induction (tp_Params t) as [|p l IH]; cbn; [done|]. rewrite fmap_app, IH. f_equal.
  rewrite <- list_fmap_compose. apply list_fmap_id.
Qed.

Lemma places_distinct t : NoDup (bindKey <$> (tp_Params t ≫= pa_Bind)) -> NoDup (place <$> writes t).
Proof.
  rewrite <- writes_snd. intros H. apply (NoDup_fmap_1 (fun x : string * string => (x.1 +:+ "." +:+ x.2)%string)).
  revert H. generalize (writes t). intros l. replace (_ <$> (place <$> l)) with (bindKey <$> l.*2); [done|].
  induction l as [|pb l IH]; cbn; [done|]. by rewrite IH.
Qed.

Lemma validate_inv {R : GoRange} t : Template_Validate t = None -> exists nodes, validated t nodes.
Proof.
  unfold Template_Validate. destruct (_ || _) eqn:E1; [done|]. destruct (_ || _ || _); [done|]. destruct (_ ==? ∅); [done|].
  destruct (decodeGraph (tp_Graph t)) as [|nodes] eqn:Eg; [done|].
  destruct (each (validateParam nodes) (∅, ∅) (tp_Params t)) as [|[seen bound]] eqn:Ep; [done|].
  destruct (each _ tt (tp_Params t)) as [|[]] eqn:Et; [done|]. intros _. bool_simp.
  destruct (params_spec nodes _ _ _ _ _ (map_Forall_empty _) Ep) as (Hp & Hn & Hd & _). exists nodes.
  split; [done|done|exact Eg|intros p Hin; by apply Hp|done|by apply places_distinct|].
  intros p b ref Hin Hb Href. destruct (each_elem _ _ _ _ p Et Hin) as (s1 & s2 & E).
  destruct (List.find _ (Param_refs p)) eqn:Ef; [done|]. apply find_None_elem with (x := ref) in Ef; [by bool_simp|].
  unfold Param_refs. apply list_elem_of_bind. eauto.
Qed.

(** ** Values *)

Definition within (p : Param) (f : float64) : Prop :=
  (forall lo, pa_Min p = Some lo -> SFltb f lo = false) /\ (forall hi, pa_Max p = Some hi -> SFltb hi f = false).

(** The values a parameter of a type may take. *)
Inductive admissible (p : Param) : dyn -> Prop :=
  | ad_string s : pa_Type p = TypeString -> (pa_Required p = true -> blank s = false) ->
      Z.of_nat (length (runes s)) <= (if pa_MaxLength p =? 0 then 4000 else pa_MaxLength p) -> admissible p (DString s)
  | ad_integer n : pa_Type p = TypeInteger \/ pa_Type p = TypeSeed -> (pa_Type p = TypeSeed -> 0 <= n <= maxSeed) ->
      within p (float_of_Z n) -> (0 < pa_MultipleOf p -> (pa_MultipleOf p | n)) -> admissible p (DInt64 n)
  | ad_number f : pa_Type p = TypeNumber -> float_finite f = true -> within p f -> admissible p (DFloat f)
  | ad_boolean b : pa_Type p = TypeBoolean -> admissible p (DBool b)
  | ad_enum s : pa_Type p = TypeEnum -> s ∈ pa_Values p -> admissible p (DString s)
  | ad_media s : Param_isMedia p = true -> s <> ""%string -> ContainsAny s path_chars = false -> admissible p (DString s).

Lemma checkRange_spec p f : Param_checkRange p f = None <-> within p f.
Proof.
  unfold Param_checkRange, within. destruct (pa_Min p) as [lo|], (pa_Max p) as [hi|]; split; try done.
  - destruct (SFltb f lo) eqn:E; [done|]. destruct (SFltb hi f) eqn:E'; [done|]. intros _. by split; intros ? [= <-].
  - intros [H1 H2]. by rewrite (H1 lo), (H2 hi).
  - destruct (SFltb f lo) eqn:E; [done|]. intros _. by split; intros ? [= <-].
  - intros [H1 _]. by rewrite (H1 lo).
  - destruct (SFltb hi f) eqn:E'; [done|]. intros _. by split; intros ? [= <-].
  - intros [_ H2]. by rewrite (H2 hi).
Qed.

Lemma coerce_admissible p v w : Param_coerce p v = inr w -> admissible p w.
Proof.
  unfold Param_coerce. destruct (pa_Type p ==? TypeString) eqn:E1.
  { destruct (as_string v) as [s|]; [|done]. destruct (_ && _) eqn:Er; [done|]. destruct (_ <? _) eqn:El; [done|]. bool_simp.
    intros [= <-]. constructor; [done| |done]. intros Hr. by rewrite Hr in Er. }
  destruct (_ || _) eqn:E2.
  { destruct (wholeNumber v) as [n|]; [|done]. destruct (_ && _) eqn:Es; [done|].
    destruct (Param_checkRange p (float_of_Z n)) eqn:Ec; [done|]. destruct ((0 <? _) && _) eqn:Em; [done|].
    apply checkRange_spec in Ec. intros [= <-]. constructor; [|intros Ht| |]; [|rewrite (bool_decide_eq_true_2 _ Ht) in Es; cbn in Es|done|].
    - apply orb_true_iff in E2 as [?|?]; bool_simp; auto.
    - bool_simp. lia.
    - intros Hm. destruct (0 <? pa_MultipleOf p) eqn:Ep; [|bool_simp; lia]. cbn in Em. bool_simp. by apply Z.rem_divide; [lia|]. }
  destruct (pa_Type p ==? TypeNumber) eqn:E3.
  { destruct (match v with DFloat f => Some f | DInt n => Some (float_of_Z n) | _ => None end) as [f|]; [|done].
    destruct (float_finite f) eqn:Ef; [|done]. destruct (Param_checkRange p f) eqn:Ec; [done|]. apply checkRange_spec in Ec.
    bool_simp. intros [= <-]. by constructor. }
  destruct (pa_Type p ==? TypeBoolean) eqn:E4; [bool_simp; destruct v; try done; intros [= <-]; by constructor|].
  destruct (pa_Type p ==? TypeEnum) eqn:E5.
  { destruct (as_string v) as [s|]; [|done]. destruct (containsValue _ _) eqn:Ev; [|done]. apply containsValue_spec in Ev.
    bool_simp. intros [= <-]. by apply ad_enum. }
  destruct (Param_isMedia p) eqn:E6; [|done]. destruct (as_string v) as [s|]; [|done]. cbv zeta. destruct (_ || ContainsAny _ _) eqn:Ev; [done|].
  bool_simp. intros [= <-]. by apply ad_media.
Qed.

Lemma admissible_string p v : admissible p v -> pa_Type p = TypeString \/ pa_Type p = TypeEnum \/ Param_isMedia p = true ->
  exists s, v = DString s.
Proof.
  unfold Param_isMedia. intros Ha H.
  assert (forall ty, pa_Type p = ty -> ty ∈ [TypeInteger; TypeSeed; TypeNumber; TypeBoolean] -> False) as Hno.
  { intros ty Ht Hin. rewrite Ht in H. repeat (apply elem_of_cons in Hin as [->|Hin]; [vm_compute in H; destruct_or? H; discriminate|]).
    by apply elem_of_nil in Hin. }
  destruct Ha as [s|n Ht|f Ht|b Ht|s|s]; eauto; exfalso; [destruct Ht as [Ht|Ht]| |]; apply (Hno _ Ht); set_solver.
Qed.

(** What becomes of a parameter. *)
Definition judged (params : gmap string dyn) (bytes : string -> option Z) (p : Param) : problem + dyn :=
  match effective p (params !! pa_Name p) (bytes (pa_Name p)) with
  | None => inl IsRequired
  | Some v => Param_coerce p v
  end.

Definition media_refs (values : gmap string dyn) (p : Param) : list string :=
  if Param_isMedia p then match values !! pa_Name p ≫= as_string with Some s => [s] | None => [] end else [].

Lemma gather_step params bytes g p : gather params bytes g p =
  match judged params bytes p with
  | inl why => mkGathered (<[pa_Name p := why]> (ga_problems g)) (ga_refs g) (ga_values g)
  | inr v => mkGathered (ga_problems g) (ga_refs g ++ media_refs {[pa_Name p := v]} p) (<[pa_Name p := v]> (ga_values g))
  end.
Proof.
  unfold gather, judged, media_refs. destruct (effective _ _ _) as [v|]; [|done]. destruct (Param_coerce p v) as [|w]; [done|].
  rewrite lookup_singleton_eq. cbn. destruct (Param_isMedia p); [done|by rewrite app_nil_r].
Qed.

Lemma gather_spec params bytes l : forall g, NoDup (pa_Name <$> l) ->
  let g' := foldl (gather params bytes) g l in
  (forall name, name ∉ pa_Name <$> l -> ga_problems g' !! name = ga_problems g !! name /\ ga_values g' !! name = ga_values g !! name) /\
  (forall p, p ∈ l -> match judged params bytes p with
     | inl why => ga_problems g' !! pa_Name p = Some why
     | inr v => ga_problems g' !! pa_Name p = ga_problems g !! pa_Name p /\ ga_values g' !! pa_Name p = Some v
     end).
Proof.
  induction l as [|p l IH]; intros g Hnd; cbn [foldl].
  { split; [done|by intros p ?%elem_of_nil]. }
  apply NoDup_cons in Hnd as [Hni Hnd]. destruct (IH (gather params bytes g p) Hnd) as [Hout Hin]. rewrite gather_step in *.
  split.
  - intros name Hn. apply not_elem_of_cons in Hn as [Hne Hn]. destruct (Hout name Hn) as [-> ->].
    destruct (judged params bytes p); cbn; by rewrite ?lookup_insert_ne.
  - intros q [->|Hq]%elem_of_cons.
    + destruct (Hout (pa_Name p) Hni) as [-> ->]. destruct (judged params bytes p); cbn; by rewrite ?lookup_insert_eq.
    + assert (pa_Name p <> pa_Name q) as Hne by (intros E; apply Hni; rewrite E; by apply list_elem_of_fmap_2).
      specialize (Hin q Hq). destruct (judged params bytes p), (judged params bytes q); cbn in *;
        by rewrite ?lookup_insert_ne in Hin by done.
Qed.

(** ** Compilation *)

Section compile.
Context {R : GoRange}.

(** What the loop over the parameters leaves. *)
Definition gathering (bytes : string -> option Z) (t : Template) (params : gmap string dyn) : gathered :=
  foldl (gather params bytes) (mkGathered (unknownParams t params) [] ∅) (tp_Params t).

Lemma unknown_spec t params name : unknownParams t params !! name =
  if decide (name ∈ pa_Name <$> tp_Params t) then None else (fun _ => NotAParameter) <$> params !! name.
Proof.
  unfold unknownParams. rewrite lookup_fmap. destruct (decide _) as [Hin|Hn].
  - rewrite map_lookup_filter_None_2; [done|]. right. intros v _ E. cbn in E.
    by rewrite (proj2 (containsValue_spec _ name)) in E.
  - destruct (params !! name) as [v|] eqn:Hp; [|by rewrite map_lookup_filter_None_2 by (by left)].
    rewrite (map_lookup_filter_Some_2 _ _ _ v); [done|done|]. cbn. apply not_true_iff_false. by rewrite containsValue_spec.
Qed.

(** Why a name is refused. *)
Definition refusal (bytes : string -> option Z) (t : Template) (params : gmap string dyn) (name : string) (why : problem) : Prop :=
  ((name ∉ pa_Name <$> tp_Params t) /\ is_Some (params !! name) /\ why = NotAParameter) \/
  (exists p, p ∈ tp_Params t /\ pa_Name p = name /\ judged params bytes p = inl why).

Lemma gathering_problems bytes t params name why : NoDup (pa_Name <$> tp_Params t) ->
  ga_problems (gathering bytes t params) !! name = Some why <-> refusal bytes t params name why.
Proof.
  intros Hnd. destruct (gather_spec params bytes (tp_Params t) (mkGathered (unknownParams t params) [] ∅) Hnd) as [Hout Hin].
  fold (gathering bytes t params) in Hout, Hin. unfold refusal. cbn in Hout, Hin. setoid_rewrite unknown_spec in Hout.
  split.
  - intros H. destruct (decide (name ∈ pa_Name <$> tp_Params t)) as [Hn|Hn].
    + right. apply list_elem_of_fmap in Hn as (p & -> & Hp). exists p. split; [done|split; [done|]]. specialize (Hin p Hp).
      destruct (judged params bytes p); [congruence|]. destruct Hin as [Hin _].
      rewrite unknown_spec, decide_True in Hin by (by apply list_elem_of_fmap_2). congruence.
    + left. destruct (Hout name Hn) as [E _]. rewrite decide_False in E by done. rewrite E in H.
      destruct (params !! name); [|done]. injection H as <-. eauto.
  - intros [(Hn & [v Hv] & ->)|(p & Hp & <- & Hj)]; [|specialize (Hin p Hp); by rewrite Hj in Hin].
    destruct (Hout name Hn) as [-> _]. by rewrite decide_False, Hv by done.
Qed.

Lemma gathering_values bytes t params : NoDup (pa_Name <$> tp_Params t) -> ga_problems (gathering bytes t params) = ∅ ->
  dom (ga_values (gathering bytes t params)) = list_to_set (pa_Name <$> tp_Params t) /\
  forall p, p ∈ tp_Params t -> exists v, judged params bytes p = inr v /\ ga_values (gathering bytes t params) !! pa_Name p = Some v.
Proof.
  intros Hnd He. destruct (gather_spec params bytes (tp_Params t) (mkGathered (unknownParams t params) [] ∅) Hnd) as [Hout Hin].
  fold (gathering bytes t params) in Hout, Hin. cbn in Hout, Hin.
  assert (forall p, p ∈ tp_Params t -> exists v, judged params bytes p = inr v /\ ga_values (gathering bytes t params) !! pa_Name p = Some v) as Hv.
  { intros p Hp. specialize (Hin p Hp). rewrite He in Hin. destruct (judged params bytes p) as [|v]; [done|]. exists v. by destruct Hin. }
  split; [|done]. apply set_eq. intros name. rewrite elem_of_dom, elem_of_list_to_set. split.
  - intros [v Hx]. destruct (decide (name ∈ pa_Name <$> tp_Params t)) as [|Hn]; [done|]. destruct (Hout name Hn) as [_ E]. by rewrite Hx in E.
  - intros (p & -> & Hp)%list_elem_of_fmap. destruct (Hv p Hp) as (v & _ & ->). eauto.
Qed.

Lemma unmarshal_graph_spec graph g : unmarshal_graph graph = Some g ->
  dom g = dom graph /\ forall id, g !! id = graph !! id ≫= unmarshal_any.
Proof.
  unfold unmarshal_graph. destruct (bool_decide _) eqn:E; [|done]. bool_simp. intros [= <-].
  assert (forall id, (omap unmarshal_any graph : gmap string dyn) !! id = graph !! id ≫= unmarshal_any) as Hl by (intros id; by rewrite lookup_omap).
  split; [|done]. apply set_eq. intros id. rewrite !elem_of_dom, Hl. destruct (graph !! id) as [raw|] eqn:Hr; cbn; [|split; by intros []].
  split; [eauto|]. intros _. by apply (E id).
Qed.

Lemma compile_cases bytes t params : Template_Compile bytes t params =
  match unmarshal_graph (tp_Graph t) with
  | None => Fails GraphUndecodable
  | Some graph =>
      let g := gathering bytes t params in
      if ga_problems g !=? ∅ then Fails (ParamError (Template_Ref t) (ga_problems g))
      else match writeGraph t (ga_values g) graph ≫= fun graph => trying removeNode graph (go_range (bypassedNodes t (ga_values g))) with
           | None => Panics
           | Some graph => Compiles (mkCompiled graph (ga_refs g) (ga_values g))
           end
  end.
Proof. reflexivity. Qed.

(** A compilation step by step. *)
Record compiled_as (bytes : string -> option Z) (t : Template) (params : gmap string dyn) (c : Compiled) (g0 g1 : gmap string dyn) : Prop := {
  ca_graph : unmarshal_graph (tp_Graph t) = Some g0;
  ca_problems : ga_problems (gathering bytes t params) = ∅;
  ca_values : cm_Params c = ga_values (gathering bytes t params);
  ca_refs : cm_ArtifactRefs c = ga_refs (gathering bytes t params);
  ca_write : writeGraph t (cm_Params c) g0 = Some g1;
  ca_remove : trying removeNode g1 (go_range (bypassedNodes t (cm_Params c))) = Some (cm_Graph c);
}.

Lemma compile_inv bytes t params c : Template_Compile bytes t params = Compiles c -> exists g0 g1, compiled_as bytes t params c g0 g1.
Proof.
  rewrite compile_cases. destruct (unmarshal_graph (tp_Graph t)) as [g0|] eqn:E0; [|done]. cbv zeta.
  destruct (_ !=? ∅) eqn:Ep; [done|]. bool_simp. destruct (writeGraph t _ g0) as [g1|] eqn:E1; [|done]. cbn [mbind option_bind].
  destruct (trying removeNode g1 _) as [g2|] eqn:E2; [|done]. intros [= <-]. exists g0, g1. by split.
Qed.

Lemma range_keys {A} (m : gmap string A) : NoDup (go_range m).*1 /\ (list_to_set (go_range m).*1 : gset string) = dom m.
Proof.
  split; [rewrite go_range_perm; apply NoDup_fst_map_to_list|]. apply set_eq. intros k.
  rewrite elem_of_list_to_set, list_elem_of_fmap, elem_of_dom. split.
  - intros ([k' v] & -> & H). apply go_range_elem in H. eauto.
  - intros [v Hv]. exists (k, v). split; [done|by apply go_range_elem].
Qed.
End compile.

(** ** Following links through removed nodes *)

Section resolve.
Variables (B : gmap string (gmap string string)) (g : gmap string dyn).

(** What a link to a removed node stands for. *)
Definition source_of (v : dyn) : option dyn :=
  match v with
  | DSlice [DString s; output] =>
      outputs ← B !! s; Some (default DNil (input_at g s (default ""%string (outputs !! sprint_any output))))
  | _ => None
  end.

Fixpoint resolve (n : nat) (v : dyn) : dyn :=
  match n with
  | O => v
  | S n => match source_of v with Some v' => resolve n v' | None => v end
  end.

(** The removed nodes do not depend on each other in a cycle. *)
Definition acyclic (rank : string -> nat) : Prop := forall s i v s',
  s ∈ dom B -> input_at g s i = Some v -> links v = Some s' -> s' ∈ dom B -> (rank s' < rank s)%nat.

Context (rank : string -> nat) (Hac : acyclic rank).

Definition height (v : dyn) : nat :=
  match links v with Some s => if decide (s ∈ dom B) then S (rank s) else 0%nat | None => 0%nat end.
Definition final (v : dyn) : dyn := resolve (height v) v.

Lemma source_links v v' : source_of v = Some v' -> exists s, links v = Some s /\ s ∈ dom B /\ height v = S (rank s) /\ (height v' <= rank s)%nat.
Proof.
  destruct v as [| | | | | | |[|[| | | | | |s| | |] [|o [|]]]| |]; try done. cbn. destruct (B !! s) as [outputs|] eqn:Hs; [|done]. cbn. intros [= <-].
  assert (s ∈ dom B) as Hd by (apply elem_of_dom; eauto). exists s. unfold height at 1. cbn. rewrite decide_True by done. split_and!; [done..|].
  destruct (input_at g s _) as [v|] eqn:Hv; cbn; [|lia]. unfold height. destruct (links v) as [s'|] eqn:Hl; [|lia].
  destruct (decide (s' ∈ dom B)) as [Hd'|]; [|lia]. exact (Hac s _ v s' Hd Hv Hl Hd').
Qed.

Lemma source_None v : height v = 0%nat -> source_of v = None.
Proof. intros Hh. destruct (source_of v) eqn:E; [|done]. apply source_links in E as (? & _ & _ & E & _). congruence. Qed.

Lemma resolve_enough n : forall m v, (height v <= n)%nat -> (height v <= m)%nat -> resolve n v = resolve m v.
Proof.
  induction n as [|n IH]; intros m v Hn Hm; cbn.
  - destruct m; cbn; [done|]. by rewrite (source_None v) by lia.
  - destruct (source_of v) as [v'|] eqn:E; [|destruct m; cbn; [done|by rewrite E]].
    pose proof (source_links v v' E) as (s & _ & _ & Hh & Hh'). destruct m; [lia|]. cbn. rewrite E. apply IH; lia.
Qed.

Lemma resolve_final n v : (height v <= n)%nat -> resolve n v = final v.
Proof. intros H. by apply resolve_enough. Qed.

Lemma final_step v v' : source_of v = Some v' -> final v = final v'.
Proof.
  intros E. pose proof (source_links v v' E) as (s & _ & _ & Hh & Hh'). unfold final. rewrite Hh. cbn. rewrite E. by apply resolve_final.
Qed.

(** The state of the removal when the nodes in [P] are gone. *)
Record removing (P : gset string) (g' : gmap string dyn) : Prop := {
  rm_inputs : forall id i, id ∉ P -> option_Forall2 (fun v v' => final v = final v') (input_at g id i) (input_at g' id i);
  rm_gone : forall id i v s, id ∉ P -> input_at g' id i = Some v -> links v = Some s -> s ∉ P;
  rm_rank : forall id i v s, id ∉ P -> id ∈ dom B -> input_at g' id i = Some v -> links v = Some s -> s ∈ dom B -> (rank s < rank id)%nat;
}.

Lemma removing_step P g1 id outputs g2 : removing P g1 -> id ∉ P -> B !! id = Some outputs -> removeNode g1 (id, outputs) = Some g2 ->
  removing ({[id]} ∪ P) g2.
Proof.
  intros [Hin Hgone Hrank] Hid HB E. apply removeNode_spec in E as (removed & Hr & _ & _ & Hi & _).
  assert (forall k, assoc k removed = input_at g1 id k) as Hrem by (intros k; unfold input_at; by rewrite Hr).
  assert (id ∈ dom B) as Hd by (apply elem_of_dom; eauto).
  assert (forall id' i v', id' ∉ {[id]} ∪ P -> input_at g2 id' i = Some v' -> exists v, input_at g1 id' i = Some v /\
    ((v' = v /\ links v <> Some id) \/
     (links v = Some id /\ exists k, v' = default DNil (input_at g1 id k) /\ source_of v = Some (default DNil (input_at g id k))))) as Hcase.
  { intros id' i v' Hn Hv'. rewrite (Hi id' i) in Hv' by set_solver. destruct (input_at g1 id' i) as [v|]; [|done]. injection Hv' as <-.
    exists v. split; [done|]. destruct (decide (links v = Some id)) as [Hl|Hl]; [right|left; by rewrite rewire_other].
    split; [done|]. destruct v as [| | | | | | |[|[| | | | | |s| | |] [|o [|]]]| |]; try done. injection Hl as ->.
    exists (default ""%string (outputs !! sprint_any o)). unfold rewire. rewrite bool_decide_eq_true_2, Hrem by done. split; [done|]. cbn. by rewrite HB. }
  split.
  - intros id' i Hn. pose proof (Hin id' i ltac:(set_solver)) as H1. destruct (input_at g2 id' i) as [v'|] eqn:Hv'.
    + destruct (Hcase id' i v' Hn Hv') as (v & Hv & [[-> _]|(_ & k & -> & Hs)]); [by rewrite Hv in H1|].
      rewrite Hv in H1. inversion H1 as [v0 ? Hf Hv0|]; subst. constructor. rewrite Hf, (final_step _ _ Hs).
      pose proof (Hin id k Hid) as H2. by inversion H2.
    + rewrite (Hi id' i) in Hv' by set_solver. destruct (input_at g1 id' i); [done|]. inversion H1. constructor.
  - intros id' i v' s Hn Hv' Hl. destruct (Hcase id' i v' Hn Hv') as (v & Hv & [[-> Hne]|(_ & k & -> & _)]).
    + pose proof (Hgone id' i v s ltac:(set_solver) Hv Hl). set_solver.
    + destruct (input_at g1 id k) as [w|] eqn:Hw; [|done]. cbn in Hl. pose proof (Hgone id k w s Hid Hw Hl).
      assert (s <> id); [|set_solver]. intros ->. pose proof (Hrank id k w id Hid Hd Hw Hl Hd). lia.
  - intros id' i v' s Hn Hd' Hv' Hl Hs. destruct (Hcase id' i v' Hn Hv') as (v & Hv & [[-> _]|(Hlv & k & -> & _)]).
    + by eapply (Hrank id' i v); [set_solver|..].
    + destruct (input_at g1 id k) as [w|] eqn:Hw; [|done]. cbn in Hl. pose proof (Hrank id k w s Hid Hd Hw Hl Hs).
      pose proof (Hrank id' i v id ltac:(set_solver) Hd' Hv Hlv Hd). lia.
Qed.

Lemma removing_all entries : forall P g1 g2, removing P g1 -> NoDup entries.*1 -> (forall id o, (id, o) ∈ entries -> (id ∉ P) /\ B !! id = Some o) ->
  trying removeNode g1 entries = Some g2 -> removing (list_to_set entries.*1 ∪ P) g2.
Proof.
  induction entries as [|[id outputs] entries IH]; intros P g1 g2 Hrm Hnd Hall; cbn [fmap list_fmap fst trying].
  { intros [= <-]. by replace (list_to_set [] ∪ P) with P by set_solver. }
  apply NoDup_cons in Hnd as [Hni Hnd]. destruct (removeNode g1 (id, outputs)) as [g1'|] eqn:E; [|done]. cbn [mbind option_bind]. intros Ht.
  destruct (Hall id outputs) as [Hid HB]; [by left|]. pose proof (removing_step P g1 id outputs g1' Hrm Hid HB E) as Hrm'.
  replace (list_to_set (id :: entries.*1) ∪ P) with (list_to_set entries.*1 ∪ ({[id]} ∪ P) : gset string) by set_solver.
  eapply IH; [done|done| |done]. intros id' o Ho. destruct (Hall id' o) as [? ?]; [by right|]. split; [|done].
  assert (id' <> id) by (intros ->; apply Hni, (list_elem_of_fmap_2 fst _ _ Ho)). set_solver.
Qed.
End resolve.

(** ** Compilation never stops half-way *)

(** Every node of the graph has its inputs where the compiler looks. *)
Definition plain (t : Template) : Prop := exists g, unmarshal_graph (tp_Graph t) = Some g /\
  forall id n, g !! id = Some n -> is_Some (inputsOf n).

(** After the values have been put into the formats, every reference names a
    parameter. *)
Definition tokens_resolve (t : Template) (values : gmap string dyn) : Prop := forall p b s ref,
  p ∈ tp_Params t -> b ∈ pa_Bind p -> bd_Format b <> ""%string -> value_of values p = DString s ->
  ref ∈ formatTokenRefs (ReplaceAll (bd_Format b) "{value}" s) -> is_Some (Template_param t ref).

Lemma expandTokens_total t values text : (forall ref, ref ∈ formatTokenRefs text -> is_Some (Template_param t ref)) ->
  is_Some (expandTokens t values text).
Proof.
  intros H. unfold expandTokens. apply fmap_is_Some, mapM_is_Some, Forall_forall. intros [c|ref] Hin; [eauto|].
  destruct (H ref) as [p Hp]; [|cbn; rewrite Hp; cbn; eauto].
  unfold formatTokenRefs. apply list_elem_of_omap. by exists (inr ref).
Qed.

Lemma writes_total t values l : (forall pb, pb ∈ l -> is_Some (written t values (value_of values pb.1) pb.2)) -> forall g,
  (forall pb, pb ∈ l -> is_Some (g !! (place pb).1 ≫= inputsOf)) ->
  is_Some (trying (fun g pb => writeInput t values (value_of values pb.1) g pb.2) g l).
Proof.
  induction l as [|[p b] l IH]; intros Hw g Hg; cbn; [eauto|].
  destruct (Hw (p, b)) as [w Hww]; [by left|]. destruct (Hg (p, b)) as [inputs Hi]; [by left|]. cbn in Hww, Hi.
  destruct (writeInput t values (value_of values p) g b) as [g1|] eqn:E.
  - cbn. apply IH; [intros pb Hpb; apply Hw; by right|]. apply writeInput_spec in E as (_ & _ & _ & _ & _ & Hs).
    intros pb Hpb. apply Hs, Hg. by right.
  - exfalso. unfold writeInput in E. rewrite Hww in E. cbn in E. destruct (g !! bd_Node b) as [n|]; [|done]. cbn in Hi, E. by rewrite Hi in E.
Qed.

Lemma removes_total entries : forall g, (forall id n, g !! id = Some n -> is_Some (inputsOf n)) -> NoDup entries.*1 ->
  (forall id, id ∈ entries.*1 -> id ∈ dom g) -> is_Some (trying removeNode g entries).
Proof.
  induction entries as [|[id outputs] entries IH]; intros g Hg Hnd Hin; cbn [trying]; [eauto|].
  apply NoDup_cons in Hnd as [Hni Hnd]. destruct (removeNode g (id, outputs)) as [g1|] eqn:E.
  - cbn [mbind option_bind]. apply removeNode_spec in E as (removed & _ & Hd & _ & _ & Hs). apply IH; [|done|].
    + intros id' n Hn. assert (id' ∈ dom g1) as Hx by (apply elem_of_dom; eauto). rewrite Hd in Hx.
      assert (id' ∈ dom g) as Hy by set_solver. apply elem_of_dom in Hy as [n' Hn'].
      destruct (Hs id') as [i Hi]; [set_solver|rewrite Hn'; by apply (Hg id')|]. rewrite Hn in Hi. eauto.
    + intros id' Hid'. rewrite Hd. apply elem_of_difference. split; [apply Hin; by right|]. rewrite elem_of_singleton. intros ->. done.
  - exfalso. unfold removeNode in E. assert (id ∈ dom g) as Hy by (apply Hin; by left). apply elem_of_dom in Hy as [n Hn]. rewrite Hn in E. cbn in E.
    destruct (Hg id n Hn) as [inputs Hi]. rewrite Hi in E. cbn in E. destruct (bool_decide _) eqn:Ea; [done|]. bool_simp.
    apply Ea. intros id' n' [_ Hn']%lookup_delete_Some. by apply (Hg id').
Qed.

Lemma bypassed_dom t values id : id ∈ dom (bypassedNodes t values) -> exists p b, p ∈ tp_Params t /\ b ∈ pa_Bypass p /\ by_Node b = id.
Proof.
  unfold bypassedNodes. intros H.
  assert (forall l acc, id ∈ dom (foldl (fun acc b => <[by_Node b := by_Outputs b]> acc) acc l : gmap string (gmap string string)) ->
    id ∈ dom acc \/ exists b, b ∈ l /\ by_Node b = id) as Hfold.
  { induction l as [|b l IH]; intros acc Hx; cbn in Hx; [by left|]. destruct (IH _ Hx) as [Hd|(b' & Hb & <-)]; [|right; exists b'; set_solver].
    rewrite dom_insert_L in Hd. apply elem_of_union in Hd as [->%elem_of_singleton|Hd]; [right; exists b; split; [left|done]|by left]. }
  destruct (Hfold _ _ H) as [Hx|(b & Hb & <-)]; [set_solver|]. apply list_elem_of_bind in Hb as (p & Hb & Hp).
  exists p, b. split_and!; [done| |done]. unfold chosenBypasses in Hb. destruct (_ ≫= as_string); [|set_solver].
  destruct (_ ==? _); [|set_solver]. by apply list_elem_of_filter in Hb as [_ ?].
Qed.

Lemma decodeGraph_dom {R : GoRange} graph nodes id : decodeGraph graph = inr nodes -> is_Some (nodes !! id) -> id ∈ dom graph.
Proof.
  unfold decodeGraph. destruct (range_find _ _) as [[]|]; [done|]. intros [= <-] [n Hn]. rewrite lookup_omap in Hn.
  apply elem_of_dom. destruct (graph !! id); [eauto|done].
Qed.

Lemma written_total {R : GoRange} t nodes bytes params p b : validated t nodes ->
  let values := ga_values (gathering bytes t params) in
  ga_problems (gathering bytes t params) = ∅ -> tokens_resolve t values -> p ∈ tp_Params t -> b ∈ pa_Bind p ->
  is_Some (written t values (value_of values p) b).
Proof.
  intros Hv values He Htok Hp Hb. pose proof (va_params _ _ Hv p Hp) as Hs. pose proof (so_bind _ _ Hs b Hb) as [_ Hf Hm].
  destruct (gathering_values bytes t params (va_names _ _ Hv) He) as [_ Hval]. destruct (Hval p Hp) as (v & Hj & Hlook).
  fold values in Hlook. assert (value_of values p = v) as Ev by (unfold value_of; by rewrite Hlook).
  assert (admissible p v) as Had.
  { unfold judged in Hj. destruct (effective _ _ _); [|done]. by eapply coerce_admissible. }
  unfold written. destruct (bd_Map b) as [m|] eqn:Em.
  - destruct (admissible_string p v Had) as [s ->]; [right; left; by eapply Hm|]. rewrite Ev. cbn.
    destruct (_ !=? _) eqn:Ef; cbn; [|eauto]. bool_simp. specialize (Hf Ef). rewrite (Hm m eq_refl) in Hf. discriminate Hf.
  - cbn. destruct (_ !=? _) eqn:Ef; [|eauto]. bool_simp.
    destruct (admissible_string p v Had) as [s ->]; [left; by apply Hf|]. rewrite Ev. cbn.
    apply fmap_is_Some, expandTokens_total. intros ref Href. by eapply Htok.
Qed.

Lemma names_unique t p q : NoDup (pa_Name <$> tp_Params t) -> p ∈ tp_Params t -> q ∈ tp_Params t -> pa_Name q = pa_Name p -> q = p.
Proof.
  generalize (tp_Params t). induction l as [|x l IH]; intros Hnd Hp Hq E; [by apply elem_of_nil in Hp|].
  apply NoDup_cons in Hnd as [Hni Hnd]. apply elem_of_cons in Hp as [->|Hp], Hq as [->|Hq]; [done| | |by apply IH].
  - destruct Hni. rewrite <- E. by apply list_elem_of_fmap_2.
  - destruct Hni. rewrite E. by apply list_elem_of_fmap_2.
Qed.

(** A default is never refused. *)
Lemma omitted_fine {R : GoRange} t nodes bytes params p why : validated t nodes -> p ∈ tp_Params t -> params !! pa_Name p = None ->
  pa_Required p = false -> judged params bytes p = inl why -> pa_Type p = TypeSeed.
Proof.
  intros Hv Hp Hn Hr. unfold judged, effective. rewrite Hn, Hr. cbn [default isNil].
  pose proof (va_params _ _ Hv p Hp) as Hs. destruct (so_optional _ _ Hs Hr) as [Hd|Hd]; [|done].
  destruct (isNil (pa_Default p)) eqn:En; [by apply isNil_spec in En|]. cbn. destruct (so_default _ _ Hs Hd) as [v ->]. done.
Qed.

(** The writes and the removals of a request without problems succeed. *)
Lemma run_total {R : GoRange} t nodes bytes params g0 : validated t nodes -> unmarshal_graph (tp_Graph t) = Some g0 ->
  (forall id n, g0 !! id = Some n -> is_Some (inputsOf n)) -> ga_problems (gathering bytes t params) = ∅ ->
  tokens_resolve t (ga_values (gathering bytes t params)) ->
  exists g2, writeGraph t (ga_values (gathering bytes t params)) g0 ≫=
    (fun g => trying removeNode g (go_range (bypassedNodes t (ga_values (gathering bytes t params))))) = Some g2.
Proof.
  intros Hv Hg0 Hin Ep Htok. set (values := ga_values (gathering bytes t params)) in *.
  destruct (unmarshal_graph_spec _ _ Hg0) as [Hd0 _].
  assert (forall id, is_Some (nodes !! id) -> is_Some (g0 !! id ≫= inputsOf)) as Hnode.
  { intros id Hid. apply (decodeGraph_dom _ _ _ (va_nodes _ _ Hv)) in Hid. rewrite <- Hd0 in Hid. apply elem_of_dom in Hid as [n Hn].
    rewrite Hn. by apply (Hin id). }
  rewrite writeGraph_flat. destruct (writes_total t values (writes t)) with (g := g0) as [g1 E1].
  - intros [p b] [Hp Hb]%elem_of_writes. by eapply written_total.
  - intros [p b] [Hp Hb]%elem_of_writes. apply Hnode. destruct (so_bind _ _ (va_params _ _ Hv p Hp) b Hb) as [(n & Hn & _) _ _]. cbn. by rewrite Hn.
  - rewrite E1. cbn. destruct (writes_spec _ _ _ _ _ (va_places _ _ Hv) E1) as ([Hd1 _] & _ & _ & Hs1).
    destruct (range_keys (bypassedNodes t values)) as [Hnd Hkeys]. apply removes_total; [|done|].
    + intros id n Hn. assert (id ∈ dom g0) as Hx by (rewrite <- Hd1; apply elem_of_dom; eauto). apply elem_of_dom in Hx as [n0 Hn0].
      destruct (Hs1 id) as [i Hi]; [rewrite Hn0; by apply (Hin id)|]. rewrite Hn in Hi. eauto.
    + intros id Hid. rewrite Hd1. assert (id ∈ dom (bypassedNodes t values)) as Hb by (rewrite <- Hkeys; by apply elem_of_list_to_set).
      apply bypassed_dom in Hb as (p & b & Hp & Hb & <-). pose proof (so_bypass _ _ (va_params _ _ Hv p Hp) b Hb) as Hx.
      rewrite Hd0. by eapply decodeGraph_dom; [apply Hv|].
Qed.
