(* ===== verification/WorkflowProps.v ===== *)
(** * Theorems about workflow templates

    The claims about [Workflow] and a small template to instantiate them. *)

From Stdlib Require Import SpecFloat.
From S2P Require Import Prelude GoText Domain GoJSON GoFloat GoDyn Workflow WorkflowLemmas.

(** ** A template

    A style is an enum that selects a file and a fragment of the prompt; the
    style [none] takes the node that loads the file and the node behind it out
    of the graph. *)

Definition string_param (name node input format : string) : Param :=
  mkParam name TypeString "" true DNil None None 0 0 [] ∅ [] [mkBinding node input format None].

Definition style_param : Param :=
  mkParam "style" TypeEnum "" false (DString "none") None None 0 0 ["none"; "realism"]%string {[ "realism" := "r3alism, " ]}%string
    [mkBypass "20" ["none"%string] {[ "0"%string := "model"%string ]}; mkBypass "21" ["none"%string] {[ "0"%string := "model"%string ]}]
    [mkBinding "20" "lora_name" "" (Some {[ "realism"%string := DString "realism.safetensors" ]})].

Definition strength_param : Param :=
  mkParam "strength" TypeNumber "" false (DFloat (float_ratio false 4 5)) (Some (float_of_Z 0)) (Some (float_ratio false 3 2)) 0 0 [] ∅ []
    [mkBinding "20" "strength_model" "" None].

Definition node_json (class : string) (inputs : list (string * json)) : json :=
  JObject [("class_type"%string, JString class); ("inputs"%string, JObject inputs)].
Definition link_json (id output : string) : json := JArray [JString id; JNumber output].

Definition style : Template :=
  mkTemplate "image-style" 1 "Style" "" "image.generate" "image-test@1" [] 0
    [string_param "prompt" "13" "text" "{tokens:style}{value}"; style_param; strength_param]
    {[ "11"%string := node_json "UNETLoader" [("unet_name"%string, JString "krea2.safetensors")];
       "20"%string := node_json "LoraLoaderModelOnly"
          [("model"%string, link_json "11" "0"); ("lora_name"%string, JString ""); ("strength_model"%string, JNumber "0.8")];
       "21"%string := node_json "ModelSamplingFlux" [("model"%string, link_json "20" "0"); ("shift"%string, JNumber "3")];
       "13"%string := node_json "CLIPTextEncode" [("text"%string, JString "")];
       "17"%string := node_json "KSampler" [("model"%string, link_json "21" "0"); ("seed"%string, JNumber "1")] ]}.

Definition no_bytes : string -> option Z := fun _ => None.
Definition fox (style_name : string) : gmap string dyn :=
  {[ "prompt"%string := DString "a fox"; "style"%string := DString style_name ]}.

Lemma style_valid : Template_Validate (R := by_key) style = None.
Proof. vm_compute. reflexivity. Qed.

Definition compiled_input (o : outcome Compiled) (id i : string) : option dyn :=
  match o with Compiles c => input_at (cm_Graph c) id i | _ => None end.

(** The style [none] rewires the sampler to the loader before the removed nodes;
    another style writes its file and its tokens. *)
Lemma style_compiles :
  let plain_style := Template_Compile (R := by_key) no_bytes style (fox "none") in
  let realism := Template_Compile (R := by_key) no_bytes style (fox "realism") in
  compiled_input plain_style "17" "model" = Some (DSlice [DString "11"; DFloat (S754_zero false)]) /\
  compiled_input plain_style "13" "text" = Some (DString "a fox") /\
  compiled_input realism "17" "model" = Some (DSlice [DString "21"; DFloat (S754_zero false)]) /\
  compiled_input realism "13" "text" = Some (DString "r3alism, a fox") /\
  compiled_input realism "20" "lora_name" = Some (DString "realism.safetensors").
Proof. vm_compute. repeat split; reflexivity. Qed.

(** A reference to no parameter in the text of a request is a nil dereference:
    the template is valid, its own formats have only known references, and the
    request makes the compiler panic. *)
Theorem request_tokens_panic :
  Template_Validate (R := by_key) style = None /\
  Template_Compile (R := by_key) no_bytes style {[ "prompt"%string := DString "a {tokens:mood} fox" ]} = Panics.
Proof. vm_compute. split; reflexivity. Qed.

(** A node whose member is spelled [Inputs] passes the decoder of [Validate],
    which ignores case, and not the assertions of the compiler. *)
Definition folded : Template :=
  style <| tp_Graph := <["17"%string := JObject [("class_type"%string, JString "KSampler"); ("Inputs"%string, JObject [])]]> (tp_Graph style) |>.

Theorem folded_member_panics :
  Template_Validate (R := by_key) folded = None /\ Template_Compile (R := by_key) no_bytes folded (fox "none") = Panics.
Proof. vm_compute. split; reflexivity. Qed.

(** A link to an output that a bypass does not list is replaced by null. *)
Definition second_output : Template :=
  style <| tp_Graph := <["17"%string := node_json "KSampler" [("clip"%string, link_json "21" "1")]]> (tp_Graph style) |>.

Theorem unlisted_output_null :
  Template_Validate (R := by_key) second_output = None /\
  compiled_input (Template_Compile (R := by_key) no_bytes second_output (fox "none")) "17" "clip" = Some DNil.
Proof. vm_compute. split; reflexivity. Qed.

(** ** Theorems *)

(** C33: compiling a validated template decides.  When its nodes are spelled
    as the compiler expects and every token reference in the filled formats
    names a parameter, a request is either compiled, or refused with a report
    of exactly the names that are unknown, missing or have a bad value, each
    with its reason; and a parameter that was left out is only reported when
    it is required or a random seed. *)
Theorem compile_decides {R : GoRange} (bytes : string -> option Z) (t : Template) (params : gmap string dyn) :
  Template_Validate t = None -> plain t -> tokens_resolve t (ga_values (gathering bytes t params)) ->
  exists problems : gmap string problem,
    (forall name why, problems !! name = Some why <-> refusal bytes t params name why) /\
    (forall p why, p ∈ tp_Params t -> params !! pa_Name p = None -> problems !! pa_Name p = Some why ->
       pa_Required p = true \/ pa_Type p = TypeSeed) /\
    ((problems = ∅ /\ exists c, Template_Compile bytes t params = Compiles c) \/
     (problems <> ∅ /\ Template_Compile bytes t params = Fails (ParamError (Template_Ref t) problems))).
Proof.
  intros (nodes & Hv)%validate_inv (g0 & Hg0 & Hin) Htok. exists (ga_problems (gathering bytes t params)).
  pose proof (gathering_problems bytes t params) as Hpr. split_and!.
  - intros name why. apply Hpr, Hv.
  - intros p why Hp Hn Hw. apply Hpr in Hw as [(Hx & _)|(q & Hq & Hname & Hj)]; [destruct Hx; by apply list_elem_of_fmap_2| |apply Hv].
    assert (q = p) as -> by (eapply names_unique; [apply Hv|done..]). destruct (pa_Required p) eqn:Hreq; [by left|right].
    by eapply omitted_fine.
  - rewrite compile_cases, Hg0. cbv zeta. destruct (_ !=? ∅) eqn:Ep; bool_simp; [by right|left]. split; [done|].
    destruct (run_total t nodes bytes params g0 Hv Hg0 Hin Ep Htok) as (g2 & ->). eauto.
Qed.

Definition style_graph : gmap string dyn := default ∅ (unmarshal_graph (tp_Graph style)).

Lemma style_plain : plain style.
Proof.
  exists style_graph. split; [vm_compute; reflexivity|].
  assert (map_Forall (fun _ n => is_Some (inputsOf n)) style_graph) as H by (refine (bool_decide_eq_true_1 _ _); vm_compute; reflexivity).
  intros id n Hn. by apply (H id).
Qed.

Lemma style_tokens name : name = "none"%string \/ name = "realism"%string ->
  tokens_resolve style (ga_values (gathering no_bytes style (fox name))).
Proof.
  intros Hname p b s ref Hp Hb Hf Hv Href.
  assert (p = string_param "prompt" "13" "text" "{tokens:style}{value}") as ->.
  { repeat (apply elem_of_cons in Hp as [->|Hp]; [|]); [done|exfalso..|by apply elem_of_nil in Hp];
      apply elem_of_cons in Hb as [->|Hb]; [by destruct Hf|by apply elem_of_nil in Hb|by destruct Hf|by apply elem_of_nil in Hb]. }
  apply elem_of_cons in Hb as [->|Hb]; [|by apply elem_of_nil in Hb].
  assert (s = "a fox"%string) as -> by (destruct Hname as [->| ->]; vm_compute in Hv; by injection Hv as <-).
  vm_compute in Href. apply elem_of_cons in Href as [->|Href]; [vm_compute; eauto|by apply elem_of_nil in Href].
Qed.

Lemma compile_decides_witness : exists problems : gmap string problem, forall name why,
  problems !! name = Some why <-> refusal no_bytes style (fox "none") name why.
Proof.
  destruct (compile_decides (R := by_key) no_bytes style (fox "none") style_valid style_plain (style_tokens "none" (or_introl eq_refl)))
    as (problems & H & _).
  exists problems. exact H.
Defined.

(** C34: what a request can change.  In a compiled graph exactly the nodes that
    the chosen enum values bypass are missing; every parameter has a value
    that satisfies its declaration, written to each input it is bound to; every
    other input and every other member of a node is as the template has it,
    unless it was a link to a bypassed node. *)
Theorem compile_sound {R : GoRange} (bytes : string -> option Z) (t : Template) (params : gmap string dyn) (c : Compiled) :
  Template_Validate t = None -> Template_Compile bytes t params = Compiles c ->
  let bypassed := dom (bypassedNodes t (cm_Params c)) in
  let unlinked v := forall s, links v = Some s -> s ∉ bypassed in
  exists g0, unmarshal_graph (tp_Graph t) = Some g0 /\
  dom (cm_Graph c) = dom (tp_Graph t) ∖ bypassed /\
  dom (cm_Params c) = list_to_set (pa_Name <$> tp_Params t) /\
  (forall p, p ∈ tp_Params t -> exists v, cm_Params c !! pa_Name p = Some v /\ admissible p v /\
     forall b, b ∈ pa_Bind p -> bd_Node b ∉ bypassed -> exists w, written t (cm_Params c) v b = Some w /\
       (unlinked w -> input_at (cm_Graph c) (bd_Node b) (bd_Input b) = Some w)) /\
  (forall id k, id ∉ bypassed -> k <> "inputs"%string -> member_at (cm_Graph c) id k = member_at g0 id k) /\
  (forall id i, id ∉ bypassed -> (id, i) ∉ place <$> writes t ->
     match input_at g0 id i with
     | Some v => unlinked v -> input_at (cm_Graph c) id i = Some v
     | None => input_at (cm_Graph c) id i = None
     end).
Proof.
  intros (nodes & Hv)%validate_inv (g0 & g1 & Hc)%compile_inv bypassed unlinked. exists g0.
  destruct Hc as [Hg0 Hp0 Hvals _ Hw Hr]. destruct (unmarshal_graph_spec _ _ Hg0) as [Hd0 _].
  rewrite writeGraph_flat in Hw. destruct (writes_spec _ _ _ _ _ (va_places _ _ Hv) Hw) as ([Hd1 Hm1] & Hin1 & Hout1 & _).
  destruct (range_keys (bypassedNodes t (cm_Params c))) as [Hnd Hkeys]. destruct (removes_spec _ _ _ Hnd Hr) as (Hd2 & Hm2 & Hi2).
  assert (forall id, id ∈ (go_range (bypassedNodes t (cm_Params c))).*1 <-> id ∈ bypassed) as Hset
    by (intros id; unfold bypassed; by rewrite <- Hkeys, elem_of_list_to_set).
  assert (forall v, unlinked v -> forall s, links v = Some s -> s ∉ (go_range (bypassedNodes t (cm_Params c))).*1) as Hun
    by (intros v Hx s Hs; rewrite Hset; by apply Hx).
  destruct (gathering_values bytes t params (va_names _ _ Hv) Hp0) as [Hdom Hval]. rewrite <- Hvals in Hdom, Hval. split_and!.
  - done.
  - rewrite Hd2, Hkeys, Hd1, Hd0. done.
  - done.
  - intros p Hp. destruct (Hval p Hp) as (v & Hj & Hlook). exists v. split_and!; [done| |].
    + unfold judged in Hj. destruct (effective _ _ _); [|done]. by eapply coerce_admissible.
    + intros b Hb Hnb. destruct (Hin1 (p, b)) as (w & Hww & Hi); [by apply elem_of_writes|]. cbn in Hww, Hi.
      unfold value_of in Hww. rewrite Hlook in Hww. exists w. split; [done|]. intros Hul.
      specialize (Hi2 (bd_Node b) (bd_Input b)). rewrite Hset, Hi in Hi2. by apply Hi2; [|by apply Hun].
  - intros id k Hn Hk. rewrite Hm2 by (rewrite ?Hset; done). by apply Hm1.
  - intros id i Hn Hni. specialize (Hi2 id i). rewrite Hset, Hout1 in Hi2 by done. specialize (Hi2 Hn).
    destruct (input_at g0 id i); [intros Hul; by apply Hi2, Hun|done].
Qed.

Definition style_none : Compiled :=
  match Template_Compile (R := by_key) no_bytes style (fox "none") with Compiles c => c | _ => mkCompiled ∅ [] ∅ end.

Lemma style_none_compiled : Template_Compile (R := by_key) no_bytes style (fox "none") = Compiles style_none.
Proof. vm_compute. reflexivity. Qed.

Lemma compile_sound_witness : dom (cm_Graph style_none) = list_to_set ["11"; "13"; "17"]%string /\
  exists v, cm_Params style_none !! "strength"%string = Some v /\ admissible strength_param v.
Proof.
  destruct (compile_sound (R := by_key) no_bytes style (fox "none") style_none style_valid style_none_compiled)
    as (g0 & _ & Hd & _ & Hp & _). split.
  - rewrite Hd. refine (bool_decide_eq_true_1 _ _). vm_compute. reflexivity.
  - destruct (Hp strength_param) as (v & Hv & Ha & _); [right; right; left|]. exists v. exact (conj Hv Ha).
Defined.

(** C35: the removal of bypassed nodes follows the links.  Whatever the order
    in which the nodes are removed, if they do not depend on each other in a
    cycle, every input left in the graph is what its link leads to through the
    bypassed nodes, and none links to a node that was removed. *)
Theorem compile_bypass {R : GoRange} (bytes : string -> option Z) (t : Template) (params : gmap string dyn) (c : Compiled)
    (g0 g1 : gmap string dyn) (rank : string -> nat) (n : nat) :
  Template_Compile bytes t params = Compiles c -> unmarshal_graph (tp_Graph t) = Some g0 -> writeGraph t (cm_Params c) g0 = Some g1 ->
  acyclic (bypassedNodes t (cm_Params c)) g1 rank -> (forall s, s ∈ dom (bypassedNodes t (cm_Params c)) -> (rank s < n)%nat) ->
  forall id i, id ∈ dom (cm_Graph c) ->
    input_at (cm_Graph c) id i = resolve (bypassedNodes t (cm_Params c)) g1 n <$> input_at g1 id i /\
    forall v s, input_at (cm_Graph c) id i = Some v -> links v = Some s -> s ∉ dom (bypassedNodes t (cm_Params c)).
Proof.
  intros (g0' & g1' & Hc)%compile_inv Hg0 Hg1 Hac Hn id i Hid. destruct Hc as [Hg0' _ _ _ Hg1' Hr].
  assert (g1' = g1) as -> by congruence. set (B := bypassedNodes t (cm_Params c)) in *.
  destruct (range_keys B) as [Hnd Hkeys]. destruct (removes_spec _ _ _ Hnd Hr) as (Hd & _ & _).
  apply (removing_all B g1 rank Hac (go_range B) ∅) in Hr; [|split; [intros ? ? _; by destruct (input_at g1 _ _); constructor|set_solver|intros; by eapply Hac]|done|].
  2: { intros s o Ho. split; [set_solver|by apply go_range_elem]. }
  rewrite Hkeys, (right_id_L ∅ (∪)) in Hr. destruct Hr as [Hin Hgone _].
  assert (id ∉ dom B) as Hnb by (rewrite Hd, Hkeys in Hid; set_solver).
  assert (forall v, (height B rank v <= n)%nat) as Hh.
  { intros v. unfold height. destruct (links v) as [s|]; [|lia]. destruct (decide _) as [Hs|]; [|lia]. by apply Hn in Hs. }
  split; [|intros v s Hv Hl; by eapply Hgone]. specialize (Hin id i Hnb). inversion Hin as [v v' Hf Hv Hv'|Hv Hv']; [|done].
  cbn. f_equal. rewrite (resolve_final B g1 rank Hac n v) by done. rewrite Hf. unfold final.
  assert (height B rank v' = 0%nat) as ->; [|done]. unfold height. destruct (links v') as [s|] eqn:Hl; [|done].
  rewrite decide_False; [done|]. by eapply Hgone.
Qed.

Definition style_written : gmap string dyn := default ∅ (writeGraph style (cm_Params style_none) style_graph).
Definition style_rank (id : string) : nat := if id ==? "21" then 1%nat else 0%nat.

Lemma style_bypassed id : id ∈ dom (bypassedNodes style (cm_Params style_none)) <-> id = "20"%string \/ id = "21"%string.
Proof.
  assert (dom (bypassedNodes style (cm_Params style_none)) = list_to_set ["20"; "21"]%string) as -> by (refine (bool_decide_eq_true_1 _ _); vm_compute; reflexivity).
  set_solver.
Qed.

Lemma style_acyclic : acyclic (bypassedNodes style (cm_Params style_none)) style_written style_rank.
Proof.
  assert (exists f, style_written !! "20"%string ≫= inputsOf = Some [("model", DSlice [DString "11"; DFloat (S754_zero false)]);
    ("lora_name", DNil); ("strength_model", DFloat f)]%string) as [f E20] by (exists (float_ratio false 4 5); vm_compute; reflexivity).
  assert (exists f, style_written !! "21"%string ≫= inputsOf = Some [("model", DSlice [DString "20"; DFloat (S754_zero false)]);
    ("shift", DFloat f)]%string) as [f' E21] by (exists (float_of_Z 3); vm_compute; reflexivity).
  intros s i v s' Hs Hv Hl Hs'. apply style_bypassed in Hs, Hs'. unfold input_at in Hv. revert Hv.
  destruct Hs as [->| ->]; [rewrite E20|rewrite E21]; cbn; clear E20 E21; intros Hv; repeat case_match; simplify_eq; cbn in Hl; simplify_eq.
  - by destruct Hs'.
  - apply Nat.lt_0_1.
Qed.

Lemma compile_bypass_witness :
  input_at (cm_Graph style_none) "17" "model" = resolve (bypassedNodes style (cm_Params style_none)) style_written 2 <$> input_at style_written "17" "model" /\
  input_at (cm_Graph style_none) "17" "model" = Some (DSlice [DString "11"; DFloat (S754_zero false)]).
Proof.
  assert (unmarshal_graph (tp_Graph style) = Some style_graph) as Hg by (vm_compute; reflexivity).
  assert (writeGraph style (cm_Params style_none) style_graph = Some style_written) as Hw by (vm_compute; reflexivity).
  assert ("17"%string ∈ dom (cm_Graph style_none)) as Hd by (apply elem_of_dom, not_eq_None_Some; vm_compute; discriminate).
  split; [|vm_compute; reflexivity].
  apply (compile_bypass (R := by_key) no_bytes style (fox "none") style_none style_graph style_written style_rank 2
    style_none_compiled Hg Hw style_acyclic); [|done].
  intros s [->| ->]%style_bypassed; vm_compute; lia.
Defined.

(** ** The registry *)

(** What a registry built from templates holds. *)
Record registered (ts : list Template) (r : Registry) : Prop := {
  rg_refs : forall ref t, rg_byRef r !! ref = Some t <-> t ∈ ts /\ ref = Template_Ref t;
  rg_all : (map_to_list (rg_byRef r)).*2 ≡ₚ ts;
  rg_ids : forall t, t ∈ ts -> idPattern (tp_ID t) = true;
  rg_newest : forall id t, rg_latest r !! id = Some t -> t ∈ ts /\ tp_ID t = id /\ forall t', t' ∈ ts -> tp_ID t' = id -> tp_Version t' <= tp_Version t;
  rg_known : forall t, t ∈ ts -> is_Some (rg_latest r !! tp_ID t);
}.

(** The newest template of an id after another was added. *)
Lemma newest_step (latest : gmap string Template) t id t' :
  let newest := match latest !! tp_ID t with Some cur => tp_Version cur <? tp_Version t | None => true end in
  (if newest then <[tp_ID t := t]> latest else latest) !! id = Some t' ->
  (tp_ID t = id /\ t' = t /\ forall cur, latest !! id = Some cur -> tp_Version cur <= tp_Version t) \/
  (latest !! id = Some t' /\ (tp_ID t = id -> tp_Version t <= tp_Version t')).
Proof.
  intros newest H. destruct newest eqn:En; unfold newest in En.
  - apply lookup_insert_Some in H as [[<- <-]|[Hne H]]; [left|by right]. split_and!; [done..|]. intros cur Hc. rewrite Hc in En. bool_simp. lia.
  - right. split; [done|]. intros <-. rewrite H in En. by bool_simp.
Qed.

Lemma add_registered {R : GoRange} ts r t r' : registered ts r -> Registry_Add r t = inr r' -> registered (ts ++ [t]) r'.
Proof.
  intros [Hrefs Hall Hids Hnew Hknown]. unfold Registry_Add. destruct (Template_Validate t) eqn:Hv; [done|].
  destruct (rg_byRef r !! Template_Ref t) eqn:Hf; [done|]. intros [= <-]. apply validate_inv in Hv as (nodes & Hv).
  split; cbn; try setoid_rewrite elem_of_app; try setoid_rewrite list_elem_of_singleton.
  - intros ref t'. rewrite lookup_insert_Some, Hrefs. split.
    + intros [[<- <-]|[_ [? ->]]]; auto.
    + intros [[Ht'| ->] ->]; [right|by left]. split; [|done]. intros E. pose proof (proj2 (Hrefs _ _) (conj Ht' E)). congruence.
  - rewrite map_to_list_insert by done. cbn. rewrite Hall. apply Permutation_cons_append.
  - intros t' [Ht'| ->]; [by apply Hids|apply Hv].
  - intros id t' [(<- & -> & Hcur)|(H & Hle)]%newest_step.
    + split_and!; [by right|done|]. intros t1 [Ht1| ->] E; [|lia]. destruct (Hknown t1 Ht1) as [cur Hc]. rewrite E in Hc.
      destruct (Hnew _ _ Hc) as (_ & _ & Hmax). specialize (Hmax t1 Ht1 E). specialize (Hcur cur Hc). lia.
    + destruct (Hnew _ _ H) as (Hin & <- & Hmax). split_and!; [by left|done|]. intros t1 [Ht1| ->] E; auto.
  - intros t' Ht'. assert (is_Some (rg_latest r !! tp_ID t') \/ t' = t) as [Hs| ->] by naive_solver.
    + destruct (match rg_latest r !! tp_ID t with Some _ => _ | None => _ end); [by apply lookup_insert_is_Some'; right|done].
    + destruct (rg_latest r !! tp_ID t) eqn:Hc; [destruct (_ <? _)|]; rewrite ?lookup_insert_eq; eauto.
Qed.

Lemma registry_inv {R : GoRange} ts r : NewRegistry ts = inr r -> registered ts r.
Proof.
  unfold NewRegistry. revert r. induction ts as [|t ts IH] using rev_ind; intros r.
  - intros [= <-]. split; cbn; try (by intros t ?%elem_of_nil); [|by rewrite map_to_list_empty|by intros id t; rewrite lookup_empty].
    intros ref t. rewrite lookup_empty, elem_of_nil. naive_solver.
  - rewrite each_app. destruct (each Registry_Add emptyRegistry ts) as [|r1]; [done|]. cbn. destruct (Registry_Add r1 t) as [|r2] eqn:E; [done|].
    intros [= <-]. by eapply add_registered; [apply IH|].
Qed.

Lemma id_nochar s : idPattern s = true -> nochar "@"%char s = true.
Proof.
  assert (forall c, az c || is_digit c || (c ==? "."%char) || (c ==? "-"%char) = true -> Ascii.eqb c "@"%char = false) as Hc
    by (intros [[] [] [] [] [] [] [] []]; vm_compute; done).
  destruct s as [|c s]; [done|]. cbn [idPattern nochar]. intros H. bool_simp. rewrite Hc by (rewrite H; done). cbn. clear H H0 c.
  induction s as [|c s IH]; [done|]. cbn in *. bool_simp. rewrite Hc by done. by rewrite IH.
Qed.

Lemma templateLess_total a b : templateLess a b = false \/ templateLess b a = false.
Proof.
  unfold templateLess. destruct (decide (tp_ID a = tp_ID b)) as [E|Hne].
  - rewrite !bool_decide_eq_true_2 by congruence. cbn. rewrite !Z.ltb_ge. lia.
  - rewrite !bool_decide_eq_false_2 by congruence. cbn. unfold String.ltb. rewrite (String.compare_antisym (tp_ID b)).
    destruct (String.compare (tp_ID a) (tp_ID b)); auto.
Qed.

(** Names resolve: an exact reference gives its template, a bare id the newest
    version, nothing else is found, and the listing has every template in
    order. *)
Theorem registry_resolves {R : GoRange} (ts : list Template) (r : Registry) : NewRegistry ts = inr r ->
  (forall t, t ∈ ts -> Registry_Get r (Template_Ref t) = Some t) /\
  (forall t, t ∈ ts -> exists t', Registry_Get r (tp_ID t) = Some t' /\ t' ∈ ts /\ tp_ID t' = tp_ID t /\ tp_Version t <= tp_Version t') /\
  (forall ref t, Registry_Get r ref = Some t -> t ∈ ts /\ (ref = Template_Ref t \/ ref = tp_ID t)) /\
  Registry_All r ≡ₚ ts /\ Sorted (fun a b => Is_true (negb (templateLess b a))) (Registry_All r).
Proof.
  intros [Hrefs Hall Hids Hnew Hknown]%registry_inv. unfold Registry_Get. split_and!.
  - intros t Ht. by rewrite (proj2 (Hrefs _ _) (conj Ht eq_refl)).
  - intros t Ht. destruct (rg_byRef r !! tp_ID t) as [t'|] eqn:E.
    + apply Hrefs in E as [_ E]. pose proof (id_nochar _ (Hids t Ht)) as Hn. rewrite E in Hn. unfold Template_Ref in Hn.
      rewrite !nochar_app in Hn. cbn in Hn. by rewrite andb_false_r in Hn.
    + destruct (Hknown t Ht) as [t' H]. exists t'. destruct (Hnew _ _ H) as (Hin & Hid & Hmax). auto.
  - intros ref t. destruct (rg_byRef r !! ref) as [t'|] eqn:E.
    + intros [= <-]. apply Hrefs in E as [? ->]. auto.
    + intros H. destruct (Hnew _ _ H) as (? & <- & _). auto.
  - unfold Registry_All. rewrite sort_slice_perm. etrans; [|exact Hall]. change (map snd ?l) with (l.*2). apply fmap_Permutation, go_range_perm.
  - unfold Registry_All, sort_slice. apply Sorted_merge_sort. intros a b. destruct (templateLess_total b a) as [-> | ->]; auto.
Qed.
