(* ===== verification/Wire.v ===== *)
(** * Commands between controller and node ([wsproto/messages.go])

    The signed command, its fingerprint, and the check of the arguments of
    checkpoint commands that controller and node share. *)

From Stdlib Require Import SpecFloat.
From S2P Require Import Prelude GoText SHA256 GoTime Domain GoJSON GoFloat GoDyn.

(** ** Messages *)

Record CommandPayload := mkCommandPayload {
  cp_ID : string;
  cp_IdempotencyKey : string;
  cp_NodeID : string;
  cp_Command : string;
  cp_Args : option (gmap string dyn);
  cp_IssuedAt : Time;
  cp_ExpiresAt : Time;
  cp_Signature : string;
}.
#[export] Instance eta_CommandPayload : Eta CommandPayload := fun r =>
  mkCommandPayload (cp_ID r) (cp_IdempotencyKey r) (cp_NodeID r) (cp_Command r) (cp_Args r) (cp_IssuedAt r) (cp_ExpiresAt r) (cp_Signature r).

Record CommandResultPayload := mkCommandResultPayload {
  cr_ID : string;
  cr_NodeID : string;
  cr_Status : string;
  cr_OK : bool;
  cr_Uncertain : bool;
  cr_Result : option (gmap string dyn);
  cr_Error : string;
  cr_CompletedAt : Time;
}.
#[export] Instance eta_CommandResultPayload : Eta CommandResultPayload := fun r =>
  mkCommandResultPayload (cr_ID r) (cr_NodeID r) (cr_Status r) (cr_OK r) (cr_Uncertain r) (cr_Result r) (cr_Error r) (cr_CompletedAt r).

(** [command.Args[key]]; a missing argument is [nil]. *)
Definition arg (c : CommandPayload) (key : string) : dyn := default DNil (cp_Args c ≫= fun m => m !! key).
Definition argPresent (c : CommandPayload) (key : string) : bool := bool_decide (is_Some (cp_Args c ≫= fun m => m !! key)).

(** [value, _ := v.(string)]. *)
Definition text (v : dyn) : string := match v with DString s => s | _ => "" end.
Definition argText (c : CommandPayload) (key : string) : string := text (arg c key).

(** ** Signatures *)

Definition zip_xor (pad : Z) (key : list Z) : list Z := map (Z.lxor pad) (key ++ replicate (64 - length key) 0).

Definition string_of_bytes (l : list Z) : string := foldr (fun b s => String (Ascii.ascii_of_N (Z.to_N b)) s) ""%string l.

(** [hmac.New(sha256.New, secret)] over a message. *)
Definition hmac (secret message : string) : list Z :=
  let key := if 64 <? len secret then Sum256 secret else bytes_of secret in
  let inner := Sum256 (string_of_bytes (zip_xor 54 key) +:+ message) in
  Sum256 (string_of_bytes (zip_xor 92 key) +:+ string_of_bytes inner).

(** A member with [omitempty]. *)
Definition args_member (args : option (gmap string dyn)) : option (list (string * json)) :=
  match args with
  | None => Some []
  | Some m => if m ==? ∅ then Some [] else j ← args_json args; Some [("args"%string, j)]
  end.

Definition commandSigningMaterial (c : CommandPayload) : option string :=
  args ← args_member (cp_Args c);
  issued ← rfc3339 (cp_IssuedAt c);
  expires ← rfc3339 (cp_ExpiresAt c);
  Some (print (JObject ([("id"%string, JString (cp_ID c)); ("idempotency_key"%string, JString (cp_IdempotencyKey c));
    ("node_id"%string, JString (cp_NodeID c)); ("command"%string, JString (cp_Command c))] ++ args ++
    [("issued_at"%string, JString issued); ("expires_at"%string, JString expires)]))).

Definition SignCommand (c : CommandPayload) (secret : string) : option string :=
  material ← commandSigningMaterial c;
  Some ("sha256=" +:+ hex_encode (hmac secret material))%string.

Definition VerifyCommand (c : CommandPayload) (secret : string) : bool :=
  match SignCommand c secret with Some expected => expected ==? cp_Signature c | None => false end.

Definition ResidencyCommandFingerprint (nodeID command idempotencyKey : string) (args : option (gmap string dyn)) : string :=
  let material := default ""%string (j ← args_json args;
    Some (print (JObject [("Key", JString idempotencyKey); ("Node", JString nodeID); ("Command", JString command); ("Args", j)]%string))) in
  hex_encode (Sum256 material).

(** ** Arguments *)

Definition canonicalResidencyFence (value : dyn) : option Z :=
  match value with
  | DInt n | DInt64 n => Some n
  | DUint64 n => if MaxInt64 <? n then None else Some n
  | DFloat f => let z := float_to_int64 f in if SFeqb f (float_of_Z z) then Some z else None
  | DNumber literal => Sscan_int64 literal
  | _ => None
  end.

Definition checkpointActions : list string :=
  ["slot_query"; "slot_assign"; "start"; "pause"; "save"; "stop_confirm"; "release"; "reload"; "restore"; "reuse_verify"; "resume";
   "rollback_resume"; "cancel"; "continue"; "state_query"]%string.

Definition checkpointAllowed : list string :=
  ["target_kind"; "target_id"; "accelerator_id"; "model"; "runtime_identity"; "capability_version"; "capability_revision";
   "profile_fingerprint"; "context_fingerprint"; "owner_id"; "workload_id"; "generation"; "fencing_token"; "context_limit";
   "checkpoint_action"; "checkpoint_operation_id"; "idempotency_key"; "recovery_epoch"; "compensation_of"; "slot_id"; "snapshot_name";
   "snapshot_digest"; "saved_tokens"; "partial_output_hash"; "partial_output_offset"; "conversation_id"; "continuation_conversation_id";
   "assistant_prefix"; "managed_stream"; "controller_stream"]%string.

Definition checkpointRequired : list string :=
  ["target_kind"; "target_id"; "model"; "runtime_identity"; "capability_version"; "capability_revision"; "profile_fingerprint";
   "context_fingerprint"; "owner_id"; "workload_id"; "checkpoint_operation_id"]%string.

(** The first of the keys that is not a string with something in it, and the
    first that is not a positive integer. *)
Definition missingText (c : CommandPayload) (keys : list string) : option string := List.find (fun key => blank (argText c key)) keys.
Definition notPositive (c : CommandPayload) (keys : list string) : option string :=
  List.find (fun key => match canonicalResidencyFence (arg c key) with Some n => n <=? 0 | None => true end) keys.

Definition checkpointPrefix : string := "checkpoint_".

(** [None] is no error; a text with [%q] is shown without the quoted value. *)
Definition ValidateCheckpointCommandArgs {R : GoRange} (c : CommandPayload) : option string :=
  if negb (HasPrefix (cp_Command c) checkpointPrefix) then Some "invalid checkpoint command"%string
  else
    let action := TrimPrefix (cp_Command c) checkpointPrefix in
    if negb (bool_decide (action ∈ checkpointActions)) then Some "checkpoint action is not allowlisted"%string
    else match range_find (fun key _ => negb (bool_decide (key ∈ checkpointAllowed))) (default ∅ (cp_Args c)) with
    | Some (key, _) => Some ("checkpoint argument " +:+ key +:+ " is not allowed")%string
    | None =>
    match missingText c (checkpointRequired ++ ["accelerator_id"%string]) with
    | Some key => Some ("checkpoint argument " +:+ key +:+ " is required")%string
    | None =>
    if argText c "target_kind" !=? "llamacpp"%string then Some "checkpoint target_kind must be llamacpp"%string
    else match notPositive c ["generation"; "fencing_token"; "context_limit"]%string with
    | Some key => Some ("checkpoint argument " +:+ key +:+ " must be positive")%string
    | None =>
    if argText c "checkpoint_action" !=? action then Some "checkpoint action mismatch"%string
    else match arg c "snapshot_name" with
    | DString name =>
        if (name ==? ""%string) || ContainsAny name (String "/" (String backslash "")) || Contains name ".." then Some "unsafe snapshot name"%string
        else None
    | _ => None
    end end end end.

(** Test case 2 of RFC 4231. *)
Example hmac_example : hex_encode (hmac "Jefe" "what do ya want for nothing?")
  = "5bdcc146bf60754e6a042426089575c75a003f089d2739839dec58b964ec3843"%string.
Proof. vm_compute. reflexivity. Qed.
