(* ===== verification/NodeAgent.v ===== *)
(** * The node agent's checkpoint commands ([nodeagent/commands.go])

    The command processor of a node: it authenticates signed commands, journals
    an intent before it reaches the runtime and a result after, and keeps the
    phase of every checkpoint operation.  The model has the path of checkpoint
    commands through [Handle]; what the other commands do to the same state is
    an environment of the invariants.

    The answers of the runtime driver and of the file system are arguments
    ([runtime]), as are clock readings and the outcomes of writing the state
    file. *)

From Stdlib Require Import SpecFloat.
From S2P Require Import Prelude GoText SHA256 GoTime Domain GoJSON GoFloat GoDyn Wire.

(** ** State *)

Record pendingOperationManifest := mkManifest {
  mf_SchemaVersion : Z;
  mf_Action : string;
  mf_NodeID : string;
  mf_CommandID : string;
  mf_IdempotencyKey : string;
  mf_Fingerprint : string;
  mf_TargetKind : string;
  mf_TargetID : string;
  mf_Model : string;
  mf_RuntimeIdentity : string;
  mf_CapabilityVersion : string;
  mf_CapabilityRevision : string;
  mf_ExpectedTier : string;
  mf_FencingToken : Z;
  mf_Args : gmap string dyn;
}.

(** The manifest is kept as its JSON text in the code, here as itself. *)
Record pendingCommand := mkPendingCommand {
  pe_TargetID : string;
  pe_Model : string;
  pe_Command : string;
  pe_Token : Z;
  pe_CommandID : string;
  pe_IdempotencyKey : string;
  pe_Fingerprint : string;
  pe_RuntimeIdentity : string;
  pe_Manifest : option pendingOperationManifest;
}.
Definition zeroPending : pendingCommand := mkPendingCommand "" "" "" 0 "" "" "" "" None.

Record checkpointPhaseState := mkPhaseState {
  ph_OperationID : string;
  ph_OwnerID : string;
  ph_WorkloadID : string;
  ph_TargetID : string;
  ph_AcceleratorID : string;
  ph_Generation : Z;
  ph_Fence : Z;
  ph_SlotID : Z;
  ph_Phase : Z;
  ph_Action : string;
  ph_RuntimeIdentity : string;
  ph_ModelFingerprint : string;
  ph_ProfileFingerprint : string;
  ph_ContextFingerprint : string;
  ph_SnapshotName : string;
  ph_SnapshotDigest : string;
  ph_ConversationID : string;
  ph_ContinuationConversationID : string;
}.
#[export] Instance eta_phase : Eta checkpointPhaseState := fun r =>
  mkPhaseState (ph_OperationID r) (ph_OwnerID r) (ph_WorkloadID r) (ph_TargetID r) (ph_AcceleratorID r) (ph_Generation r) (ph_Fence r)
    (ph_SlotID r) (ph_Phase r) (ph_Action r) (ph_RuntimeIdentity r) (ph_ModelFingerprint r) (ph_ProfileFingerprint r)
    (ph_ContextFingerprint r) (ph_SnapshotName r) (ph_SnapshotDigest r) (ph_ConversationID r) (ph_ContinuationConversationID r).
Definition zeroPhase : checkpointPhaseState := mkPhaseState "" "" "" "" "" 0 0 0 0 "" "" "" "" "" "" "" "" "".

Record LlamaCPPServerConfig := mkServer {
  sv_ID : string;
  sv_AcceleratorIndex : Z;
  sv_ContextLimit : Z;
  sv_ModelFingerprints : gmap string string;
  sv_RuntimeFingerprints : gmap string string;
  sv_RuntimeProfiles : list Z;   (* their context limits *)
}.

Record CheckpointConfig := mkCheckpointConfig {
  cc_Enabled : bool;
  cc_MaxBytes : Z;
  cc_MaxMetadataBytes : Z;
  cc_MaxOutputBytes : Z;
}.

Record Config := mkConfig {
  cfg_NodeID : string;
  cfg_CommandSigningSecret : string;
  cfg_Servers : list LlamaCPPServerConfig;
  cfg_Checkpoint : CheckpointConfig;
}.

Record commandProcessor := mkProcessor {
  np_results : gmap string CommandResultPayload;
  np_commandFingerprints : gmap string string;
  np_fences : gmap string Z;
  np_pending : gmap string pendingCommand;
  np_inflight : gset string;
  np_checkpointSlots : gmap string string;
  np_checkpointPhases : gmap string checkpointPhaseState;
  np_stateBlocked : bool;
  np_stateBlockReason : string;
  np_recoveryEpoch : string;
  np_recoveryCommittedAt : Time;   (* of the recovery marker; zero without one *)
  np_initError : bool;
  np_externalWork : Z;
  np_ready : bool;
}.
#[export] Instance eta_processor : Eta commandProcessor := fun r =>
  mkProcessor (np_results r) (np_commandFingerprints r) (np_fences r) (np_pending r) (np_inflight r) (np_checkpointSlots r)
    (np_checkpointPhases r) (np_stateBlocked r) (np_stateBlockReason r) (np_recoveryEpoch r) (np_recoveryCommittedAt r) (np_initError r)
    (np_externalWork r) (np_ready r).

(** ** Blocking and readiness *)

Definition blockReasonWarmTransient : string := "warm_reconciliation".
Definition blockReasonCorrupt : string := "corrupt_state".
Definition blockReasonRead : string := "state_read".
Definition blockReasonQuarantine : string := "quarantine_failure".
Definition blockReasonDurability : string := "durability_failure".

Definition blockReasonRank (reason : string) : Z :=
  if (reason ==? blockReasonQuarantine) || (reason ==? blockReasonDurability) then 4
  else if (reason ==? blockReasonCorrupt) || (reason ==? blockReasonRead) then 3
  else if reason ==? blockReasonWarmTransient then 1
  else 2.

Definition block (reason : string) (p : commandProcessor) : commandProcessor :=
  if reason ==? ""%string then p
  else
    let replace := negb (np_stateBlocked p) || (blockReasonRank (np_stateBlockReason p) <? blockReasonRank reason) in
    p <| np_stateBlockReason := if replace then reason else np_stateBlockReason p |> <| np_stateBlocked := true |> <| np_ready := false |>.

Definition refreshReady (p : commandProcessor) : commandProcessor :=
  p <| np_ready := if 0 <? np_externalWork p then false
                   else negb (np_initError p) && negb (np_stateBlocked p) && bool_decide (np_pending p = ∅) |>.

Definition beginExternalWork (p : commandProcessor) : commandProcessor :=
  p <| np_externalWork := np_externalWork p + 1 |> <| np_ready := false |>.

Definition endExternalWork (p : commandProcessor) : commandProcessor :=
  let remaining := np_externalWork p - 1 in
  if remaining <=? 0 then refreshReady (p <| np_externalWork := 0 |>) else p <| np_externalWork := remaining |>.

Definition Ready (p : commandProcessor) : bool := (np_externalWork p =? 0) && np_ready p.

(** ** Phases *)

Definition checkpointPhase (action : string) : Z :=
  default 0 (assoc action [("slot_assign", 1); ("start", 2); ("pause", 3); ("save", 4); ("stop_confirm", 5); ("release", 6); ("reload", 9);
    ("restore", 10); ("resume", 11); ("continue", 12); ("reuse_verify", 13); ("cancel", 14)]%string).

(** The conditions in order; the state is in the phase [n] after an action. *)
Definition checkpointPhaseFor (state : checkpointPhaseState) (action : string) : Z :=
  let phase := ph_Phase state in
  let after := ph_Action state in
  let from n a := (phase =? n) && (after ==? a) in
  if (phase =? 6) && (action ==? "slot_assign"%string) then 8
  else if from 1 "slot_assign"%string && (action ==? "reload"%string) then 9
  else if from 8 "slot_assign"%string && (action ==? "slot_assign"%string) then 8
  else if from 8 "slot_assign"%string && (action ==? "reload"%string) then 9
  else if (1 <=? phase) && (phase <? 5) && (action ==? "stop_confirm"%string) then 5
  else if (phase =? 1) && (action ==? "start"%string) then 2
  else if from 9 "reload"%string && (action ==? "restore"%string) then 10
  else if from 10 "restore"%string && (action ==? "resume"%string) then 11
  else if (action ==? "rollback_resume"%string) && (1 <=? phase) && (phase <? 12) then 11
  else if from 11 "resume"%string && (action ==? "continue"%string) then 12
  else if from 12 "continue"%string && (action ==? "reuse_verify"%string) then 13
  else if (9 <=? phase) && (phase <? 14) && (action ==? "release"%string) then 15
  else if (11 <=? phase) && (phase <? 14) && (action ==? "cancel"%string) then 14
  else if from 13 "reuse_verify"%string && (action ==? "release"%string) then 15
  else if from 14 "cancel"%string && (action ==? "release"%string) then 15
  else if from 15 "release"%string && (action ==? "release"%string) then 15
  else if from 1 "slot_assign"%string && (action ==? "release"%string) then 6
  else if from 1 "slot_assign"%string && (action ==? "pause"%string) then 3
  else checkpointPhase action.

Definition checkpointNodeTransitionAllowed (state : checkpointPhaseState) (action : string) (next : Z) : bool :=
  let phase := ph_Phase state in
  let after := ph_Action state in
  let to a n := (action ==? a) && (next =? n) in
  if phase =? 0 then to "slot_assign"%string 1
  else
    ((next =? phase) && (action ==? after))
    || ((phase =? 1) && (after ==? "slot_assign"%string) && to "start"%string 2)
    || ((phase =? 1) && (after ==? "slot_assign"%string) && to "pause"%string 3)
    || ((1 <=? phase) && (phase <? 5) && to "stop_confirm"%string 5)
    || ((1 <=? phase) && (phase <=? 2) && to "release"%string 6)
    || ((phase =? 6) && to "slot_assign"%string 8)
    || ((phase =? 1) && (after ==? "slot_assign"%string) && to "reload"%string 9)
    || ((phase =? 8) && (after ==? "slot_assign"%string) && to "reload"%string 9)
    || ((phase =? 9) && to "restore"%string 10)
    || ((phase =? 10) && to "resume"%string 11)
    || ((1 <=? phase) && (phase <? 12) && to "rollback_resume"%string 11)
    || ((phase =? 11) && to "continue"%string 12)
    || ((phase =? 12) && to "reuse_verify"%string 13)
    || ((11 <=? phase) && (phase <? 14) && to "cancel"%string 14)
    || ((phase =? 14) && to "release"%string 15)
    || ((9 <=? phase) && (phase <? 14) && to "release"%string 15)
    || ((next =? phase + 1) &&
        (((after ==? "start"%string) && (action ==? "pause"%string)) || ((after ==? "pause"%string) && (action ==? "save"%string))
         || ((after ==? "save"%string) && (action ==? "stop_confirm"%string)) || ((after ==? "stop_confirm"%string) && (action ==? "release"%string)))).

(** ** Authorization of a phase *)

Definition exactFenceToken (value : dyn) : option Z :=
  match value with
  | DInt n | DInt64 n => Some n
  | DNumber literal => ParseInt literal
  | DFloat f => if float_finite f then let z := float_to_int64 f in if SFeqb f (float_of_Z z) then Some z else None else None
  | _ => None
  end.

Definition positiveToken (value : dyn) : option Z := n ← exactFenceToken value; if 0 <? n then Some n else None.

Definition checkpointArgUint (c : CommandPayload) (key : string) : string + Z :=
  if negb (argPresent c key) then inl ("checkpoint " +:+ key +:+ " is required")%string
  else match positiveToken (arg c key) with Some n => inr n | None => inl ("checkpoint " +:+ key +:+ " must be positive")%string end.

Definition checkpointArgString (c : CommandPayload) (key : string) : string := TrimSpace (argText c key).

(** The identity of the runtime and the snapshot, each with its argument. *)
Definition identityFields (state : checkpointPhaseState) : list (string * string) :=
  [(ph_RuntimeIdentity state, "runtime_identity"); (ph_ModelFingerprint state, "model"); (ph_ProfileFingerprint state, "profile_fingerprint");
   (ph_ContextFingerprint state, "context_fingerprint"); (ph_SnapshotName state, "snapshot_name"); (ph_SnapshotDigest state, "snapshot_digest");
   (ph_ConversationID state, "conversation_id"); (ph_ContinuationConversationID state, "continuation_conversation_id")]%string.

Definition enrichCheckpointPhaseState (state : checkpointPhaseState) (c : CommandPayload) : checkpointPhaseState :=
  let value key old := let v := checkpointArgString c key in if v !=? ""%string then v else old in
  state <| ph_RuntimeIdentity := value "runtime_identity"%string (ph_RuntimeIdentity state) |>
        <| ph_ModelFingerprint := value "model"%string (ph_ModelFingerprint state) |>
        <| ph_ProfileFingerprint := value "profile_fingerprint"%string (ph_ProfileFingerprint state) |>
        <| ph_ContextFingerprint := value "context_fingerprint"%string (ph_ContextFingerprint state) |>
        <| ph_SnapshotName := value "snapshot_name"%string (ph_SnapshotName state) |>
        <| ph_SnapshotDigest := value "snapshot_digest"%string (ph_SnapshotDigest state) |>
        <| ph_ConversationID := value "conversation_id"%string (ph_ConversationID state) |>
        <| ph_ContinuationConversationID := value "continuation_conversation_id"%string (ph_ContinuationConversationID state) |>.

Definition checkpointStateIdentityMatchesCommand (state : checkpointPhaseState) (c : CommandPayload) : bool :=
  forallb (fun '(stored, key) =>
    let requested := checkpointArgString c key in
    negb ((stored !=? ""%string) && (requested !=? ""%string) && (requested !=? stored))) (identityFields state).

Definition checkpointStateQueryMatchesCommand (state : checkpointPhaseState) (c : CommandPayload) (requestedSlot : Z) : bool :=
  checkpointStateIdentityMatchesCommand state c
  && forallb (fun '(stored, key) =>
       let requested := checkpointArgString c key in
       negb ((requested !=? ""%string) && (requested !=? stored))) (identityFields state)
  && (requestedSlot =? ph_SlotID state).

(** Who a command speaks for. *)
Record scope := mkScope {
  sc_operation : string;
  sc_owner : string;
  sc_workload : string;
  sc_target : string;
  sc_accelerator : string;
  sc_generation : Z;
  sc_fence : Z;
}.

Definition inScope (s : scope) (state : checkpointPhaseState) : bool :=
  (ph_OwnerID state ==? sc_owner s) && (ph_WorkloadID state ==? sc_workload s) && (ph_TargetID state ==? sc_target s)
  && (ph_AcceleratorID state ==? sc_accelerator s) && (ph_Generation state =? sc_generation s) && (ph_Fence state =? sc_fence s).

Definition freshPhase (s : scope) (slot : Z) : checkpointPhaseState :=
  zeroPhase <| ph_OperationID := sc_operation s |> <| ph_OwnerID := sc_owner s |> <| ph_WorkloadID := sc_workload s |>
    <| ph_TargetID := sc_target s |> <| ph_AcceleratorID := sc_accelerator s |> <| ph_Generation := sc_generation s |>
    <| ph_Fence := sc_fence s |> <| ph_SlotID := slot |>.

Definition slotKey (target : string) (slot : Z) : string := (target +:+ ":" +:+ Sprint slot)%string.

(** The operation's own state, or the one a compensation names. *)
Definition compensated {R : GoRange} (p : commandProcessor) (operation compensationOf : string) : option checkpointPhaseState :=
  match np_checkpointPhases p !! operation with
  | Some state => Some state
  | None =>
      if compensationOf ==? ""%string then None
      else match range_find (fun _ candidate => ph_OperationID candidate ==? compensationOf) (np_checkpointPhases p) with
           | Some (_, candidate) => Some (candidate <| ph_OperationID := operation |>)
           | None => None
           end
  end.

(** A phase that another operation holds on the slot with a fence that is not
    lower. *)
Definition slotContested {R : GoRange} (p : commandProcessor) (s : scope) (requestedSlot : Z) : bool :=
  bool_decide (is_Some (range_find (fun key state =>
    (key !=? sc_operation s) && (ph_TargetID state ==? sc_target s) && (ph_AcceleratorID state ==? sc_accelerator s)
    && (0 <=? ph_SlotID state) && ((requestedSlot <? 0) || (requestedSlot =? ph_SlotID state))
    && (ph_OperationID state !=? sc_operation s) && (sc_fence s <=? ph_Fence state)) (np_checkpointPhases p))).

Definition commandScope (c : CommandPayload) (targetID : string) : string + scope :=
  if blank (argText c "accelerator_id") then inl "checkpoint accelerator identity is required"%string
  else match checkpointArgUint c "generation" with
  | inl e => inl e
  | inr generation =>
  match positiveToken (arg c "fencing_token") with
  | None => inl "checkpoint fencing_token is invalid"%string
  | Some fence =>
  let s := mkScope (argText c "checkpoint_operation_id") (argText c "owner_id") (argText c "workload_id") targetID
             (argText c "accelerator_id") generation fence in
  if (sc_operation s ==? ""%string) || (sc_owner s ==? ""%string) || (sc_workload s ==? ""%string)
  then inl "checkpoint phase identity is incomplete"%string else inr s
  end end.

(** Read-only queries. *)
Definition authorizeQuery (p : commandProcessor) (c : CommandPayload) (s : scope) (requestedSlot : Z) (missing : string + checkpointPhaseState)
  : string + checkpointPhaseState :=
  match np_checkpointPhases p !! sc_operation s with
  | Some state =>
      if negb (inScope s state) then inl "checkpoint query identity or fence changed"%string
      else if negb (checkpointStateQueryMatchesCommand state c requestedSlot) then inl "checkpoint query runtime identity changed"%string
      else inr state
  | None => missing
  end.

(** [start] and [continue]. *)
Definition authorizeBound (p : commandProcessor) (c : CommandPayload) (s : scope) (action : string) : string + checkpointPhaseState :=
  match np_checkpointPhases p !! sc_operation s with
  | Some state =>
      if negb (inScope s state) then inl ("checkpoint " +:+ action +:+ " is not bound to the operation")%string
      else if (action ==? "start"%string) && negb (ph_Phase state =? 1) then inl "checkpoint start requires an assigned slot"%string
      else if (action ==? "continue"%string) && negb (ph_Phase state =? 11) then inl "checkpoint continuation requires the resumed phase"%string
      else inr (enrichCheckpointPhaseState state c)
  | None => inl ("checkpoint " +:+ action +:+ " is not bound to the operation")%string
  end.

Definition authorizeRollback {R : GoRange} (p : commandProcessor) (c : CommandPayload) (s : scope) (requestedSlot : Z)
  : string + checkpointPhaseState :=
  let compensationOf := argText c "compensation_of" in
  match compensated p (sc_operation s) compensationOf with
  | Some state =>
      if (compensationOf ==? ""%string) || negb (inScope s state) || negb (ph_SlotID state =? requestedSlot)
      then inl "checkpoint rollback identity or fence is invalid"%string
      else if (ph_Phase state <? 1) || (12 <=? ph_Phase state)
      then inl ("checkpoint rollback is not legal from phase " +:+ ph_Action state)%string
      else inr (enrichCheckpointPhaseState state c)
  | None => inl "checkpoint rollback identity or fence is invalid"%string
  end.

Definition authorizeCancel {R : GoRange} (p : commandProcessor) (c : CommandPayload) (s : scope) (requestedSlot : Z)
  : string + checkpointPhaseState :=
  let compensationOf := argText c "compensation_of" in
  match compensated p (sc_operation s) compensationOf with
  | Some state =>
      if (compensationOf ==? ""%string) || negb (inScope s state) || negb (ph_SlotID state =? requestedSlot) || (ph_Phase state <? 11)
      then inl "checkpoint cancel identity or phase is invalid"%string
      else inr (enrichCheckpointPhaseState state c)
  | None => inl "checkpoint cancel identity or phase is invalid"%string
  end.

(** The other actions. *)
Definition authorizeNext {R : GoRange} (p : commandProcessor) (c : CommandPayload) (s : scope) (action : string) (requestedSlot : Z)
  : string + checkpointPhaseState :=
  let current := np_checkpointPhases p !! sc_operation s in
  let phase := checkpointPhaseFor (default zeroPhase current) action in
  let slotOwner := default ""%string (np_checkpointSlots p !! slotKey (sc_target s) requestedSlot) in
  if phase =? 0 then inl "checkpoint phase is unknown"%string
  else if (0 <=? requestedSlot) && (slotOwner !=? ""%string) && (slotOwner !=? sc_operation s)
  then inl "checkpoint slot is owned by another operation"%string
  else if slotContested p s requestedSlot then inl "checkpoint slot is owned by another operation"%string
  else match current with
  | Some state =>
      if negb (inScope s state) then inl "checkpoint phase identity or fence changed"%string
      else if negb (checkpointStateIdentityMatchesCommand state c) then inl "checkpoint phase runtime identity changed"%string
      else if negb (checkpointNodeTransitionAllowed state action phase)
      then inl ("checkpoint phase " +:+ action +:+ " is out of order after " +:+ ph_Action state)%string
      else if (0 <=? requestedSlot) && (0 <=? ph_SlotID state) && negb (requestedSlot =? ph_SlotID state)
      then inl "checkpoint slot changed within operation"%string
      else inr (enrichCheckpointPhaseState state c)
  | None =>
      if negb (phase =? 1) then inl "checkpoint operation must begin with slot assignment"%string
      else inr (enrichCheckpointPhaseState (freshPhase s requestedSlot) c)
  end.

Definition authorizeCheckpointPhase {R : GoRange} (p : commandProcessor) (c : CommandPayload) (targetID action : string) (requestedSlot : Z)
  : string + checkpointPhaseState :=
  match commandScope c targetID with
  | inl e => inl e
  | inr s =>
      if action ==? "slot_query"%string then authorizeQuery p c s requestedSlot (inr (enrichCheckpointPhaseState (freshPhase s requestedSlot) c))
      else if action ==? "state_query"%string
      then authorizeQuery p c s requestedSlot (inl "not_found: checkpoint operation has no durable phase journal"%string)
      else if (action ==? "start"%string) || (action ==? "continue"%string) then authorizeBound p c s action
      else if action ==? "rollback_resume"%string then authorizeRollback p c s requestedSlot
      else if action ==? "cancel"%string then authorizeCancel p c s requestedSlot
      else authorizeNext p c s action requestedSlot
  end.

(** The state with the phase of an action and what its result reports. *)
Definition advanced (state : checkpointPhaseState) (action : string) (result : gmap string dyn) : checkpointPhaseState :=
  let named key old := let v := text (default DNil (result !! key)) in if blank v then old else v in
  state <| ph_Phase := checkpointPhaseFor state action |> <| ph_Action := action |>
        <| ph_SnapshotName := named "snapshot_name"%string (ph_SnapshotName state) |>
        <| ph_SnapshotDigest := named "snapshot_digest"%string (ph_SnapshotDigest state) |>
        <| ph_SlotID := default (ph_SlotID state) (result !! "slot_id"%string ≫= exactFenceToken) |>.

Definition commitCheckpointPhase (p : commandProcessor) (state : checkpointPhaseState) (action : string) (result : gmap string dyn)
  : commandProcessor :=
  let state := advanced state action result in
  let key := slotKey (ph_TargetID state) (ph_SlotID state) in
  p <| np_checkpointPhases := <[ph_OperationID state := state]> (np_checkpointPhases p) |>
    <| np_checkpointSlots := if action ==? "release"%string then delete key (np_checkpointSlots p)
                             else if 0 <=? ph_SlotID state then <[key := ph_OperationID state]> (np_checkpointSlots p)
                             else np_checkpointSlots p |>.

(** ** Executing a checkpoint command *)

Record slotRow := mkSlotRow {
  sr_ID : Z;
  sr_ContextLimit : Z;
  sr_Processing : bool;
  sr_PastTokens : Z;
  sr_PromptTokens : Z;
  sr_CachedPromptTokens : Z;
}.

(** What a kept snapshot is. *)
Record savedKV := mkSavedKV {
  kv_SnapshotRef : string;
  kv_SizeBytes : Z;
  kv_Digest : string;
  kv_TokensSaved : Z;
}.

(** The driver's methods. *)
Inductive driverCall :=
  | QuerySlots
  | AssignSlot (slot : Z)
  | PauseAtBoundary (slot : Z)
  | StartConversation (slot : Z)
  | SaveKV (slot : Z) (name : string)
  | ConfirmStopped (slot : Z)
  | ReleaseSlot (slot : Z)
  | Reload (slot : Z)
  | RestoreKV (slot : Z) (name : string)
  | VerifyReuse (slot saved : Z)
  | Resume (slot : Z)
  | Continue (slot : Z).

(** The answers of the runtime driver and the file system while one command
    runs; an error is its text. *)
Record runtime := mkRuntime {
  rt_conversation : bool;           (* implements ConversationSlotCheckpointDriver *)
  rt_registration : bool;           (* implements ConversationSlotRegistrationDriver *)
  rt_continuation : bool;           (* implements CheckpointContinuationDriver *)
  rt_external : bool;               (* is the llama.cpp driver *)
  rt_root : option string;          (* validateCheckpointRoot *)
  rt_ownerPath : option string;     (* the owner's directory is inside the root *)
  rt_querySlots : string + list slotRow;
  rt_assignSlot : string + (Z * Z);
  rt_pause : string + (string * Z); (* the prefix in base64, as it is printed *)
  rt_start : option string;
  rt_quotaBefore : option string;   (* checkpointQuotaAllowed and the check of the file to write *)
  rt_saveKV : string + savedKV;
  rt_quotaAfter : option string;
  rt_recordOwned : option string;
  rt_confirmStopped : string + bool;
  rt_releaseSlot : option string;
  rt_markInactive : option string;
  rt_reload : option string;
  rt_digest : option string;        (* verifyCheckpointSnapshotDigest *)
  rt_restoreKV : string + Z;
  rt_verifyReuse : string + Z;
  rt_resume : string + string;
  rt_continue : option string;
  rt_finalize : option string;      (* finalizeCheckpointOwnership *)
}.

Definition routerTarget (cfg : Config) (targetID : string) : option LlamaCPPServerConfig :=
  let shortID := TrimPrefix targetID (cfg_NodeID cfg +:+ "-") in
  List.find (fun server => (sv_ID server ==? targetID) || (sv_ID server ==? shortID)) (cfg_Servers cfg).

Definition canonicalTarget (cfg : Config) (server : LlamaCPPServerConfig) : string := (cfg_NodeID cfg +:+ "-" +:+ sv_ID server)%string.

(** A name that a map of fingerprints has as key or value. *)
Definition fingerprinted (m : gmap string string) (name : string) : bool :=
  existsb (fun kv => (name ==? kv.1) || (name ==? kv.2)) (map_to_list m).

(** [context_limit] as a [float64], and as an [int]. *)
Definition contextLimitOf (c : CommandPayload) : Z :=
  match arg c "context_limit" with
  | DFloat f => float_to_int64 f
  | DInt n | DInt64 n => float_to_int64 (float_of_Z n)
  | _ => 0
  end.

Definition requestedSlotOf (c : CommandPayload) : Z :=
  if argPresent c "slot_id" then default (-1) (exactFenceToken (arg c "slot_id")) else -1.

(** The checks before a phase is authorized.  Every configured server has a
    driver. *)
Definition checkpointPreflight (cfg : Config) (rt : runtime) (c : CommandPayload) : option string :=
  let name := argText c "snapshot_name" in
  let owner := argText c "owner_id" in
  let targetID := argText c "target_id" in
  let action := argText c "checkpoint_action" in
  if negb (cc_Enabled (cfg_Checkpoint cfg)) then Some "production checkpointing is disabled on this node"%string
  else match rt_root rt with
  | Some e => Some e
  | None =>
  if (name !=? ""%string) && ((Base name !=? name) || Contains name ".." || negb (HasSuffix name ".kv"))
  then Some "checkpoint snapshot name is not an allowlisted production name"%string
  else if (name !=? ""%string) && ((owner ==? ""%string) || (Base owner !=? owner) || Contains owner "..")
  then Some "checkpoint owner path is invalid"%string
  else match (if name !=? ""%string then rt_ownerPath rt else None) with
  | Some e => Some e
  | None =>
  match routerTarget cfg targetID with
  | None => Some "checkpoint target is not an allowlisted local llama.cpp target"%string
  | Some server =>
  if targetID !=? canonicalTarget cfg server then Some "checkpoint target is not an allowlisted local llama.cpp target"%string
  else if argText c "accelerator_id" !=? (cfg_NodeID cfg +:+ "-gpu" +:+ Sprint (sv_AcceleratorIndex server))%string
  then Some "checkpoint accelerator is not authoritative for this target"%string
  else if (sv_ModelFingerprints server !=? ∅) && negb (fingerprinted (sv_ModelFingerprints server) (argText c "model"))
  then Some "checkpoint model is not the authoritative configured model/fingerprint"%string
  else if (sv_RuntimeFingerprints server !=? ∅) && negb (fingerprinted (sv_RuntimeFingerprints server) (argText c "runtime_identity"))
  then Some "checkpoint runtime identity is not the authoritative configured runtime"%string
  else if (0 <? sv_ContextLimit server) && negb (contextLimitOf c =? sv_ContextLimit server)
          && negb (bool_decide (contextLimitOf c ∈ sv_RuntimeProfiles server))
  then Some "checkpoint context does not match the authoritative runtime profile"%string
  else if action ==? ""%string then Some "checkpoint action is required"%string
  else if ((action ==? "save"%string) || (action ==? "restore"%string)) && (name ==? ""%string)
  then Some "checkpoint snapshot_name is required"%string
  else None
  end end end.

Definition slot_json (row : slotRow) : dyn :=
  DMap [("id", DInt (sr_ID row)); ("n_ctx", DInt (sr_ContextLimit row)); ("is_processing", DBool (sr_Processing row));
        ("n_prompt_tokens", DInt (sr_PromptTokens row)); ("n_prompt_tokens_cached", DInt (sr_CachedPromptTokens row));
        ("n_past", DInt (sr_PastTokens row))]%string.

(** What an action did: the calls it made and its result or error. *)
Abbreviation ran := (list driverCall * (string + gmap string dyn))%type (only parsing).

Definition unless (e : option string) (k : string + gmap string dyn) : string + gmap string dyn :=
  match e with Some e => inl e | None => k end.
Definition answered {A} (r : string + A) (k : A -> string + gmap string dyn) : string + gmap string dyn :=
  match r with inl e => inl e | inr a => k a end.

Definition runSlots (rt : runtime) (action : string) (slot : Z) : ran :=
  match rt_querySlots rt with
  | inl e => ([QuerySlots], inl e)
  | inr rows =>
      let slots := ("slots"%string, DSlice (map slot_json rows)) in
      if action ==? "slot_assign"%string
      then ([QuerySlots; AssignSlot slot], answered (rt_assignSlot rt) (fun '(id, limit) =>
              inr (list_to_map [slots; ("slot_id"%string, DInt id); ("context_limit"%string, DInt limit)])))
      else ([QuerySlots], inr (list_to_map [slots]))
  end.

Definition runPause (rt : runtime) (c : CommandPayload) (action : string) (slot : Z) : ran :=
  let conversationID := argText c "conversation_id" in
  let compensationOf := argText c "compensation_of" in
  if (action ==? "cancel"%string) && (conversationID ==? ""%string) then ([], inl "checkpoint cancel requires conversation id"%string)
  else if (action ==? "cancel"%string) && ((compensationOf ==? ""%string) || (compensationOf !=? argText c "checkpoint_operation_id"))
  then ([], inl "checkpoint cancel compensation identity is required"%string)
  else if negb (rt_conversation rt) && (conversationID !=? ""%string)
  then ([], inl "production checkpoint driver lacks conversation pause"%string)
  else ([PauseAtBoundary slot], answered (rt_pause rt) (fun '(prefix, tokens) =>
         inr (list_to_map ([("prefix"%string, DString prefix); ("token_count"%string, DInt tokens)]
                           ++ if action ==? "cancel"%string then [("stopped"%string, DBool true)] else [])))).

Definition runStart (rt : runtime) (c : CommandPayload) (slot : Z) : ran :=
  let conversationID := argText c "conversation_id" in
  let managed := match arg c "managed_stream" with DBool b => b | _ => false end in
  if (conversationID ==? ""%string) || negb ((rt_registration rt && managed) || rt_conversation rt)
  then ([], inl "production checkpoint driver lacks conversation start"%string)
  else ([StartConversation slot], unless (rt_start rt) (inr {[ "conversation_id"%string := DString conversationID ]})).

Definition runSave (cfg : Config) (rt : runtime) (c : CommandPayload) (slot : Z) : ran :=
  let name := argText c "snapshot_name" in
  let limit := cc_MaxMetadataBytes (cfg_Checkpoint cfg) + cc_MaxOutputBytes (cfg_Checkpoint cfg) + cc_MaxBytes (cfg_Checkpoint cfg) in
  match rt_quotaBefore rt with
  | Some e => ([], inl e)
  | None => ([SaveKV slot name], answered (rt_saveKV rt) (fun saved =>
      if (kv_SizeBytes saved <=? 0) || (wrap64 limit <? kv_SizeBytes saved) then inl "checkpoint snapshot exceeds configured size bounds"%string
      else unless (rt_quotaAfter rt) match rt_recordOwned rt with
           | Some e => inl ("checkpoint ownership manifest could not be committed: " +:+ e)%string
           | None => inr (list_to_map [("snapshot_name"%string, DString name); ("snapshot_ref"%string, DString (kv_SnapshotRef saved));
               ("snapshot_bytes"%string, DInt64 (kv_SizeBytes saved)); ("snapshot_digest"%string, DString (kv_Digest saved));
               ("saved_tokens"%string, DInt (kv_TokensSaved saved))])
           end))
  end.

Definition runStop (rt : runtime) (slot : Z) : ran :=
  ([ConfirmStopped slot], answered (rt_confirmStopped rt) (fun stopped : bool =>
    if stopped then inr {[ "stopped"%string := DBool true ]} else inl "runtime did not confirm backend stop"%string)).

Definition runRelease (rt : runtime) (slot : Z) : ran :=
  ([ReleaseSlot slot], unless (rt_releaseSlot rt) match rt_markInactive rt with
    | Some e => inl ("checkpoint ownership manifest release could not be committed: " +:+ e)%string
    | None => inr {[ "released"%string := DBool true ]}
    end).

Definition runRestore (rt : runtime) (c : CommandPayload) (slot : Z) : ran :=
  let name := argText c "snapshot_name" in
  let digest := argText c "snapshot_digest" in
  match (if digest !=? ""%string then rt_digest rt
         else if rt_external rt then Some "checkpoint restore requires snapshot_digest"%string else None) with
  | Some e => ([], inl e)
  | None => ([RestoreKV slot name], answered (rt_restoreKV rt) (fun tokens => inr {[ "restored_tokens"%string := DInt tokens ]}))
  end.

Definition runReuse (rt : runtime) (c : CommandPayload) (slot : Z) : ran :=
  match positiveToken (arg c "saved_tokens") with
  | None => ([], inl "checkpoint reuse verification requires positive saved_tokens"%string)
  | Some saved => ([VerifyReuse slot saved], answered (rt_verifyReuse rt) (fun reused => inr {[ "reused_tokens"%string := DInt reused ]}))
  end.

Definition runResume (rt : runtime) (c : CommandPayload) (action : string) (slot : Z) : ran :=
  match exactFenceToken (arg c "partial_output_offset") with
  | Some offset =>
      if offset <? 0 then ([], inl "checkpoint resume requires a non-negative partial_output_offset"%string)
      else if (action ==? "rollback_resume"%string) && (argText c "compensation_of" ==? ""%string)
      then ([], inl "checkpoint rollback compensation identity is required"%string)
      else if negb (rt_conversation rt) && (argText c "continuation_conversation_id" !=? ""%string)
      then ([], inl "production checkpoint driver lacks conversation resume"%string)
      else ([Resume slot], answered (rt_resume rt) (fun id => inr {[ "external_id"%string := DString id ]}))
  | None => ([], inl "checkpoint resume requires a non-negative partial_output_offset"%string)
  end.

Definition runContinue (rt : runtime) (c : CommandPayload) (slot : Z) : ran :=
  let conversationID := argText c "continuation_conversation_id" in
  let controllerStream := match arg c "controller_stream" with DBool b => b | _ => false end in
  let bound := inr {[ "external_id"%string := DString conversationID ]} in
  if controllerStream
  then ([], if conversationID ==? ""%string then inl "production continuation requires conversation id"%string else bound)
  else if negb (rt_continuation rt) || (conversationID ==? ""%string)
  then ([], inl "production checkpoint driver lacks conversation continuation"%string)
  else ([Continue slot], unless (rt_continue rt) bound).

Definition runAction (cfg : Config) (rt : runtime) (c : CommandPayload) (action : string) : ran :=
  let slot := requestedSlotOf c in
  if bool_decide (action ∈ ["slot_assign"; "slot_query"; "state_query"]%string) then runSlots rt action slot
  else if (action ==? "pause"%string) || (action ==? "cancel"%string) then runPause rt c action slot
  else if action ==? "start"%string then runStart rt c slot
  else if action ==? "save"%string then runSave cfg rt c slot
  else if action ==? "stop_confirm"%string then runStop rt slot
  else if action ==? "release"%string then runRelease rt slot
  else if action ==? "reload"%string then ([Reload slot], unless (rt_reload rt) (inr {[ "reloaded"%string := DBool true ]}))
  else if action ==? "restore"%string then runRestore rt c slot
  else if action ==? "reuse_verify"%string then runReuse rt c slot
  else if (action ==? "resume"%string) || (action ==? "rollback_resume"%string) then runResume rt c action slot
  else if action ==? "continue"%string then runContinue rt c slot
  else ([], inl "checkpoint action is not implemented by the llama.cpp driver"%string).

(** [command] with its target replaced by the configured one. *)
Definition withTarget (cfg : Config) (c : CommandPayload) : option (gmap string dyn) :=
  match cp_Args c, arg c "target_id" with
  | Some m, DString target =>
      match routerTarget cfg target with Some server => Some (<["target_id"%string := DString (canonicalTarget cfg server)]> m) | None => Some m end
  | args, _ => args
  end.

Definition commandFingerprint (c : CommandPayload) : string :=
  ResidencyCommandFingerprint (cp_NodeID c) (cp_Command c) (cp_IdempotencyKey c) (cp_Args c).

(** For a checkpoint command. *)
Definition semanticFingerprint (cfg : Config) (c : CommandPayload) : string := commandFingerprint (c <| cp_Args := withTarget cfg c |>).

Definition normalizeCommandTarget (cfg : Config) (c : CommandPayload) : CommandPayload :=
  if argText c "target_id" ==? ""%string then c else c <| cp_Args := withTarget cfg c |>.

(** What the result reports of the journaled phase. *)
Definition observedFields (cfg : Config) (c : CommandPayload) (action : string) (state : checkpointPhaseState) : list (string * dyn) :=
  [("target_id", DString (ph_TargetID state)); ("action", DString action); ("node_id", DString (cfg_NodeID cfg)); ("command_id", DString (cp_ID c));
   ("idempotency_key", DString (cp_IdempotencyKey c)); ("original_command_id", DString (cp_ID c));
   ("original_idempotency_key", DString (cp_IdempotencyKey c)); ("checkpoint_operation_id", DString (ph_OperationID state));
   ("observed_phase", DString (ph_Action state)); ("observed_phase_ordinal", DInt (ph_Phase state)); ("observed_slot_id", DInt (ph_SlotID state));
   ("observed_snapshot_name", DString (ph_SnapshotName state)); ("observed_snapshot_digest", DString (ph_SnapshotDigest state));
   ("observed_conversation_id", DString (ph_ConversationID state));
   ("observed_continuation_conversation_id", DString (ph_ContinuationConversationID state));
   ("observed_runtime_identity", DString (ph_RuntimeIdentity state)); ("observed_model_fingerprint", DString (ph_ModelFingerprint state));
   ("observed_profile_fingerprint", DString (ph_ProfileFingerprint state)); ("observed_context_fingerprint", DString (ph_ContextFingerprint state));
   ("generation", DUint64 (ph_Generation state)); ("fencing_token", DInt64 (ph_Fence state))]%string.

(** The fields over those of the result. *)
Definition report (cfg : Config) (c : CommandPayload) (action : string) (state : checkpointPhaseState) (result : gmap string dyn) : gmap string dyn :=
  list_to_map (observedFields cfg c action state) ∪ result.

(** What executing a command did. *)
Record execution := mkExecution {
  ex_proc : commandProcessor;
  ex_sideEffect : bool;
  ex_calls : list driverCall;
  ex_result : option (gmap string dyn);
  ex_error : string;
}.

Definition refused (p : commandProcessor) (e : string) : execution := mkExecution p false [] None e.

(** A phase that is already journaled: the cached result, or for a release the
    observation itself. *)
Definition replayPhase (cfg : Config) (p : commandProcessor) (c : CommandPayload) (action : string) (state : checkpointPhaseState) : execution :=
  let cached := np_results p !! ("key:" +:+ cp_IdempotencyKey c)%string ≫= cr_Result in
  match cached with
  | Some result =>
      if np_commandFingerprints p !! cp_IdempotencyKey c ==? Some (semanticFingerprint cfg c) then mkExecution p false [] (Some result) ""
      else if action ==? "release"%string
      then mkExecution p false [] (Some (report cfg c action state {[ "released"%string := DBool true ]})) ""
      else refused p "checkpoint phase replay lacks durable result evidence"
  | None =>
      if action ==? "release"%string
      then mkExecution p false [] (Some (report cfg c action state {[ "released"%string := DBool true ]})) ""
      else refused p "checkpoint phase replay lacks durable result evidence"
  end.

(** After the action: the phase is journaled, then a terminal snapshot is
    finalized and the journal reported. *)
Definition settlePhase (cfg : Config) (rt : runtime) (p : commandProcessor) (c : CommandPayload) (action : string) (state : checkpointPhaseState)
    (sideEffect : bool) (calls : list driverCall) (result : gmap string dyn) : execution :=
  let fingerprint := DString (semanticFingerprint cfg c) in
  let result := <["command_fingerprint"%string := fingerprint]> (<["fingerprint"%string := fingerprint]> result) in
  let commits := (0 <? checkpointPhase action) || (action ==? "rollback_resume"%string) in
  let p := if commits then commitCheckpointPhase p state action result else p in
  let state := if commits then default zeroPhase (np_checkpointPhases p !! argText c "checkpoint_operation_id") else state in
  let terminal := (action ==? "reuse_verify"%string) || (action ==? "cancel"%string) in
  match (if terminal && (ph_SnapshotName state !=? ""%string) then rt_finalize rt else None) with
  | Some e => mkExecution p sideEffect calls None ("checkpoint ownership terminalization failed: " +:+ e)
  | None => mkExecution p sideEffect calls (Some (report cfg c action state result)) ""
  end.

Definition executeCheckpoint {R : GoRange} (cfg : Config) (rt : runtime) (p : commandProcessor) (c : CommandPayload) : execution :=
  match checkpointPreflight cfg rt c with
  | Some e => refused p e
  | None =>
      let action := argText c "checkpoint_action" in
      match authorizeCheckpointPhase p c (argText c "target_id") action (requestedSlotOf c) with
      | inl e => refused p e
      | inr state =>
          let phase := checkpointPhaseFor state action in
          if (0 <? phase) && (ph_Phase state =? phase) && (ph_Action state ==? action) then replayPhase cfg p c action state
          else
            let sideEffect := negb (bool_decide (action ∈ ["slot_query"; "state_query"]%string)) in
            let '(calls, outcome) := runAction cfg rt c action in
            match outcome with
            | inl e => mkExecution p sideEffect calls None e
            | inr result => settlePhase cfg rt p c action state sideEffect calls result
            end
      end
  end.

(** ** The state file *)

Record commandStatePayload := mkStatePayload {
  sp_Results : gmap string CommandResultPayload;
  sp_CommandFingerprints : gmap string string;
  sp_Fences : gmap string Z;
  sp_Pending : gmap string pendingCommand;
  sp_BlockReason : string;
  sp_RecoveryEpoch : string;
  sp_CheckpointPhases : gmap string checkpointPhaseState;
}.

Definition payload_of (p : commandProcessor) : commandStatePayload :=
  mkStatePayload (np_results p) (np_commandFingerprints p) (np_fences p) (np_pending p) (np_stateBlockReason p) (np_recoveryEpoch p)
    (np_checkpointPhases p).

(** How writing the file ends: it was replaced; an error before that; an error
    after it, while the directory or the journal was written. *)
Inductive saving := Saved | NotWritten | Unconfirmed.

(** A processor and its file. *)
Record nodeState := mkNodeState {
  nd_proc : commandProcessor;
  nd_disk : commandStatePayload;
}.

Definition save (outcome : saving) (n : nodeState) : nodeState * bool :=
  let p := nd_proc n in
  match outcome with
  | Saved => (mkNodeState p (payload_of p), true)
  | NotWritten => (mkNodeState (block blockReasonDurability p) (nd_disk n), false)
  | Unconfirmed => (mkNodeState (block blockReasonDurability p) (payload_of p), false)
  end.

(** A result after it was read back from the file; an empty map is omitted. *)
Definition rereadResult (r : CommandResultPayload) : CommandResultPayload :=
  r <| cr_Result := match cr_Result r with
                    | Some m => if m ==? ∅ then None else Some (reread <$> m)
                    | None => None
                    end |>.

(** The owner of each slot after a restart.  [latest] has the durable phases;
    the later loop over results is for operations that have none. *)
Definition install (latest : gmap string checkpointPhaseState) (slots : gmap string string) (entry : string * checkpointPhaseState)
  : gmap string string :=
  let '(operation, state) := entry in
  if (operation ==? ""%string) || (ph_SlotID state <? 0) || (ph_Action state ==? "release"%string) || (ph_Phase state <=? 0) then slots
  else
    let key := slotKey (ph_TargetID state) (ph_SlotID state) in
    match slots !! key with
    | Some prior =>
        let priorFence := ph_Fence (default zeroPhase (latest !! prior)) in
        if (prior !=? operation) && ((ph_Fence state <? priorFence) || ((priorFence =? ph_Fence state) && String.ltb prior operation))
        then slots else <[key := operation]> slots
    | None => <[key := operation]> slots
    end.

(** The value of [strconv.Atoi], whatever its error: 0 for what is no number,
    the nearest integer for one that is out of range. *)
Definition Atoi_value (s : string) : Z :=
  let '(negative, digits) := match s with
                             | String "-" s => (true, s)
                             | String "+" s => (false, s)
                             | _ => (false, s)
                             end in
  match read_digits digits 0 0 with
  | (v, _, EmptyString) => if negative then Z.max (- MaxInt64 - 1) (- Z.of_N v) else Z.min MaxInt64 (Z.of_N v)
  | _ => 0
  end.

(** The slot in a result that predates the phases. *)
Definition legacySlot (v : dyn) : Z :=
  match v with
  | DString s => Atoi_value s
  | DFloat f => float_to_int64 f
  | DInt n => n
  | _ => -1
  end.

Definition legacyPhase (r : CommandResultPayload) : option (string * checkpointPhaseState) :=
  m ← cr_Result r;
  let field key := default DNil (m !! key) in
  let action := text (field "action"%string) in
  let target := text (field "target_id"%string) in
  let named := text (field "checkpoint_operation_id"%string) in
  let operation := if named ==? ""%string then text (field "original_command_id"%string) else named in
  let slot := legacySlot (field "slot_id"%string) in
  let observed := default 0 (m !! "observed_phase_ordinal"%string ≫= exactFenceToken) in
  if bool_decide (action ∈ [""; "slot_query"; "state_query"]%string) || (target ==? ""%string) || (operation ==? ""%string) || (slot <? 0) then None
  else Some (operation, zeroPhase <| ph_OperationID := operation |> <| ph_TargetID := target |> <| ph_SlotID := slot |>
               <| ph_Phase := if observed =? 0 then checkpointPhase action else observed |> <| ph_Action := action |>).

Definition legacyLatest {R : GoRange} (p : commandProcessor) : gmap string checkpointPhaseState :=
  foldl (fun acc '(_, r) => match legacyPhase r with
    | Some (operation, candidate) =>
        match acc !! operation with
        | Some current => if ph_Phase current <? ph_Phase candidate then <[operation := candidate]> acc else acc
        | None => <[operation := candidate]> acc
        end
    | None => acc
    end) ∅ (go_range (np_results p)).

Definition rebuildCheckpointSlotOwners {R : GoRange} (p : commandProcessor) : commandProcessor :=
  let latest := filter (fun kv => blank kv.1 = false /\ ph_OperationID kv.2 <> ""%string) (np_checkpointPhases p) in
  let slots := foldl (install latest) ∅ (go_range latest) in
  let old := filter (fun kv => latest !! kv.1 = None) (legacyLatest p) in
  p <| np_checkpointSlots := foldl (install latest) slots (go_range old) |>.

(** A new processor over the file.  [found] are the reasons to block that the
    journal, the recovery marker and the warm manifests give. *)
Definition restart {R : GoRange} (found : list string) (committedAt : Time) (d : commandStatePayload) : commandProcessor :=
  let p := mkProcessor (rereadResult <$> sp_Results d) (sp_CommandFingerprints d) (sp_Fences d) (sp_Pending d) ∅ ∅ (sp_CheckpointPhases d)
             false "" (sp_RecoveryEpoch d) committedAt false 0 false in
  let p := foldl (fun p reason => block reason p) p (found ++ [sp_BlockReason d]) in
  let p := if sp_Pending d ==? ∅ then p else block blockReasonWarmTransient p in
  refreshReady (rebuildCheckpointSlotOwners p).

(** ** Handling a command *)

Definition authenticateCommand (cfg : Config) (p : commandProcessor) (c : CommandPayload) (now : Time) : option string :=
  if len (cfg_CommandSigningSecret cfg) <? 16 then Some "node command signing is not configured"%string
  else if (cp_ID c ==? ""%string) || (cp_IdempotencyKey c ==? ""%string) then Some "command identity is required"%string
  else if cp_NodeID c !=? cfg_NodeID cfg then Some "command is bound to a different node"%string
  else if negb (VerifyCommand c (cfg_CommandSigningSecret cfg)) then Some "invalid command signature"%string
  else
    let epoch := argText c "recovery_epoch" in
    let cutoff := np_recoveryCommittedAt p in
    match (if np_recoveryEpoch p ==? ""%string then None
           else if negb (blank epoch) then if epoch !=? np_recoveryEpoch p then Some "command recovery epoch is stale"%string else None
           else if (cutoff =? 0) || (cp_IssuedAt c <=? cutoff) then Some "command was issued before the current recovery epoch"%string
           else None) with
    | Some e => Some e
    | None =>
        if cp_ExpiresAt c <? now then Some "command expired"%string
        else if now + 120 * second <? cp_IssuedAt c then Some "command issue time is in the future"%string
        else None
    end.

Definition isCheckpointCommand (command : string) : bool := HasPrefix command checkpointPrefix.
Definition isReadOnlyCheckpointCommand (command : string) : bool :=
  (command ==? "checkpoint_slot_query"%string) || (command ==? "checkpoint_state_query"%string).

(** [reflect.DeepEqual] of two results. *)
Definition sameResult (r r' : CommandResultPayload) : bool :=
  (cr_ID r ==? cr_ID r') && (cr_NodeID r ==? cr_NodeID r') && (cr_Status r ==? cr_Status r') && Bool.eqb (cr_OK r) (cr_OK r')
  && Bool.eqb (cr_Uncertain r) (cr_Uncertain r') && (cr_Error r ==? cr_Error r') && (cr_CompletedAt r =? cr_CompletedAt r')
  && match cr_Result r, cr_Result r' with
     | Some m, Some m' => deepEqual (DMap (map_to_list m)) (DMap (map_to_list m'))
     | None, None => true
     | _, _ => false
     end.

Definition keyed (c : CommandPayload) : string := ("key:" +:+ cp_IdempotencyKey c)%string.
Definition identified (c : CommandPayload) : string := ("id:" +:+ cp_ID c)%string.

Definition fingerprintOf (p : commandProcessor) (key : string) : string := default ""%string (np_commandFingerprints p !! key).

(** For a checkpoint command. *)
Definition cachedMutationReplay (cfg : Config) (p : commandProcessor) (c : CommandPayload) : bool :=
  if isReadOnlyCheckpointCommand (cp_Command c) then false
  else match np_results p !! cp_ID c, np_results p !! keyed c with
  | Some byID, Some byKey =>
      let fingerprint := semanticFingerprint cfg c in
      sameResult byID byKey && cr_OK byID &&
      match cr_Result byID with
      | Some m =>
          (fingerprintOf p (identified c) ==? fingerprint) && (fingerprintOf p (cp_IdempotencyKey c) ==? fingerprint)
          && match m !! "command_fingerprint"%string, m !! "fingerprint"%string with
             | Some (DString a), Some (DString b) => (a ==? fingerprint) && (b ==? fingerprint)
             | _, _ => false
             end
      | None => false
      end
  | _, _ => false
  end.

Definition residencyCacheRecordPresent (p : commandProcessor) (c : CommandPayload) : bool :=
  bool_decide (is_Some (np_results p !! cp_ID c)) || bool_decide (is_Some (np_results p !! keyed c)).

Definition blockedMessage (p : commandProcessor) : string :=
  if np_initError p then "command state initialization failed"
  else if np_stateBlockReason p !=? ""%string then ("command state blocked: " +:+ np_stateBlockReason p)%string
  else "command state requires reconciliation".

Definition unsettled (p : commandProcessor) : bool := np_stateBlocked p || (np_pending p !=? ∅).

(** Readings of the clock, in the order they are taken. *)
Record clock := mkClock {
  ck_auth : Time;
  ck_gate : Time;
  ck_run : Time;
  ck_done : Time;
}.

Inductive admission :=
  | Refuse (error : string)
  | Replay (r : CommandResultPayload)
  | Accept.

(** The gates of [Handle] for a checkpoint command whose target is resolved.
    The exceptions for other commands are false for it. *)
Definition gates (cfg : Config) (p : commandProcessor) (c : CommandPayload) (now : Time) : admission :=
  let queryRecovery := isReadOnlyCheckpointCommand (cp_Command c) in
  let absoluteBlocked := np_initError p || (unsettled p && (np_stateBlockReason p !=? blockReasonWarmTransient)) in
  let replay := negb absoluteBlocked && cachedMutationReplay cfg p c in
  (* a replay has both records, so the lookup by key after the one by ID is not reached *)
  if cp_ExpiresAt c <? now then Refuse "command expired before durable intent"
  else if absoluteBlocked && negb queryRecovery then Refuse (blockedMessage p)
  else if residencyCacheRecordPresent p c && negb replay then Refuse "command blocked: cached residency result failed closed validation"
  else if (np_initError p && negb queryRecovery) || (unsettled p && negb queryRecovery && negb replay) then Refuse (blockedMessage p)
  else match np_results p !! cp_ID c, replay with
  | Some cached, true =>
      let fingerprint := fingerprintOf p (identified c) in
      if (fingerprint ==? ""%string) || (fingerprint !=? semanticFingerprint cfg c)
      then Refuse "command ID was previously used for a different command"
      else Replay cached
  | _, _ => Accept
  end.

Definition admission_of {R : GoRange} (cfg : Config) (p : commandProcessor) (c : CommandPayload) (ck : clock) : admission :=
  match authenticateCommand cfg p c (ck_auth ck) with
  | Some e => Refuse e
  | None =>
      let c := normalizeCommandTarget cfg c in
      match ValidateCheckpointCommandArgs c with
      | Some e => Refuse e
      | None => gates cfg p c (ck_gate ck)
      end
  end.

Definition sanitizeCommandError (message : string) : string :=
  if message ==? ""%string then ""
  else if HasPrefix message "observation_unavailable:" then "observation_unavailable"
  else if (256 <? len message) || ContainsAny message (String "/" (String backslash "")) || Contains message "://" then "command failed"
  else message.

Definition fenceKey (target resource : string) : string :=
  (Sprint (len target) +:+ ":" +:+ target +:+ Sprint (len resource) +:+ ":" +:+ resource)%string.

(** For a checkpoint command: no tier is expected of it. *)
Definition pendingManifestFor (c : CommandPayload) (normalized : gmap string dyn) (target model fingerprint : string) (token : Z)
  : option pendingOperationManifest :=
  let field key := text (default DNil (normalized !! key)) in
  let targetKind := if field "target_kind"%string !=? ""%string then field "target_kind"%string
                    else if model !=? ""%string then "llamacpp"%string else "resource"%string in
  _ ← args_json (Some normalized);
  Some (mkManifest 1 (cp_Command c) (cp_NodeID c) (cp_ID c) (cp_IdempotencyKey c) fingerprint targetKind target model
    (field "runtime_identity"%string) (field "capability_version"%string) (field "capability_revision"%string) (field "expected_tier"%string)
    token normalized).

(** The branch of checkpoint mutations. *)
Definition commandIntent (cfg : Config) (c : CommandPayload) : string + pendingCommand :=
  match routerTarget cfg (argText c "target_id") with
  | None => inl "checkpoint target is not allowlisted"%string
  | Some server =>
      match positiveToken (arg c "fencing_token") with
      | None => inl "checkpoint fencing_token must be positive"%string
      | Some token =>
          let slot := if argPresent c "slot_id" then sprint_any (arg c "slot_id") else "-1"%string in
          let resource := ("checkpoint:" +:+ slot)%string in
          let target := canonicalTarget cfg server in
          let normalized := <["resource"%string := DString resource]> (<["target_id"%string := DString target]> (default ∅ (cp_Args c))) in
          let fingerprint := commandFingerprint (c <| cp_Args := Some normalized |>) in
          match pendingManifestFor c normalized target resource fingerprint token with
          | None => inl "checkpoint intent manifest could not be encoded"%string
          | Some manifest =>
              inr (mkPendingCommand target resource (cp_Command c) token (cp_ID c) (cp_IdempotencyKey c) fingerprint
                     (argText c "runtime_identity") (Some manifest))
          end
      end
  end.

Definition manifestArgs : list string :=
  ["target_kind"; "target_id"; "model"; "runtime_identity"; "capability_version"; "capability_revision"; "expected_tier"; "fencing_token";
   "expected_fence"; "observed_after_fence"; "model_path"; "path"; "active_references"; "protected"; "resource"; "profile_id";
   "accelerator_id"; "original_command_id"; "original_idempotency_key"]%string.

(** Its checks of a checkpoint intent up to the one of the arguments' names. *)
Definition validatePendingManifest (cfg : Config) (intent : pendingCommand) : option string :=
  match pe_Manifest intent with
  | None => Some "pending transition manifest is invalid"%string
  | Some m =>
      if negb (mf_SchemaVersion m =? 1) || (mf_NodeID m !=? cfg_NodeID cfg)
      then Some "pending transition manifest schema or node binding is invalid"%string
      else if (mf_Action m !=? pe_Command intent) || (mf_CommandID m !=? pe_CommandID intent)
              || (mf_IdempotencyKey m !=? pe_IdempotencyKey intent) || (mf_Fingerprint m !=? pe_Fingerprint intent)
      then Some "pending transition manifest operation binding drifted"%string
      else if (mf_TargetID m !=? pe_TargetID intent) || (mf_Model m !=? pe_Model intent) || negb (mf_FencingToken m =? pe_Token intent)
      then Some "pending transition manifest identity or fence drifted"%string
      else if (pe_RuntimeIdentity intent !=? ""%string) && (mf_RuntimeIdentity m !=? pe_RuntimeIdentity intent)
      then Some "pending transition manifest runtime identity binding drifted"%string
      else if (mf_TargetKind m ==? ""%string) || (mf_ExpectedTier m !=? ""%string)
      then Some "pending transition manifest target kind or tier is invalid"%string
      else if existsb (fun kv => negb (bool_decide (kv.1 ∈ manifestArgs))) (map_to_list (mf_Args m))
      then Some "pending transition manifest arguments contain an unknown field"%string
      else None
  end.

(** ** The three parts of handling an accepted command *)

(** After the write-ahead save. *)
Record begun := mkBegun {
  bg_node : nodeState;
  bg_intent : option pendingCommand;   (* [hasIntent] *)
  bg_fenceKey : string;                (* [intentFenceKey] *)
  bg_previousFence : option Z;
  bg_error : string;
}.

Definition beginCommand (cfg : Config) (n : nodeState) (c : CommandPayload) (outcome : saving) : begun :=
  if isReadOnlyCheckpointCommand (cp_Command c) then mkBegun n None "" None ""
  else
    let p := beginExternalWork (nd_proc n) in
    let n := mkNodeState p (nd_disk n) in
    match commandIntent cfg c with
    | inl e => mkBegun n (Some zeroPending) "" None e
    | inr intent =>
        let key := fenceKey (pe_TargetID intent) (pe_Model intent) in
        if bool_decide (key ∈ np_inflight p) then mkBegun n (Some intent) "" None "model transition is already in progress"
        else
          let p' := p <| np_inflight := {[ key ]} ∪ np_inflight p |> <| np_fences := <[key := pe_Token intent]> (np_fences p) |>
                      <| np_pending := <[cp_ID c := intent]> (np_pending p) |> in
          let '(n, ok) := save outcome (mkNodeState p' (nd_disk n)) in
          if ok then mkBegun n (Some intent) key (np_fences p !! key) ""
          else mkBegun (mkNodeState (block blockReasonDurability (nd_proc n)) (nd_disk n)) (Some intent) key (np_fences p !! key)
                 "command state requires reconciliation"
    end.

(** What the part between the two saves did: [ex_error] is already shortened. *)
Definition runCommand {R : GoRange} (cfg : Config) (rt : runtime) (b : begun) (c : CommandPayload) (now : Time) : execution :=
  let p := nd_proc (bg_node b) in
  if bg_error b !=? ""%string then refused p (bg_error b)
  else if cp_ExpiresAt c <? now then
    let key := bg_fenceKey b in
    refused (if bool_decide (is_Some (bg_intent b)) && (key !=? ""%string)
             then p <| np_fences := match bg_previousFence b with Some f => <[key := f]> (np_fences p) | None => delete key (np_fences p) end |>
             else p)
      "command expired before external mutation"
  else
    let x := executeCheckpoint cfg rt p c in
    mkExecution (ex_proc x) (ex_sideEffect x) (ex_calls x) (ex_result x) (sanitizeCommandError (ex_error x)).

(** The two records of a result and the fingerprint of its command. *)
Definition record (cfg : Config) (c : CommandPayload) (r : CommandResultPayload) (p : commandProcessor) : commandProcessor :=
  let fingerprint := semanticFingerprint cfg c in
  p <| np_results := <[keyed c := r]> (<[cp_ID c := r]> (np_results p)) |>
    <| np_commandFingerprints := <[cp_IdempotencyKey c := fingerprint]> (<[identified c := fingerprint]> (np_commandFingerprints p)) |>.

(** The intent is settled, or kept for an error after the runtime was reached. *)
Definition settleIntent (b : begun) (c : CommandPayload) (retain : bool) (p : commandProcessor) : commandProcessor :=
  if retain then block blockReasonWarmTransient p
  else
    let p := p <| np_pending := delete (cp_ID c) (np_pending p) |> in
    match bg_intent b with
    | None => p
    | Some intent =>
        let key := if bg_fenceKey b ==? ""%string then fenceKey (pe_TargetID intent) (pe_Model intent) else bg_fenceKey b in
        let p := p <| np_inflight := np_inflight p ∖ {[ key ]} |> in
        if (np_stateBlockReason p ==? blockReasonWarmTransient) && (np_pending p ==? ∅)
        then p <| np_stateBlocked := false |> <| np_stateBlockReason := ""%string |> else p
    end.

(** The last save failed: the intent is put back. *)
Definition restoreIntent (b : begun) (c : CommandPayload) (p : commandProcessor) : commandProcessor :=
  let p := block blockReasonDurability p in
  match bg_intent b with
  | None => p
  | Some intent =>
      let key := if bg_fenceKey b ==? ""%string then fenceKey (pe_TargetID intent) (pe_Model intent) else bg_fenceKey b in
      p <| np_pending := <[cp_ID c := intent]> (np_pending p) |> <| np_inflight := {[ key ]} ∪ np_inflight p |> <| np_stateBlocked := true |>
  end.

Definition finishCommand (cfg : Config) (b : begun) (x : execution) (c : CommandPayload) (outcome : saving) (now : Time)
  : nodeState * CommandResultPayload :=
  let retain := bool_decide (is_Some (bg_intent b)) && (ex_error x !=? ""%string) && ex_sideEffect x in
  let r := mkCommandResultPayload (cp_ID c) (cfg_NodeID cfg) "" (ex_error x ==? ""%string) retain (ex_result x) (ex_error x) now in
  let p := record cfg c r (settleIntent b c retain (ex_proc x)) in
  let '(n, ok) := save outcome (mkNodeState p (nd_disk (bg_node b))) in
  let '(p, r) :=
    if ok then (nd_proc n, r)
    else
      let r := r <| cr_OK := false |> <| cr_Error := "command state requires reconciliation"%string |> in
      let p := restoreIntent b c (nd_proc n) in
      (p <| np_results := <[keyed c := r]> (<[cp_ID c := r]> (np_results p)) |>, r) in
  let p := refreshReady p in
  (mkNodeState (if isReadOnlyCheckpointCommand (cp_Command c) then p else endExternalWork p) (nd_disk n), r).

(** The reply, the calls that reached the driver, and the processor after. *)
Record handling := mkHandling {
  hd_node : nodeState;
  hd_reply : CommandResultPayload;
  hd_calls : list driverCall;
}.

(** What the environment decides while a command is handled. *)
Record circumstances := mkCircumstances {
  ci_clock : clock;
  ci_runtime : runtime;
  ci_intentSave : saving;
  ci_resultSave : saving;
}.

Definition acceptedRun {R : GoRange} (cfg : Config) (e : circumstances) (n : nodeState) (c : CommandPayload) : begun * execution :=
  let b := beginCommand cfg n c (ci_intentSave e) in
  (b, runCommand cfg (ci_runtime e) b c (ck_run (ci_clock e))).

(** [Handle] for a command whose name starts with [checkpoint_]. *)
Definition Handle {R : GoRange} (cfg : Config) (e : circumstances) (n : nodeState) (c : CommandPayload) : handling :=
  let refusal error := mkCommandResultPayload (cp_ID c) (cfg_NodeID cfg) "" false false None error (ck_done (ci_clock e)) in
  match admission_of cfg (nd_proc n) c (ci_clock e) with
  | Refuse error => mkHandling n (refusal error) []
  | Replay r => mkHandling n r []
  | Accept =>
      let c := normalizeCommandTarget cfg c in
      let '(b, x) := acceptedRun cfg e n c in
      let '(n, r) := finishCommand cfg b x c (ci_resultSave e) (ck_done (ci_clock e)) in
      mkHandling n r (ex_calls x)
  end.
