(* ===== verification/NodeInv.v ===== *)
(** * Runs of a node's command processor

    Steps of a node: a checkpoint command is handled, the process dies while
    one is handled, it starts again, or something else uses the same state.
    The lemmas say what each part of [Handle] does to the records, the
    intents and the journal of phases. *)

From S2P Require Import Prelude GoText SHA256 GoTime Domain GoJSON GoFloat GoDyn Wire NodeAgent.

(** ** Steps *)

(** A mutation that reached the driver, with the file at that time. *)
Record reached := mkReached {
  re_command : CommandPayload;
  re_calls : list driverCall;
  re_disk : commandStatePayload;
}.

Definition mutates (c : CommandPayload) : bool := negb (isReadOnlyCheckpointCommand (cp_Command c)).

Lemma insert_both_twice {A} (m : gmap string A) (a b : string) (x y : A) :
  <[a := x]> (<[b := x]> (<[a := y]> (<[b := y]> m))) = <[a := x]> (<[b := x]> m).
Proof. apply map_eq. intros i. destruct (decide (i = a)), (decide (i = b)); by simplify_map_eq. Qed.

Section Node.
Context {R : GoRange} (cfg : Config).

(** The entry a command adds when the first [k] of its calls are made. *)
Definition entry_of (k : nat) (e : circumstances) (n : nodeState) (c : CommandPayload) : list reached :=
  match admission_of cfg (nd_proc n) c (ci_clock e) with
  | Accept =>
      let c := normalizeCommandTarget cfg c in
      let '(b, x) := acceptedRun cfg e n c in
      let calls := take k (ex_calls x) in
      if mutates c && bool_decide (calls <> []) then [mkReached c calls (nd_disk (bg_node b))] else []
  | _ => []
  end.

(** The file when the process dies while a command runs. *)
Definition interrupted (e : circumstances) (n : nodeState) (c : CommandPayload) : commandStatePayload :=
  match admission_of cfg (nd_proc n) c (ci_clock e) with
  | Accept => nd_disk (bg_node (beginCommand cfg n (normalizeCommandTarget cfg c) (ci_intentSave e)))
  | _ => nd_disk n
  end.

(** A result with a slot is of an operation with a journaled phase. *)
Definition slot_journaled (phases : gmap string checkpointPhaseState) (r : CommandResultPayload) : Prop :=
  forall m, cr_Result r = Some m -> is_Some (m !! "slot_id"%string) ->
  exists state, phases !! text (default DNil (m !! "checkpoint_operation_id"%string)) = Some state.

(** Other commands, reconciliation and heartbeats: they forget no record,
    leave intents of checkpoint commands and the journal of phases alone, and
    report no slot of their own. *)
Record elsewhere (p p' : commandProcessor) : Prop := mkElsewhere {
  el_results : dom (np_results p) ⊆ dom (np_results p');
  el_pending : forall id pe, isCheckpointCommand (pe_Command pe) = true -> np_pending p !! id = Some pe -> np_pending p' !! id = Some pe;
  el_phases : np_checkpointPhases p' = np_checkpointPhases p;
  el_slots : np_checkpointSlots p' = np_checkpointSlots p;
  el_slot_results : forall k r, np_results p' !! k = Some r -> np_results p !! k = Some r \/ slot_journaled (np_checkpointPhases p) r;
}.

(** [wire] are the commands that reach the node. *)
Inductive node_step (wire : CommandPayload -> Prop) : nodeState * list reached -> nodeState * list reached -> Prop :=
  | step_handle e n c log :
      wire c -> node_step wire (n, log) (hd_node (Handle cfg e n c), entry_of (length (hd_calls (Handle cfg e n c))) e n c ++ log)
  | step_crash k e n c log found at_ :
      wire c ->
      node_step wire (n, log) (mkNodeState (restart found at_ (interrupted e n c)) (interrupted e n c), entry_of k e n c ++ log)
  | step_restart n log found at_ : node_step wire (n, log) (mkNodeState (restart found at_ (nd_disk n)) (nd_disk n), log)
  | step_elsewhere n log p disk :
      elsewhere (nd_proc n) p -> disk = nd_disk n \/ disk = payload_of p ->
      node_step wire (n, log) (mkNodeState p disk, log).

Definition first_boot : nodeState :=
  let p := mkProcessor ∅ ∅ ∅ ∅ ∅ ∅ ∅ false "" "" 0 false 0 true in mkNodeState p (payload_of p).

Definition node_run (wire : CommandPayload -> Prop) (n : nodeState) (log : list reached) : Prop :=
  rtc (node_step wire) (first_boot, []) (n, log).

(** A mutation's ID is not the ID of a query as well. *)
Definition identities (wire : CommandPayload -> Prop) : Prop :=
  forall c c', wire c -> wire c' -> cp_ID c = cp_ID c' -> mutates c = mutates c'.

(** ** What the parts of [Handle] leave alone *)

Lemma normalize_id c : cp_ID (normalizeCommandTarget cfg c) = cp_ID c.
Proof. unfold normalizeCommandTarget. by case_match. Qed.
Lemma normalize_key c : cp_IdempotencyKey (normalizeCommandTarget cfg c) = cp_IdempotencyKey c.
Proof. unfold normalizeCommandTarget. by case_match. Qed.
Lemma normalize_command c : cp_Command (normalizeCommandTarget cfg c) = cp_Command c.
Proof. unfold normalizeCommandTarget. by case_match. Qed.
Lemma normalize_keyed c : keyed (normalizeCommandTarget cfg c) = keyed c.
Proof. unfold keyed. by rewrite normalize_key. Qed.
Lemma normalize_mutates c : mutates (normalizeCommandTarget cfg c) = mutates c.
Proof. unfold mutates. by rewrite normalize_command. Qed.

Lemma block_results reason p : np_results (block reason p) = np_results p.
Proof. unfold block. by case_match. Qed.
Lemma block_pending reason p : np_pending (block reason p) = np_pending p.
Proof. unfold block. by case_match. Qed.
Lemma block_phases reason p : np_checkpointPhases (block reason p) = np_checkpointPhases p.
Proof. unfold block. by case_match. Qed.
Lemma block_slots reason p : np_checkpointSlots (block reason p) = np_checkpointSlots p.
Proof. unfold block. by case_match. Qed.

(** What executing a command leaves alone; the journal of phases is not in it. *)
Record same_records (p p' : commandProcessor) : Prop := mkSameRecords {
  sr_results : np_results p' = np_results p;
  sr_pending : np_pending p' = np_pending p;
  sr_fingerprints : np_commandFingerprints p' = np_commandFingerprints p;
  sr_initError : np_initError p' = np_initError p;
  sr_blocked : np_stateBlocked p' = np_stateBlocked p;
}.

Lemma settlePhase_records rt p c action state sideEffect calls result :
  same_records p (ex_proc (settlePhase cfg rt p c action state sideEffect calls result)).
Proof.
  unfold settlePhase. destruct (_ || (action ==? "rollback_resume"%string)); case_match; simpl; by split.
Qed.

Lemma executeCheckpoint_records rt p c : same_records p (ex_proc (executeCheckpoint cfg rt p c)).
Proof.
  unfold executeCheckpoint. repeat case_match; try by split.
  - unfold replayPhase. by repeat case_match.
  - apply settlePhase_records.
Qed.

Lemma runCommand_records rt b c now : same_records (nd_proc (bg_node b)) (ex_proc (runCommand cfg rt b c now)).
Proof.
  unfold runCommand. case_match; [by split|]. case_match; [simpl; case_match; by split|]. apply executeCheckpoint_records.
Qed.

(** ** Admission *)

Lemma gates_accept p c now :
  gates cfg p c now = Accept ->
  np_results p !! cp_ID c = None /\ np_results p !! keyed c = None
  /\ (mutates c = true -> np_initError p = false /\ np_stateBlocked p = false /\ np_pending p = ∅).
Proof.
  unfold gates, mutates, residencyCacheRecordPresent, unsettled.
  destruct (_ <? _); [done|].
  set (query := isReadOnlyCheckpointCommand _).
  set (absolute := np_initError p || _).
  destruct (absolute && negb query); [done|].
  destruct (negb absolute && cachedMutationReplay cfg p c) eqn:Hreplay.
  { apply andb_true_iff in Hreplay as [_ Hreplay]. unfold cachedMutationReplay in Hreplay.
    destruct (np_results p !! cp_ID c) as [r|]; [|by destruct (isReadOnlyCheckpointCommand _)].
    rewrite !andb_false_r, orb_false_r. by repeat case_match. }
  rewrite !andb_true_r.
  destruct (bool_decide _ || _) eqn:Hpresent; [done|].
  apply orb_false_iff in Hpresent as [Hid%bool_decide_eq_false Hkey%bool_decide_eq_false].
  apply eq_None_not_Some in Hid, Hkey. intros Hgate. split_and!; [done..|].
  intros Hmutates. rewrite Hmutates, !andb_true_r in Hgate.
  destruct (np_initError p || _) eqn:Hblocked in Hgate; [done|].
  apply orb_false_iff in Hblocked as [? [? Hp]%orb_false_iff]. split_and!; [done..|].
  by apply negb_bool_decide_false in Hp.
Qed.

Lemma admission_accept p c ck :
  admission_of cfg p c ck = Accept ->
  np_results p !! cp_ID c = None /\ np_results p !! keyed c = None
  /\ (mutates c = true -> np_initError p = false /\ np_stateBlocked p = false /\ np_pending p = ∅).
Proof.
  unfold admission_of. do 2 (case_match; [done|]). intros Hg%gates_accept.
  by rewrite normalize_id, normalize_keyed, normalize_mutates in Hg.
Qed.

(** ** The two saves *)

Lemma beginCommand_query n c outcome : mutates c = false -> beginCommand cfg n c outcome = mkBegun n None "" None "".
Proof. unfold mutates, beginCommand. intros ->%negb_false_iff. done. Qed.

Lemma beginCommand_frame n c outcome :
  let b := beginCommand cfg n c outcome in
  np_results (nd_proc (bg_node b)) = np_results (nd_proc n)
  /\ np_checkpointPhases (nd_proc (bg_node b)) = np_checkpointPhases (nd_proc n)
  /\ np_checkpointSlots (nd_proc (bg_node b)) = np_checkpointSlots (nd_proc n)
  /\ (nd_disk (bg_node b) = nd_disk n
      \/ sp_Results (nd_disk (bg_node b)) = np_results (nd_proc n)
         /\ sp_CheckpointPhases (nd_disk (bg_node b)) = np_checkpointPhases (nd_proc n)).
Proof.
  unfold beginCommand. case_match; [by split_and!; auto|]. case_match; [by split_and!; auto|]. simpl. case_match; [by split_and!; auto|].
  destruct outcome; simpl; rewrite ?block_results, ?block_phases, ?block_slots; by split_and!; auto.
Qed.

Lemma commandIntent_error c e : commandIntent cfg c = inl e -> e <> ""%string.
Proof. unfold commandIntent. intros Hi. repeat case_match; by simplify_eq. Qed.

(** Without an error the intent is on disk. *)
Lemma beginCommand_intent n c outcome :
  let b := beginCommand cfg n c outcome in
  mutates c = true -> bg_error b = ""%string ->
  exists intent, commandIntent cfg c = inr intent /\ bg_intent b = Some intent
    /\ nd_disk (bg_node b) = payload_of (nd_proc (bg_node b)) /\ np_pending (nd_proc (bg_node b)) = <[cp_ID c := intent]> (np_pending (nd_proc n)).
Proof.
  unfold mutates, beginCommand. intros ->%negb_true_iff. destruct (commandIntent cfg c) as [e|intent] eqn:Hi; simpl.
  { intros ->. by apply commandIntent_error in Hi. }
  case_match; [done|]. destruct outcome; simpl; try done. intros _. by exists intent.
Qed.

(** A mutation that makes a call has its intent on disk. *)
Lemma accepted_calls e n c b x :
  acceptedRun cfg e n c = (b, x) -> mutates c = true -> ex_calls x <> [] ->
  exists intent, commandIntent cfg c = inr intent /\ bg_intent b = Some intent
    /\ nd_disk (bg_node b) = payload_of (nd_proc (bg_node b)) /\ np_pending (nd_proc (bg_node b)) = <[cp_ID c := intent]> (np_pending (nd_proc n)).
Proof.
  intros [= <- <-] Hm Hc. apply (beginCommand_intent n c _ Hm).
  unfold runCommand in Hc. case_match eqn:He; [done|]. by apply negb_bool_decide_false in He.
Qed.

Lemma settleIntent_frame b c retain p :
  np_results (settleIntent b c retain p) = np_results p
  /\ np_checkpointPhases (settleIntent b c retain p) = np_checkpointPhases p
  /\ np_checkpointSlots (settleIntent b c retain p) = np_checkpointSlots p
  /\ np_pending (settleIntent b c retain p) = if retain then np_pending p else delete (cp_ID c) (np_pending p).
Proof.
  unfold settleIntent. destruct retain; [by rewrite block_results, block_phases, block_slots, block_pending|].
  destruct (bg_intent b); [|done]. simpl. by case_match.
Qed.

Lemma restoreIntent_frame b c p :
  np_results (restoreIntent b c p) = np_results p
  /\ np_checkpointPhases (restoreIntent b c p) = np_checkpointPhases p
  /\ np_checkpointSlots (restoreIntent b c p) = np_checkpointSlots p
  /\ np_pending (restoreIntent b c p) = match bg_intent b with Some intent => <[cp_ID c := intent]> (np_pending p) | None => np_pending p end.
Proof.
  unfold restoreIntent. destruct (bg_intent b); simpl; by rewrite ?block_results, ?block_phases, ?block_slots, ?block_pending.
Qed.

(** The readiness is published last. *)
Lemma published_frame (query : bool) p :
  let p' := if query then refreshReady p else endExternalWork (refreshReady p) in
  np_results p' = np_results p /\ np_checkpointPhases p' = np_checkpointPhases p
  /\ np_checkpointSlots p' = np_checkpointSlots p /\ np_pending p' = np_pending p.
Proof. destruct query; [done|]. unfold endExternalWork. by case_match. Qed.

(** Both the processor and the file after the last save. *)
Lemma finishCommand_frame b x c outcome now n r :
  finishCommand cfg b x c outcome now = (n, r) ->
  let recorded res := <[keyed c := res]> (<[cp_ID c := res]> (np_results (ex_proc x))) in
  np_results (nd_proc n) = recorded r
  /\ np_checkpointPhases (nd_proc n) = np_checkpointPhases (ex_proc x)
  /\ np_checkpointSlots (nd_proc n) = np_checkpointSlots (ex_proc x)
  /\ (nd_disk n = nd_disk (bg_node b)
      \/ exists r', sp_Results (nd_disk n) = recorded r' /\ cr_Result r' = cr_Result r /\ (outcome = Saved -> r' = r)
         /\ sp_CheckpointPhases (nd_disk n) = np_checkpointPhases (ex_proc x)
         /\ (bg_intent b = None -> sp_Pending (nd_disk n) = delete (cp_ID c) (np_pending (ex_proc x))))
  /\ (bg_intent b = None -> np_pending (nd_proc n) = delete (cp_ID c) (np_pending (ex_proc x)))
  /\ cr_Result r = ex_result x.
Proof.
  unfold finishCommand. set (retain := _ && ex_sideEffect x). set (query := isReadOnlyCheckpointCommand _).
  set (r0 := mkCommandResultPayload _ _ _ _ _ _ _ _).
  assert (bg_intent b = None -> retain = false) as Hretain by (intros Hb; unfold retain; by rewrite Hb).
  destruct (settleIntent_frame b c retain (ex_proc x)) as (Hr & Hph & Hs & Hpe).
  assert (forall p, let p' := if query then refreshReady p else endExternalWork (refreshReady p) in _) as Hq
    by exact (published_frame query).
  destruct outcome; simpl; intros [= <- <-]; simpl; edestruct Hq as (-> & -> & -> & ->); simpl.
  - rewrite Hr, Hph, Hs, Hpe. split_and!; [done..| |by intros ->%Hretain|done].
    right. exists r0. split_and!; try done. by intros ->%Hretain.
  - match goal with |- context [restoreIntent b c ?q] => destruct (restoreIntent_frame b c q) as (Hr' & Hph' & Hs' & Hpe') end.
    rewrite Hr', Hph', Hs', Hpe', block_results, block_phases, block_slots, block_pending; simpl.
    rewrite Hr, Hph, Hs, Hpe, insert_both_twice. split_and!; [done..|by left| |done]. intros Hb. by rewrite Hb, (Hretain Hb).
  - match goal with |- context [restoreIntent b c ?q] => destruct (restoreIntent_frame b c q) as (Hr' & Hph' & Hs' & Hpe') end.
    rewrite Hr', Hph', Hs', Hpe', block_results, block_phases, block_slots, block_pending; simpl.
    rewrite Hr, Hph, Hs, Hpe, insert_both_twice. split_and!; [done..| | |done].
    + right. exists r0. split_and!; try done. by intros ->%Hretain.
    + intros Hb. by rewrite Hb, (Hretain Hb).
Qed.

(** ** One call per command *)

(** A mutation that waits to be settled. *)
Definition held (wire : CommandPayload -> Prop) (pending : gmap string pendingCommand) : Prop :=
  exists c pe, wire c /\ mutates c = true /\ pending !! cp_ID c = Some pe /\ isCheckpointCommand (pe_Command pe) = true.

Definition answered_before (results : gmap string CommandResultPayload) (en : reached) : Prop :=
  is_Some (results !! cp_ID (re_command en)) /\ is_Some (results !! keyed (re_command en)).

Definition covered wire results pending (en : reached) : Prop := answered_before results en \/ held wire pending.

(** The intent was on disk before the driver was called. *)
Definition write_ahead (en : reached) : Prop :=
  exists intent, commandIntent cfg (re_command en) = inr intent /\ sp_Pending (re_disk en) !! cp_ID (re_command en) = Some intent.

Record once (wire : CommandPayload -> Prop) (n : nodeState) (log : list reached) : Prop := mkOnce {
  on_memory : Forall (covered wire (np_results (nd_proc n)) (np_pending (nd_proc n))) log;
  on_disk : Forall (covered wire (sp_Results (nd_disk n)) (sp_Pending (nd_disk n))) log;
  on_ids : NoDup (map (fun en => cp_ID (re_command en)) log);
  on_keys : NoDup (map (fun en => cp_IdempotencyKey (re_command en)) log);
  on_intents : Forall write_ahead log;
}.

Lemma commandIntent_command c intent : commandIntent cfg c = inr intent -> pe_Command intent = cp_Command c.
Proof. unfold commandIntent. intros Hi. repeat case_match; by simplify_eq. Qed.

Lemma admission_prefix p c ck : admission_of cfg p c ck = Accept -> isCheckpointCommand (cp_Command c) = true.
Proof.
  unfold admission_of, ValidateCheckpointCommandArgs, isCheckpointCommand. case_match; [done|].
  rewrite normalize_command. destruct (HasPrefix _ _); [done|]. done.
Qed.

(** What an entry says of the command that made it. *)
Lemma entry_of_inv k e n c en :
  en ∈ entry_of k e n c ->
  exists b x intent, admission_of cfg (nd_proc n) c (ci_clock e) = Accept /\ mutates c = true
    /\ acceptedRun cfg e n (normalizeCommandTarget cfg c) = (b, x) /\ ex_calls x <> []
    /\ re_command en = normalizeCommandTarget cfg c /\ re_disk en = nd_disk (bg_node b)
    /\ commandIntent cfg (re_command en) = inr intent
    /\ nd_disk (bg_node b) = payload_of (nd_proc (bg_node b))
    /\ np_pending (nd_proc (bg_node b)) = <[cp_ID c := intent]> (np_pending (nd_proc n)).
Proof.
  unfold entry_of. destruct (admission_of _ _ _ _) eqn:Ha; try by intros ?%elem_of_nil.
  destruct (acceptedRun cfg e n _) as [b x] eqn:Hx. rewrite normalize_mutates.
  destruct (mutates c) eqn:Hm; simpl; [|by intros ?%elem_of_nil].
  case_bool_decide as Hc; [|by intros ?%elem_of_nil]. intros ->%list_elem_of_singleton.
  assert (ex_calls x <> []) as Hcalls by (intros E; by rewrite E, take_nil in Hc).
  rewrite <- normalize_mutates in Hm. destruct (accepted_calls _ _ _ _ _ Hx Hm Hcalls) as (intent & Hi & _ & Hd & Hp).
  rewrite normalize_mutates in Hm. rewrite normalize_id in Hp. by exists b, x, intent.
Qed.

Lemma entry_of_length k e n c : (length (entry_of k e n c) <= 1)%nat.
Proof. unfold entry_of. repeat case_match; simpl; lia. Qed.

Lemma keyed_inj c c' : keyed c = keyed c' -> cp_IdempotencyKey c = cp_IdempotencyKey c'.
Proof. unfold keyed. by intros [= ?]. Qed.

Lemma covered_grow wire results results' pending pending' log :
  dom results ⊆ dom results' -> (held wire pending -> held wire pending') ->
  Forall (covered wire results pending) log -> Forall (covered wire results' pending') log.
Proof.
  intros Hr Hh Hl. eapply Forall_impl; [exact Hl|]. intros en [[H1 H2]|Hheld]; [left|right; by apply Hh].
  unfold answered_before. rewrite <- !elem_of_dom in *. set_solver.
Qed.

Lemma not_held wire : ~ held wire ∅.
Proof. intros (c & pe & _ & _ & Hp & _). by rewrite lookup_empty in Hp. Qed.

(** When a mutation is accepted every earlier one was answered. *)
Lemma once_answered wire n log c ck :
  once wire n log -> admission_of cfg (nd_proc n) c ck = Accept -> mutates c = true ->
  Forall (answered_before (np_results (nd_proc n))) log.
Proof.
  intros [Hmem _ _ _ _] (_ & _ & Hq)%admission_accept Hm. destruct (Hq Hm) as (_ & _ & Hp). rewrite Hp in Hmem.
  eapply Forall_impl; [exact Hmem|]. intros en [?|Hh]; [done|]. by apply not_held in Hh.
Qed.

Lemma answered_covered wire results results' pending log :
  Forall (answered_before results) log -> dom results ⊆ dom results' -> Forall (covered wire results' pending) log.
Proof.
  intros Hl Hr. eapply Forall_impl; [exact Hl|]. intros en [H1 H2]. left.
  unfold answered_before. rewrite <- !elem_of_dom in *. set_solver.
Qed.

(** The log with a new entry has no ID and no key twice. *)
Lemma entry_fresh wire n log k e c :
  once wire n log ->
  NoDup (map (fun en => cp_ID (re_command en)) (entry_of k e n c ++ log))
  /\ NoDup (map (fun en => cp_IdempotencyKey (re_command en)) (entry_of k e n c ++ log))
  /\ Forall write_ahead (entry_of k e n c ++ log).
Proof.
  intros Honce. pose proof Honce as [_ _ Hids Hkeys Hint].
  pose proof (entry_of_length k e n c) as Hlen. pose proof (entry_of_inv k e n c) as Hinv.
  destruct (entry_of k e n c) as [|en [|]]; [done| |simpl in Hlen; lia].
  destruct (Hinv en) as (b & x & intent & Ha & Hm & _ & _ & Hc & Hdisk & Hi & Hd & Hp); [by left|].
  pose proof (once_answered _ _ _ _ _ Honce Ha Hm) as Hans. rewrite Forall_forall in Hans.
  destruct (admission_accept _ _ _ Ha) as (Hid & Hkey & _). simpl. split_and!.
  - apply NoDup_cons. split; [|done]. intros (en' & E & He')%list_elem_of_fmap.
    destruct (Hans _ He') as [[r Hr] _]. rewrite Hc, normalize_id in E. rewrite <- E in Hr. congruence.
  - apply NoDup_cons. split; [|done]. intros (en' & E & He')%list_elem_of_fmap.
    destruct (Hans _ He') as [_ [r Hr]]. rewrite Hc, normalize_key in E. unfold keyed in Hr, Hkey. rewrite <- E in Hr. congruence.
  - constructor; [|done]. exists intent. split; [done|]. rewrite Hdisk, Hd, Hc, normalize_id. simpl. rewrite Hp. apply lookup_insert_eq.
Qed.

(** The file once the intent was to be saved covers all that ran, and the
    command itself if it makes a call. *)
Lemma begun_covered wire n log k e c :
  once wire n log -> wire c -> admission_of cfg (nd_proc n) c (ci_clock e) = Accept ->
  let d := nd_disk (bg_node (beginCommand cfg n (normalizeCommandTarget cfg c) (ci_intentSave e))) in
  Forall (covered wire (sp_Results d) (sp_Pending d)) (entry_of k e n c ++ log).
Proof.
  intros Honce Hw Ha d. apply Forall_app. split.
  - apply Forall_forall. intros en (b & x & intent & _ & Hm & [= <- <-] & _ & Hc & _ & Hi & Hd & Hp)%entry_of_inv.
    right. exists c, intent. split_and!; [done..| |].
    + unfold d. rewrite Hd. simpl. rewrite Hp. apply lookup_insert_eq.
    + rewrite (commandIntent_command _ _ Hi), Hc, normalize_command. by eapply admission_prefix.
  - destruct (beginCommand_frame n (normalizeCommandTarget cfg c) (ci_intentSave e)) as (_ & _ & _ & Hd).
    fold d in Hd. destruct (mutates c) eqn:Hm.
    + destruct Hd as [->|[Hr _]]; [by destruct Honce|].
      eapply answered_covered; [by eapply once_answered|]. by rewrite Hr.
    + unfold d. rewrite beginCommand_query by by rewrite normalize_mutates. by destruct Honce.
Qed.

(** A query takes no other command's intent away. *)
Lemma held_delete wire pending c :
  identities wire -> wire c -> mutates c = false -> held wire pending -> held wire (delete (cp_ID c) pending).
Proof.
  intros Hid Hw Hm (c' & pe & Hw' & Hm' & Hp & Hc). exists c', pe. split_and!; [done..| |done].
  rewrite lookup_delete_ne; [done|]. intros E. rewrite (Hid c c') in Hm by done. congruence.
Qed.

Lemma dom_both {A} (m : gmap string A) a b x : dom m ⊆ dom (<[a := x]> (<[b := x]> m)).
Proof. rewrite !dom_insert. set_solver. Qed.

(** An accepted command, from the processor it found to the one it leaves. *)
Record handled (e : circumstances) (n : nodeState) (c : CommandPayload) (b : begun) (x : execution) : Prop := mkHandled {
  ha_begun : b = beginCommand cfg n c (ci_intentSave e);
  ha_ran : x = runCommand cfg (ci_runtime e) b c (ck_run (ci_clock e));
}.

Lemma Handle_accepted e n c :
  admission_of cfg (nd_proc n) c (ci_clock e) = Accept ->
  let h := Handle cfg e n c in let n' := hd_node h in
  let recorded r := <[keyed c := r]> (<[cp_ID c := r]> (np_results (nd_proc n))) in
  exists b x, handled e n (normalizeCommandTarget cfg c) b x
  /\ hd_calls h = ex_calls x /\ cr_Result (hd_reply h) = ex_result x
  /\ np_results (nd_proc n') = recorded (hd_reply h)
  /\ np_checkpointPhases (nd_proc n') = np_checkpointPhases (ex_proc x)
  /\ np_checkpointSlots (nd_proc n') = np_checkpointSlots (ex_proc x)
  /\ (mutates c = false -> np_pending (nd_proc n') = delete (cp_ID c) (np_pending (nd_proc n)))
  /\ (nd_disk n' = nd_disk (bg_node b)
      \/ exists r, sp_Results (nd_disk n') = recorded r /\ cr_Result r = ex_result x /\ (ci_resultSave e = Saved -> r = hd_reply h)
         /\ sp_CheckpointPhases (nd_disk n') = np_checkpointPhases (ex_proc x)
         /\ (mutates c = false -> sp_Pending (nd_disk n') = delete (cp_ID c) (np_pending (nd_proc n)))).
Proof.
  intros Ha. unfold Handle. rewrite Ha. set (c' := normalizeCommandTarget cfg c).
  destruct (acceptedRun cfg e n c') as [b x] eqn:Hx. unfold acceptedRun in Hx. injection Hx as Hb Hx. rewrite Hb in Hx.
  destruct (finishCommand cfg b x c' _ _) as [n' r] eqn:Hf. simpl.
  destruct (finishCommand_frame _ _ _ _ _ _ _ Hf) as (Hr & Hph & Hs & Hd & Hp & Hres).
  destruct (runCommand_records (ci_runtime e) b c' (ck_run (ci_clock e))) as [Hxr Hxp _ _ _]. rewrite Hx in Hxr, Hxp.
  destruct (beginCommand_frame n c' (ci_intentSave e)) as (Hbr & _). rewrite Hb in Hbr. rewrite Hbr in Hxr.
  unfold c' in Hr, Hd, Hp. rewrite normalize_id, normalize_keyed in Hr, Hd. rewrite normalize_id in Hp. rewrite Hxr in Hr, Hd.
  assert (mutates c = false -> bg_intent b = None /\ np_pending (ex_proc x) = np_pending (nd_proc n)) as Hquery.
  { intros Hm. rewrite Hxp, <- Hb, beginCommand_query; [done|]. unfold c'. by rewrite normalize_mutates. }
  exists b, x. split_and!; try done.
  - intros Hm. destruct (Hquery Hm) as [Hi <-]. by apply Hp.
  - destruct Hd as [?|(r' & ? & ? & ? & ? & Hdp)]; [by left|right]. exists r'. split_and!; [done|congruence|done..|].
    intros Hm. destruct (Hquery Hm) as [Hi <-]. by apply Hdp.
Qed.

Lemma once_handle wire e n c log :
  identities wire -> wire c -> once wire n log ->
  once wire (hd_node (Handle cfg e n c)) (entry_of (length (hd_calls (Handle cfg e n c))) e n c ++ log).
Proof.
  intros Hident Hw Honce. generalize (length (hd_calls (Handle cfg e n c))). intros k.
  destruct (entry_fresh _ _ _ k e c Honce) as (Hids & Hkeys & Hints).
  destruct (admission_of cfg (nd_proc n) c (ci_clock e)) eqn:Ha;
    [by unfold entry_of, Handle in *; rewrite Ha in *; destruct Honce..|].
  pose proof (begun_covered _ _ _ k e c Honce Hw Ha) as Hbegun.
  destruct (Handle_accepted e n c Ha) as (b & x & [Hb _] & _ & _ & Hr & _ & _ & Hp & Hd). cbv zeta in *. rewrite <- Hb in Hbegun.
  assert (forall res pending, Forall (covered wire (<[keyed c := res]> (<[cp_ID c := res]> (np_results (nd_proc n)))) pending) (entry_of k e n c))
    as Hnew.
  { intros res pending. apply Forall_forall. intros en (? & ? & ? & _ & _ & _ & _ & Hc & _)%entry_of_inv. left.
    unfold answered_before. rewrite Hc, normalize_id, normalize_keyed, <- !elem_of_dom, !dom_insert. set_solver. }
  assert (forall res pending, (mutates c = false -> pending = delete (cp_ID c) (np_pending (nd_proc n))) ->
    Forall (covered wire (<[keyed c := res]> (<[cp_ID c := res]> (np_results (nd_proc n)))) pending) log) as Hold.
  { intros res pending Hq. destruct (mutates c) eqn:Hm.
    - eapply answered_covered; [by eapply once_answered|apply dom_both].
    - eapply covered_grow; [apply dom_both| |by destruct Honce]. rewrite Hq by done. by apply held_delete. }
  split; [..|done|done|done].
  - rewrite Hr. apply Forall_app. auto.
  - destruct Hd as [->|(r & -> & _ & _ & _ & Hdp)]; [done|]. apply Forall_app. auto.
Qed.

Lemma restart_frame found at_ d :
  let p := restart found at_ d in
  np_results p = rereadResult <$> sp_Results d /\ np_pending p = sp_Pending d /\ np_checkpointPhases p = sp_CheckpointPhases d.
Proof.
  unfold restart. set (p0 := mkProcessor _ _ _ _ _ _ _ _ _ _ _ _ _ _). generalize (found ++ [sp_BlockReason d]). intros reasons.
  assert (forall p, let p' := foldl (fun p reason => block reason p) p reasons in
    np_results p' = np_results p /\ np_pending p' = np_pending p /\ np_checkpointPhases p' = np_checkpointPhases p) as Hblocks.
  { induction reasons as [|reason reasons IH]; intros p; [done|]. simpl. destruct (IH (block reason p)) as (-> & -> & ->).
    by rewrite block_results, block_pending, block_phases. }
  destruct (Hblocks p0) as (Hr & Hp & Hph). unfold rebuildCheckpointSlotOwners. simpl.
  case_match; rewrite ?block_results, ?block_pending, ?block_phases; by rewrite Hr, Hp, Hph.
Qed.

Lemma once_restart wire d found at_ log :
  Forall (covered wire (sp_Results d) (sp_Pending d)) log ->
  NoDup (map (fun en => cp_ID (re_command en)) log) -> NoDup (map (fun en => cp_IdempotencyKey (re_command en)) log) ->
  Forall write_ahead log -> once wire (mkNodeState (restart found at_ d) d) log.
Proof.
  intros Hd ? ? ?. split; try done. cbn [nd_proc]. destruct (restart_frame found at_ d) as (Hr & Hp & _). rewrite Hr, Hp.
  eapply covered_grow; [|done|exact Hd]. by rewrite dom_fmap.
Qed.

Lemma once_elsewhere wire n p log : elsewhere (nd_proc n) p -> once wire n log ->
  Forall (covered wire (np_results p) (np_pending p)) log.
Proof.
  intros [Hr Hp _ _ _] [Hm _ _ _ _]. eapply covered_grow; [exact Hr| |exact Hm].
  intros (c & pe & ? & ? & ? & ?). exists c, pe. split_and!; try done. by apply Hp.
Qed.

Lemma once_step wire s s' : identities wire -> node_step wire s s' -> once wire s.1 s.2 -> once wire s'.1 s'.2.
Proof.
  intros Hid [e n c log Hw|k e n c log found at_ Hw|n log found at_|n log p disk Hel Hdisk] Honce; simpl in *.
  - by apply once_handle.
  - destruct (entry_fresh _ _ _ k e c Honce) as (? & ? & ?). apply once_restart; try done. unfold interrupted.
    destruct (admission_of cfg (nd_proc n) c (ci_clock e)) eqn:Ha; [unfold entry_of in *; rewrite Ha in *; by destruct Honce..|].
    by apply begun_covered.
  - destruct Honce. by apply once_restart.
  - pose proof (once_elsewhere _ _ _ _ Hel Honce). destruct Honce. split; try done. by destruct Hdisk as [->| ->].
Qed.

(** Rule induction over a run. *)
Lemma run_invariant (P : nodeState * list reached -> Prop) wire n log :
  (forall s s', node_step wire s s' -> P s -> P s') -> P (first_boot, []) -> node_run wire n log -> P (n, log).
Proof. intros Hstep H0 Hrun. unfold node_run in Hrun. induction Hrun; eauto. Qed.

Lemma once_run wire n log : identities wire -> node_run wire n log -> once wire n log.
Proof.
  intros Hid. apply (run_invariant (fun s => once wire s.1 s.2)); [|by split; constructor].
  intros s s' Hstep Hs. by eapply once_step.
Qed.
End Node.
