(* ===== verification/NodePhases.v ===== *)
(** * The journal of checkpoint phases on a node

    The stages an operation goes through, as a graph, and the slots that
    operations own.  Every phase a command journals is an edge of the graph
    from the phase journaled before, for the same owner, workload, target,
    accelerator, generation and fence; a slot belongs to an operation that has
    it and has not released it, also after a restart. *)

From S2P Require Import Prelude GoText SHA256 GoTime Domain GoJSON GoFloat GoDyn Wire NodeAgent NodeInv.

(** ** Stages *)

Abbreviation stage := (Z * string)%type (only parsing).
Definition stage_of (s : checkpointPhaseState) : stage := (ph_Phase s, ph_Action s).
Definition unassigned : stage := (0, ""%string).

Definition graph : list (stage * list stage) :=
  [(unassigned, [(1, "slot_assign")]);
   ((1, "slot_assign"), [(2, "start"); (3, "pause"); (5, "stop_confirm"); (6, "release"); (9, "reload"); (11, "rollback_resume")]);
   ((2, "start"), [(3, "pause"); (5, "stop_confirm"); (6, "release"); (11, "rollback_resume")]);
   ((3, "pause"), [(4, "save"); (5, "stop_confirm"); (11, "rollback_resume")]);
   ((4, "save"), [(5, "stop_confirm"); (11, "rollback_resume")]);
   ((5, "stop_confirm"), [(6, "release"); (11, "rollback_resume")]);
   ((6, "release"), [(8, "slot_assign"); (11, "rollback_resume")]);
   ((8, "slot_assign"), [(9, "reload"); (11, "rollback_resume")]);
   ((9, "reload"), [(10, "restore"); (15, "release"); (11, "rollback_resume")]);
   ((10, "restore"), [(11, "resume"); (15, "release"); (11, "rollback_resume")]);
   ((11, "resume"), [(12, "continue"); (15, "release"); (14, "cancel"); (11, "rollback_resume")]);
   ((11, "rollback_resume"), [(12, "continue"); (15, "release"); (14, "cancel")]);
   ((12, "continue"), [(13, "reuse_verify"); (15, "release"); (14, "cancel")]);
   ((13, "reuse_verify"), [(15, "release"); (14, "cancel")]);
   ((14, "cancel"), [(15, "release")]);
   ((15, "release"), [(14, "cancel")])]%string.

Definition edges : list (stage * stage) := flat_map (fun '(s, next) => map (pair s) next) graph.
Definition stages : list stage := map fst graph.

(** What a command may do in a stage: the conditions of
    [authorizeCheckpointPhase] that only depend on it. *)
Definition at_stage (st : stage) : checkpointPhaseState := zeroPhase <| ph_Phase := st.1 |> <| ph_Action := st.2 |>.
Definition legal (st : stage) (action : string) : bool :=
  if action ==? "start"%string then st.1 =? 1
  else if action ==? "continue"%string then st.1 =? 11
  else if action ==? "rollback_resume"%string then (1 <=? st.1) && (st.1 <? 12)
  else if action ==? "cancel"%string then 11 <=? st.1
  else checkpointNodeTransitionAllowed (at_stage st) action (checkpointPhaseFor (at_stage st) action).
Definition repeated (st : stage) (action : string) : bool := bool_decide (st = (checkpointPhaseFor (at_stage st) action, action)).

Definition mutations : list string := filter (fun a => negb (bool_decide (a ∈ ["slot_query"; "state_query"]%string))) checkpointActions.

(** Every edge ends in a stage; only an operation without a slot is assigned
    one. *)
Lemma edges_stages : forallb (fun '(_, t) => bool_decide (t ∈ stages /\ t <> unassigned)) edges = true.
Proof. vm_compute. reflexivity. Qed.
Lemma edges_assign : forallb (fun '(s, t) => implb (bool_decide (t.2 = "slot_assign"%string))
  (bool_decide (s = unassigned) || bool_decide (s.2 = "release"%string))) edges = true.
Proof. vm_compute. reflexivity. Qed.

Lemma edge_stage s t : (s, t) ∈ edges -> t ∈ stages /\ t <> unassigned.
Proof.
  intros He%list_elem_of_In. pose proof edges_stages as H. rewrite forallb_forall in H. specialize (H _ He).
  by apply bool_decide_eq_true in H.
Qed.
Lemma edge_assign s t : (s, t) ∈ edges -> t.2 = "slot_assign"%string -> s = unassigned \/ s.2 = "release"%string.
Proof.
  intros He%list_elem_of_In Ht. pose proof edges_assign as H. rewrite forallb_forall in H. specialize (H _ He). simpl in H.
  rewrite bool_decide_eq_true_2 in H by done. simpl in H. apply orb_true_iff in H as [H|H]; apply bool_decide_eq_true in H; auto.
Qed.

(** No edge is there that no command can take. *)
Lemma edges_legal :
  forallb (fun '(s, t) => legal s t.2 && negb (repeated s t.2) && (checkpointPhaseFor (at_stage s) t.2 =? t.1)) edges = true.
Proof. vm_compute. reflexivity. Qed.

(** ** Authorization *)

Definition identity (s : checkpointPhaseState) : string * string * string * string * Z * Z :=
  (ph_OwnerID s, ph_WorkloadID s, ph_TargetID s, ph_AcceleratorID s, ph_Generation s, ph_Fence s).

Lemma phaseFor_stage s action : checkpointPhaseFor s action = checkpointPhaseFor (at_stage (stage_of s)) action.
Proof. done. Qed.
Lemma allowed_stage s action next : checkpointNodeTransitionAllowed s action next = checkpointNodeTransitionAllowed (at_stage (stage_of s)) action next.
Proof. done. Qed.

Lemma enrich_frame s c :
  let s' := enrichCheckpointPhaseState s c in
  stage_of s' = stage_of s /\ identity s' = identity s /\ ph_OperationID s' = ph_OperationID s /\ ph_SlotID s' = ph_SlotID s.
Proof. done. Qed.

Definition operationOf (c : CommandPayload) : string := argText c "checkpoint_operation_id".

(** A fact of finitely many stages and actions is one evaluation. *)
Lemma forall_stages (f : stage -> string -> bool) :
  forallb (fun st => forallb (f st) mutations) stages = true -> forall st action, st ∈ stages -> action ∈ mutations -> f st action = true.
Proof.
  intros H st action Hst%list_elem_of_In Ha%list_elem_of_In. rewrite forallb_forall in H. specialize (H st Hst).
  rewrite forallb_forall in H. by apply H.
Qed.

Lemma legal_edge st action :
  st ∈ stages -> action ∈ mutations -> legal st action = true -> repeated st action = false ->
  (st, (checkpointPhaseFor (at_stage st) action, action)) ∈ edges.
Proof.
  intros Hst Ha Hl Hr.
  pose (f := fun st action => implb (legal st action && negb (repeated st action))
    (bool_decide ((st, (checkpointPhaseFor (at_stage st) action, action)) ∈ edges))).
  assert (f st action = true) as H by (apply forall_stages; [vm_compute; reflexivity|done..]).
  unfold f in H. rewrite Hl, Hr in H. by apply bool_decide_eq_true in H.
Qed.

Lemma repeated_positive st action :
  st ∈ stages -> action ∈ mutations -> repeated st action = true -> 0 < checkpointPhaseFor (at_stage st) action.
Proof.
  intros Hst Ha Hr.
  pose (f := fun st action => implb (repeated st action) (0 <? checkpointPhaseFor (at_stage st) action)).
  assert (f st action = true) as H by (apply forall_stages; [vm_compute; reflexivity|done..]).
  unfold f in H. rewrite Hr in H. by apply Z.ltb_lt in H.
Qed.

Lemma mutation_commits action : action ∈ mutations -> (0 <? checkpointPhase action) || (action ==? "rollback_resume"%string) = true.
Proof.
  intros Ha. pose (f := fun (_ : stage) action => (0 <? checkpointPhase action) || (action ==? "rollback_resume"%string)).
  change (f unassigned action = true). apply forall_stages; [vm_compute; reflexivity|by left|done].
Qed.

Lemma mutation_or_query action : action ∈ checkpointActions -> action ∈ mutations \/ action = "slot_query"%string \/ action = "state_query"%string.
Proof.
  intros Ha. destruct (decide (action ∈ ["slot_query"; "state_query"]%string)) as [Hq|Hq]; [right; set_solver|left].
  apply list_elem_of_filter. split; [|done]. apply Is_true_true_2. by apply negb_bool_decide_true.
Qed.

Section Journal.
Context {R : GoRange} (cfg : Config).

(** The state a command continues: the journaled one, a new one for an
    operation without a phase, or the one its compensation names. *)
Definition origin (phases : gmap string checkpointPhaseState) (c : CommandPayload) (before : checkpointPhaseState) : Prop :=
  phases !! operationOf c = Some before
  \/ phases !! operationOf c = None /\ (stage_of before = unassigned
     \/ exists k s, phases !! k = Some s /\ ph_OperationID s = argText c "compensation_of" /\ before = s <| ph_OperationID := operationOf c |>).

(** The identity a command gives. *)
Definition claims (c : CommandPayload) (s : checkpointPhaseState) : Prop :=
  ph_OwnerID s = argText c "owner_id" /\ ph_WorkloadID s = argText c "workload_id" /\ ph_TargetID s = argText c "target_id"
  /\ ph_AcceleratorID s = argText c "accelerator_id" /\ positiveToken (arg c "generation") = Some (ph_Generation s)
  /\ positiveToken (arg c "fencing_token") = Some (ph_Fence s).

Lemma commandScope_inv c target s :
  commandScope c target = inr s ->
  sc_operation s = operationOf c /\ sc_operation s <> ""%string /\ sc_owner s = argText c "owner_id" /\ sc_workload s = argText c "workload_id"
  /\ sc_target s = target /\ sc_accelerator s = argText c "accelerator_id"
  /\ positiveToken (arg c "generation") = Some (sc_generation s) /\ positiveToken (arg c "fencing_token") = Some (sc_fence s).
Proof.
  unfold commandScope. destruct (blank _); [done|]. destruct (checkpointArgUint c "generation") eqn:Hg; [done|].
  destruct (positiveToken (arg c "fencing_token")) eqn:Hf; [|done]. simpl. destruct (_ || _) eqn:He; [done|]. intros [= <-]. simpl.
  apply orb_false_iff in He as [[He%bool_decide_eq_false _]%orb_false_iff _].
  unfold checkpointArgUint in Hg. repeat case_match; by simplify_eq.
Qed.

Lemma inScope_claims c s state :
  commandScope c (argText c "target_id") = inr s -> inScope s state = true -> claims c state.
Proof.
  intros (_ & _ & Ho & Hw & Ht & Ha & Hg & Hf)%commandScope_inv Hin. unfold inScope in Hin.
  rewrite !andb_true_iff, !bool_decide_eq_true, !Z.eqb_eq in Hin. destruct Hin as [[[[[? ?] ?] ?] ?] ?].
  unfold claims. split_and!; congruence.
Qed.

Lemma compensated_origin p c before :
  compensated p (operationOf c) (argText c "compensation_of") = Some before ->
  origin (np_checkpointPhases p) c before.
Proof.
  unfold compensated, origin. destruct (np_checkpointPhases p !! operationOf c) as [s|] eqn:Hp.
  - intros [= ->]. by left.
  - case_match; [done|]. destruct (range_find _ _) as [[k s]|] eqn:Hf; [|done]. intros [= <-].
    apply range_find_Some in Hf as [Hk Ho%bool_decide_eq_true]. right. split; [done|]. right. by exists k, s.
Qed.

(** A mutation continues a state it may continue. *)
Definition continues (p : commandProcessor) (c : CommandPayload) (action : string) (state : checkpointPhaseState) : Prop :=
  exists before, origin (np_checkpointPhases p) c before /\ state = enrichCheckpointPhaseState before c
    /\ claims c before /\ legal (stage_of before) action = true
    /\ (np_checkpointPhases p !! operationOf c = None -> ph_OperationID before = operationOf c).

Lemma compensated_operation p c before :
  compensated p (operationOf c) (argText c "compensation_of") = Some before ->
  np_checkpointPhases p !! operationOf c = None -> ph_OperationID before = operationOf c.
Proof. unfold compensated. intros H Hn. rewrite Hn in H. repeat case_match; by simplify_eq. Qed.

Lemma authorizeBound_inv p c s action state :
  commandScope c (argText c "target_id") = inr s -> action = "start"%string \/ action = "continue"%string ->
  authorizeBound p c s action = inr state -> continues p c action state.
Proof.
  intros Hs Haction. unfold authorizeBound. rewrite (proj1 (commandScope_inv _ _ _ Hs)).
  destruct (np_checkpointPhases p !! operationOf c) as [before|] eqn:Hb; [|done].
  destruct (inScope s before) eqn:Hin; [|done]. cbn [negb].
  destruct (_ && negb (ph_Phase before =? 1)) eqn:H1; [done|]. destruct (_ && negb (ph_Phase before =? 11)) eqn:H11; [done|].
  intros [= <-]. exists before. split_and!; [by left|done|by eapply inScope_claims| |congruence].
  destruct Haction as [-> | ->]; cbn in *; by apply negb_false_iff.
Qed.

Lemma authorizeRollback_inv p c s slot state :
  commandScope c (argText c "target_id") = inr s -> authorizeRollback p c s slot = inr state -> continues p c "rollback_resume" state.
Proof.
  intros Hs. unfold authorizeRollback. rewrite (proj1 (commandScope_inv _ _ _ Hs)).
  destruct (compensated p _ _) as [before|] eqn:Hb; [|done]. destruct (_ || _) eqn:Hin; [done|].
  apply orb_false_iff in Hin as [[_ Hin%negb_false_iff]%orb_false_iff _].
  destruct (_ || _) eqn:Hphase in |- *; [done|]. apply orb_false_iff in Hphase as [? ?].
  intros [= <-]. exists before. split_and!; [by apply compensated_origin|done|by eapply inScope_claims| |by eapply compensated_operation].
  change ((1 <=? ph_Phase before) && (ph_Phase before <? 12) = true). lia.
Qed.

Lemma authorizeCancel_inv p c s slot state :
  commandScope c (argText c "target_id") = inr s -> authorizeCancel p c s slot = inr state -> continues p c "cancel" state.
Proof.
  intros Hs. unfold authorizeCancel. rewrite (proj1 (commandScope_inv _ _ _ Hs)).
  destruct (compensated p _ _) as [before|] eqn:Hb; [|done]. destruct (_ || _) eqn:Hin; [done|].
  apply orb_false_iff in Hin as [[[_ Hin%negb_false_iff]%orb_false_iff _]%orb_false_iff ?].
  intros [= <-]. exists before. split_and!; [by apply compensated_origin|done|by eapply inScope_claims| |by eapply compensated_operation].
  change ((11 <=? ph_Phase before) = true). lia.
Qed.

(** The first phase is the assignment of a slot. *)
Lemma first_phase action : action ∈ mutations -> checkpointPhaseFor zeroPhase action = 1 -> action = "slot_assign"%string.
Proof.
  intros Ha Hp.
  assert (forallb (fun a => implb (checkpointPhaseFor zeroPhase a =? 1) (bool_decide (a = "slot_assign"%string))) mutations = true) as H
    by (vm_compute; reflexivity).
  rewrite forallb_forall in H. apply list_elem_of_In, H in Ha. rewrite Hp in Ha. simpl in Ha. by apply bool_decide_eq_true in Ha.
Qed.

Lemma authorizeNext_inv p c s action slot state :
  commandScope c (argText c "target_id") = inr s -> action ∈ mutations ->
  action <> "start"%string -> action <> "continue"%string -> action <> "rollback_resume"%string -> action <> "cancel"%string ->
  authorizeNext p c s action slot = inr state -> continues p c action state.
Proof.
  intros Hs Hmut ? ? ? ?. unfold authorizeNext. destruct (commandScope_inv _ _ _ Hs) as (Hop & _ & Ho & Hw & Ht & Hacc & Hg & Hf).
  rewrite Hop. do 3 (case_match; [done|]). destruct (np_checkpointPhases p !! operationOf c) as [before|] eqn:Hb.
  - destruct (inScope s before) eqn:Hin; [|done]. cbn [negb]. case_match; [done|].
    destruct (checkpointNodeTransitionAllowed before action _) eqn:Hal; [|done]. cbn [negb]. case_match; [done|].
    intros [= <-]. exists before. split_and!; [by left|done|by eapply inScope_claims| |congruence].
    unfold legal. do 4 (rewrite bool_decide_eq_false_2 by done). exact Hal.
  - destruct (checkpointPhaseFor _ action =? 1) eqn:Hone; [|done]. intros [= <-]. apply Z.eqb_eq, first_phase in Hone; [|done]. subst.
    exists (freshPhase s slot). split_and!; [by right; split; [|left]|done|done|done|done].
Qed.

Lemma authorize_inv p c action slot state :
  authorizeCheckpointPhase p c (argText c "target_id") action slot = inr state -> action ∈ mutations ->
  continues p c action state /\ operationOf c <> ""%string.
Proof.
  unfold authorizeCheckpointPhase. destruct (commandScope c _) as [|s] eqn:Hs; [done|].
  destruct (commandScope_inv _ _ _ Hs) as (Hop & Hne & _). rewrite Hop in Hne. intros Ha Hmut. split; [|done].
  pose proof Hmut as Hquery. unfold mutations in Hquery. apply list_elem_of_filter in Hquery as [Hquery _].
  apply Is_true_true_1, negb_bool_decide_true in Hquery. rewrite !not_elem_of_cons in Hquery. destruct Hquery as (? & ? & _).
  do 2 (rewrite bool_decide_eq_false_2 in Ha by done).
  destruct (_ || _) eqn:Hbound in Ha.
  { apply orb_true_iff in Hbound. rewrite !bool_decide_eq_true in Hbound. by eapply authorizeBound_inv. }
  apply orb_false_iff in Hbound as [Hstart%bool_decide_eq_false Hcont%bool_decide_eq_false].
  case_bool_decide as Hroll; [subst; by eapply authorizeRollback_inv|]. case_bool_decide as Hcancel; [subst; by eapply authorizeCancel_inv|].
  by eapply authorizeNext_inv.
Qed.

(** ** What executing a command journals *)

(** Only the assignment of a slot reports one. *)
Lemma runAction_slot rt c action calls result :
  runAction cfg rt c action = (calls, inr result) -> action <> "slot_assign"%string -> result !! "slot_id"%string = None.
Proof.
  intros Hrun Hne. unfold runAction in Hrun. cbv zeta in Hrun.
  repeat match type of Hrun with (if ?b then _ else _) = _ => destruct b end;
    unfold runSlots, runPause, runStart, runSave, runStop, runRelease, runRestore, runReuse, runResume, runContinue, unless, answered in Hrun;
    try rewrite (bool_decide_eq_false_2 (action = "slot_assign"%string)) in Hrun by done;
    repeat case_match; simplify_eq; by simplify_map_eq.
Qed.

(** Every state is journaled under its operation and in a stage. *)
Definition journal (phases : gmap string checkpointPhaseState) : Prop :=
  forall k s, phases !! k = Some s -> ph_OperationID s = k /\ blank k = false /\ stage_of s ∈ stages /\ stage_of s <> unassigned.

(** The state that is journaled. *)
Definition committed (before : checkpointPhaseState) (c : CommandPayload) (action : string) (result : gmap string dyn) (after : checkpointPhaseState)
  : Prop :=
  stage_of after = (checkpointPhaseFor before action, action) /\ identity after = identity before /\ ph_OperationID after = ph_OperationID before
  /\ ph_SlotID after = default (ph_SlotID before) (result !! "slot_id"%string ≫= exactFenceToken).

Lemma advanced_frame s action result :
  let s' := advanced s action result in
  stage_of s' = (checkpointPhaseFor s action, action) /\ identity s' = identity s /\ ph_OperationID s' = ph_OperationID s
  /\ ph_SlotID s' = default (ph_SlotID s) (result !! "slot_id"%string ≫= exactFenceToken).
Proof. destruct s. split_and!; reflexivity. Qed.

Lemma commit_maps p s action result :
  let s' := advanced s action result in let p' := commitCheckpointPhase p s action result in
  np_checkpointPhases p' = <[ph_OperationID s' := s']> (np_checkpointPhases p)
  /\ np_checkpointSlots p' =
     let key := slotKey (ph_TargetID s') (ph_SlotID s') in
     if action ==? "release"%string then delete key (np_checkpointSlots p)
     else if 0 <=? ph_SlotID s' then <[key := ph_OperationID s']> (np_checkpointSlots p) else np_checkpointSlots p.
Proof. unfold commitCheckpointPhase. generalize (advanced s action result). intros s'. split; reflexivity. Qed.

Lemma commit_inv p before c action result :
  exists after, committed before c action result after /\
  let p' := commitCheckpointPhase p (enrichCheckpointPhaseState before c) action result in
  np_checkpointPhases p' = <[ph_OperationID before := after]> (np_checkpointPhases p)
  /\ np_checkpointSlots p' =
     let key := slotKey (ph_TargetID after) (ph_SlotID after) in
     if action ==? "release"%string then delete key (np_checkpointSlots p)
     else if 0 <=? ph_SlotID after then <[key := ph_OperationID before]> (np_checkpointSlots p) else np_checkpointSlots p.
Proof.
  destruct (enrich_frame before c) as (Hstage & Hid & Hop & Hslot). set (s := enrichCheckpointPhaseState before c) in *. clearbody s.
  destruct (commit_maps p s action result) as [Hph Hsl]. destruct (advanced_frame s action result) as (Hst' & Hid' & Hop' & Hslot').
  cbv zeta in *. rewrite Hop', Hop in Hph, Hsl. exists (advanced s action result). split; [|exact (conj Hph Hsl)].
  unfold committed. rewrite Hst', Hid', Hop', Hslot', Hid, Hop, Hslot, (phaseFor_stage before), (phaseFor_stage s), Hstage.
  by split_and!.
Qed.

(** What a command does to the journal, from the state [before] it continues. *)
Inductive effect (p : commandProcessor) (c : CommandPayload) (x : execution) : Prop :=
  | effect_none :
      np_checkpointPhases (ex_proc x) = np_checkpointPhases p -> np_checkpointSlots (ex_proc x) = np_checkpointSlots p ->
      (forall m, ex_result x = Some m -> is_Some (m !! "slot_id"%string) -> exists k r, np_results p !! k = Some r /\ cr_Result r = Some m) ->
      effect p c x
  | effect_commit action before result :
      action ∈ mutations -> origin (np_checkpointPhases p) c before -> claims c before -> ph_OperationID before = operationOf c ->
      (stage_of before, (checkpointPhaseFor before action, action)) ∈ edges ->
      (action <> "slot_assign"%string -> result !! "slot_id"%string = None) ->
      (let p' := commitCheckpointPhase p (enrichCheckpointPhaseState before c) action result in
       np_checkpointPhases (ex_proc x) = np_checkpointPhases p' /\ np_checkpointSlots (ex_proc x) = np_checkpointSlots p') ->
      (forall m, ex_result x = Some m -> text (default DNil (m !! "checkpoint_operation_id"%string)) = operationOf c) ->
      effect p c x.

Lemma report_field c action state result key :
  key ∉ map fst (observedFields cfg c action state) -> report cfg c action state result !! key = result !! key.
Proof. intros Hk. unfold report. rewrite lookup_union_r; [done|]. by apply not_elem_of_list_to_map_1. Qed.

Lemma report_slot c action state result : report cfg c action state result !! "slot_id"%string = result !! "slot_id"%string.
Proof. apply report_field. simpl. rewrite !not_elem_of_cons. split_and!; try done. apply not_elem_of_nil. Qed.

Lemma report_operation c action state result :
  report cfg c action state result !! "checkpoint_operation_id"%string = Some (DString (ph_OperationID state)).
Proof.
  unfold report. apply lookup_union_Some_l. unfold observedFields.
  do 8 (rewrite list_to_map_cons; try (rewrite lookup_insert_ne by done)). apply lookup_insert_eq.
Qed.

Lemma replay_effect p c action state : effect p c (replayPhase cfg p c action state).
Proof.
  unfold replayPhase. set (k := ("key:" +:+ _)%string).
  destruct (np_results p !! k) as [r|] eqn:Hr; simpl; [destruct (cr_Result r) as [m|] eqn:Hm|]; repeat case_match; simpl;
    constructor; try done; intros m' [= <-]; try rewrite report_slot; intros [v Hv]; simplify_map_eq; eauto.
Qed.

Lemma settle_query rt p c action state sideEffect calls result :
  action = "slot_query"%string \/ action = "state_query"%string -> result !! "slot_id"%string = None ->
  effect p c (settlePhase cfg rt p c action state sideEffect calls result).
Proof.
  intros Ha Hs. destruct Ha as [-> | ->]; unfold settlePhase; simpl; constructor; try done; intros m [= <-];
    rewrite report_slot; intros [v Hv]; by simplify_map_eq.
Qed.

Lemma settle_commit rt p c action before sideEffect calls result :
  action ∈ mutations -> origin (np_checkpointPhases p) c before -> claims c before -> ph_OperationID before = operationOf c ->
  (stage_of before, (checkpointPhaseFor before action, action)) ∈ edges ->
  (action <> "slot_assign"%string -> result !! "slot_id"%string = None) ->
  effect p c (settlePhase cfg rt p c action (enrichCheckpointPhaseState before c) sideEffect calls result).
Proof.
  intros Ha Ho Hc Hop He Hs. unfold settlePhase. rewrite (mutation_commits _ Ha). cbv zeta iota.
  set (result' := <["command_fingerprint"%string := _]> _).
  assert (action <> "slot_assign"%string -> result' !! "slot_id"%string = None) as Hs'
    by (intros Hne; unfold result'; rewrite !lookup_insert_ne by done; by apply Hs).
  destruct (commit_inv p before c action result') as (after & (_ & _ & Hop' & _) & Hph & _). cbv zeta in Hph.
  fold (operationOf c). set (p' := commitCheckpointPhase p _ action result') in *.
  assert (default zeroPhase (np_checkpointPhases p' !! operationOf c) = after) as ->
    by (rewrite Hph, Hop, lookup_insert_eq; reflexivity).
  case_match; apply (effect_commit _ _ _ action before result'); try done; cbn [ex_result].
  intros m [= <-]. rewrite report_operation. simpl. congruence.
Qed.

Lemma origin_stage phases c before : journal phases -> origin phases c before -> stage_of before ∈ stages.
Proof.
  intros Hj [Hb|[_ [Hb|(k & s & Hk & _ & ->)]]]; [by apply Hj in Hb as (_ & _ & ? & _)|rewrite Hb; by left|by apply Hj in Hk as (_ & _ & ? & _)].
Qed.

Lemma executeCheckpoint_effect rt p c :
  journal (np_checkpointPhases p) -> argText c "checkpoint_action" ∈ checkpointActions -> effect p c (executeCheckpoint cfg rt p c).
Proof.
  intros Hj Haction. unfold executeCheckpoint. destruct (checkpointPreflight cfg rt c); [by constructor|].
  set (action := argText c "checkpoint_action") in *.
  destruct (authorizeCheckpointPhase p c _ action _) as [|state] eqn:Hauth; [by constructor|].
  destruct (_ && (ph_Action state ==? action)) eqn:Hreplay; [apply replay_effect|].
  destruct (runAction cfg rt c action) as [calls [|result]] eqn:Hrun; [by constructor|].
  destruct (mutation_or_query _ Haction) as [Ha|Hq].
  2: { apply settle_query; [done|]. eapply runAction_slot; [exact Hrun|]. by destruct Hq as [-> | ->]. }
  destruct (authorize_inv _ _ _ _ _ Hauth Ha) as [(before & Ho & -> & Hc & Hl & Hn) _].
  pose proof (origin_stage _ _ _ Hj Ho) as Hst. destruct (enrich_frame before c) as (Hstage & _).
  apply settle_commit; try done.
  - destruct Ho as [Hb|[Hnone _]]; [by apply Hj in Hb as [? _]|by apply Hn].
  - rewrite phaseFor_stage. apply legal_edge; try done. apply not_true_iff_false. intros Hrep.
    pose proof (repeated_positive _ _ Hst Ha Hrep) as Hpos. apply bool_decide_eq_true in Hrep. injection Hrep as H1 H2.
    pose proof (f_equal fst Hstage) as Hs1. pose proof (f_equal snd Hstage) as Hs2. cbn [fst snd stage_of] in Hs1, Hs2.
    rewrite (phaseFor_stage (enrichCheckpointPhaseState before c)), (proj1 (enrich_frame before c)) in Hreplay.
    rewrite Hs1, Hs2, H1, H2, Z.eqb_refl, (proj2 (Z.ltb_lt _ _)), bool_decide_eq_true_2 in Hreplay by done. done.
  - intros Hne. by eapply runAction_slot.
Qed.

Lemma runCommand_effect rt b c now :
  let p := nd_proc (bg_node b) in
  journal (np_checkpointPhases p) -> argText c "checkpoint_action" ∈ checkpointActions -> effect p c (runCommand cfg rt b c now).
Proof.
  intros p Hj Ha. unfold runCommand. fold p. case_match; [by constructor|]. case_match; [constructor; simpl; try done; by case_match|].
  destruct (executeCheckpoint_effect rt p c Hj Ha); [by constructor|by eapply effect_commit].
Qed.

(** ** Slots *)

(** Who owns a slot has a phase journaled with it and did not release it. *)
Definition owned (phases : gmap string checkpointPhaseState) (slots : gmap string string) : Prop :=
  forall key operation, slots !! key = Some operation ->
  exists s, phases !! operation = Some s /\ key = slotKey (ph_TargetID s) (ph_SlotID s) /\ 0 <= ph_SlotID s /\ ph_Action s <> "release"%string.

Lemma effect_journal p c x :
  effect p c x -> journal (np_checkpointPhases p) -> blank (operationOf c) = false -> journal (np_checkpointPhases (ex_proc x)).
Proof.
  intros [-> _ _|action before result _ _ _ Hop He _ [-> _] _] Hj Hb; [done|].
  destruct (commit_inv p before c action result) as (after & (Hst & _ & Hop' & _) & -> & _). rewrite Hop.
  intros k s [[<- <-]|[_ Hk]]%lookup_insert_Some; [|by apply Hj]. rewrite Hst. split_and!; [congruence|done|by eapply edge_stage..].
Qed.

Lemma effect_dom p c x : effect p c x -> dom (np_checkpointPhases p) ⊆ dom (np_checkpointPhases (ex_proc x)).
Proof.
  intros [-> _ _|action before result _ _ _ _ _ _ [-> _] _]; [done|].
  destruct (commit_inv p before c action result) as (after & _ & -> & _). rewrite dom_insert. set_solver.
Qed.

(** An operation that owns a slot keeps it until it releases it. *)
Lemma commit_same_slot phases slots c action before result after key :
  journal phases -> owned phases slots -> origin phases c before ->
  (stage_of before, (checkpointPhaseFor before action, action)) ∈ edges ->
  (action <> "slot_assign"%string -> result !! "slot_id"%string = None) -> committed before c action result after ->
  slots !! key = Some (operationOf c) -> key = slotKey (ph_TargetID after) (ph_SlotID after) /\ 0 <= ph_SlotID after.
Proof.
  intros Hj Hown Ho He Hs (_ & Hid & _ & Hslot) Hk. destruct (Hown _ _ Hk) as (s & Hp & -> & Hpos & Hrel).
  destruct Ho as [Hb|[Hnone _]]; [|congruence]. assert (s = before) as -> by congruence. destruct (Hj _ _ Hb) as (_ & _ & _ & Hun).
  assert (action <> "slot_assign"%string) as Hne by (intros ->; by destruct (edge_assign _ _ He eq_refl)).
  rewrite (Hs Hne) in Hslot. cbn in Hslot. rewrite Hslot.
  assert (ph_TargetID after = ph_TargetID before) as -> by (by injection Hid). done.
Qed.

Lemma effect_owned p c x :
  effect p c x -> journal (np_checkpointPhases p) -> owned (np_checkpointPhases p) (np_checkpointSlots p) ->
  owned (np_checkpointPhases (ex_proc x)) (np_checkpointSlots (ex_proc x)).
Proof.
  intros [-> -> _|action before result Ha Ho _ Hop He Hs [-> ->] _] Hj Hown; [done|].
  destruct (commit_inv p before c action result) as (after & Hafter & -> & ->). rewrite Hop. cbv zeta.
  pose proof (fun key => commit_same_slot _ _ _ _ _ _ _ key Hj Hown Ho He Hs Hafter) as Hsame.
  pose proof (f_equal snd (proj1 Hafter)) as Hact. cbn in Hact.
  assert (forall key operation, np_checkpointSlots p !! key = Some operation -> operation <> operationOf c ->
    exists s, <[operationOf c := after]> (np_checkpointPhases p) !! operation = Some s
      /\ key = slotKey (ph_TargetID s) (ph_SlotID s) /\ 0 <= ph_SlotID s /\ ph_Action s <> "release"%string) as Hother
    by (intros key operation Hk Hne; rewrite lookup_insert_ne by done; by apply Hown).
  intros key operation Hk. case_bool_decide as Hrel; [|destruct (Z.leb_spec 0 (ph_SlotID after)) as [Hpos|Hneg]].
  - apply lookup_delete_Some in Hk as [Hne Hk]. apply Hother; [done|]. intros ->. by destruct (Hsame _ Hk).
  - apply lookup_insert_Some in Hk as [[<- <-]|[Hne Hk]].
    + exists after. rewrite lookup_insert_eq. split_and!; try done. congruence.
    + apply Hother; [done|]. intros ->. by destruct (Hsame _ Hk).
  - apply Hother; [done|]. intros ->. destruct (Hsame _ Hk). lia.
Qed.
End Journal.
