(* ===== verification/NodeSlots.v ===== *)
(** * Slot owners over a run of a node

    The owners a restarted node rebuilds from its file, and the invariant of a
    run: every owner has a phase journaled with its slot. *)

From S2P Require Import Prelude GoText SHA256 GoTime Domain GoJSON GoFloat GoDyn Wire NodeAgent NodeInv NodePhases.

(** ** The order of operation IDs *)

Lemma string_ltb_cons a s b t :
  String.ltb (String a s) (String b t) = (Ascii.N_of_ascii a <? Ascii.N_of_ascii b)%N || ((Ascii.N_of_ascii a =? Ascii.N_of_ascii b)%N && String.ltb s t).
Proof.
  unfold String.ltb. simpl. unfold Ascii.compare.
  destruct (N.compare_spec (Ascii.N_of_ascii a) (Ascii.N_of_ascii b)) as [E|L|G].
  - rewrite E, N.ltb_irrefl, N.eqb_refl. done.
  - by rewrite (proj2 (N.ltb_lt _ _) L).
  - rewrite (proj2 (N.ltb_ge _ _)), (proj2 (N.eqb_neq _ _)) by lia. done.
Qed.

Lemma string_ltb_trans a b c : String.ltb a b = true -> String.ltb b c = true -> String.ltb a c = true.
Proof.
  revert b c. induction a as [|x a IH]; intros [|y b] [|z c]; try done.
  rewrite !string_ltb_cons. intros H1 H2. apply orb_true_iff in H1, H2. rewrite !andb_true_iff, !N.ltb_lt, !N.eqb_eq in *.
  apply orb_true_iff. rewrite andb_true_iff, N.ltb_lt, N.eqb_eq.
  destruct H1 as [H1|[H1 H1']], H2 as [H2|[H2 H2']]; [left; lia..|right; split; [lia|]; by eapply IH].
Qed.

Lemma string_ltb_total a b : String.ltb a b = false -> a <> b -> String.ltb b a = true.
Proof.
  intros Hlt Hne. unfold String.ltb in *. rewrite String.compare_antisym.
  destruct (String.compare a b) eqn:Hc; simpl; try done. by apply String.compare_eq_iff in Hc.
Qed.

Lemma string_ltb_irrefl a : String.ltb a a = false.
Proof. induction a as [|x a IH]; [done|]. by rewrite string_ltb_cons, N.ltb_irrefl, N.eqb_refl, IH. Qed.

(** ** Rebuilding the owners *)

(** An operation that has a slot and did not release it. *)
Definition holds (latest : gmap string checkpointPhaseState) (key operation : string) : Prop :=
  exists s, latest !! operation = Some s /\ operation <> ""%string /\ key = slotKey (ph_TargetID s) (ph_SlotID s)
    /\ 0 <= ph_SlotID s /\ ph_Action s <> "release"%string /\ 0 < ph_Phase s.

(** The higher fence owns a slot; of equal fences, the lesser ID. *)
Definition precedes (latest : gmap string checkpointPhaseState) (a b : string) : Prop :=
  let fence op := ph_Fence (default zeroPhase (latest !! op)) in
  fence b < fence a \/ fence a = fence b /\ String.ltb a b = true.

Lemma precedes_trans latest a b c : precedes latest a b -> precedes latest b c -> precedes latest a c.
Proof. unfold precedes. intros [?|[? ?]] [?|[? ?]]; [left; lia..|right; split; [lia|by eapply string_ltb_trans]]. Qed.

Lemma precedes_total latest a b : a <> b -> ~ precedes latest a b -> precedes latest b a.
Proof.
  unfold precedes. intros Hne Hnot. set (fence op := ph_Fence (default zeroPhase (latest !! op))) in *.
  destruct (Z.lt_trichotomy (fence a) (fence b)) as [?|[E|?]]; [by left| |by destruct Hnot; left].
  right. split; [done|]. apply string_ltb_total; [|done]. apply not_true_iff_false. intros Hlt. destruct Hnot. by right.
Qed.

Lemma precedes_irrefl latest a : ~ precedes latest a a.
Proof. unfold precedes. rewrite string_ltb_irrefl. intros [?|[_ ?]]; [lia|done]. Qed.

Definition best (latest : gmap string checkpointPhaseState) (l : list string) (key : string) (owner : option string) : Prop :=
  match owner with
  | Some operation => operation ∈ l /\ holds latest key operation
      /\ forall other, other ∈ l -> holds latest key other -> other = operation \/ precedes latest operation other
  | None => forall other, other ∈ l -> ~ holds latest key other
  end.

Lemma elem_snoc {A} (x y : A) l : x ∈ l ++ [y] -> x ∈ l \/ x = y.
Proof. intros [?|?%list_elem_of_singleton]%elem_of_app; auto. Qed.

Section Slots.
Context {R : GoRange} (cfg : Config).

Lemma holds_key latest key operation s :
  latest !! operation = Some s -> holds latest key operation -> key = slotKey (ph_TargetID s) (ph_SlotID s).
Proof. intros Hs (s' & Hs' & _ & -> & _). congruence. Qed.

(** One more operation that does not hold the slot. *)
Lemma best_skip latest l key owner operation :
  ~ holds latest key operation -> best latest l key owner -> best latest (l ++ [operation]) key owner.
Proof.
  intros Hno. unfold best. destruct owner as [o|].
  - intros (? & ? & Hall). split_and!; [set_solver|done|]. intros other [?| ->]%elem_snoc Hh; [by apply Hall|done].
  - intros Hall other [?| ->]%elem_snoc Hh; [by eapply Hall|done].
Qed.

(** One more that does. *)
Lemma best_add latest l key owner operation :
  holds latest key operation -> best latest l key owner ->
  match owner with
  | Some prior => (prior <> operation -> precedes latest prior operation -> best latest (l ++ [operation]) key (Some prior))
      /\ (prior = operation \/ precedes latest operation prior -> best latest (l ++ [operation]) key (Some operation))
  | None => best latest (l ++ [operation]) key (Some operation)
  end.
Proof.
  intros Hop. unfold best. destruct owner as [o|].
  - intros (? & ? & Hall). split.
    + intros Hne Hp. split_and!; [set_solver|done|].
      intros other [?| ->]%elem_snoc Hh; [by apply Hall|by right].
    + intros Hor. split_and!; [set_solver|done|]. intros other [Hin| ->]%elem_snoc Hh; [|by left].
      destruct (Hall other Hin Hh) as [->|Hp]; destruct Hor as [->|Hq]; [by left|by right..|].
      right. by eapply precedes_trans.
  - intros Hall. split_and!; [set_solver|done|]. intros other [Hin| ->]%elem_snoc Hh; [by destruct (Hall other Hin)|by left].
Qed.

Lemma install_best latest l slots operation s :
  latest !! operation = Some s -> (forall key, best latest l key (slots !! key)) ->
  forall key, best latest (l ++ [operation]) key (install latest slots (operation, s) !! key).
Proof.
  intros Hs Hbest key. unfold install. destruct (_ || (ph_Phase s <=? 0)) eqn:Hskip.
  { apply best_skip; [|done]. intros (s' & Hs' & Hne & _ & Hpos & Hrel & Hph). simplify_eq.
    rewrite !orb_true_iff, !bool_decide_eq_true, Z.ltb_lt, Z.leb_le in Hskip. destruct Hskip as [[[?|?]|?]|?]; (done || lia). }
  rewrite !orb_false_iff, !bool_decide_eq_false, Z.ltb_ge, Z.leb_gt in Hskip. destruct Hskip as [[[Hne Hpos] Hrel] Hph].
  set (key' := slotKey (ph_TargetID s) (ph_SlotID s)).
  destruct (decide (key = key')) as [->|Hkey].
  - assert (holds latest key' operation) as Hholds by (exists s; split_and!; done).
    pose proof (best_add _ _ _ _ _ Hholds (Hbest key')) as Hadd. destruct (slots !! key') as [prior|] eqn:Hprior; [|by rewrite lookup_insert_eq].
    destruct Hadd as [Hkeep Hreplace].
    assert (ph_Fence s = ph_Fence (default zeroPhase (latest !! operation))) as Hfence by by rewrite Hs.
    destruct (decide (prior = operation)) as [->|Hneq].
    { rewrite bool_decide_eq_true_2 by done. cbn. rewrite lookup_insert_eq. apply Hreplace. by left. }
    rewrite bool_decide_eq_false_2 by done. cbn [negb andb]. case_match eqn:Hcmp.
    + rewrite Hprior. apply Hkeep; [done|]. unfold precedes. rewrite <- Hfence.
      apply orb_true_iff in Hcmp as [Hcmp|[Hcmp ?]%andb_true_iff]; [left; lia|right; split; [lia|done]].
    + rewrite lookup_insert_eq. apply Hreplace. right. apply precedes_total; [done|]. unfold precedes. rewrite <- Hfence.
      apply orb_false_iff in Hcmp as [? Hcmp]. intros [?|[E ?]]; [lia|]. apply andb_false_iff in Hcmp as [?|?]; [lia|congruence].
  - apply best_skip; [intros Hh%(holds_key _ _ _ _ Hs); by apply Hkey|]. specialize (Hbest key).
    destruct (slots !! key') as [prior|]; [case_match; [done|]|]; by rewrite lookup_insert_ne.
Qed.

Lemma install_all latest l :
  (forall operation s, (operation, s) ∈ l -> latest !! operation = Some s) ->
  forall key, best latest (map fst l) key (foldl (install latest) ∅ l !! key).
Proof.
  induction l as [|[operation s] l IH] using rev_ind; intros Hl key.
  { change (best latest [] key ((∅ : gmap string string) !! key)). rewrite lookup_empty. by intros other ?%elem_of_nil. }
  rewrite foldl_app, map_app. simpl. apply install_best; [apply Hl; set_solver|]. apply IH. intros ? ? ?. apply Hl. set_solver.
Qed.

(** The owners when every operation was considered. *)
Lemma best_all phases l key owner :
  (forall other, holds phases key other -> other ∈ l) -> best phases l key owner ->
  match owner with
  | Some operation => holds phases key operation /\ forall other, holds phases key other -> other = operation \/ precedes phases operation other
  | None => forall other, ~ holds phases key other
  end.
Proof.
  intros Hl. destruct owner; [intros (_ & ? & Hall); split; [done|]; auto|]. intros Hn other Hother. by apply (Hn other); [apply Hl|].
Qed.

Lemma owner_characterised phases key owner :
  match owner with
  | Some operation => holds phases key operation /\ forall other, holds phases key other -> other = operation \/ precedes phases operation other
  | None => forall other, ~ holds phases key other
  end ->
  (forall operation, owner = Some operation <->
     holds phases key operation /\ forall other, holds phases key other -> other = operation \/ precedes phases operation other)
  /\ (owner = None <-> forall other, ~ holds phases key other).
Proof.
  intros Howner. split; [intros operation; split|split].
  - by intros ->.
  - intros [Hh Hbest]. destruct owner as [o|]; [|by destruct (Howner operation)]. destruct Howner as [Ho Hobest]. f_equal.
    destruct (Hbest o Ho) as [?|Hp]; [done|]. destruct (Hobest operation Hh) as [?|Hq]; [done|].
    destruct (precedes_irrefl phases o). by apply (precedes_trans phases o operation o).
  - by intros ->.
  - intros Hnone. destruct owner as [o|]; [|done]. destruct Howner as [Ho _]. by destruct (Hnone o).
Qed.

(** The journal, and results that name a slot only for journaled operations. *)
Record sound (phases : gmap string checkpointPhaseState) (results : gmap string CommandResultPayload) : Prop := mkSound {
  so_journal : journal phases;
  so_results : forall k r, results !! k = Some r -> slot_journaled phases r;
}.

(** Such results add nothing for operations without a phase. *)
Lemma legacyPhase_journaled phases r operation s :
  journal phases -> slot_journaled phases r -> legacyPhase r = Some (operation, s) -> is_Some (phases !! operation).
Proof.
  intros Hj Hs. unfold legacyPhase. destruct (cr_Result r) as [m|] eqn:Hm; [|done]. cbn [mbind option_bind].
  destruct (_ || (legacySlot _ <? 0)) eqn:Hskip; [done|]. intros [= <- _].
  apply orb_false_iff in Hskip as [_ Hslot]. destruct (m !! "slot_id"%string) as [v|] eqn:Hv; [|by cbn in Hslot].
  destruct (Hs m Hm) as [state Hstate]; [by rewrite Hv|].
  destruct (Hj _ _ Hstate) as (_ & Hblank & _). case_bool_decide as He; [|by eexists]. by rewrite He in Hblank.
Qed.

Lemma legacyLatest_journaled p operation :
  sound (np_checkpointPhases p) (np_results p) -> is_Some (legacyLatest p !! operation) -> is_Some (np_checkpointPhases p !! operation).
Proof.
  intros [Hj Hr]. unfold legacyLatest.
  assert (forall k r, (k, r) ∈ go_range (np_results p) -> slot_journaled (np_checkpointPhases p) r) as Hall
    by (intros k r Hin; apply go_range_elem in Hin; by eapply Hr).
  revert Hall. generalize (go_range (np_results p)). intros l Hall.
  assert (forall acc : gmap string checkpointPhaseState, (forall o, is_Some (acc !! o) -> is_Some (np_checkpointPhases p !! o)) ->
    forall o, is_Some (foldl (fun acc '(_, r) => match legacyPhase r with
      | Some (operation, candidate) => match acc !! operation with
        | Some current => if ph_Phase current <? ph_Phase candidate then <[operation := candidate]> acc else acc
        | None => <[operation := candidate]> acc end
      | None => acc end) acc l !! o) -> is_Some (np_checkpointPhases p !! o)) as Hfold; [|by apply Hfold; intros o [? ?%lookup_empty_Some]].
  induction l as [|[k r] l IH]; intros acc Hacc o; [by apply Hacc|]. simpl. apply IH; [intros; eapply Hall; by right|].
  clear o. intros o. destruct (legacyPhase r) as [[operation' s]|] eqn:Hl; [|by apply Hacc].
  assert (is_Some (np_checkpointPhases p !! operation')) as Hop by (eapply legacyPhase_journaled; [done|eapply Hall; by left|done]).
  assert (is_Some (<[operation' := s]> acc !! o) -> is_Some (np_checkpointPhases p !! o)) as Hins
    by (intros [<-|[_ ?]]%lookup_insert_is_Some; [done|by apply Hacc]).
  repeat case_match; auto.
Qed.

(** The owners a restarted node has. *)
Lemma rebuild_best p :
  sound (np_checkpointPhases p) (np_results p) ->
  forall key, best (np_checkpointPhases p) (map fst (go_range (np_checkpointPhases p))) key
    (np_checkpointSlots (rebuildCheckpointSlotOwners p) !! key).
Proof.
  intros Hsound key. unfold rebuildCheckpointSlotOwners.
  assert (filter (fun kv => blank kv.1 = false /\ ph_OperationID kv.2 <> ""%string) (np_checkpointPhases p) = np_checkpointPhases p) as ->.
  { apply map_filter_id. intros k s Hk. destruct Hsound as [Hj _]. destruct (Hj _ _ Hk) as (<- & Hb & _). split; [done|]. simpl.
    intros E. by rewrite E in Hb. }
  assert (filter (fun kv => np_checkpointPhases p !! kv.1 = None) (legacyLatest p) = ∅) as ->.
  { apply map_empty. intros k. apply map_lookup_filter_None. right. intros s Hk Hnone. simpl in Hnone.
    destruct (legacyLatest_journaled p k Hsound) as [? ?]; [by eexists|congruence]. }
  assert (go_range (∅ : gmap string checkpointPhaseState) = []) as -> by (apply Permutation_nil_r; by rewrite go_range_perm, map_to_list_empty).
  simpl. apply install_all. intros operation s Hin. by apply go_range_elem in Hin.
Qed.

(** ** The invariant of a run *)

Lemma valid_command c :
  ValidateCheckpointCommandArgs c = None -> argText c "checkpoint_action" ∈ checkpointActions /\ blank (operationOf c) = false.
Proof.
  unfold ValidateCheckpointCommandArgs. case_match; [done|]. destruct (bool_decide _) eqn:Ha; [|done]. apply bool_decide_eq_true in Ha.
  cbn [negb]. destruct (range_find _ _) as [[? ?]|]; [done|]. destruct (missingText _ _) eqn:Hmissing; [done|]. case_match; [done|]. case_match; [done|].
  destruct (negb (bool_decide (argText c "checkpoint_action" = _))) eqn:Haction; [done|]. apply negb_bool_decide_false in Haction. intros _.
  split; [by rewrite Haction|]. unfold missingText in Hmissing. apply (List.find_none _ _ Hmissing "checkpoint_operation_id"%string).
  apply list_elem_of_In. set_solver.
Qed.

Lemma slot_journaled_mono phases phases' r : dom phases ⊆ dom phases' -> slot_journaled phases r -> slot_journaled phases' r.
Proof.
  intros Hdom Hs m Hm Hv. destruct (Hs m Hm Hv) as [s Hstate]. apply elem_of_dom_2 in Hstate.
  apply Hdom, elem_of_dom in Hstate as [s' ?]. by exists s'.
Qed.

Lemma effect_results p c x r :
  effect p c x -> sound (np_checkpointPhases p) (np_results p) -> cr_Result r = ex_result x -> slot_journaled (np_checkpointPhases (ex_proc x)) r.
Proof.
  intros Heff [Hj Hr] Hres m Hm Hv. rewrite Hres in Hm. destruct Heff as [Hph _ Hcached|action before result _ _ _ Hop _ _ [Hph _] Hname].
  - destruct (Hcached m Hm Hv) as (k & r' & Hk & Hr'). rewrite Hph. by apply (Hr k r' Hk m).
  - rewrite (Hname m Hm), Hph. destruct (commit_inv p before c action result) as (after & _ & -> & _). exists after.
    rewrite Hop. apply lookup_insert_eq.
Qed.

Lemma text_reread v : text (reread v) = text v.
Proof. by destruct v. Qed.

Lemma reread_journaled phases r : slot_journaled phases r -> slot_journaled phases (rereadResult r).
Proof.
  intros Hs m Hm Hv. unfold rereadResult in Hm. cbn in Hm. destruct (cr_Result r) as [m0|] eqn:Hr; [|done]. cbn in Hm.
  case_bool_decide; [done|]. injection Hm as <-. rewrite lookup_fmap, fmap_is_Some in Hv. destruct (Hs m0 Hr Hv) as [s Hstate]. exists s. rewrite lookup_fmap.
  destruct (m0 !! "checkpoint_operation_id"%string); cbn in *; by rewrite ?text_reread.
Qed.

(** A processor and its file are in order. *)
Record tidy (n : nodeState) : Prop := mkTidy {
  ti_memory : sound (np_checkpointPhases (nd_proc n)) (np_results (nd_proc n));
  ti_owned : owned (np_checkpointPhases (nd_proc n)) (np_checkpointSlots (nd_proc n));
  ti_disk : sound (sp_CheckpointPhases (nd_disk n)) (sp_Results (nd_disk n));
}.

Lemma sound_recorded phases phases' results a b r :
  sound phases results -> journal phases' -> dom phases ⊆ dom phases' -> slot_journaled phases' r ->
  sound phases' (<[a := r]> (<[b := r]> results)).
Proof.
  intros [_ Hr] Hj Hdom Hs. split; [done|]. intros k r' Hk. rewrite !lookup_insert_Some in Hk.
  destruct Hk as [[_ <-]|[_ [[_ <-]|[_ Hk]]]]; [done..|]. eapply slot_journaled_mono; [done|]. by eapply Hr.
Qed.

Lemma effect_proper p p' c x :
  np_checkpointPhases p = np_checkpointPhases p' -> np_checkpointSlots p = np_checkpointSlots p' -> np_results p = np_results p' ->
  effect p c x -> effect p' c x.
Proof.
  intros Hph Hsl Hr [H1 H2 H3|action before result Ha Ho Hc Hop He Hs [H1 H2] H3].
  - apply effect_none; [congruence..|by rewrite <- Hr].
  - apply (effect_commit _ _ _ action before result); try done; [by rewrite <- Hph|].
    destruct (commit_maps p (enrichCheckpointPhaseState before c) action result) as [E1 E2].
    destruct (commit_maps p' (enrichCheckpointPhaseState before c) action result) as [E1' E2'].
    cbv zeta in *. split; [by rewrite H1, E1, E1', Hph|by rewrite H2, E2, E2', Hsl].
Qed.

(** What an accepted command does to the journal it finds. *)
Lemma Handle_effect e n c b x :
  tidy n -> admission_of cfg (nd_proc n) c (ci_clock e) = Accept -> handled cfg e n (normalizeCommandTarget cfg c) b x ->
  effect (nd_proc n) (normalizeCommandTarget cfg c) x /\ blank (operationOf (normalizeCommandTarget cfg c)) = false.
Proof.
  intros [[Hj _] _ _] Ha [Hb Hx]. set (c' := normalizeCommandTarget cfg c) in *.
  assert (ValidateCheckpointCommandArgs c' = None) as Hvalid.
  { unfold admission_of in Ha. fold c' in Ha. case_match; [done|]. by case_match. }
  apply valid_command in Hvalid as [Haction Hblank]. split; [|done].
  destruct (beginCommand_frame cfg n c' (ci_intentSave e)) as (Hr & Hph & Hsl & _). rewrite <- Hb in Hr, Hph, Hsl.
  apply (effect_proper (nd_proc (bg_node b))); try done. subst x. apply runCommand_effect; [by rewrite Hph|done].
Qed.

Lemma begun_sound e n c : tidy n -> let d := nd_disk (bg_node (beginCommand cfg n c e)) in sound (sp_CheckpointPhases d) (sp_Results d).
Proof. intros [Hm _ Hd]. cbv zeta. by destruct (beginCommand_frame cfg n c e) as (_ & _ & _ & [->|[-> ->]]). Qed.

Lemma tidy_handle e n c : tidy n -> tidy (hd_node (Handle cfg e n c)).
Proof.
  intros Htidy. destruct (admission_of cfg (nd_proc n) c (ci_clock e)) eqn:Ha; [by unfold Handle; rewrite Ha..|].
  destruct (Handle_accepted cfg e n c Ha) as (b & x & Hh & _ & Hres & Hr & Hph & Hsl & _ & Hd). cbv zeta in *.
  destruct (Handle_effect e n c b x Htidy Ha Hh) as [Heff Hblank].
  pose proof Htidy as [Hsound Howned Hdisk]. pose proof (effect_journal _ _ _ Heff (so_journal _ _ Hsound) Hblank) as Hj.
  pose proof (effect_dom _ _ _ Heff) as Hdom. split.
  - rewrite Hph, Hr. eapply sound_recorded; try done. by eapply effect_results.
  - rewrite Hph, Hsl. eapply effect_owned; try done. by destruct Hsound.
  - destruct Hd as [->|(r & -> & Hres' & _ & -> & _)]; [destruct Hh as [-> _]; by apply begun_sound|].
    eapply sound_recorded; try done. by eapply effect_results.
Qed.

Lemma best_owned phases l slots : (forall key, best phases l key (slots !! key)) -> owned phases slots.
Proof.
  intros Hbest key operation Hk. specialize (Hbest key). rewrite Hk in Hbest. destruct Hbest as (_ & (s & ? & _ & ? & ? & ? & _) & _).
  by exists s.
Qed.

(** What [restart] rebuilds its owners from. *)
Lemma restart_slots found at_ d :
  exists p, np_checkpointSlots (restart found at_ d) = np_checkpointSlots (rebuildCheckpointSlotOwners p)
    /\ np_checkpointPhases p = sp_CheckpointPhases d /\ np_results p = rereadResult <$> sp_Results d.
Proof.
  destruct (restart_frame found at_ d) as (Hr & _ & Hph). cbv zeta in *. unfold restart in *.
  match goal with |- context [refreshReady (rebuildCheckpointSlotOwners ?q)] => exists q end. done.
Qed.

Lemma sound_reread phases results : sound phases results -> sound phases (rereadResult <$> results).
Proof. intros [Hj Hr]. split; [done|]. intros k r (r0 & <- & Hk)%lookup_fmap_Some. apply reread_journaled. by eapply Hr. Qed.

Lemma tidy_restart found at_ d : sound (sp_CheckpointPhases d) (sp_Results d) -> tidy (mkNodeState (restart found at_ d) d).
Proof.
  intros Hd. destruct (restart_frame found at_ d) as (Hr & _ & Hph). destruct (restart_slots found at_ d) as (p & Hsl & Hp & Hpr).
  split; cbn [nd_proc nd_disk]; [rewrite Hr, Hph; by apply sound_reread| |done].
  rewrite Hph, Hsl, <- Hp. eapply best_owned. apply rebuild_best. rewrite Hp, Hpr. by apply sound_reread.
Qed.

Lemma tidy_step wire s s' : node_step cfg wire s s' -> tidy s.1 -> tidy s'.1.
Proof.
  intros [e n c log Hw|k e n c log found at_ Hw|n log found at_|n log p disk [Hr _ Hph Hsl Hres] Hdisk] Htidy; cbn [fst] in *.
  - by apply tidy_handle.
  - apply tidy_restart. unfold interrupted. case_match; [by destruct Htidy..|by apply begun_sound].
  - apply tidy_restart. by destruct Htidy.
  - destruct Htidy as [Hm Ho Hd].
    assert (sound (np_checkpointPhases p) (np_results p)) as Hsound.
    { rewrite Hph. split; [by destruct Hm|]. intros k r [Hk|?]%Hres; [by eapply so_results|done]. }
    split; cbn [nd_proc nd_disk]; [done|by rewrite Hph, Hsl|by destruct Hdisk as [->| ->]].
Qed.

Lemma tidy_run wire n log : node_run cfg wire n log -> tidy n.
Proof.
  apply (run_invariant cfg (fun s => tidy s.1)); [intros s s'; apply tidy_step|].
  split; cbn; [split| |split]; intros ? ? Hk; by rewrite lookup_empty in Hk.
Qed.
End Slots.
