(* ===== verification/NodeReplay.v ===== *)
(** * Repeated commands on a node

    A mutation that succeeded has a record that validates as its replay: in
    the processor that handled it, and in one started again from the file. *)

From Stdlib Require Import SpecFloat.
From S2P Require Import Prelude GoText SHA256 GoTime Domain GoJSON GoFloat GoDyn Wire NodeAgent NodeInv NodePhases NodeSlots.

(** ** An integer converted to a float is a number *)

Lemma shr_1_nonneg mrs : 0 <= shr_m mrs -> 0 <= shr_m (shr_1 mrs).
Proof. destruct mrs as [m r s]. destruct m as [|[p|p|]|p]; simpl; lia. Qed.

Lemma iter_shr_nonneg p mrs : 0 <= shr_m mrs -> 0 <= shr_m (SpecFloat.iter_pos shr_1 p mrs).
Proof. revert mrs. induction p as [p IH|p IH|]; intros mrs Hm; simpl; auto using shr_1_nonneg. Qed.

Lemma shr_fexp_nonneg m e l : 0 <= m -> 0 <= shr_m (shr_fexp 53 1024 m e l).1.
Proof.
  intros Hm. unfold shr_fexp, shr. assert (0 <= shr_m (shr_record_of_loc m l)) by (by destruct l as [|[]]).
  case_match; simpl; auto using iter_shr_nonneg.
Qed.

Lemma binary_round_number sx m e l : 0 <= m -> binary_round_aux 53 1024 sx m e l <> S754_nan.
Proof.
  intros Hm. unfold binary_round_aux. pose proof (shr_fexp_nonneg m e l Hm) as H1. destruct (shr_fexp _ _ m e l) as [mrs e1]. simpl in H1.
  set (m1 := round_nearest_even _ _). assert (0 <= m1) as Hm1 by (unfold m1, round_nearest_even; repeat case_match; lia).
  pose proof (shr_fexp_nonneg m1 e1 loc_Exact Hm1) as H2. destruct (shr_fexp _ _ m1 e1 _) as [mrs2 e2]. simpl in H2.
  destruct (shr_m mrs2); [done| |lia]. by case_match.
Qed.

Lemma float_ratio_number b p q : float_ratio b p q <> S754_nan.
Proof.
  unfold float_ratio, SFdiv. destruct (SFdiv_core_binary _ _ _ _ _ _) as [[m e] l] eqn:Hd. apply binary_round_number.
  unfold SFdiv_core_binary in Hd. destruct (Z.div_eucl _ (Zpos q)) as [d r] eqn:Hdiv. injection Hd as <- _ _.
  match type of Hdiv with Z.div_eucl ?a ?b = _ => assert (0 <= a) as Ha by (case_match; [lia|apply Z.shiftl_nonneg; lia|lia]);
    assert (d = a / b) as -> by (unfold Z.div; by rewrite Hdiv) end.
  apply Z.div_pos; lia.
Qed.

Lemma float_of_Z_number n : float_of_Z n <> S754_nan.
Proof. destruct n; [done|apply float_ratio_number..]. Qed.

Lemma SFeqb_number f : f <> S754_nan -> SFeqb f f = true.
Proof.
  unfold SFeqb, SFcompare. destruct f as [| | |s m e]; try done; [by destruct s|].
  intros _. rewrite Z.compare_refl, Pos.compare_refl. by destruct s.
Qed.

(** ** Values without floats *)

Fixpoint plain (v : dyn) : bool :=
  match v with
  | DFloat _ | DNumber _ => false
  | DSlice l => forallb plain l
  | DMap l => bool_decide (NoDup (map fst l)) && forallb (fun kv => plain kv.2) l
  | _ => true
  end.

(** Induction over the values inside. *)
Lemma dyn_nested (P : dyn -> Prop) :
  (forall v, match v with DSlice l => Forall P l | DMap l => Forall (fun kv => P kv.2) l | _ => True end -> P v) -> forall v, P v.
Proof.
  intros Hstep. fix IH 1. intros v. apply Hstep. destruct v as [| | | | | | |l|l|]; try exact I.
  - induction l as [|x l IHl]; constructor; [apply IH|exact IHl].
  - induction l as [|[k x] l IHl]; constructor; [apply IH|exact IHl].
Qed.

Lemma assoc_elem {A} k (x : A) l : NoDup (map fst l) -> (k, x) ∈ l -> assoc k l = Some x.
Proof.
  induction l as [|[k' x'] l IH]; [by intros _ ?%elem_of_nil|]. intros [Hk Hnd]%NoDup_cons [[= <- <-]|Hin]%elem_of_cons; simpl.
  - by rewrite bool_decide_eq_true_2.
  - rewrite bool_decide_eq_false_2; [by apply IH|]. intros ->. apply Hk. apply list_elem_of_fmap. by exists (k', x).
Qed.

(** Two maps with the same entries are deeply equal when every entry is equal
    to itself. *)
Lemma deepEqual_map l : NoDup (map fst l) -> Forall (fun kv => deepEqual kv.2 kv.2 = true) l -> deepEqual (DMap l) (DMap l) = true.
Proof.
  intros Hnd Hall. simpl. rewrite Nat.eqb_refl. simpl.
  assert (forall l', (forall kv, kv ∈ l' -> kv ∈ l) -> (fix go (l0 : list (string * dyn)) : bool :=
    match l0 with [] => true | (k, x) :: l1 => match assoc k l with Some y => deepEqual x y | None => false end && go l1 end) l' = true) as H;
    [|by apply H].
  induction l' as [|[k x] l' IH]; intros Hsub; [done|]. rewrite (assoc_elem k x l Hnd) by (apply Hsub; by left).
  rewrite Forall_forall in Hall.
  assert (deepEqual x x = true) as -> by (apply (Hall (k, x)), Hsub; by left). apply IH. intros kv Hin. apply Hsub. by right.
Qed.

Lemma deepEqual_slice l : Forall (fun x => deepEqual x x = true) l -> deepEqual (DSlice l) (DSlice l) = true.
Proof. intros Hall. induction Hall as [|x l Hx _ IH]; [done|]. simpl in *. by rewrite Hx. Qed.

Lemma plain_deepEqual v : plain v = true -> deepEqual v v = true /\ deepEqual (reread v) (reread v) = true.
Proof.
  induction v as [v IH] using dyn_nested. destruct v as [|b|n|n|f|s|s|l|l|n]; intros Hp; cbn [reread].
  - done.
  - by destruct b.
  - split; [apply Z.eqb_refl|apply SFeqb_number, float_of_Z_number].
  - split; [apply Z.eqb_refl|apply SFeqb_number, float_of_Z_number].
  - done.
  - done.
  - split; by apply bool_decide_eq_true_2.
  - cbn in Hp. rewrite forallb_forall in Hp. rewrite Forall_forall in IH. split; apply deepEqual_slice; rewrite ?Forall_fmap; apply Forall_forall;
      intros x Hx; apply (IH x Hx), Hp; by apply list_elem_of_In.
  - cbn in Hp. apply andb_true_iff in Hp as [Hnd%bool_decide_eq_true Hp]. rewrite forallb_forall in Hp. rewrite Forall_forall in IH.
    assert (forall kv, kv ∈ l -> deepEqual kv.2 kv.2 = true /\ deepEqual (reread kv.2) (reread kv.2) = true) as Hkv
      by (intros kv Hin; apply (IH kv Hin), Hp; by apply list_elem_of_In).
    split; apply deepEqual_map; rewrite ?map_map, ?Forall_fmap; simpl; try done; apply Forall_forall; intros kv Hin; by apply Hkv.
  - split; [apply Z.eqb_refl|apply SFeqb_number, float_of_Z_number].
Qed.

Abbreviation plain_map := (map_Forall (fun (_ : string) v => plain v = true)) (only parsing).

Lemma slots_plain rows : plain (DSlice (map slot_json rows)) = true.
Proof. induction rows as [|row rows IH]; [done|]. simpl in *. by rewrite IH. Qed.

Section Replay.
Context {R : GoRange} (cfg : Config).

Ltac plain_entries :=
  cbn [list_to_map foldr curry app fst snd];
  repeat first [apply map_Forall_insert_2; [first [done|apply slots_plain]|]|apply map_Forall_singleton; done|apply map_Forall_empty|case_match].

Lemma runAction_plain rt c action calls result : runAction cfg rt c action = (calls, inr result) -> plain_map result.
Proof.
  intros Hrun. unfold runAction in Hrun. cbv zeta in Hrun.
  repeat match type of Hrun with (if ?b then _ else _) = _ => destruct b end;
    unfold runSlots, runPause, runStart, runSave, runStop, runRelease, runRestore, runReuse, runResume, runContinue, unless, answered in Hrun;
    repeat case_match; simplify_eq; plain_entries.
Qed.

(** A result that validates as the replay of a command. *)
Definition replayable (fingerprint : string) (m : gmap string dyn) : Prop :=
  plain_map m /\ m !! "command_fingerprint"%string = Some (DString fingerprint) /\ m !! "fingerprint"%string = Some (DString fingerprint).

Lemma observed_plain c action state : plain_map (list_to_map (observedFields cfg c action state) : gmap string dyn).
Proof. unfold observedFields. plain_entries. Qed.

Lemma settlePhase_replayable rt p c action state sideEffect calls result m :
  plain_map result -> ex_result (settlePhase cfg rt p c action state sideEffect calls result) = Some m ->
  replayable (semanticFingerprint cfg c) m.
Proof.
  intros Hp. unfold settlePhase. case_match; [done|]. cbn [ex_result]. intros [= <-]. split_and!.
  - unfold report. apply map_Forall_union_2; [apply observed_plain|]. by do 2 (apply map_Forall_insert_2; [done|]).
  - rewrite report_field; [apply lookup_insert_eq|]. simpl. rewrite !not_elem_of_cons. split_and!; try done. apply not_elem_of_nil.
  - rewrite report_field; [rewrite lookup_insert_ne by done; apply lookup_insert_eq|].
    simpl. rewrite !not_elem_of_cons. split_and!; try done. apply not_elem_of_nil.
Qed.

Lemma executeCheckpoint_replayable rt p c m :
  ex_calls (executeCheckpoint cfg rt p c) <> [] -> ex_result (executeCheckpoint cfg rt p c) = Some m ->
  replayable (semanticFingerprint cfg c) m.
Proof.
  unfold executeCheckpoint. case_match; [done|]. case_match; [done|]. case_match; [unfold replayPhase; by repeat case_match|].
  destruct (runAction cfg rt c _) as [calls [|result]] eqn:Hrun; [done|]. intros _. apply settlePhase_replayable. by eapply runAction_plain.
Qed.

Lemma runCommand_replayable rt b c now m :
  ex_calls (runCommand cfg rt b c now) <> [] -> ex_result (runCommand cfg rt b c now) = Some m -> replayable (semanticFingerprint cfg c) m.
Proof. unfold runCommand. do 2 (case_match; [done|]). apply executeCheckpoint_replayable. Qed.

Lemma semanticFingerprint_nonempty c : semanticFingerprint cfg c <> ""%string.
Proof.
  unfold semanticFingerprint, commandFingerprint, ResidencyCommandFingerprint. match goal with |- hex_encode (Sum256 ?m) <> _ => pose proof (Sum256_length m) as H end.
  destruct (Sum256 _); [done|]. simpl. done.
Qed.

(** ** The replay *)

(** The records under which a repeated command is answered. *)
Record answers (p : commandProcessor) (c : CommandPayload) (r : CommandResultPayload) : Prop := mkAnswers {
  an_id : np_results p !! cp_ID c = Some r;
  an_key : np_results p !! keyed c = Some r;
  an_fingerprint_id : np_commandFingerprints p !! identified c = Some (semanticFingerprint cfg c);
  an_fingerprint_key : np_commandFingerprints p !! cp_IdempotencyKey c = Some (semanticFingerprint cfg c);
  an_same : sameResult r r = true;
  an_ok : cr_OK r = true;
  an_result : exists m, cr_Result r = Some m /\ m !! "command_fingerprint"%string = Some (DString (semanticFingerprint cfg c))
                        /\ m !! "fingerprint"%string = Some (DString (semanticFingerprint cfg c));
}.

Definition absolutelyBlocked (p : commandProcessor) : bool :=
  np_initError p || (unsettled p && (np_stateBlockReason p !=? blockReasonWarmTransient)).

Lemma answers_replay p c r now :
  mutates c = true -> answers p c r -> absolutelyBlocked p = false -> now <= cp_ExpiresAt c -> gates cfg p c now = Replay r.
Proof.
  intros Hm [Hid Hkey Hfid Hfkey Hsame Hok (m & Hres & Hf1 & Hf2)] Hfree Hnow. unfold mutates in Hm. apply negb_true_iff in Hm.
  assert (cachedMutationReplay cfg p c = true) as Hreplay.
  { unfold cachedMutationReplay, fingerprintOf. rewrite Hm, Hid, Hkey, Hsame, Hok, Hres, Hfid, Hfkey, Hf1, Hf2. cbn.
    by rewrite bool_decide_eq_true_2. }
  unfold gates. fold (absolutelyBlocked p). rewrite Hfree, Hreplay, Hm. cbn [negb andb].
  rewrite (proj2 (Z.ltb_ge _ _) Hnow), !andb_false_r, andb_true_r, Hid. cbn [orb].
  assert (np_initError p = false) as -> by (by apply orb_false_iff in Hfree as [? _]).
  unfold fingerprintOf. rewrite Hfid. cbn [default]. rewrite bool_decide_eq_false_2 by apply semanticFingerprint_nonempty.
  by rewrite bool_decide_eq_true_2.
Qed.

Lemma sameResult_refl r m :
  cr_Result r = Some m -> plain_map m -> sameResult r r = true /\ sameResult (rereadResult r) (rereadResult r) = true.
Proof.
  intros Hm Hp. assert (plain (DMap (map_to_list m)) = true) as Hplain.
  { cbn. apply andb_true_iff. split; [apply bool_decide_eq_true_2, NoDup_fst_map_to_list|]. apply forallb_forall.
    intros [k v] Hin%list_elem_of_In%elem_of_map_to_list. by apply (Hp k). }
  apply plain_deepEqual in Hplain as [H1 H2]. unfold sameResult, rereadResult. cbn -[deepEqual]. rewrite Hm. cbn [mbind option_bind].
  destruct (bool_decide (m = ∅)); [rewrite H1, !Z.eqb_refl, !eqb_reflx, !bool_decide_eq_true_2 by done; by split|].
  rewrite map_to_list_fmap, H1, !Z.eqb_refl, !eqb_reflx, !bool_decide_eq_true_2 by done. split; [done|]. exact H2.
Qed.

(** ** A success is on disk *)

Lemma settleIntent_status b c p :
  let p' := settleIntent b c false p in
  np_commandFingerprints p' = np_commandFingerprints p /\ np_initError p' = np_initError p
  /\ (np_stateBlocked p' = true -> np_stateBlocked p = true).
Proof. unfold settleIntent. destruct (bg_intent b); [|done]. simpl. by case_match. Qed.

Lemma published_status (query : bool) p :
  let p' := if query then refreshReady p else endExternalWork (refreshReady p) in
  np_commandFingerprints p' = np_commandFingerprints p /\ np_initError p' = np_initError p /\ np_stateBlocked p' = np_stateBlocked p.
Proof. destruct query; [done|]. unfold endExternalWork. by case_match. Qed.

Lemma finishCommand_ok b x c outcome now n r :
  finishCommand cfg b x c outcome now = (n, r) -> cr_OK r = true ->
  let fingerprint := semanticFingerprint cfg c in
  np_commandFingerprints (nd_proc n) = <[cp_IdempotencyKey c := fingerprint]> (<[identified c := fingerprint]> (np_commandFingerprints (ex_proc x)))
  /\ np_initError (nd_proc n) = np_initError (ex_proc x) /\ (np_stateBlocked (nd_proc n) = true -> np_stateBlocked (ex_proc x) = true)
  /\ np_pending (nd_proc n) = delete (cp_ID c) (np_pending (ex_proc x))
  /\ sp_Results (nd_disk n) = np_results (nd_proc n) /\ sp_CommandFingerprints (nd_disk n) = np_commandFingerprints (nd_proc n)
  /\ sp_Pending (nd_disk n) = np_pending (nd_proc n).
Proof.
  unfold finishCommand. set (retain := _ && ex_sideEffect x). set (query := isReadOnlyCheckpointCommand _).
  destruct outcome; cbn [save]; intros [= <- <-] Hok; try done. cbn in Hok.
  assert (retain = false) as -> by (unfold retain; rewrite Hok; by rewrite andb_false_r).
  destruct (settleIntent_status b c (ex_proc x)) as (Hf & Hi & Hb). destruct (settleIntent_frame b c false (ex_proc x)) as (_ & _ & _ & Hp).
  cbv zeta in *. set (settled := settleIntent b c false (ex_proc x)) in *. clearbody settled. set (p1 := record cfg c _ _).
  destruct (published_status query p1) as (E1 & E2 & E3). destruct (published_frame query p1) as (E4 & _ & _ & E5). cbv zeta in *.
  cbn [nd_proc nd_disk payload_of sp_Results sp_CommandFingerprints sp_Pending]. rewrite E1, E2, E3, E4, E5. unfold p1, record. cbn.
  rewrite Hf, Hi, Hp. by split_and!.
Qed.

Lemma beginCommand_status n c outcome :
  mutates c = true -> bg_error (beginCommand cfg n c outcome) = ""%string ->
  let p := nd_proc (bg_node (beginCommand cfg n c outcome)) in
  np_initError p = np_initError (nd_proc n) /\ np_stateBlocked p = np_stateBlocked (nd_proc n).
Proof.
  unfold mutates, beginCommand. intros ->%negb_true_iff. destruct (commandIntent cfg c); [done|]. cbn. case_match; [done|].
  by destruct outcome.
Qed.

(** A mutation that reached the driver and succeeded. *)
Lemma Handle_ok e n c m :
  let h := Handle cfg e n c in let n' := hd_node h in let c' := normalizeCommandTarget cfg c in
  mutates c = true -> hd_calls h <> [] -> cr_OK (hd_reply h) = true -> cr_Result (hd_reply h) = Some m ->
  answers (nd_proc n') c' (hd_reply h) /\ absolutelyBlocked (nd_proc n') = false /\ ValidateCheckpointCommandArgs c' = None
  /\ sp_Results (nd_disk n') = np_results (nd_proc n') /\ sp_CommandFingerprints (nd_disk n') = np_commandFingerprints (nd_proc n')
  /\ sp_Pending (nd_disk n') = ∅ /\ replayable (semanticFingerprint cfg c') m.
Proof.
  intros h n' c' Hm Hcalls Hok Hres.
  destruct (admission_of cfg (nd_proc n) c (ci_clock e)) eqn:Ha; [by unfold h, Handle in Hcalls; rewrite Ha in Hcalls..|].
  pose proof (admission_accept cfg _ _ _ Ha) as (_ & _ & Hquiet). destruct (Hquiet Hm) as (Hinit & Hblocked & Hpending).
  assert (ValidateCheckpointCommandArgs c' = None) as Hvalid.
  { unfold admission_of in Ha. case_match; [done|]. by case_match. }
  assert (mutates c' = true) as Hm' by (unfold c'; by rewrite normalize_mutates).
  subst h n'. unfold Handle in *. rewrite Ha in *. fold c' in Hcalls, Hok, Hres |- *.
  destruct (acceptedRun cfg e n c') as [b x] eqn:Hx. destruct (finishCommand cfg b x c' _ _) as [n1 r] eqn:Hf. cbn in Hcalls, Hok, Hres |- *.
  pose proof (finishCommand_frame cfg _ _ _ _ _ _ _ Hf) as (Hr & _ & _ & _ & _ & Hxres).
  destruct (finishCommand_ok _ _ _ _ _ _ _ Hf Hok) as (Hfp & Hi & Hb & Hp & Hd1 & Hd2 & Hd3).
  unfold acceptedRun in Hx. injection Hx as Hb' Hx. rewrite Hb' in Hx.
  assert (bg_error b = ""%string) as Herr.
  { rewrite <- Hx in Hcalls. unfold runCommand in Hcalls. case_match eqn:He; [done|]. by apply negb_bool_decide_false in He. }
  destruct (runCommand_records cfg (ci_runtime e) b c' (ck_run (ci_clock e))) as [_ Hxp _ Hxi Hxb]. rewrite Hx in Hxp, Hxi, Hxb.
  rewrite <- Hb' in Herr. destruct (beginCommand_status _ _ _ Hm' Herr) as [Hbi Hbb].
  destruct (beginCommand_intent cfg _ _ _ Hm' Herr) as (intent & _ & _ & _ & Hbp). rewrite Hb' in Hbi, Hbb, Hbp.
  assert (np_pending (nd_proc n1) = ∅) as Hempty by (rewrite Hp, Hxp, Hbp, Hpending; apply delete_insert_id, lookup_empty).
  assert (replayable (semanticFingerprint cfg c') m) as Hreplay.
  { eapply runCommand_replayable; rewrite Hx; [done|congruence]. }
  destruct Hreplay as (Hplain & Hf1 & Hf2). rewrite Hxres in Hres.
  split_and!; [| |exact Hvalid|exact Hd1|exact Hd2|congruence|by split_and!].
  - split; try done.
    + rewrite Hr. destruct (decide (keyed c' = cp_ID c')) as [->|Hne]; [apply lookup_insert_eq|].
      rewrite lookup_insert_ne by done. apply lookup_insert_eq.
    + rewrite Hr. apply lookup_insert_eq.
    + rewrite Hfp. destruct (decide (cp_IdempotencyKey c' = identified c')) as [->|Hne]; [apply lookup_insert_eq|].
      rewrite lookup_insert_ne by done. apply lookup_insert_eq.
    + rewrite Hfp. apply lookup_insert_eq.
    + by eapply sameResult_refl; [rewrite Hxres|].
    + exists m. by rewrite Hxres.
  - unfold absolutelyBlocked, unsettled. rewrite Hi, Hxi, Hbi, Hinit, Hempty. cbn.
    destruct (np_stateBlocked (nd_proc n1)) eqn:Hnb; [|done]. specialize (Hb eq_refl). congruence.
Qed.

(** ** After a restart *)

Lemma restart_fingerprints found at_ d : np_commandFingerprints (restart found at_ d) = sp_CommandFingerprints d.
Proof.
  unfold restart. set (p0 := mkProcessor _ _ _ _ _ _ _ _ _ _ _ _ _ _). generalize (found ++ [sp_BlockReason d]). intros reasons.
  assert (forall reason p, np_commandFingerprints (block reason p) = np_commandFingerprints p) as Hblock
    by (intros; unfold block; by case_match).
  assert (forall p, np_commandFingerprints (foldl (fun p reason => block reason p) p reasons) = np_commandFingerprints p) as Hblocks.
  { induction reasons as [|reason reasons IH]; intros p; [done|]. simpl. by rewrite IH, Hblock. }
  unfold rebuildCheckpointSlotOwners. cbn. case_match; by rewrite ?Hblock, Hblocks.
Qed.

Lemma answers_restart p c r m found at_ d :
  answers p c r -> cr_Result r = Some m -> plain_map m ->
  sp_Results d = np_results p -> sp_CommandFingerprints d = np_commandFingerprints p ->
  answers (restart found at_ d) c (rereadResult r).
Proof.
  intros [Hid Hkey Hf1 Hf2 _ Hok (m' & Hm' & Hm1 & Hm2)] Hm Hp Hr Hf. rewrite Hm in Hm'. injection Hm' as <-.
  destruct (restart_frame found at_ d) as (Hres & _ & _). pose proof (restart_fingerprints found at_ d) as Hfp. cbv zeta in Hres.
  split; rewrite ?Hres, ?Hfp, ?Hf, ?Hr, ?lookup_fmap, ?Hid, ?Hkey; try done.
  - by eapply sameResult_refl.
  - exists (reread <$> m). unfold rereadResult. cbn. rewrite Hm. cbn. rewrite bool_decide_eq_false_2 by (by intros ->).
    rewrite !lookup_fmap, Hm1, Hm2. done.
Qed.

Lemma Handle_replay e n c r :
  let c' := normalizeCommandTarget cfg c in
  mutates c = true -> answers (nd_proc n) c' r -> absolutelyBlocked (nd_proc n) = false ->
  authenticateCommand cfg (nd_proc n) c (ck_auth (ci_clock e)) = None -> ValidateCheckpointCommandArgs c' = None ->
  ck_gate (ci_clock e) <= cp_ExpiresAt c -> Handle cfg e n c = mkHandling n r [].
Proof.
  intros c' Hm Ha Hb Hauth Hvalid Hnow. unfold Handle, admission_of. rewrite Hauth. fold c'. rewrite Hvalid.
  rewrite (answers_replay _ _ r); try done; [unfold c'; by rewrite normalize_mutates|].
  unfold c', normalizeCommandTarget. by case_match.
Qed.
End Replay.
