(* ===== verification/NodeProps.v ===== *)
(** * Correctness of a node's checkpoint commands

    The theorems about runs of the command processor, with a configured node
    and signed commands on which they are evaluated, and three behaviours that
    the evaluation shows. *)

From S2P Require Import Prelude GoText SHA256 GoTime Domain GoJSON GoFloat GoDyn Wire NodeAgent NodeInv NodePhases NodeSlots NodeReplay.

(** ** A node to evaluate on *)

Module Bench.

Definition noon : Time := 63113904000 * second.
Definition secret : string := "0123456789abcdef".
Definition server : LlamaCPPServerConfig := mkServer "s0" 0 0 ∅ ∅ [].
Definition config : Config := mkConfig "node-a" secret [server] (mkCheckpointConfig true 1000 100 100).

Definition integer (n : Z) : dyn := DInt n.

Definition arguments (action operation : string) (fence : Z) (more : list (string * dyn)) : gmap string dyn :=
  list_to_map (more ++
    [("target_kind", DString "llamacpp"); ("target_id", DString "node-a-s0"); ("accelerator_id", DString "node-a-gpu0"); ("model", DString "m");
     ("runtime_identity", DString "rt"); ("capability_version", DString "1"); ("capability_revision", DString "1");
     ("profile_fingerprint", DString "p"); ("context_fingerprint", DString "c"); ("owner_id", DString "owner"); ("workload_id", DString "w");
     ("checkpoint_operation_id", DString operation); ("checkpoint_action", DString action); ("generation", integer 1);
     ("fencing_token", integer fence); ("context_limit", integer 4096); ("slot_id", integer 0)]%string).

Definition order (id action operation : string) (fence : Z) (more : list (string * dyn)) : CommandPayload :=
  let c := mkCommandPayload id ("k-" +:+ id) "node-a" (checkpointPrefix +:+ action) (Some (arguments action operation fence more))
             noon (noon + 600 * second) "" in
  c <| cp_Signature := default ""%string (SignCommand c secret) |>.

Definition llama : runtime :=
  mkRuntime true true true true None None (inr []) (inr (0, 4096)) (inr ("cGFydA=="%string, 7)) None None
    (inr (mkSavedKV "ref" 100 "digest" 7)) None None (inr true) None None None None (inr 7) (inr 7) (inr "ext"%string) None None.

Definition now : clock := mkClock (noon + second) (noon + second) (noon + second) (noon + second).
Definition calm : circumstances := mkCircumstances now llama Saved Saved.

(** Commands handled one after the other. *)
Definition serve (n : nodeState) (l : list CommandPayload) : nodeState := foldl (fun n c => hd_node (Handle (R := by_key) config calm n c)) n l.

Definition assign : CommandPayload := Eval vm_compute in order "c1" "slot_assign" "op-a" 5 [].

(** The run that handles [assign]. *)
Definition only_assign (c : CommandPayload) : Prop := c = assign.
Definition handling_of (n : nodeState) (c : CommandPayload) : handling := Handle (R := by_key) config calm n c.
Definition assigned : nodeState := hd_node (handling_of first_boot assign).
Definition first_log : list reached :=
  entry_of (R := by_key) config (length (hd_calls (handling_of first_boot assign))) calm first_boot assign ++ [].

Lemma first_run : node_run (R := by_key) config only_assign assigned first_log.
Proof. unfold node_run, first_log, assigned, handling_of. apply rtc_once. exact (step_handle (R := by_key) config only_assign calm first_boot assign [] eq_refl). Qed.

Lemma first_identities : identities only_assign.
Proof. by intros c c' -> ->. Qed.

Definition assigned_phase : checkpointPhaseState :=
  Eval vm_compute in default zeroPhase (np_checkpointPhases (nd_proc assigned) !! "op-a"%string).
End Bench.

(** ** Theorems *)

(** C36: a mutation reaches the runtime driver at most once.  Over any run of
    a node, with commands sent again, failed saves, crashes while a command
    runs and restarts, no two mutations that called the driver have the same
    command ID or the same idempotency key, and each had its intent in the
    state file when it called.  While an intent waits or the state is blocked,
    a mutation calls nothing and changes nothing.  Commands are assumed not to
    use the ID of a mutation for a query. *)
Theorem runtime_called_once {R : GoRange} (cfg : Config) (wire : CommandPayload -> Prop) (n : nodeState) (log : list reached) :
  identities wire -> node_run cfg wire n log ->
  NoDup (map (fun en => cp_ID (re_command en)) log)
  /\ NoDup (map (fun en => cp_IdempotencyKey (re_command en)) log)
  /\ Forall (write_ahead cfg) log
  /\ (forall e c, np_pending (nd_proc n) <> ∅ \/ np_stateBlocked (nd_proc n) = true -> mutates c = true ->
       hd_calls (Handle cfg e n c) = [] /\ hd_node (Handle cfg e n c) = n).
Proof.
  intros Hid Hrun. destruct (once_run cfg wire n log Hid Hrun) as [_ _ Hids Hkeys Hints]. split_and!; try done.
  intros e c Hheld Hm. unfold Handle. destruct (admission_of _ _ _ _) eqn:Ha; [done..|].
  apply admission_accept in Ha as (_ & _ & Hquiet). destruct (Hquiet Hm) as (_ & Hb & Hp). destruct Hheld; congruence.
Qed.

Lemma runtime_called_once_witness :
  length Bench.first_log = 1%nat /\ NoDup (map (fun en => cp_ID (re_command en)) Bench.first_log) /\ Forall (write_ahead Bench.config) Bench.first_log.
Proof.
  assert (length Bench.first_log = 1%nat) as Hlength by (vm_compute; reflexivity). split; [exact Hlength|].
  destruct (runtime_called_once (R := by_key) Bench.config Bench.only_assign _ _ Bench.first_identities Bench.first_run) as (H & _ & Hw & _).
  exact (conj H Hw).
Defined.

(** C37: phases follow the graph.  After any run, what a command journals is
    one edge of [graph] from the state the operation had: its own, none for
    the assignment of the first slot, or the one a compensation names.  Owner,
    workload, target, accelerator, generation and fence are those of that
    state and of the command, and the slot only changes when one is assigned.
    Every other phase is left as it was. *)
Theorem phases_follow_graph {R : GoRange} (cfg : Config) (wire : CommandPayload -> Prop) (n : nodeState) (log : list reached)
    (e : circumstances) (c : CommandPayload) (operation : string) (after : checkpointPhaseState) :
  node_run cfg wire n log ->
  let c' := normalizeCommandTarget cfg c in
  np_checkpointPhases (nd_proc (hd_node (Handle cfg e n c))) !! operation = Some after ->
  np_checkpointPhases (nd_proc n) !! operation = Some after
  \/ operation = operationOf c'
     /\ exists before, origin (np_checkpointPhases (nd_proc n)) c' before /\ (stage_of before, stage_of after) ∈ edges
        /\ identity after = identity before /\ claims c' after
        /\ (ph_SlotID after = ph_SlotID before \/ ph_Action after = "slot_assign"%string).
Proof.
  intros Hrun c' Hafter. apply tidy_run in Hrun.
  destruct (admission_of cfg (nd_proc n) c (ci_clock e)) eqn:Ha; [left; by unfold Handle in Hafter; rewrite Ha in Hafter..|].
  destruct (Handle_accepted cfg e n c Ha) as (b & x & Hh & _ & _ & _ & Hph & _). cbv zeta in Hph.
  destruct (Handle_effect cfg e n c b x Hrun Ha Hh) as [Heff _]. fold c' in Heff. rewrite Hph in Hafter.
  destruct Heff as [E _ _|action before result _ Ho Hc Hop He Hs [E _] _]; rewrite E in Hafter; [by left|].
  destruct (commit_inv (nd_proc n) before c' action result) as (s & (Hst & Hid & _ & Hslot) & Hphases & _). cbv zeta in Hphases.
  rewrite Hphases, Hop in Hafter. apply lookup_insert_Some in Hafter as [[<- <-]|[_ Hold]]; [right|by left].
  split; [done|]. exists before. rewrite Hst, Hid. split_and!; try done.
  - unfold claims in *. unfold identity in Hid. injection Hid as -> -> -> -> -> ->. done.
  - pose proof (f_equal snd Hst) as Hact. cbn in Hact. destruct (decide (action = "slot_assign"%string)) as [->|Hne]; [by right|left].
    by rewrite Hslot, (Hs Hne).
Qed.

Lemma phases_follow_graph_witness :
  exists before, (stage_of before, stage_of Bench.assigned_phase) ∈ edges /\ claims Bench.assign Bench.assigned_phase.
Proof.
  assert (node_run (R := by_key) Bench.config Bench.only_assign first_boot []) as Hrun by (unfold node_run; apply rtc_refl).
  assert (np_checkpointPhases (nd_proc (hd_node (Handle (R := by_key) Bench.config Bench.calm first_boot Bench.assign))) !! "op-a"%string
    = Some Bench.assigned_phase) as Hafter by (vm_compute; reflexivity).
  destruct (phases_follow_graph (R := by_key) Bench.config Bench.only_assign first_boot [] Bench.calm Bench.assign "op-a"
    Bench.assigned_phase Hrun Hafter) as [Hold|(_ & before & _ & He & _ & Hc & _)]; [vm_compute in Hold; discriminate|].
  exists before. split; [exact He|].
  assert (normalizeCommandTarget Bench.config Bench.assign = Bench.assign) as E by (vm_compute; reflexivity). rewrite E in Hc. exact Hc.
Defined.

(** C38: slots are owned by operations that have them.  After any run, also
    right after a restart, the owner of a slot is an operation whose journaled
    phase has that slot and is not a release, and no operation owns two
    slots. *)
Theorem slot_owner_journaled {R : GoRange} (cfg : Config) (wire : CommandPayload -> Prop) (n : nodeState) (log : list reached)
    (key operation : string) :
  node_run cfg wire n log -> np_checkpointSlots (nd_proc n) !! key = Some operation ->
  (exists s, np_checkpointPhases (nd_proc n) !! operation = Some s /\ key = slotKey (ph_TargetID s) (ph_SlotID s)
     /\ 0 <= ph_SlotID s /\ ph_Action s <> "release"%string /\ stage_of s ∈ stages)
  /\ forall key', np_checkpointSlots (nd_proc n) !! key' = Some operation -> key' = key.
Proof.
  intros [[Hj _] Hown _]%tidy_run Hk. destruct (Hown _ _ Hk) as (s & Hs & -> & Hpos & Hrel). split.
  - exists s. destruct (Hj _ _ Hs) as (_ & _ & ? & _). by split_and!.
  - intros key' Hk'. destruct (Hown _ _ Hk') as (s' & Hs' & -> & _). congruence.
Qed.

Lemma slot_owner_journaled_witness :
  exists s, np_checkpointPhases (nd_proc Bench.assigned) !! "op-a"%string = Some s /\ "node-a-s0:0"%string = slotKey (ph_TargetID s) (ph_SlotID s).
Proof.
  assert (np_checkpointSlots (nd_proc Bench.assigned) !! "node-a-s0:0"%string = Some "op-a"%string) as Hk by (vm_compute; reflexivity).
  destruct (slot_owner_journaled (R := by_key) Bench.config Bench.only_assign Bench.assigned Bench.first_log "node-a-s0:0" "op-a"
    Bench.first_run Hk) as [(s & Hs & Hkey & _) _].
  exists s. exact (conj Hs Hkey).
Defined.

(** C39: a restart rebuilds one owner per slot, whatever the order in which
    it reads its journal.  The owner of a slot is the operation that holds it
    in the file with the highest fence, and of those with the least ID; a slot
    no operation holds has none. *)
Theorem rebuilt_owner {R : GoRange} (cfg : Config) (wire : CommandPayload -> Prop) (n : nodeState) (log : list reached)
    (found : list string) (committedAt : Time) (key : string) :
  node_run cfg wire n log ->
  let phases := sp_CheckpointPhases (nd_disk n) in
  let owner := np_checkpointSlots (restart found committedAt (nd_disk n)) !! key in
  (forall operation, owner = Some operation <->
     holds phases key operation /\ forall other, holds phases key other -> other = operation \/ precedes phases operation other)
  /\ (owner = None <-> forall other, ~ holds phases key other).
Proof.
  intros [_ _ Hd]%tidy_run. cbv zeta. destruct (restart_slots found committedAt (nd_disk n)) as (p & -> & Hp & Hr).
  rewrite <- Hp. assert (sound (np_checkpointPhases p) (np_results p)) as Hsound by (rewrite Hp, Hr; by apply sound_reread).
  apply owner_characterised. eapply best_all; [|exact (rebuild_best p Hsound key)]. intros other (s & Hs & _). apply list_elem_of_fmap. exists (other, s). split; [done|]. by apply go_range_elem.
Qed.

Lemma rebuilt_owner_witness :
  np_checkpointSlots (restart (R := by_key) [] 0 (nd_disk Bench.assigned)) !! "node-a-s0:0"%string = Some "op-a"%string
  /\ holds (sp_CheckpointPhases (nd_disk Bench.assigned)) "node-a-s0:0" "op-a".
Proof.
  assert (np_checkpointSlots (restart (R := by_key) [] 0 (nd_disk Bench.assigned)) !! "node-a-s0:0"%string = Some "op-a"%string) as Hk
    by (vm_compute; reflexivity).
  destruct (rebuilt_owner (R := by_key) Bench.config Bench.only_assign Bench.assigned Bench.first_log [] 0 "node-a-s0:0" Bench.first_run)
    as [Howner _].
  split; [exact Hk|]. exact (proj1 (proj1 (Howner "op-a"%string) Hk)).
Defined.

(** C40: a success is durable and a repeated command is answered from it.
    When a mutation reached the driver and its reply is a success with a
    result, the same command sent again before it expires gets that reply,
    calls nothing and changes nothing; so it does on a processor started again
    from the file, unless something it found at the start blocks it, with the
    result as it was read back. *)
Theorem repeat_answered {R : GoRange} (cfg : Config) (e e' : circumstances) (n : nodeState) (c : CommandPayload)
    (found : list string) (committedAt : Time) :
  let h := Handle cfg e n c in
  let restarted := mkNodeState (restart found committedAt (nd_disk (hd_node h))) (nd_disk (hd_node h)) in
  mutates c = true -> hd_calls h <> [] -> cr_OK (hd_reply h) = true -> is_Some (cr_Result (hd_reply h)) ->
  ck_gate (ci_clock e') <= cp_ExpiresAt c ->
  (authenticateCommand cfg (nd_proc (hd_node h)) c (ck_auth (ci_clock e')) = None ->
   Handle cfg e' (hd_node h) c = mkHandling (hd_node h) (hd_reply h) [])
  /\ (authenticateCommand cfg (nd_proc restarted) c (ck_auth (ci_clock e')) = None -> absolutelyBlocked (nd_proc restarted) = false ->
      Handle cfg e' restarted c = mkHandling restarted (rereadResult (hd_reply h)) []).
Proof.
  intros h restarted Hm Hcalls Hok [m Hres] Hnow.
  destruct (Handle_ok cfg e n c m Hm Hcalls Hok Hres) as (Ha & Hb & Hvalid & Hr & Hf & _ & (Hplain & _ & _)). split.
  - intros Hauth. by apply Handle_replay.
  - intros Hauth Hfree. apply Handle_replay; try done. by eapply answers_restart.
Qed.

Lemma repeat_answered_witness :
  let h := Bench.handling_of first_boot Bench.assign in
  Handle (R := by_key) Bench.config Bench.calm (hd_node h) Bench.assign = mkHandling (hd_node h) (hd_reply h) [].
Proof.
  set (h := Bench.handling_of first_boot Bench.assign). cbv zeta.
  assert (mutates Bench.assign = true) as Hm by (vm_compute; reflexivity).
  assert (hd_calls h <> []) as Hcalls by (vm_compute; discriminate).
  assert (cr_OK (hd_reply h) = true) as Hok by (vm_compute; reflexivity).
  assert (is_Some (cr_Result (hd_reply h))) as Hres by (refine (bool_decide_eq_true_1 _ _); vm_compute; reflexivity).
  assert (ck_gate (ci_clock Bench.calm) <= cp_ExpiresAt Bench.assign) as Hnow by (vm_compute; discriminate).
  assert (authenticateCommand Bench.config (nd_proc (hd_node h)) Bench.assign (ck_auth (ci_clock Bench.calm)) = None) as Hauth
    by (vm_compute; reflexivity).
  exact (proj1 (repeat_answered (R := by_key) Bench.config Bench.calm Bench.calm first_boot Bench.assign [] 0 Hm Hcalls Hok Hres Hnow) Hauth).
Defined.

(** ** What the evaluation shows *)

Lemma argText_present c key : blank (argText c key) = false -> exists args v, cp_Args c = Some args /\ args !! key = Some v.
Proof.
  unfold argText, arg. destruct (cp_Args c) as [args|]; cbn [mbind option_bind]; [|discriminate].
  destruct (args !! key) as [v|] eqn:Hv; cbn [default]; [|discriminate]. intros _. by exists args, v.
Qed.

(** The manifest of a checkpoint intent never validates: its arguments have
    names the validation does not know, so an intent that was kept stays. *)
Theorem checkpoint_intent_waits {R : GoRange} (cfg : Config) (c : CommandPayload) (intent : pendingCommand) :
  ValidateCheckpointCommandArgs c = None -> commandIntent cfg c = inr intent -> validatePendingManifest cfg intent <> None.
Proof.
  intros [_ Hop]%valid_command Hi. unfold commandIntent in Hi. destruct (routerTarget _ _) as [server|]; [|done].
  destruct (positiveToken _) as [token|]; [|done]. set (normalized := <["resource"%string := _]> _) in Hi.
  destruct (pendingManifestFor _ _ _ _ _ _) as [manifest|] eqn:Hmanifest; [|done]. injection Hi as <-.
  assert (mf_Args manifest = normalized) as Hargs.
  { unfold pendingManifestFor in Hmanifest. destruct (args_json (Some normalized)); [|done]. by injection Hmanifest as <-. }
  assert (exists v, normalized !! "checkpoint_operation_id"%string = Some v) as [v Hv].
  { destruct (argText_present _ _ Hop) as (args & v & Hc & Hv). exists v. unfold normalized. rewrite !lookup_insert_ne by done. by rewrite Hc. }
  unfold validatePendingManifest. cbn [pe_Manifest]. rewrite Hargs.
  assert (existsb (fun kv => negb (bool_decide (kv.1 ∈ manifestArgs))) (map_to_list normalized) = true) as ->; [|by repeat case_match].
  apply existsb_exists. exists ("checkpoint_operation_id"%string, v). split; [by apply list_elem_of_In, elem_of_map_to_list|].
  vm_compute. reflexivity.
Qed.

(** What an operation's journal and the slot are, and what handling a command
    called. *)
Definition journal_entry (n : nodeState) (operation : string) : stage := stage_of (default zeroPhase (np_checkpointPhases (nd_proc n) !! operation)).
Definition slot_owner (n : nodeState) : option string := np_checkpointSlots (nd_proc n) !! "node-a-s0:0"%string.

(** An operation that released its slot for good is cancelled: the slot is
    paused and the operation owns it again. *)
Example cancel_after_release :
  let cancel := Bench.order "c4" "cancel" "op-a" 5 [("compensation_of"%string, DString "op-a"); ("conversation_id"%string, DString "chat")] in
  let n := Bench.serve first_boot [Bench.assign; Bench.order "c2" "reload" "op-a" 5 []; Bench.order "c3" "release" "op-a" 5 []] in
  let h := Bench.handling_of n cancel in
  (journal_entry n "op-a", slot_owner n, cr_OK (hd_reply h), hd_calls h, journal_entry (hd_node h) "op-a", slot_owner (hd_node h))
  = ((15, "release"%string), None, true, [PauseAtBoundary 0], (14, "cancel"%string), Some "op-a"%string).
Proof. vm_compute. reflexivity. Qed.

(** An operation that released its slot is rolled back: it resumes on the slot
    and takes it from the operation that was assigned it since. *)
Example rollback_takes_slot :
  let rollback := Bench.order "c4" "rollback_resume" "op-a" 5
                    [("compensation_of"%string, DString "op-a"); ("partial_output_offset"%string, Bench.integer 0)] in
  let n := Bench.serve first_boot [Bench.assign; Bench.order "c2" "release" "op-a" 5 []; Bench.order "c3" "slot_assign" "op-b" 6 []] in
  let h := Bench.handling_of n rollback in
  (journal_entry n "op-a", slot_owner n, cr_OK (hd_reply h), hd_calls h, journal_entry (hd_node h) "op-b", slot_owner (hd_node h))
  = ((6, "release"%string), Some "op-b"%string, true, [Resume 0], (1, "slot_assign"%string), Some "op-a"%string).
Proof. vm_compute. reflexivity. Qed.
